(* ===== verification/_CoqProject ===== *)
-Q . S2P
Prelude.v
StdMap.v
Numeric.v
Bytes.v
OwmrMap.v
Common.v
Dto.v
Files.v
Engine.v
Wire.v
RaftStore.v
ReplicaGroup.v
Config.v
Http.v
PsMeta.v
PsRpc.v
PsService.v
GroupStart.v
RaftClient.v
Partition.v
LocalSpaces.v
EtcdMsg.v
EtcdClient.v
Handles.v
SpaceManager.v
RouterRpc.v
RouterService.v
RouterCluster.v
DynResource.v
Mains.v
GoStd.v
Log.v
GoJson.v
MasterCommon.v
MasterConfig.v
MasterEntity.v
MasterCheck.v
Concurrent.v
MasterStore.v
MasterApi.v
Placement.v
MasterSafety.v
MasterCluster.v
MasterProcess.v
SpaceContract.v
GroupContract.v
Deployment.v
