(* ===== verification/Prelude.v ===== *)
(** * SimSearch: a verification of the vector search service

    SimSearch keeps documents with vectors in _spaces_.  A space is divided into
    partitions, a partition has replicas, and the replicas of a partition are a
    raft group.  Three kinds of processes make up a cluster:

    - the _master_ (src/master, Go) creates and deletes spaces, chooses the nodes
      of their partitions and keeps the spaces in etcd;
    - a _partition server_ (src/service/ps, src/raft_store, src/engine, C++)
      holds one replica: it writes through raft and reads from its engine;
    - a _router_ (src/service/router, C++) takes the requests of users, finds
      the partition of each document by a hash of its id and calls the
      partition servers.

    Users send a new space to a master, which calls the partition servers, stores
    the space in etcd and tells the routers; documents go through a router.

    ** Conventions

    Definitions keep the names of the sources; where two classes have a method
    of the same name the class is a prefix ([PsRpcClient_Get]).  Integers are
    [Z] with the wrap-around of their width written out ([int32], [int64],
    [uint64] of Numeric).  A result [None] is undefined behaviour in C++ (an
    access outside of a container, a null pointer, a division by zero) or a
    panic in Go.  A non-empty message is an error, as in the sources: [failed]
    and the notation [if!].  State is passed explicitly; the master's functions
    are in the state and panic monad [M] of MasterStore.  Libraries are classes
    of operations on a state of their own (networks, [GammaDoc],
    [GammaEngine], [GammaKeys], [JsonCodec], [SpaceJson], [Toml], [MasterEnv],
    [EtcdLibrary]), with what the code relies on in classes of laws next to them
    ([GammaDocLaws], [GammaEngineLaws], [JsonCodecLaws], [SpaceJsonLaws],
    [CreateRequestJsonLaws], [DeleteRequestJsonLaws], [FileUtilLaws],
    [EtcdServer], [EtcdLaws]).  [ClusterNetLaws] says the same of the network in
    front of the raft groups and [PsClusterLaws] of the calls from the master to
    the partition servers.  For each such class there is a
    concrete instance, on which the theorems are applied.

    ** Files

    The basis:
    - Prelude: tactics, the hint database [simsearch], generic lemmas;
    - StdMap: [std::map] as a sorted list; Bytes: the representation of integers;
    - GoStd, GoJson: the parts of the Go library that the master uses,
      [encoding/json] with its printer and parser among them.

    Shared code (src/common, src/utils, src/config, src/clients):
    - Numeric (numeric_util.cc), OwmrMap (one_writer_multi_reader_map.cc),
      Common (common.cc, common_type.cc and the messages of
      src/idl/rpc_service_idl), Dto (dto.cc), Files (POSIX files and
      file_tool.cc), Config (toml_conf.cc, conf.cc, net.cc), Http (brpc_http.h),
      Wire (the encodings and the interface of the gamma engine), EtcdMsg
      (src/idl/etcd_idl), EtcdClient (etcd_client.cc), Handles ([ReadBody] of
      etcd_client.cc and [SharedFD] of raft_store.h), DynResource
      (dynamic_resource.h).

    The partition server:
    - Engine (engine.cc): state [Engine], operations [CreatOrLoad], [BatchAdd],
      [Get], [Mget], [Snapshot], [Delete];
    - RaftStore (raft_store.cc, raft_rpc.cc): state [Block], operations
      [Block_write], [Block_read], [on_apply], the snapshots and the changes of
      leadership;
    - ReplicaGroup: the nodes of one raft group as a step relation
      ([group_step]: proposals, commits, applications, elections, snapshots,
      restarts) around the operations of RaftStore, with braft as the rules by
      which the log grows and is handed to the nodes;
    - PsMeta (local_mata.cc, local_storager.cc), PsRpc (ps_rpc.cc) and PsService
      (ps_rpc.h, raft_rpc.h), where the handlers of both services and the events
      of raft are one server with histories ([ps_run]);
    - GroupStart: the servers that answered the creation of a space as the start
      of a group of ReplicaGroup.

    The router:
    - RaftClient (raft_client.cc), Partition (partition_connection.cc,
      space_connection.cc, ps_rpc_client.cc), LocalSpaces (local_spaces.cc),
      SpaceManager (space_manager.cc), RouterRpc (router_rpc.cc) and
      RouterService (router_rpc.h), where the handlers are one server;
    - RouterCluster: the router in front of raft groups.

    Mains has the start of both processes (ps_main.cc, router_main.cc,
    ps_register.cc, router_register.cc and the two servers), Log the settings
    of their logging (log.cc).

    The master:
    - MasterCommon (common.go and the constants of config.go), MasterConfig
      (master_config.go, config.go), MasterEntity (space.go, replica.go,
      vector_index.go and the messages of dto.go), MasterCheck ([CheckApiSpace]
      and [ApiSpaceToInnerSpace] of dto.go), Concurrent (concurrent.go),
      MasterStore (etcd_client.go, distributed_lock.go, request_util.go,
      timeutil.go), MasterApi (space_api.go, cluster_api.go);
    - Placement, MasterSafety, MasterCluster: what follows for the cluster;
    - MasterProcess (main.go, etcd_service.go, watch_job.go, store_client.go and
      the rest of etcd_client.go): the start of the process;
    - SpaceContract: how a router reads what the master stored; GroupContract:
      how the partition servers read what the master sends; Deployment: the
      master with the servers it calls as one system.

    ** What the theorems show

    The engine refines a map from keys to values: for every schedule of outcomes
    of the system calls [BatchAdd] adds a prefix of its batch and reports success
    exactly when that is all of it ([BatchAdd_refines]), and [Get] returns the
    value of the map, with zeros for what a failed read left out
    ([Get_refines]); when the calls and copies succeed, a restart or a restored
    snapshot gives the same map ([restart_same], [snapshot_restore]); a record
    that was written in part makes later documents unreadable
    ([torn_record_loses_document]).

    Replication: replicas that apply the same committed entries have the same
    documents ([replicas_agree]), [on_apply] stores the documents of its entries
    in order up to the first that the engine refuses ([on_apply_commits]), and a
    document written through a leader is the one that a leader reads by the texts
    that the engine takes for its id, while other reads do not change
    ([written_document_is_read]).  The sources store a long id as eight bytes and
    read with the text of the request, so what a text stands for is left to the
    engine ([key_id] of Wire); with one that compares bytes no document is found
    ([raw_keys_hide_document]).  Over every run of a group whose space has long
    ids, with elections, snapshots and restarts, a document whose write was
    answered with success is in the log and is read, in its latest version, by
    every leader that has applied it ([acknowledged_document_is_read]), if all
    committed documents can be stored and no documents are lost by snapshots:
    these do not contain any, and a restart of an engine that has not flushed or
    a snapshot that is sent to another node loses acknowledged documents
    ([unflushed_restart_loses_document], [installed_snapshot_loses_document]).
    An entry that is no document stops the group
    ([unparsable_entry_blocks_group]).  The raft client always has a usable
    connection or builds one ([raft_client_write]).

    The partition server: over every history of calls and events of raft it is
    free, holds one space or is stuck after a creation that failed, and answers
    accordingly ([ps_server_refines]); which calls bring it to undefined
    behaviour is [ps_serve_fails_iff]; a server that acknowledged a space rejoins
    its group after a restart if braft starts its node again, and otherwise
    refuses reads and writes ([restarted_server_rejoins]), and the servers that
    acknowledged a space keep the documents they acknowledge from then on, under
    the conditions of [acknowledged_document_is_read]
    ([created_group_keeps_documents]).

    The router: the table of spaces refines a map ([AddSpace_refines],
    [DeleteSpace_refines]) over the interface that the hash table implements
    ([owmr_refines_spec], with the limit [owmr_one_live_key_per_bucket]); every
    id of a read is answered exactly once, with a document or an error
    ([GetDocs_accounts_for_keys], [RouterRpc_Get_accounts]); a document is
    reported as written only if a replica acknowledged it
    ([UpsertDocs_acknowledged]); no history of calls brings the router to
    undefined behaviour, and every call is answered, if the added spaces are
    complete ([router_serves_every_history]).  In front of raft groups, what the
    router reports as written is committed in the group of its partition
    ([router_writes_are_committed]), while no read finds a document, because the
    servers do not implement it ([router_reads_no_document]).

    etcd: with an etcd that answers, and if nobody else changes the key of a node
    while its lease is alive, each round of the keep-alive thread ends with the
    node registered, also after the lease has expired
    ([keep_alive_registered]); a call tries each server once
    ([EtcdOp_tries_each_once]); the keys that one process writes are read back
    by the other ([register_keys_agree]).

    The master: over every history of creations and deletions that run one at a
    time under the lock, with scans of etcd that succeed, no partition server is
    in two spaces ([no_node_shared]) and the stored spaces are well
    formed ([stored_spaces_well_formed]); a creation in a working cluster with
    enough idle nodes succeeds ([createSpace_succeeds]); after a deadly error
    whose mark could be written everything is refused until the mark is removed
    ([failed_creation_blocks]); deleting removes one space only
    ([deleteSpace_removes]); the check accepts exactly the spaces of its
    specification ([CheckApiSpace_exact]); the pool of workers terminates in
    every interleaving with every task called once
    ([ParallelExecuteWithResults_correct]); ids increase
    ([generated_ids_increase]).  The text of a stored space is read by a router
    as the message with the same contents ([stored_space_is_decoded]), and a
    router that starts after any history of the master with spaces in etcd opens
    stored spaces only, all of them if its index takes their keys, and then
    serves every history of calls ([router_opens_stored_spaces]).  The servers that the master calls for
    a partition start nodes of one raft group with one configuration
    ([raft_group_agrees]).  Over every history of the master, with the servers
    running histories of their own, every replica of every stored space is a
    server that holds the space and runs its node ([stored_spaces_run]), and a
    successful deletion frees the servers of its space and reaches no other
    ([deleted_space_frees]); the first needs that an etcd write which reports an
    error took no effect ([late_write_leaves_space_without_servers]).  The
    process of the master starts etcd on an address that its client connects to
    and serves until its watch ends, also when etcd was not ready and has been
    stopped ([master_serves]).

    Some theorems describe behaviour that is hardly intended, among them
    [accepted_spaces_store_nothing], [failed_call_lookup],
    [initial_cluster_exact], [string_ids_never_acknowledged],
    [RouterRpc_Upsert_one_partition], [failed_scan_shares_node],
    [register_stores_nothing], [watch_reader_outlived] and
    [space_without_partitions_crashes].

    ** Bounds and fuel

    Loops over a container are structural recursions on it.  Loops that run
    until a condition holds (the keep-alive thread, the registration of a
    partition server, [SharedFD]'s destructor) take the number of rounds as an
    argument and the theorems hold for every number; the retry loops of the
    sources have a fixed number of attempts, which is the argument.  The parser
    of JSON recurses on a fuel of the length of its text plus one, which every
    call makes smaller by at least one character; that printed text is parsed
    back ([parse_print]) shows that it is enough.  Termination of the pool of
    workers is proved for its step relation by a measure.

    ** Not modelled

    - The master's logging (src/master/utils/log, src/master/utils/slog) and the
      bundled easylogging++: no result of the modelled code depends on them.
    - The rest of src/idl/etcd_idl: messages that no code of the repository uses.
    - The tests and src/example/etcdctl.cc, which does not fit the present
      [EtcdClient].
    - [Block::link_overwrite], which nothing calls, [Block::shutdown] and
      [Block::join], which pass on to braft, the callbacks of braft that only
      log, and the accessors of the singletons.
    - The raft protocol itself: ReplicaGroup takes from braft that committed
      entries form one log, that each node applies it in order, and that a
      restarted node applies again what its snapshot does not cover.
    - Handlers of the master that run at the same time: a creation without the
      lock is refused, but [deleteSpace] goes on without it, and the theorems on
      histories cover the deletions that got the lock.
    - The data race of readers with the writer in the structures with two
      buffers: operations are atomic steps here.  gamma, brpc, braft, protobuf,
      json2pb, toml11, gin and the etcd library are parameters. *)
From stdpp Require Export base gmap strings list numbers pretty fin_maps.
From Stdlib Require Export ZArith Lia.
From Stdlib Require Import Ascii.

(** ** Automation shared by the development *)

Create HintDb simsearch.

(** Split the first [match] or [if] of the goal, keeping its equation. *)
Ltac case_split :=
  match goal with
  | |- context [match ?x with _ => _ end] =>
      lazymatch x with
      | context [match _ with _ => _ end] => fail
      | _ => destruct x eqn:?
      end
  end.

Ltac case_split_in H :=
  match type of H with
  | context [match ?x with _ => _ end] =>
      lazymatch x with
      | context [match _ with _ => _ end] => fail
      | _ => destruct x eqn:?
      end
  end.

Ltac crush :=
  repeat (case_split || simplify_eq/=); try done; eauto with simsearch.

(** ** Machine integers

    A [w]-bit C++ integer is a [Z] in its range.  [wrapU] and [wrapS] are the
    conversions to an unsigned and to a (two's complement) signed type. *)

Definition wrapU (w z : Z) : Z := z `mod` 2 ^ w.
Definition wrapS (w z : Z) : Z := (z + 2 ^ (w - 1)) `mod` 2 ^ w - 2 ^ (w - 1).

Definition int8 : Z → Z := wrapS 8.
Definition int16 : Z → Z := wrapS 16.
Definition int32 : Z → Z := wrapS 32.
Definition int64 : Z → Z := wrapS 64.
Definition uint32 : Z → Z := wrapU 32.
Definition uint64 : Z → Z := wrapU 64.

Definition in_int16 (z : Z) : Prop := (-32768 ≤ z < 32768)%Z.
Definition in_int32 (z : Z) : Prop := (-2147483648 ≤ z < 2147483648)%Z.
Definition in_int64 (z : Z) : Prop :=
  (-9223372036854775808 ≤ z < 9223372036854775808)%Z.

Lemma wrapS_id w z :
  (0 < w)%Z → (- 2 ^ (w - 1) ≤ z < 2 ^ (w - 1))%Z → wrapS w z = z.
Proof.
  intros Hw Hz. unfold wrapS.
  assert (2 ^ w = 2 * 2 ^ (w - 1))%Z as E.
  { rewrite <-Z.pow_succ_r by lia. f_equal; lia. }
  rewrite Z.mod_small by lia. lia.
Qed.

Lemma wrapS_range w z :
  (0 < w)%Z → (- 2 ^ (w - 1) ≤ wrapS w z < 2 ^ (w - 1))%Z.
Proof.
  intros Hw. unfold wrapS.
  assert (2 ^ w = 2 * 2 ^ (w - 1))%Z as E.
  { rewrite <-Z.pow_succ_r by lia. f_equal; lia. }
  pose proof (Z.mod_pos_bound (z + 2 ^ (w - 1)) (2 ^ w)). lia.
Qed.

Lemma int16_id z : in_int16 z → int16 z = z.
Proof. intros H. apply wrapS_id; [lia|]. exact H. Qed.
Lemma int32_id z : in_int32 z → int32 z = z.
Proof. intros H. apply wrapS_id; [lia|]. exact H. Qed.
Lemma int64_id z : in_int64 z → int64 z = z.
Proof. intros H. apply wrapS_id; [lia|]. exact H. Qed.
Lemma int64_range z : in_int64 (int64 z).
Proof. apply (wrapS_range 64 z). lia. Qed.
Lemma uint64_range z : (0 ≤ uint64 z < 2 ^ 64)%Z.
Proof. apply Z.mod_pos_bound. lia. Qed.

#[export] Hint Resolve int16_id int32_id int64_id int64_range uint64_range : simsearch.

(** ** Status strings

    The code reports an error as a non-empty string and success as the empty
    one: [msg.size() > 0]. *)

Definition failed (msg : string) : bool := negb (bool_decide (msg = "")).

Declare Scope simsearch_scope.
Delimit Scope simsearch_scope with sim.
Notation "'if!' m 'then' a 'else' b" :=
  (if failed m then a else b) (at level 200, right associativity) : simsearch_scope.
Open Scope simsearch_scope.

Lemma failed_false msg : failed msg = false ↔ msg = "".
Proof. unfold failed. case_bool_decide; naive_solver. Qed.
Lemma failed_true msg : failed msg = true ↔ msg ≠ "".
Proof. unfold failed. case_bool_decide; naive_solver. Qed.
Lemma failed_empty : failed "" = false.
Proof. done. Qed.
Lemma failed_cons a s : failed (String a s) = true.
Proof. done. Qed.
#[export] Hint Rewrite failed_empty failed_cons : simsearch.

(** [std::to_string] of an integer. *)
Definition to_string (z : Z) : string := pretty z.

(** ** Strings *)

Lemma append_nil_l s : "" +:+ s = s.
Proof. done. Qed.
Lemma append_cons a s t : String a s +:+ t = String a (s +:+ t).
Proof. done. Qed.
Lemma append_nil_r s : s +:+ "" = s.
Proof. induction s; [done|]. rewrite append_cons. congruence. Qed.
Lemma append_assoc s t u : (s +:+ t) +:+ u = s +:+ (t +:+ u).
Proof. induction s; [done|]. rewrite !append_cons. congruence. Qed.
Lemma append_eq_nil s t : s +:+ t = "" ↔ s = "" ∧ t = "".
Proof.
  destruct s as [|a s]; [naive_solver|]. rewrite append_cons. split; [done|].
  by intros [??].
Qed.
Lemma length_append s t :
  String.length (s +:+ t) = String.length s + String.length t.
Proof. induction s as [|a s IH]; [done|]. rewrite append_cons. simpl. lia. Qed.
#[export] Hint Rewrite append_nil_l append_cons append_nil_r append_assoc : simsearch.

(** Every character of [s] satisfies [P]. *)
Fixpoint str_forall (P : ascii → bool) (s : string) : bool :=
  match s with
  | EmptyString => true
  | String c s => P c && str_forall P s
  end.

Lemma str_forall_app P s t :
  str_forall P (s +:+ t) = str_forall P s && str_forall P t.
Proof.
  induction s as [|c s IH]; [done|]. rewrite append_cons. simpl.
  by rewrite IH, andb_assoc.
Qed.

(** Two strings split by a separator that does not occur in the left parts. *)
Lemma append_sep_inj (sep : ascii) s1 s2 t1 t2 :
  str_forall (λ c, negb (Ascii.eqb c sep)) s1 = true →
  str_forall (λ c, negb (Ascii.eqb c sep)) s2 = true →
  s1 +:+ String sep t1 = s2 +:+ String sep t2 →
  s1 = s2 ∧ t1 = t2.
Proof.
  revert s2. induction s1 as [|c s1 IH]; intros [|c2 s2];
    rewrite ?append_nil_l, ?append_cons; simpl; intros H1 H2 E.
  - naive_solver.
  - simplify_eq. by rewrite Ascii.eqb_refl in H2.
  - simplify_eq. by rewrite Ascii.eqb_refl in H1.
  - apply andb_prop in H1 as [_ H1]. apply andb_prop in H2 as [_ H2].
    injection E as -> E. destruct (IH s2 H1 H2 E) as [-> ->]. done.
Qed.

(** ** Lists *)

Lemma fold_left_ext {A B} (f g : A → B → A) l a :
  (∀ a b, f a b = g a b) → fold_left f l a = fold_left g l a.
Proof. intros E. revert a. induction l; intros a0; simpl; [done|]. by rewrite E. Qed.

Lemma list_insert_snoc_lookup {A} (l : list A) x i y :
  (l ++ [x]) !! i = Some y → l !! i = Some y ∨ (i = length l ∧ y = x).
Proof.
  destruct (decide (i < length l)) as [?|?].
  - rewrite lookup_app_l by done. auto.
  - rewrite lookup_app_r by lia. intros H. right.
    apply list_lookup_singleton_Some in H as [??]. split; [lia|done].
Qed.
