(* ===== verification/StdMap.v ===== *)
(** * StdMap: the ordered map of the C++ standard library

    [std::map<K,V>] as the association list of its in-order traversal, sorted
    by the key's [operator<].  The router iterates over such maps (partition
    groups, error maps), so the order of the entries is part of the model. *)
From Stdlib Require Import Ascii Sorted.
From S2P Require Import Prelude.

(** The key order of a [std::map]. *)
Class KeyOrder (K : Type) := kcompare : K → K → comparison.

Class KeyOrderLaws (K : Type) `{KeyOrder K} : Prop := {
  kcompare_eq (a b : K) : kcompare a b = Eq ↔ a = b;
  kcompare_antisym (a b : K) : kcompare b a = CompOpp (kcompare a b);
  kcompare_trans (a b c : K) :
    kcompare a b = Lt → kcompare b c = Lt → kcompare a c = Lt
}.

#[export] Instance Z_order : KeyOrder Z := Z.compare.
#[export] Instance string_order : KeyOrder string := String.compare.

(** [m[k] = v] *)
Fixpoint sm_insert {K V} `{KeyOrder K} (k : K) (v : V) (m : list (K * V)) :
    list (K * V) :=
  match m with
  | [] => [(k, v)]
  | (k', v') :: m' =>
      match kcompare k k' with
      | Lt => (k, v) :: m
      | Eq => (k, v) :: m'
      | Gt => (k', v') :: sm_insert k v m'
      end
  end.

(** [m.find(k)] *)
Fixpoint sm_lookup {K V} `{KeyOrder K} (k : K) (m : list (K * V)) : option V :=
  match m with
  | [] => None
  | (k', v') :: m' =>
      match kcompare k k' with
      | Eq => Some v'
      | _ => sm_lookup k m'
      end
  end.

(** [m.count(k) > 0] *)
Definition sm_count {K V} `{KeyOrder K} (k : K) (m : list (K * V)) : bool :=
  match sm_lookup k m with Some _ => true | None => false end.

(** [for (auto& [k, v] : m2) m1[k] = v;] *)
Definition sm_merge {K V} `{KeyOrder K} (m1 m2 : list (K * V)) : list (K * V) :=
  fold_left (λ acc kv, sm_insert kv.1 kv.2 acc) m2 m1.

Definition sm_sorted {K V} `{KeyOrder K} (m : list (K * V)) : Prop :=
  StronglySorted (λ a b, kcompare a.1 b.1 = Lt) m.

#[export] Instance Z_order_laws : KeyOrderLaws Z.
Proof.
  split.
  - apply Z.compare_eq_iff.
  - intros a b. apply Z.compare_antisym.
  - unfold kcompare, Z_order. intros a b c. rewrite !Z.compare_lt_iff. lia.
Qed.

Lemma ascii_compare_trans (a b c : ascii) :
  Ascii.compare a b = Lt → Ascii.compare b c = Lt → Ascii.compare a c = Lt.
Proof. unfold Ascii.compare. rewrite !N.compare_lt_iff. lia. Qed.

Lemma ascii_compare_refl (a : ascii) : Ascii.compare a a = Eq.
Proof. unfold Ascii.compare. apply N.compare_refl. Qed.

Lemma string_compare_refl (s : string) : String.compare s s = Eq.
Proof. induction s; simpl; [done|]. by rewrite ascii_compare_refl. Qed.

#[export] Instance string_order_laws : KeyOrderLaws string.
Proof.
  split; unfold kcompare, string_order.
  - intros a b; split; [apply String.compare_eq_iff|intros ->; apply string_compare_refl].
  - intros a b. apply String.compare_antisym.
  - induction a as [|a s1 IH]; intros [|b s2] [|c s3]; simpl; try done.
    destruct (Ascii.compare a b) eqn:E1; try done;
      destruct (Ascii.compare b c) eqn:E2; try done; intros H1 H2.
    + apply Ascii.compare_eq_iff in E1, E2; subst.
      rewrite ascii_compare_refl. eauto.
    + apply Ascii.compare_eq_iff in E1; subst. by rewrite E2.
    + apply Ascii.compare_eq_iff in E2; subst. by rewrite E1.
    + by rewrite (ascii_compare_trans _ _ _ E1 E2).
Qed.

Section laws.
Context {K V : Type} `{KeyOrderLaws K}.
Implicit Types (k : K) (v : V) (m : list (K * V)).

Lemma kcompare_refl k : kcompare k k = Eq.
Proof. by apply kcompare_eq. Qed.

Lemma kcompare_gt k k' : kcompare k k' = Gt → kcompare k' k = Lt.
Proof. intros E. rewrite kcompare_antisym, E. done. Qed.

Lemma kcompare_ne k k' : k ≠ k' → kcompare k k' ≠ Eq.
Proof. intros Hne E. by apply kcompare_eq in E. Qed.

Lemma sm_lookup_insert_eq k v m : sm_lookup k (sm_insert k v m) = Some v.
Proof.
  induction m as [|[k' v'] m IH]; simpl; [by rewrite kcompare_refl|].
  destruct (kcompare k k') eqn:E; simpl; rewrite ?kcompare_refl; try done.
  by rewrite E.
Qed.

Lemma sm_lookup_insert_ne k k2 v m :
  k ≠ k2 → sm_lookup k2 (sm_insert k v m) = sm_lookup k2 m.
Proof.
  intros Hne. assert (kcompare k2 k ≠ Eq) as Hc by (by apply kcompare_ne).
  induction m as [|[k' v'] m IH]; simpl; [by destruct (kcompare k2 k)|].
  destruct (kcompare k k') eqn:E; simpl.
  - apply kcompare_eq in E; subst. by destruct (kcompare k2 k').
  - destruct (kcompare k2 k); done.
  - by rewrite IH.
Qed.

Lemma sm_lookup_insert k k2 v m :
  sm_lookup k2 (sm_insert k v m) =
    match kcompare k2 k with Eq => Some v | _ => sm_lookup k2 m end.
Proof.
  destruct (kcompare k2 k) eqn:E.
  - apply kcompare_eq in E; subst. apply sm_lookup_insert_eq.
  - apply sm_lookup_insert_ne. intros ->. by rewrite kcompare_refl in E.
  - apply sm_lookup_insert_ne. intros ->. by rewrite kcompare_refl in E.
Qed.

Lemma sm_lookup_insert_decide `{EqDecision K} k k2 v m :
  sm_lookup k2 (sm_insert k v m) = if decide (k2 = k) then Some v else sm_lookup k2 m.
Proof.
  case_decide as E; [subst; apply sm_lookup_insert_eq|]. apply sm_lookup_insert_ne. congruence.
Qed.

Lemma sm_insert_Forall (P : K * V → Prop) k v m :
  P (k, v) → Forall P m → Forall P (sm_insert k v m).
Proof.
  intros Hk. induction 1 as [|[k' v'] m Hx HF IH]; simpl; [by repeat constructor|].
  destruct (kcompare k k'); repeat constructor; done.
Qed.

Lemma sm_insert_sorted k v m : sm_sorted m → sm_sorted (sm_insert k v m).
Proof.
  unfold sm_sorted. induction 1 as [|[k' v'] m Hs IH HF]; simpl; [by repeat constructor|].
  destruct (kcompare k k') eqn:E.
  - apply kcompare_eq in E; subst. by constructor.
  - constructor; [by constructor|]. constructor; [done|].
    eapply Forall_impl; [exact HF|]. simpl. intros [k2 v2] Hlt. simpl in *.
    by eapply kcompare_trans.
  - constructor; [done|]. apply sm_insert_Forall; [|done]. by apply kcompare_gt.
Qed.

Lemma sm_empty_sorted : sm_sorted (@nil (K * V)).
Proof. constructor. Qed.

Lemma sm_merge_sorted m1 m2 : sm_sorted m1 → sm_sorted (sm_merge m1 m2).
Proof.
  unfold sm_merge. revert m1. induction m2 as [|[k v] m2 IH]; simpl; [done|].
  intros m1 Hs. by apply IH, sm_insert_sorted.
Qed.

Lemma sm_sorted_cons_inv k v m :
  sm_sorted ((k, v) :: m) → sm_sorted m ∧ Forall (λ kv, kcompare k kv.1 = Lt) m.
Proof. inversion 1; auto. Qed.

Lemma sm_lookup_lt_None k m :
  Forall (λ kv, kcompare k kv.1 = Lt) m → sm_lookup k m = None.
Proof.
  induction 1 as [|[k' v'] m Hlt HF IH]; simpl in *; [done|]. by rewrite Hlt.
Qed.

Lemma sm_lookup_Some_elem k v m : sm_lookup k m = Some v → (k, v) ∈ m.
Proof.
  induction m as [|[k' v'] m IH]; simpl; [done|].
  destruct (kcompare k k') eqn:E; intros Hl.
  - apply kcompare_eq in E. simplify_eq. left.
  - right. auto.
  - right. auto.
Qed.

Lemma sm_elem_lookup k v m : sm_sorted m → (k, v) ∈ m → sm_lookup k m = Some v.
Proof.
  induction m as [|[k' v'] m IH]; [by intros ? ?%elem_of_nil|].
  intros [Hs HF]%sm_sorted_cons_inv [E|Hin]%elem_of_cons; simpl.
  - simplify_eq. by rewrite kcompare_refl.
  - destruct (kcompare k k') eqn:E; auto.
    apply kcompare_eq in E; subst. rewrite Forall_forall in HF.
    specialize (HF _ Hin). simpl in HF. by rewrite kcompare_refl in HF.
Qed.

Lemma sm_lookup_None_elem k m : sm_lookup k m = None ↔ k ∉ m.*1.
Proof.
  induction m as [|[k' v'] m IH]; simpl; [by rewrite elem_of_nil; naive_solver|].
  rewrite elem_of_cons. destruct (kcompare k k') eqn:E.
  - apply kcompare_eq in E; subst. naive_solver.
  - rewrite IH. split; [|naive_solver]. intros ? [->|?]; [|done].
    by rewrite kcompare_refl in E.
  - rewrite IH. split; [|naive_solver]. intros ? [->|?]; [|done].
    by rewrite kcompare_refl in E.
Qed.

Lemma sm_sorted_NoDup m : sm_sorted m → NoDup m.*1.
Proof.
  induction m as [|[k v] m IH]; simpl; [constructor|].
  intros [Hs HF]%sm_sorted_cons_inv. constructor; [|auto].
  by apply sm_lookup_None_elem, sm_lookup_lt_None.
Qed.

Lemma sm_count_true k m : sm_count k m = true ↔ is_Some (sm_lookup k m).
Proof. unfold sm_count. destruct (sm_lookup k m); naive_solver. Qed.
Lemma sm_count_false k m : sm_count k m = false ↔ sm_lookup k m = None.
Proof. unfold sm_count. destruct (sm_lookup k m); naive_solver. Qed.

Lemma sm_lookup_merge k m1 m2 :
  sm_sorted m2 →
  sm_lookup k (sm_merge m1 m2) =
    match sm_lookup k m2 with Some v => Some v | None => sm_lookup k m1 end.
Proof.
  unfold sm_merge. revert m1. induction m2 as [|[k' v'] m2 IH]; simpl; [done|].
  intros m1 [Hs HF]%sm_sorted_cons_inv. rewrite (IH _ Hs).
  rewrite sm_lookup_insert. destruct (kcompare k k') eqn:E; try done.
  apply kcompare_eq in E; subst. by rewrite (sm_lookup_lt_None _ _ HF).
Qed.

(** Sorted maps are determined by their lookups. *)
Lemma sm_ext m1 m2 :
  sm_sorted m1 → sm_sorted m2 →
  (∀ k, sm_lookup k m1 = sm_lookup k m2) → m1 = m2.
Proof.
  revert m2. induction m1 as [|[k1 v1] m1 IH]; intros [|[k2 v2] m2] S1 S2 E.
  - done.
  - specialize (E k2). simpl in E. by rewrite kcompare_refl in E.
  - specialize (E k1). simpl in E. by rewrite kcompare_refl in E.
  - apply sm_sorted_cons_inv in S1 as [S1 F1], S2 as [S2 F2].
    pose proof (E k1) as E1. pose proof (E k2) as E2. simpl in E1, E2.
    rewrite kcompare_refl in E1, E2.
    assert (k1 = k2) as ->.
    { destruct (kcompare k1 k2) eqn:C; [by apply kcompare_eq|..].
      - rewrite sm_lookup_lt_None in E1; [done|].
        eapply Forall_impl; [exact F2|]. intros kv Hlt; simpl in *. by eapply kcompare_trans.
      - apply kcompare_gt in C. rewrite C in E2. rewrite sm_lookup_lt_None in E2; [done|].
        eapply Forall_impl; [exact F1|]. intros kv Hlt; simpl in *. by eapply kcompare_trans. }
    rewrite kcompare_refl in E1. simplify_eq. f_equal. apply IH; [done..|].
    intros k. specialize (E k). simpl in E. destruct (kcompare k k2) eqn:C; try done.
    apply kcompare_eq in C; subst.
    by rewrite (sm_lookup_lt_None _ _ F1), (sm_lookup_lt_None _ _ F2).
Qed.

End laws.

#[export] Hint Resolve sm_insert_sorted sm_empty_sorted sm_merge_sorted : simsearch.
