(* ===== verification/Numeric.v ===== *)
(** * Numeric: src/utils/numeric_util.cc

    The three helpers every other component uses: the bounded random draw
    [GenRandomInt], the string hash [StrHashUint64] that places keys into
    buckets and partitions, and the checked conversion [StrToInt64]. *)
From Stdlib Require Import Ascii.
From S2P Require Import Prelude.
Local Open Scope Z_scope.

(** ** GenRandomInt

    The Mersenne Twister's output is an arbitrary integer [raw]; the uniform
    distribution maps it into [[min, max]].  Quantifying over [raw] quantifies
    over every draw. *)
Definition GenRandomInt (raw min max : Z) : Z := min + raw `mod` (max - min + 1).

(** ** StrHashUint64

    [std::hash<std::string>] is implementation defined: a parameter with
    values in [size_t]. *)
Class StdHash := {
  std_hash : string → Z;
  std_hash_range s : 0 ≤ std_hash s < 2 ^ 64
}.

Section hash.
Context `{StdHash}.

(** [int64_t hash_value = hasher(str); return std::abs(hash_value);] *)
Definition StrHashUint64 (str : string) : Z :=
  let hash_value := int64 (std_hash str) in
  uint64 (Z.abs hash_value).

End hash.

(** ** StrToInt64 *)

Definition is_digit (c : ascii) : bool :=
  (48 <=? N_of_ascii c)%N && (N_of_ascii c <=? 57)%N.
Definition digit_value (c : ascii) : Z := Z.of_N (N_of_ascii c) - 48.

(** [isspace] of the C locale. *)
Fixpoint skip_spaces (s : string) : nat * string :=
  match s with
  | String c t =>
      if Ascii.is_space c then let '(n, r) := skip_spaces t in (S n, r) else (O, s)
  | EmptyString => (O, EmptyString)
  end.

(** The optional sign: negative?, characters used, rest. *)
Definition scan_sign (s : string) : bool * nat * string :=
  match s with
  | String c t =>
      if Ascii.eqb c "-" then (true, 1%nat, t)
      else if Ascii.eqb c "+" then (false, 1%nat, t) else (false, O, s)
  | EmptyString => (false, O, s)
  end.

(** The longest prefix of digits: its value and its length. *)
Fixpoint scan_digits (s : string) (acc : Z) : Z * nat :=
  match s with
  | String c t =>
      if is_digit c then
        let '(v, n) := scan_digits t (acc * 10 + digit_value c) in (v, S n)
      else (acc, O)
  | EmptyString => (acc, O)
  end.

(** [std::stoll(str, &pos)] with base 10: a value and the number of characters
    used, or one of the two exceptions. *)
Inductive stoll_result :=
  | StollOk (v : Z) (pos : nat)
  | StollInvalidArgument
  | StollOutOfRange.

Definition stoll (str : string) : stoll_result :=
  let '(nws, s1) := skip_spaces str in
  let '(neg, nsg, s2) := scan_sign s1 in
  let '(v, nd) := scan_digits s2 0 in
  if bool_decide (nd = O) then StollInvalidArgument
  else
    let v := if neg : bool then - v else v in
    if bool_decide (in_int64 v) then StollOk v (nws + nsg + nd) else StollOutOfRange.

Definition msg_not_int64 : string := "Invalid input: not a valid int64_t string".
Definition msg_int64_range : string := "Out of range: int64_t overflow".

(** The status and the final value of the output argument [result]. *)
Definition StrToInt64 (str : string) (result : Z) : string * Z :=
  match stoll str with
  | StollOk v pos =>
      if negb (Nat.eqb pos (String.length str)) then (msg_not_int64, v) else ("", v)
  | StollInvalidArgument => (msg_not_int64, result)
  | StollOutOfRange => (msg_int64_range, result)
  end.

(** ** Specification of the accepted strings *)

(** Positional value of a string of digits. *)
Fixpoint decimal (ds : string) : Z :=
  match ds with
  | EmptyString => 0
  | String c t => digit_value c * 10 ^ Z.of_nat (String.length t) + decimal t
  end.

Definition sign_value (sg : string) (v : Z) : Z :=
  if bool_decide (sg = "-") then - v else v.

(** [s] is blanks, an optional sign and at least one digit, denoting [v]. *)
Definition int_literal (s : string) (v : Z) : Prop :=
  ∃ ws sg ds,
    s = ws +:+ sg +:+ ds ∧
    str_forall Ascii.is_space ws = true ∧
    (sg = "" ∨ sg = "+" ∨ sg = "-") ∧
    ds ≠ "" ∧ str_forall is_digit ds = true ∧
    v = sign_value sg (decimal ds).

(** ** Lemmas *)

Lemma GenRandomInt_range raw min max :
  min ≤ max → min ≤ GenRandomInt raw min max ≤ max.
Proof.
  intros Hle. unfold GenRandomInt.
  pose proof (Z.mod_pos_bound raw (max - min + 1)). lia.
Qed.

Lemma GenRandomInt_onto min max x :
  min ≤ x ≤ max → GenRandomInt (x - min) min max = x.
Proof. intros Hx. unfold GenRandomInt. rewrite Z.mod_small; lia. Qed.

Lemma StrHashUint64_range `{StdHash} s : 0 ≤ StrHashUint64 s ≤ 2 ^ 63.
Proof.
  unfold StrHashUint64. pose proof (int64_range (std_hash s)) as Hr.
  unfold in_int64 in Hr. unfold uint64, wrapU. rewrite Z.mod_small; lia.
Qed.

Lemma digit_not_space c : is_digit c = true → Ascii.is_space c = false.
Proof. destruct c as [[] [] [] [] [] [] [] []]; vm_compute; congruence. Qed.
Lemma digit_not_sign c :
  is_digit c = true → Ascii.eqb c "-" = false ∧ Ascii.eqb c "+" = false.
Proof. destruct c as [[] [] [] [] [] [] [] []]; vm_compute; intuition congruence. Qed.

Lemma skip_spaces_spec s :
  ∃ ws r, s = ws +:+ r ∧ skip_spaces s = (String.length ws, r) ∧
    str_forall Ascii.is_space ws = true ∧
    (∀ c t, r = String c t → Ascii.is_space c = false).
Proof.
  induction s as [|c s (ws & r & -> & E & Hw & Hr)].
  - by exists "", "".
  - simpl. destruct (Ascii.is_space c) eqn:Hc.
    + exists (String c ws), r. rewrite E. simpl. by rewrite Hc, Hw.
    + exists "", (String c (ws +:+ r)). naive_solver.
Qed.

Lemma skip_spaces_app ws r :
  str_forall Ascii.is_space ws = true →
  (∀ c t, r = String c t → Ascii.is_space c = false) →
  skip_spaces (ws +:+ r) = (String.length ws, r).
Proof.
  intros Hw Hr. induction ws as [|c ws IH].
  - rewrite append_nil_l. destruct r as [|c t]; [done|]. simpl.
    by rewrite (Hr c t).
  - rewrite append_cons. simpl in *. apply andb_prop in Hw as [-> Hw].
    by rewrite IH.
Qed.

Lemma scan_digits_spec s acc :
  ∃ ds r, s = ds +:+ r ∧ str_forall is_digit ds = true ∧
    (∀ c t, r = String c t → is_digit c = false) ∧
    scan_digits s acc =
      (acc * 10 ^ Z.of_nat (String.length ds) + decimal ds, String.length ds).
Proof.
  revert acc. induction s as [|c s IH]; intros acc.
  - exists "", "". repeat split; try done. simpl. f_equal. lia.
  - simpl. destruct (is_digit c) eqn:Hc.
    + destruct (IH (acc * 10 + digit_value c)) as (ds & r & -> & Hd & Hr & E).
      exists (String c ds), r. rewrite E. simpl. rewrite Hc. repeat split; try done.
      f_equal. rewrite Nat2Z.inj_succ, Z.pow_succ_r by lia. lia.
    + exists "", (String c s). repeat split; try naive_solver. simpl. f_equal. lia.
Qed.

Lemma scan_digits_all ds acc :
  str_forall is_digit ds = true →
  scan_digits ds acc =
    (acc * 10 ^ Z.of_nat (String.length ds) + decimal ds, String.length ds).
Proof.
  revert acc. induction ds as [|c ds IH]; intros acc; simpl.
  - intros _. f_equal. lia.
  - intros [-> Hd]%andb_prop. rewrite (IH _ Hd). f_equal.
    rewrite Nat2Z.inj_succ, Z.pow_succ_r by lia. lia.
Qed.

Lemma str_length_0 s : String.length s = O → s = "".
Proof. by destruct s. Qed.

Lemma scan_sign_spec s :
  ∃ sg r, s = sg +:+ r ∧ (sg = "" ∨ sg = "+" ∨ sg = "-") ∧
    scan_sign s = (bool_decide (sg = "-"), String.length sg, r).
Proof.
  destruct s as [|c t]; [by exists "", ""; auto|]. simpl.
  destruct (Ascii.eqb c "-") eqn:E1.
  { apply Ascii.eqb_eq in E1 as ->. exists "-", t. auto. }
  destruct (Ascii.eqb c "+") eqn:E2.
  { apply Ascii.eqb_eq in E2 as ->. exists "+", t. auto. }
  exists "", (String c t). auto.
Qed.

(** [stoll] on a literal. *)
Lemma stoll_literal s v :
  int_literal s v →
  stoll s = if bool_decide (in_int64 v) then StollOk v (String.length s)
            else StollOutOfRange.
Proof.
  intros (ws & sg & ds & -> & Hw & Hsg & Hne & Hd & ->). unfold stoll.
  destruct ds as [|c ds]; [done|].
  assert (is_digit c = true) as Hc by (by apply andb_prop in Hd as [? _]).
  destruct (digit_not_sign _ Hc) as [Em Ep].
  rewrite skip_spaces_app; [|done|].
  2:{ intros c' t. destruct Hsg as [-> | [-> | ->]];
      rewrite ?append_nil_l, ?append_cons; intros [= <- ?]; try done.
      by apply digit_not_space. }
  assert (scan_sign (sg +:+ String c ds) =
    (bool_decide (sg = "-"), String.length sg, String c ds)) as ->.
  { destruct Hsg as [-> | [-> | ->]]; try done.
    rewrite append_nil_l. unfold scan_sign. by rewrite Em, Ep. }
  rewrite (scan_digits_all _ 0 Hd).
  rewrite bool_decide_eq_false_2 by done. cbv zeta.
  rewrite Z.mul_0_l, Z.add_0_l.
  replace (if bool_decide (sg = "-") then - decimal (String c ds) else decimal (String c ds))
    with (sign_value sg (decimal (String c ds))) by done.
  rewrite !length_append, Nat.add_assoc. done.
Qed.

(** Conversely, whatever [stoll] returns comes from a literal prefix. *)
Lemma stoll_inv s v pos :
  stoll s = StollOk v pos →
  in_int64 v ∧ ∃ p r, s = p +:+ r ∧ int_literal p v ∧ pos = String.length p.
Proof.
  unfold stoll.
  destruct (skip_spaces_spec s) as (ws & r1 & -> & -> & Hw & _).
  destruct (scan_sign_spec r1) as (sg & r2 & -> & Hsg & ->).
  destruct (scan_digits_spec r2 0) as (ds & r & -> & Hd & _ & ->).
  case_bool_decide as Hn; [done|].
  rewrite Z.mul_0_l, Z.add_0_l.
  case_bool_decide as Hin; [|done]. intros [= <- <-]. split; [done|].
  exists (ws +:+ sg +:+ ds), r. rewrite !append_assoc. split; [done|].
  split; [|rewrite !length_append; lia].
  exists ws, sg, ds. repeat split; try done. by intros ->.
Qed.

Lemma append_length_full p r : String.length p = String.length (p +:+ r) → r = "".
Proof. rewrite length_append. intros E. apply str_length_0. lia. Qed.

Lemma StrToInt64_accepts s r :
  fst (StrToInt64 s r) = "" ↔ ∃ v, int_literal s v ∧ in_int64 v.
Proof.
  split.
  - unfold StrToInt64. destruct (stoll s) as [v pos| |] eqn:E; [|done..].
    apply stoll_inv in E as (Hin & p & t & -> & Hl & ->).
    destruct (Nat.eqb_spec (String.length p) (String.length (p +:+ t))) as [El|]; [|done].
    apply append_length_full in El as ->. rewrite append_nil_r. eauto.
  - intros (v & Hv & Hin). unfold StrToInt64. rewrite (stoll_literal _ _ Hv).
    rewrite bool_decide_eq_true_2 by done. by rewrite Nat.eqb_refl.
Qed.

(** [std::to_string] prints digits that denote the number. *)
Lemma pretty_N_go_decimal x s :
  str_forall is_digit s = true →
  str_forall is_digit (pretty_N_go x s) = true ∧
  decimal (pretty_N_go x s) =
    Z.of_N x * 10 ^ Z.of_nat (String.length s) + decimal s.
Proof.
  revert s. induction (N.lt_wf_0 x) as [x _ IH]; intros s Hs.
  destruct (decide (x = 0)%N) as [-> |Hx].
  { rewrite pretty_N_go_0. split; [done|]. lia. }
  rewrite pretty_N_go_step by lia.
  assert (x `mod` 10 < 10)%N as Hm by (apply N.mod_lt; lia).
  assert (is_digit (pretty_N_char (x `mod` 10)) = true ∧
    digit_value (pretty_N_char (x `mod` 10)) = Z.of_N (x `mod` 10)) as [Hd Hv].
  { generalize dependent (x `mod` 10)%N. intros m Hm. clear -Hm.
    assert (m = 0 ∨ m = 1 ∨ m = 2 ∨ m = 3 ∨ m = 4 ∨ m = 5 ∨ m = 6 ∨ m = 7
      ∨ m = 8 ∨ m = 9)%N as Hc by lia.
    destruct_or! Hc; by subst. }
  destruct (IH (x `div` 10)%N ltac:(apply N.div_lt; lia)
    (String (pretty_N_char (x `mod` 10)) s)) as [I1 I2].
  { simpl. by rewrite Hd. }
  split; [done|]. rewrite I2. simpl. rewrite Hv, Nat2Z.inj_succ, Z.pow_succ_r by lia.
  assert (Z.of_N x = 10 * Z.of_N (x `div` 10) + Z.of_N (x `mod` 10)) as ->
    by (pose proof (N.div_mod x 10); lia).
  ring.
Qed.

Lemma pretty_N_decimal x :
  str_forall is_digit (pretty x) = true ∧ decimal (pretty x) = Z.of_N x ∧ pretty x ≠ "".
Proof.
  unfold pretty, pretty_N. case_decide as E.
  - subst. done.
  - destruct (pretty_N_go_decimal x "") as [H1 H2]; [done|].
    split; [done|]. rewrite H2. split; [simpl; lia|].
    intros E0. rewrite E0 in H2. simpl in H2. lia.
Qed.

Lemma to_string_nonempty z : to_string z ≠ "".
Proof.
  destruct z as [|p|p]; [done| |done]. destruct (pretty_N_decimal (Npos p)) as (_ & _ & Hne).
  done.
Qed.

Lemma to_string_literal z : int_literal (to_string z) z.
Proof.
  unfold to_string. destruct z as [|p|p].
  - exists "", "", "0". repeat split; auto.
  - destruct (pretty_N_decimal (Npos p)) as (H1 & H2 & H3).
    exists "", "", (pretty (Npos p)). repeat split; auto.
  - destruct (pretty_N_decimal (Npos p)) as (H1 & H2 & H3).
    exists "", "-", (pretty (Npos p)). repeat split; auto.
    unfold sign_value. rewrite bool_decide_eq_true_2 by done. rewrite H2. done.
Qed.

(** ** Properties *)

(** C38. The checked conversion accepts exactly the strings that are, from the
    first to the last character, blanks, an optional sign and digits denoting
    an [int64_t], and then stores that value; an over-long literal is reported
    as an overflow and leaves the output untouched. *)
Theorem StrToInt64_correct (str : string) (result : Z) :
  (fst (StrToInt64 str result) = "" ↔ ∃ v, int_literal str v ∧ in_int64 v) ∧
  (∀ v, int_literal str v →
    StrToInt64 str result =
      if bool_decide (in_int64 v) then ("", v) else (msg_int64_range, result)).
Proof.
  assert (∀ v, int_literal str v → StrToInt64 str result =
      if bool_decide (in_int64 v) then ("", v) else (msg_int64_range, result)) as HL.
  { intros v Hv. unfold StrToInt64. rewrite (stoll_literal _ _ Hv).
    case_bool_decide; [|done]. by rewrite Nat.eqb_refl. }
  split; [apply StrToInt64_accepts|done].
Qed.

(** Printing an [int64_t] with [std::to_string] and converting it back
    gives the number. *)
Theorem StrToInt64_to_string (z result : Z) (Hz : in_int64 z) :
  StrToInt64 (to_string z) result = ("", z).
Proof.
  unfold StrToInt64. rewrite (stoll_literal _ z (to_string_literal z)).
  rewrite bool_decide_eq_true_2 by done. by rewrite Nat.eqb_refl.
Qed.

Lemma StrToInt64_to_string_witness :
  in_int64 (-9223372036854775808) ∧
  StrToInt64 (to_string (-9223372036854775808)) 0 = ("", -9223372036854775808).
Proof.
  assert (in_int64 (-9223372036854775808)) as H by (unfold in_int64; lia).
  split; [exact H|]. exact (StrToInt64_to_string _ 0 H).
Defined.
