(* ===== verification/Bytes.v ===== *)
(** * Bytes: the memory representation of integers

    Byte sequences are lists of characters.  [le_bytes n z] is the object
    representation of the [n]-byte integer [z] on the little-endian hosts the
    server runs on (what a store through an integer pointer leaves), [be_bytes] the network
    order produced by [butil::HostToNet32]. *)
From Stdlib Require Import Ascii.
From S2P Require Import Prelude.
Local Open Scope Z_scope.

Notation bytes := (list ascii).

Definition byte_of (z : Z) : ascii := ascii_of_N (Z.to_N (z `mod` 256)).
Definition byte_val (c : ascii) : Z := Z.of_N (N_of_ascii c).

Fixpoint le_bytes (n : nat) (z : Z) : bytes :=
  match n with
  | O => []
  | S n' => byte_of z :: le_bytes n' (z `div` 256)
  end.

Fixpoint le_value (b : bytes) : Z :=
  match b with
  | [] => 0
  | c :: b' => byte_val c + 256 * le_value b'
  end.

Definition be_bytes (n : nat) (z : Z) : bytes := reverse (le_bytes n z).
Definition be_value (b : bytes) : Z := le_value (reverse b).

(** Reading an [n]-byte integer at the start of a buffer; [None] is a read past
    its end. *)
Definition read_le (n : nat) (b : bytes) : option Z :=
  if bool_decide (n ≤ length b)%nat then Some (le_value (take n b)) else None.

(** [std::string] as its bytes and back. *)
Definition bytes_of (s : string) : bytes := String.list_ascii_of_string s.
Definition str_of (b : bytes) : string := String.string_of_list_ascii b.

(** ** Lemmas *)

Lemma byte_val_range c : 0 ≤ byte_val c < 256.
Proof. unfold byte_val. pose proof (N_ascii_bounded c). lia. Qed.

Lemma byte_val_of z : byte_val (byte_of z) = z `mod` 256.
Proof.
  unfold byte_val, byte_of. pose proof (Z.mod_pos_bound z 256).
  rewrite N_ascii_embedding by lia. lia.
Qed.

Lemma byte_of_val c : byte_of (byte_val c) = c.
Proof.
  unfold byte_of. pose proof (byte_val_range c). rewrite Z.mod_small by done.
  unfold byte_val. rewrite N2Z.id. apply ascii_N_embedding.
Qed.

Lemma length_le_bytes n z : length (le_bytes n z) = n.
Proof. revert z. induction n; intros z; simpl; [done|]. by rewrite IHn. Qed.

Lemma length_be_bytes n z : length (be_bytes n z) = n.
Proof. unfold be_bytes. by rewrite length_reverse, length_le_bytes. Qed.

Lemma le_value_le_bytes n z : le_value (le_bytes n z) = z `mod` 256 ^ Z.of_nat n.
Proof.
  revert z. induction n as [|n IH]; intros z; simpl.
  - by rewrite Z.mod_1_r.
  - rewrite IH, byte_val_of, Nat2Z.inj_succ, Z.pow_succ_r by lia.
    rewrite Z.rem_mul_r by lia. lia.
Qed.

Lemma be_value_be_bytes n z : be_value (be_bytes n z) = z `mod` 256 ^ Z.of_nat n.
Proof. unfold be_value, be_bytes. by rewrite reverse_involutive, le_value_le_bytes. Qed.

Lemma le_value_range b : 0 ≤ le_value b < 256 ^ Z.of_nat (length b).
Proof.
  induction b as [|c b IH]; simpl length; [simpl; lia|].
  rewrite Nat2Z.inj_succ, Z.pow_succ_r by lia.
  simpl. pose proof (byte_val_range c). lia.
Qed.

Lemma le_bytes_le_value b : le_bytes (length b) (le_value b) = b.
Proof.
  induction b as [|c b IH]; simpl; [done|].
  pose proof (byte_val_range c) as Hc.
  assert ((byte_val c + 256 * le_value b) `div` 256 = le_value b) as ->.
  { rewrite Z.mul_comm, Z.div_add by lia. rewrite Z.div_small; lia. }
  rewrite IH. f_equal. rewrite <-(byte_of_val c) at 2. unfold byte_of.
  by rewrite Z.mul_comm, Z.mod_add.
Qed.

Lemma read_le_app n z b :
  read_le n (le_bytes n z ++ b) = Some (z `mod` 256 ^ Z.of_nat n).
Proof.
  unfold read_le. rewrite length_app, length_le_bytes.
  rewrite bool_decide_eq_true_2 by lia.
  rewrite take_app_length' by (by rewrite length_le_bytes).
  by rewrite le_value_le_bytes.
Qed.

Lemma read_le_bytes n z : read_le n (le_bytes n z) = Some (z `mod` 256 ^ Z.of_nat n).
Proof. rewrite <-(app_nil_r (le_bytes n z)). apply read_le_app. Qed.

Lemma bytes_of_str_of b : bytes_of (str_of b) = b.
Proof. apply String.list_ascii_of_string_of_list_ascii. Qed.
Lemma str_of_bytes_of s : str_of (bytes_of s) = s.
Proof. apply String.string_of_list_ascii_of_string. Qed.
Lemma length_bytes_of s : length (bytes_of s) = String.length s.
Proof. induction s; simpl; [done|]. by f_equal. Qed.

(** A signed value survives the trip through its object representation. *)
Lemma wrapS_mod w z : 0 < w → wrapS w (z `mod` 2 ^ w) = wrapS w z.
Proof.
  intros Hw. unfold wrapS. f_equal. by rewrite Zplus_mod_idemp_l.
Qed.

Lemma int16_le z : in_int16 z → int16 (z `mod` 256 ^ 2) = z.
Proof. intros Hz. unfold int16. change (256 ^ 2) with (2 ^ 16). rewrite wrapS_mod by lia. by apply int16_id. Qed.
Lemma int32_le z : in_int32 z → int32 (z `mod` 256 ^ 4) = z.
Proof. intros Hz. unfold int32. change (256 ^ 4) with (2 ^ 32). rewrite wrapS_mod by lia. by apply int32_id. Qed.
Lemma int64_le z : in_int64 z → int64 (z `mod` 256 ^ 8) = z.
Proof. intros Hz. unfold int64. change (256 ^ 8) with (2 ^ 64). rewrite wrapS_mod by lia. by apply int64_id. Qed.

#[export] Hint Rewrite length_le_bytes length_be_bytes bytes_of_str_of str_of_bytes_of
  length_bytes_of : simsearch.

(** *** Strings as bytes *)

Lemma bytes_of_append s t : bytes_of (s +:+ t) = bytes_of s ++ bytes_of t.
Proof. induction s as [|c s IH]; [done|]. rewrite append_cons. simpl. by rewrite <-IH. Qed.

Lemma bytes_of_inj s t : bytes_of s = bytes_of t → s = t.
Proof. intros E. rewrite <-(str_of_bytes_of s), E. apply str_of_bytes_of. Qed.

Lemma append_inj_suffix a b s t :
  String.length s = String.length t → a +:+ s = b +:+ t → a = b ∧ s = t.
Proof.
  intros Hl E. apply (f_equal bytes_of) in E. rewrite !bytes_of_append in E.
  apply app_inj_2 in E as [E1 E2]; [|by rewrite !length_bytes_of].
  split; by apply bytes_of_inj.
Qed.

Definition last_char (s : string) : option ascii := last (bytes_of s).

Lemma last_char_append s t c : last_char t = Some c → last_char (s +:+ t) = Some c.
Proof. unfold last_char. intros E. by rewrite bytes_of_append, last_app, E. Qed.

(** Strings that end differently. *)
Lemma append_last_ne p q s t c d :
  last_char s = Some c → last_char t = Some d → c ≠ d → p +:+ s ≠ q +:+ t.
Proof.
  intros Hc Hd Hne E. apply (f_equal last_char) in E.
  rewrite (last_char_append _ _ _ Hc), (last_char_append _ _ _ Hd) in E. congruence.
Qed.
