(* ===== verification/OwmrMap.v ===== *)
(** * OwmrMap: src/utils/one_writer_multi_reader_map.cc

    The fixed-size chained hash table that maps a space key to the slot of its
    connection in the router.  A deleted entry stays in its chain with the slot
    [-1].

    [IndexMap]/[IndexMapSpec] state what the table promises to its client (the
    space manager of [SpaceManager.v]); the instances at the end discharge the
    promise for the table. *)
From S2P Require Import Prelude Numeric.
Local Open Scope Z_scope.

(** ** The interface *)

Class IndexMap (M : Type) := {
  im_put : string → Z → M → bool * M;
  im_get : string → M → Z;
  im_delete : string → M → bool * M
}.

(** [im_view] is the finite map of the live entries; [im_room m k] says that
    [m] accepts a [Put] of the key [k] in its present state. *)
Class IndexMapSpec (M : Type) `{IndexMap M} := {
  im_wf : M → Prop;
  im_view : M → gmap string Z;
  im_room : M → string → bool;
  im_view_nonneg m k i : im_wf m → im_view m !! k = Some i → 0 ≤ i;
  im_get_view m k : im_wf m → im_get k m = default (-1) (im_view m !! k);
  im_put_room m k i : im_wf m → 0 ≤ i → im_room m k = true →
    fst (im_put k i m) = true ∧ im_wf (snd (im_put k i m)) ∧
    im_view (snd (im_put k i m)) = <[k := i]> (im_view m);
  im_put_full m k i : im_room m k = false → im_put k i m = (false, m);
  im_room_absent m k : im_wf m → im_room m k = true → im_view m !! k = None;
  im_delete_view m k : im_wf m →
    fst (im_delete k m) = bool_decide (is_Some (im_view m !! k)) ∧
    im_wf (snd (im_delete k m)) ∧
    im_view (snd (im_delete k m)) = delete k (im_view m)
}.

(** ** The table *)

Record Cell := mkCell { idx_ : Z; key_ : string }.

Record OneWriterMultiReaderMap := mkOwmr { buckets_ : list (list Cell) }.

#[export] Instance Cell_eq_dec : EqDecision Cell.
Proof. solve_decision. Defined.

(** The constructor: [bucket_count] empty chains. *)
Definition owmr_new (bucket_count : nat) : OneWriterMultiReaderMap :=
  mkOwmr (replicate bucket_count []).

(** [cell.idx_ >= 0] *)
Definition cell_live (c : Cell) : bool := 0 <=? idx_ c.

(** The second loop of [Put]: overwrite the cell of [key], if there is one. *)
Fixpoint update_cell (key : string) (idx : Z) (b : list Cell) : option (list Cell) :=
  match b with
  | [] => None
  | c :: b' =>
      if bool_decide (key_ c = key) then Some (mkCell idx (key_ c) :: b')
      else match update_cell key idx b' with Some b'' => Some (c :: b'') | None => None end
  end.

(** The loop of [Get]. *)
Fixpoint find_cell (key : string) (b : list Cell) : option Z :=
  match b with
  | [] => None
  | c :: b' => if bool_decide (key_ c = key) then Some (idx_ c) else find_cell key b'
  end.

(** The loop of [Delete]: the first live cell of [key] gets the slot [-1]. *)
Fixpoint kill_cell (key : string) (b : list Cell) : option (list Cell) :=
  match b with
  | [] => None
  | c :: b' =>
      if bool_decide (key_ c = key) && cell_live c then Some (mkCell (-1) (key_ c) :: b')
      else match kill_cell key b' with Some b'' => Some (c :: b'') | None => None end
  end.

Section table.
Context `{StdHash}.
Implicit Types (m : OneWriterMultiReaderMap) (k key : string) (b : list Cell).

(** [StrHashUint64(key) % buckets_.size()] *)
Definition bucket_index (n : nat) (key : string) : nat :=
  Z.to_nat (StrHashUint64 key `mod` Z.of_nat n).

Definition bucket (m : OneWriterMultiReaderMap) (key : string) : list Cell :=
  default [] (buckets_ m !! bucket_index (length (buckets_ m)) key).

Definition set_bucket (m : OneWriterMultiReaderMap) (key : string) (b : list Cell) :
    OneWriterMultiReaderMap :=
  mkOwmr (<[bucket_index (length (buckets_ m)) key := b]> (buckets_ m)).

Definition Put (key : string) (idx : Z) (m : OneWriterMultiReaderMap) :
    bool * OneWriterMultiReaderMap :=
  let b := bucket m key in
  if existsb cell_live b then (false, m)
  else
    match update_cell key idx b with
    | Some b' => (true, set_bucket m key b')
    | None => (true, set_bucket m key (b ++ [mkCell idx key]))
    end.

Definition Get (key : string) (m : OneWriterMultiReaderMap) : Z :=
  default (-1) (find_cell key (bucket m key)).

Definition Delete (key : string) (m : OneWriterMultiReaderMap) :
    bool * OneWriterMultiReaderMap :=
  match kill_cell key (bucket m key) with
  | Some b' => (true, set_bucket m key b')
  | None => (false, m)
  end.

(** ** Invariant and abstraction *)

(** A chain at position [i]: its keys hash to [i] and are distinct, a dead cell
    carries [-1], and at most one cell is live. *)
Definition bucket_ok (n i : nat) (b : list Cell) : Prop :=
  (∀ c, c ∈ b → bucket_index n (key_ c) = i) ∧
  NoDup (key_ <$> b) ∧
  (∀ c, c ∈ b → cell_live c = false → idx_ c = -1) ∧
  (∀ c d, c ∈ b → d ∈ b → cell_live c = true → cell_live d = true → c = d).

Definition owmr_wf (m : OneWriterMultiReaderMap) : Prop :=
  (0 < length (buckets_ m))%nat ∧
  ∀ i b, buckets_ m !! i = Some b → bucket_ok (length (buckets_ m)) i b.

(** The live entries. *)
Definition owmr_view (m : OneWriterMultiReaderMap) : gmap string Z :=
  list_to_map ((λ c, (key_ c, idx_ c)) <$> filter cell_live (mjoin (buckets_ m))).

Definition owmr_room (m : OneWriterMultiReaderMap) (key : string) : bool :=
  negb (existsb cell_live (bucket m key)).

(** The live slot of [key] in a chain. *)
Definition live_slot (key : string) (b : list Cell) : option Z :=
  match find_cell key b with
  | Some i => if 0 <=? i then Some i else None
  | None => None
  end.

Lemma bucket_index_lt n k : (0 < n)%nat → (bucket_index n k < n)%nat.
Proof.
  intros Hn. unfold bucket_index.
  pose proof (Z.mod_pos_bound (StrHashUint64 k) (Z.of_nat n)). lia.
Qed.

Lemma bucket_lookup m k :
  owmr_wf m → buckets_ m !! bucket_index (length (buckets_ m)) k = Some (bucket m k).
Proof.
  intros [Hn _]. unfold bucket.
  destruct (lookup_lt_is_Some_2 (buckets_ m) (bucket_index (length (buckets_ m)) k))
    as [b Hb]; [by apply bucket_index_lt|]. by rewrite Hb.
Qed.

Lemma bucket_wf m k :
  owmr_wf m →
  bucket_ok (length (buckets_ m)) (bucket_index (length (buckets_ m)) k) (bucket m k).
Proof. intros Hwf. apply (proj2 Hwf). by apply bucket_lookup. Qed.

Lemma find_cell_Some k b i : find_cell k b = Some i → mkCell i k ∈ b.
Proof.
  induction b as [|[j k'] b IH]; simpl; [done|].
  case_bool_decide; intros E; simplify_eq; [left|right; auto].
Qed.

Lemma find_cell_elem k b i :
  NoDup (key_ <$> b) → mkCell i k ∈ b → find_cell k b = Some i.
Proof.
  induction b as [|c b IH]; [by intros ? ?%elem_of_nil|]. simpl.
  intros [Hc Hnd]%NoDup_cons [<-|Hin]%elem_of_cons; simpl.
  - by rewrite bool_decide_eq_true_2.
  - rewrite bool_decide_eq_false_2; [by apply IH|].
    intros <-. apply Hc. apply list_elem_of_fmap. by exists (mkCell i (key_ c)).
Qed.

(** Keys are distinct over the whole table. *)
Lemma concat_keys_NoDup n off (bs : list (list Cell)) :
  (∀ i b, bs !! i = Some b →
    (∀ c, c ∈ b → bucket_index n (key_ c) = (off + i)%nat) ∧ NoDup (key_ <$> b)) →
  NoDup (key_ <$> mjoin bs) ∧
  (∀ c, c ∈ mjoin bs → (off ≤ bucket_index n (key_ c))%nat).
Proof.
  revert off. induction bs as [|b bs IH]; intros off Hb; simpl.
  { split; [constructor|]. by intros c ?%elem_of_nil. }
  destruct (Hb 0%nat b eq_refl) as [H1 H2].
  destruct (IH (S off)) as [I1 I2].
  { intros i b' Hi. destruct (Hb (S i) b' Hi) as [J1 J2]. split; [|done].
    intros c Hc. rewrite (J1 c Hc). lia. }
  split.
  - rewrite fmap_app. apply NoDup_app. split; [done|]. split; [|done].
    intros k (c & -> & Hc)%list_elem_of_fmap (d & E & Hd)%list_elem_of_fmap.
    specialize (H1 c Hc). specialize (I2 d Hd). rewrite <-E in I2. lia.
  - intros c [Hc|Hc]%elem_of_app; [rewrite (H1 c Hc); lia|].
    specialize (I2 c Hc). lia.
Qed.

Lemma owmr_view_Some m k i :
  owmr_wf m →
  owmr_view m !! k = Some i ↔ mkCell i k ∈ mjoin (buckets_ m) ∧ 0 ≤ i.
Proof.
  intros [_ Hwf].
  destruct (concat_keys_NoDup (length (buckets_ m)) 0 (buckets_ m)) as [Hnd _].
  { intros j b Hj. destruct (Hwf j b Hj) as (H1 & H2 & _). auto. }
  unfold owmr_view. rewrite <-elem_of_list_to_map.
  - rewrite list_elem_of_fmap. split.
    + intros ([j k'] & E & [Hl Hc]%list_elem_of_filter). simplify_eq/=.
      split; [done|]. apply Is_true_true in Hl. unfold cell_live in Hl. simpl in Hl. lia.
    + intros [Hc Hi]. exists (mkCell i k). split; [done|].
      apply list_elem_of_filter. split; [|done].
      apply Is_true_true. unfold cell_live. simpl. lia.
  - rewrite <-list_fmap_compose. simpl.
    eapply sublist_NoDup; [exact Hnd|]. apply fmap_sublist, sublist_filter.
Qed.

(** The live entry of a key is found in its own chain. *)
Lemma owmr_view_bucket m k :
  owmr_wf m → owmr_view m !! k = live_slot k (bucket m k).
Proof.
  intros Hwf. apply option_eq. intros i. rewrite (owmr_view_Some m k i Hwf).
  unfold live_slot. rewrite list_elem_of_join. split.
  - intros [(b & Hin & Hb) Hi].
    apply list_elem_of_lookup in Hb as [j Hj].
    destruct (proj2 Hwf j b Hj) as (H1 & H2 & _).
    assert (b = bucket m k) as ->.
    { pose proof (H1 _ Hin) as E. simpl in E. subst j.
      rewrite (bucket_lookup m k Hwf) in Hj. congruence. }
    rewrite (find_cell_elem k _ i H2 Hin).
    destruct (Z.leb_spec 0 i); [done|lia].
  - destruct (find_cell k (bucket m k)) as [j|] eqn:E; [|done].
    destruct (Z.leb_spec 0 j); intros [= ->]. split; [|done].
    exists (bucket m k). split; [by apply find_cell_Some|].
    eapply list_elem_of_lookup_2, bucket_lookup. done.
Qed.

Lemma live_slot_none k b : existsb cell_live b = false → live_slot k b = None.
Proof.
  intros Hb. unfold live_slot. destruct (find_cell k b) as [i|] eqn:E; [|done].
  apply find_cell_Some in E. destruct (Z.leb_spec 0 i); [|done].
  assert (existsb cell_live b = true); [|congruence].
  apply existsb_exists. exists (mkCell i k). split; [by apply list_elem_of_In|].
  unfold cell_live. simpl. lia.
Qed.

Lemma not_live_elem b c : existsb cell_live b = false → c ∈ b → cell_live c = false.
Proof.
  intros Hb Hc. destruct (cell_live c) eqn:E; [|done].
  assert (existsb cell_live b = true); [|congruence].
  apply existsb_exists. exists c. split; [by apply list_elem_of_In|done].
Qed.

(** *** Effect of replacing one chain *)

Lemma set_bucket_wf m k b :
  owmr_wf m →
  bucket_ok (length (buckets_ m)) (bucket_index (length (buckets_ m)) k) b →
  owmr_wf (set_bucket m k b).
Proof.
  intros [Hn Hwf] Hb. split; unfold set_bucket; simpl; rewrite length_insert; [done|].
  intros i b' [(<- & <- & _)|[_ Hi]]%list_lookup_insert_Some; [done|]. by apply Hwf.
Qed.

Lemma bucket_set_bucket m k b k' :
  owmr_wf m →
  bucket (set_bucket m k b) k' =
    if bool_decide (bucket_index (length (buckets_ m)) k =
                    bucket_index (length (buckets_ m)) k')
    then b else bucket m k'.
Proof.
  intros [Hn _]. unfold bucket, set_bucket. simpl. rewrite length_insert.
  case_bool_decide as E.
  - rewrite <-E, list_lookup_insert_eq; [done|]. by apply bucket_index_lt.
  - by rewrite list_lookup_insert_ne.
Qed.

(** Replacing the chain of [k] by one with the same slots for all other keys of
    the chain changes only the entry of [k]. *)
Lemma owmr_view_set_bucket m k b (o : option Z) :
  owmr_wf m →
  bucket_ok (length (buckets_ m)) (bucket_index (length (buckets_ m)) k) b →
  live_slot k b = o →
  (∀ k', k' ≠ k → live_slot k' b = live_slot k' (bucket m k)) →
  owmr_view (set_bucket m k b) = partial_alter (λ _, o) k (owmr_view m).
Proof.
  intros Hwf Hb Ho Hne. apply map_eq. intros k'.
  rewrite owmr_view_bucket by (by apply set_bucket_wf).
  rewrite bucket_set_bucket by done.
  destruct (decide (k' = k)) as [->|Hk].
  - rewrite lookup_partial_alter_eq. by rewrite bool_decide_eq_true_2.
  - rewrite lookup_partial_alter_ne by done. rewrite owmr_view_bucket by done.
    case_bool_decide as E; [|done]. rewrite Hne by done.
    unfold bucket. by rewrite E.
Qed.

(** *** The three loops *)

Lemma update_cell_Some k i b b' :
  update_cell k i b = Some b' →
  key_ <$> b' = key_ <$> b ∧
  (∀ k', find_cell k' b' = if bool_decide (k' = k) then Some i else find_cell k' b) ∧
  (∀ c, c ∈ b' → c = mkCell i k ∨ c ∈ b).
Proof.
  revert b'. induction b as [|c b IH]; intros b'; simpl; [done|].
  case_bool_decide as Hc.
  - intros [= <-]. split; [done|]. split.
    + intros k'. simpl. subst k. repeat case_bool_decide; naive_solver.
    + intros d [->|?]%elem_of_cons; [left; by rewrite Hc|right; by right].
  - destruct (update_cell k i b) as [b''|]; [|done]. intros [= <-].
    destruct (IH b'' eq_refl) as (I1 & I2 & I3). split; [by f_equal/=|]. split.
    + intros k'. simpl. rewrite I2. repeat case_bool_decide; naive_solver.
    + intros d [->|Hd]%elem_of_cons; [right; left|].
      destruct (I3 d Hd); [auto|right; by right].
Qed.

Lemma update_cell_None k i b : update_cell k i b = None → k ∉ key_ <$> b.
Proof.
  induction b as [|c b IH]; simpl; [by intros _ ?%elem_of_nil|].
  case_bool_decide as Hc; [done|].
  destruct (update_cell k i b); [done|]. intros _ [->|?]%elem_of_cons; [done|].
  by apply IH.
Qed.

Lemma find_cell_None k b : find_cell k b = None ↔ k ∉ key_ <$> b.
Proof.
  induction b as [|c b IH]; simpl; [by rewrite elem_of_nil; naive_solver|].
  rewrite elem_of_cons. case_bool_decide; naive_solver.
Qed.

Lemma find_cell_app k b c :
  find_cell k (b ++ [c]) =
    match find_cell k b with
    | Some i => Some i
    | None => if bool_decide (key_ c = k) then Some (idx_ c) else None
    end.
Proof.
  induction b as [|d b IH]; simpl; [done|].
  destruct (bool_decide (key_ d = k)); [done|exact IH].
Qed.

Lemma kill_cell_Some k b b' :
  NoDup (key_ <$> b) → kill_cell k b = Some b' →
  key_ <$> b' = key_ <$> b ∧
  (∀ k', find_cell k' b' = if bool_decide (k' = k) then Some (-1) else find_cell k' b) ∧
  (∀ c, c ∈ b' → c = mkCell (-1) k ∨ c ∈ b) ∧
  (∃ i, find_cell k b = Some i ∧ 0 ≤ i).
Proof.
  revert b'. induction b as [|c b IH]; intros b'; simpl; [done|].
  intros [Hnin Hnd]%NoDup_cons.
  destruct (bool_decide (key_ c = k) && cell_live c) eqn:Hc.
  - apply andb_prop in Hc as [Hk%bool_decide_eq_true Hl]. intros [= <-].
    split; [done|]. split; [|split].
    + intros k'. simpl. subst k. repeat case_bool_decide; naive_solver.
    + intros d [->|?]%elem_of_cons; [left; by rewrite Hk|right; by right].
    + exists (idx_ c). rewrite bool_decide_eq_true_2 by done. split; [done|].
      unfold cell_live in Hl. lia.
  - destruct (kill_cell k b) as [b''|]; [|done]. intros [= <-].
    destruct (IH b'' Hnd eq_refl) as (I1 & I2 & I3 & (i & I4 & I5)).
    assert (key_ c ≠ k) as Hck.
    { intros <-. apply find_cell_Some in I4. apply Hnin.
      apply list_elem_of_fmap. by exists (mkCell i (key_ c)). }
    split; [by f_equal/=|]. split; [|split].
    + intros k'. simpl. rewrite I2. repeat case_bool_decide; naive_solver.
    + intros d [->|Hd]%elem_of_cons; [right; left|].
      destruct (I3 d Hd); [auto|right; by right].
    + exists i. by rewrite bool_decide_eq_false_2.
Qed.

Lemma kill_cell_None k b : NoDup (key_ <$> b) → kill_cell k b = None → live_slot k b = None.
Proof.
  unfold live_slot. induction b as [|c b IH]; simpl; [done|].
  intros [_ Hnd]%NoDup_cons.
  destruct (bool_decide (key_ c = k) && cell_live c) eqn:Hc; [done|].
  destruct (kill_cell k b); [done|]. intros _.
  case_bool_decide as Hk; [|by apply IH].
  rewrite andb_true_l in Hc. unfold cell_live in Hc. by rewrite Hc.
Qed.

(** *** Put, Get and Delete *)

Lemma Get_view m k : owmr_wf m → Get k m = default (-1) (owmr_view m !! k).
Proof.
  intros Hwf. rewrite owmr_view_bucket by done. unfold Get, live_slot.
  destruct (find_cell k (bucket m k)) as [i|] eqn:E; [|done].
  apply find_cell_Some in E. destruct (Z.leb_spec 0 i) as [|Hi]; [done|]. simpl.
  destruct (bucket_wf m k Hwf) as (_ & _ & Hdead & _).
  apply (Hdead _ E). unfold cell_live. simpl. lia.
Qed.

Lemma Put_room m k i :
  owmr_wf m → 0 ≤ i → owmr_room m k = true →
  fst (Put k i m) = true ∧ owmr_wf (snd (Put k i m)) ∧
  owmr_view (snd (Put k i m)) = <[k := i]> (owmr_view m).
Proof.
  intros Hwf Hi Hroom. unfold owmr_room in Hroom. apply negb_true_iff in Hroom.
  destruct (bucket_wf m k Hwf) as (B1 & B2 & B3 & _).
  unfold Put. rewrite Hroom.
  assert (∀ b', bucket_ok (length (buckets_ m)) (bucket_index (length (buckets_ m)) k) b' →
    (∀ k', find_cell k' b' = if bool_decide (k' = k) then Some i else find_cell k' (bucket m k)) →
    owmr_wf (set_bucket m k b') ∧
    owmr_view (set_bucket m k b') = <[k := i]> (owmr_view m)) as Hset.
  { intros b' Hb' Hf. split; [by apply set_bucket_wf|].
    erewrite owmr_view_set_bucket; [reflexivity|done|done|..].
    - unfold live_slot. rewrite Hf, bool_decide_eq_true_2 by done.
      by rewrite (proj2 (Z.leb_le 0 i)).
    - intros k' Hne. unfold live_slot. by rewrite Hf, bool_decide_eq_false_2. }
  destruct (update_cell k i (bucket m k)) as [b'|] eqn:E; simpl.
  - apply update_cell_Some in E as (U1 & U2 & U3).
    split; [done|]. apply Hset; [|done]. repeat split.
    + intros c [->|Hc]%U3; [done|]. by apply B1.
    + by rewrite U1.
    + intros c [->|Hc]%U3 Hl; [unfold cell_live in Hl; simpl in Hl; lia|]. by apply B3.
    + intros c d [->|Hc]%U3 [->|Hd]%U3 Lc Ld; [done|..].
      * by rewrite (not_live_elem _ _ Hroom Hd) in Ld.
      * by rewrite (not_live_elem _ _ Hroom Hc) in Lc.
      * by rewrite (not_live_elem _ _ Hroom Hd) in Ld.
  - apply update_cell_None in E. split; [done|]. apply Hset.
    + repeat split.
      * intros c [Hc| ->%list_elem_of_singleton]%elem_of_app; [by apply B1|done].
      * rewrite fmap_app. apply NoDup_app. split; [done|].
        split; [|apply NoDup_singleton].
        intros k' Hk' ->%list_elem_of_singleton. done.
      * intros c [Hc| ->%list_elem_of_singleton]%elem_of_app Hl; [by apply B3|].
        unfold cell_live in Hl. simpl in Hl. lia.
      * intros c d [Hc| ->%list_elem_of_singleton]%elem_of_app
          [Hd| ->%list_elem_of_singleton]%elem_of_app Lc Ld; [..|done].
        -- by rewrite (not_live_elem _ _ Hroom Hd) in Ld.
        -- by rewrite (not_live_elem _ _ Hroom Hc) in Lc.
        -- by rewrite (not_live_elem _ _ Hroom Hd) in Ld.
    + intros k'. rewrite find_cell_app. simpl.
      apply find_cell_None in E. repeat case_bool_decide; subst; rewrite ?E; try done.
      by destruct (find_cell k' (bucket m k)).
Qed.

Lemma Put_full m k i : owmr_room m k = false → Put k i m = (false, m).
Proof. unfold owmr_room, Put. intros ->%negb_false_iff. done. Qed.

Lemma room_absent m k : owmr_wf m → owmr_room m k = true → owmr_view m !! k = None.
Proof.
  intros Hwf Hr. rewrite owmr_view_bucket by done. apply live_slot_none.
  by apply negb_true_iff.
Qed.

Lemma Delete_view m k :
  owmr_wf m →
  fst (Delete k m) = bool_decide (is_Some (owmr_view m !! k)) ∧
  owmr_wf (snd (Delete k m)) ∧
  owmr_view (snd (Delete k m)) = delete k (owmr_view m).
Proof.
  intros Hwf. destruct (bucket_wf m k Hwf) as (B1 & B2 & B3 & B4).
  rewrite owmr_view_bucket by done. unfold Delete.
  destruct (kill_cell k (bucket m k)) as [b'|] eqn:E; simpl.
  - apply kill_cell_Some in E as (U1 & U2 & U3 & (i & U4 & U5)); [|done].
    assert (bucket_ok (length (buckets_ m)) (bucket_index (length (buckets_ m)) k) b') as Hb'.
    { repeat split.
      - intros c [->|Hc]%U3; [done|]. by apply B1.
      - by rewrite U1.
      - intros c [->|Hc]%U3 Hl; [done|]. by apply B3.
      - intros c d [->|Hc]%U3 [->|Hd]%U3 Lc Ld; try done. by apply B4. }
    split.
    { unfold live_slot. rewrite U4. rewrite (proj2 (Z.leb_le 0 i)) by done.
      symmetry. apply bool_decide_eq_true_2. eauto. }
    split; [by apply set_bucket_wf|].
    erewrite owmr_view_set_bucket; [reflexivity|done|done|..].
    + unfold live_slot. by rewrite U2, bool_decide_eq_true_2.
    + intros k' Hne. unfold live_slot. by rewrite U2, bool_decide_eq_false_2.
  - apply kill_cell_None in E; [|done]. rewrite E. split; [|split]; [|done|].
    + symmetry. apply bool_decide_eq_false_2. by intros [? ?].
    + symmetry. apply delete_id. by rewrite owmr_view_bucket.
Qed.

Lemma owmr_new_wf n : (0 < n)%nat → owmr_wf (owmr_new n).
Proof.
  intros Hn. split; simpl; rewrite ?length_replicate; [done|].
  intros i b [-> _]%lookup_replicate.
  split; [by intros c ?%elem_of_nil|]. split; [constructor|].
  split; [by intros c ?%elem_of_nil|]. by intros c d ?%elem_of_nil.
Qed.

Lemma owmr_new_view n : owmr_view (owmr_new n) = ∅.
Proof.
  unfold owmr_view, owmr_new. simpl. induction n; [done|]. simpl. done.
Qed.

End table.

(** ** Histories of operations

    The writer serialises [Put] and [Delete] with the table's mutex, so a
    history is a sequence of operations with their results. *)

Inductive owmr_op := OpPut (k : string) (i : Z) | OpGet (k : string) | OpDelete (k : string).
Inductive owmr_ret := RBool (b : bool) | RIdx (i : Z).

Definition owmr_step `{StdHash} (op : owmr_op) (m : OneWriterMultiReaderMap) :
    owmr_ret * OneWriterMultiReaderMap :=
  match op with
  | OpPut k i => let '(b, m') := Put k i m in (RBool b, m')
  | OpGet k => (RIdx (Get k m), m)
  | OpDelete k => let '(b, m') := Delete k m in (RBool b, m')
  end.

(** The contract, on a plain finite map: [Put] is accepted only while no live
    key of the map falls into the same one of the [n] buckets. *)
Definition spec_step `{StdHash} (n : nat) (op : owmr_op) (s : gmap string Z) :
    owmr_ret * gmap string Z :=
  match op with
  | OpPut k i =>
      if bool_decide (map_Forall (λ k' _, bucket_index n k' ≠ bucket_index n k) s)
      then (RBool true, <[k := i]> s) else (RBool false, s)
  | OpGet k => (RIdx (default (-1) (s !! k)), s)
  | OpDelete k => (RBool (bool_decide (is_Some (s !! k))), delete k s)
  end.

Fixpoint run {S O R : Type} (step : O → S → R * S) (ops : list O) (s : S) : list R * S :=
  match ops with
  | [] => ([], s)
  | o :: ops' =>
      let '(r, s') := step o s in
      let '(rs, s'') := run step ops' s' in (r :: rs, s'')
  end.

(** Slots are non-negative. *)
Definition op_ok (op : owmr_op) : Prop :=
  match op with OpPut _ i => 0 ≤ i | _ => True end.

Lemma room_spec `{StdHash} m k :
  owmr_wf m →
  owmr_room m k =
    bool_decide (map_Forall (λ k' _, bucket_index (length (buckets_ m)) k' ≠
                                     bucket_index (length (buckets_ m)) k) (owmr_view m)).
Proof.
  intros Hwf. destruct (bucket_wf m k Hwf) as (B1 & B2 & _).
  unfold owmr_room. destruct (existsb cell_live (bucket m k)) eqn:E; simpl.
  - symmetry. apply bool_decide_eq_false_2. intros HF.
    apply existsb_exists in E as ([i k'] & Hin%list_elem_of_In & Hl).
    apply (HF k' i); [|by apply (B1 _ Hin)].
    apply owmr_view_Some; [done|]. split; [|unfold cell_live in Hl; simpl in Hl; lia].
    apply list_elem_of_join. exists (bucket m k). split; [done|].
    eapply list_elem_of_lookup_2, bucket_lookup. done.
  - symmetry. apply bool_decide_eq_true_2. intros k' i Hv Hk.
    rewrite owmr_view_bucket in Hv by done.
    unfold bucket in Hv. rewrite Hk in Hv. fold (bucket m k) in Hv.
    by rewrite (live_slot_none _ _ E) in Hv.
Qed.

Lemma owmr_step_length `{StdHash} op m :
  length (buckets_ (snd (owmr_step op m))) = length (buckets_ m).
Proof.
  destruct op; simpl; unfold Put, Delete; crush; apply length_insert.
Qed.

(** One step of the table is one step of the contract. *)
Lemma owmr_step_refines `{StdHash} op m :
  owmr_wf m → op_ok op →
  owmr_wf (snd (owmr_step op m)) ∧
  spec_step (length (buckets_ m)) op (owmr_view m) =
    (fst (owmr_step op m), owmr_view (snd (owmr_step op m))).
Proof.
  intros Hwf Hop. destruct op as [k i|k|k]; simpl.
  - rewrite <-room_spec by done. destruct (owmr_room m k) eqn:Hr.
    + destruct (Put_room m k i Hwf Hop Hr) as (P1 & P2 & P3).
      destruct (Put k i m) as [b m']; simpl in *. subst b. by rewrite P3.
    + by rewrite (Put_full _ _ _ Hr).
  - by rewrite Get_view.
  - destruct (Delete_view m k Hwf) as (D1 & D2 & D3).
    destruct (Delete k m) as [b m']; simpl in *. by rewrite D1, D3.
Qed.

Lemma owmr_run_refines `{StdHash} ops m :
  owmr_wf m → Forall op_ok ops →
  owmr_wf (snd (run owmr_step ops m)) ∧
  run (spec_step (length (buckets_ m))) ops (owmr_view m) =
    (fst (run owmr_step ops m), owmr_view (snd (run owmr_step ops m))).
Proof.
  intros Hwf Hops. revert m Hwf. induction Hops as [|op ops Hop Hops IH]; intros m Hwf.
  { done. }
  simpl. destruct (owmr_step_refines op m Hwf Hop) as [W E].
  pose proof (owmr_step_length op m) as L. rewrite E.
  destruct (owmr_step op m) as [r m1]; simpl in *.
  destruct (IH m1 W) as [W2 E2]. rewrite L in E2. rewrite E2.
  by destruct (run owmr_step ops m1).
Qed.

Lemma owmr_run_length `{StdHash} ops m :
  length (buckets_ (snd (run owmr_step ops m))) = length (buckets_ m).
Proof.
  revert m. induction ops as [|op ops IH]; intros m; simpl; [done|].
  pose proof (owmr_step_length op m) as L. destruct (owmr_step op m) as [r m1].
  simpl in L. specialize (IH m1). destruct (run owmr_step ops m1); simpl in *. congruence.
Qed.

Lemma owmr_view_inj `{StdHash} m k k' i j :
  owmr_wf m → owmr_view m !! k = Some i → owmr_view m !! k' = Some j →
  bucket_index (length (buckets_ m)) k = bucket_index (length (buckets_ m)) k' → k = k'.
Proof.
  intros Hwf Hk Hk' E. rewrite owmr_view_bucket in Hk, Hk' by done.
  destruct (bucket_wf m k Hwf) as (_ & _ & _ & B4).
  assert (bucket m k' = bucket m k) as Eb by (unfold bucket; by rewrite E).
  rewrite Eb in Hk'. unfold live_slot in Hk, Hk'.
  destruct (find_cell k _) as [i'|] eqn:F; [|done].
  destruct (find_cell k' _) as [j'|] eqn:F'; [|done].
  apply find_cell_Some in F, F'.
  assert (mkCell i' k = mkCell j' k') as [=]; [|done].
  apply B4; try done; unfold cell_live; simpl;
    [by destruct (0 <=? i')|by destruct (0 <=? j')].
Qed.

(** ** The table implements the interface *)

#[export] Instance owmr_index_map `{StdHash} : IndexMap OneWriterMultiReaderMap := {|
  im_put := Put; im_get := Get; im_delete := Delete
|}.

#[export] Program Instance owmr_index_map_spec `{StdHash} :
    IndexMapSpec OneWriterMultiReaderMap := {|
  im_wf := owmr_wf; im_view := owmr_view; im_room := owmr_room
|}.
Next Obligation. by intros ? m k i Hwf [_ ?]%owmr_view_Some. Qed.
Next Obligation. intros. by apply Get_view. Qed.
Next Obligation. intros. by apply Put_room. Qed.
Next Obligation. intros. by apply Put_full. Qed.
Next Obligation. intros. by apply room_absent. Qed.
Next Obligation. intros. by apply Delete_view. Qed.

(** ** Properties *)

(** C26. Every history of [Put], [Get] and [Delete] on a fresh table returns
    what the contract returns on the empty map, and ends in a well-formed table
    that represents the contract's final map. *)
Theorem owmr_refines_spec `{StdHash} (n : nat) (ops : list owmr_op) :
  (0 < n)%nat → Forall op_ok ops →
  owmr_wf (snd (run owmr_step ops (owmr_new n))) ∧
  run (spec_step n) ops ∅ =
    (fst (run owmr_step ops (owmr_new n)),
     owmr_view (snd (run owmr_step ops (owmr_new n)))).
Proof.
  intros Hn Hops. pose proof (owmr_run_refines ops _ (owmr_new_wf n Hn) Hops) as HR.
  rewrite owmr_new_view in HR. simpl in HR. rewrite length_replicate in HR. exact HR.
Qed.

(** A hash for the concrete runs below: the length of the key. *)
#[local] Program Instance length_hash : StdHash := {|
  std_hash s := Z.of_nat (String.length s) `mod` 2 ^ 64
|}.
Next Obligation. intros s. apply Z.mod_pos_bound. lia. Qed.

Lemma owmr_refines_spec_witness :
  let ops := [OpPut "a" 0; OpPut "bb" 1; OpPut "c" 2; OpGet "c"; OpDelete "a";
              OpPut "c" 2; OpGet "c"; OpGet "a"] in
  fst (run owmr_step ops (owmr_new 5)) =
    [RBool true; RBool true; RBool false; RIdx (-1); RBool true; RBool true; RIdx 2;
     RIdx (-1)] ∧
  run (spec_step 5) ops ∅ =
    (fst (run owmr_step ops (owmr_new 5)),
     owmr_view (snd (run owmr_step ops (owmr_new 5)))).
Proof.
  intros ops. split; [vm_compute; reflexivity|].
  apply (owmr_refines_spec 5 ops); [lia|].
  repeat constructor; simpl; lia.
Defined.

(** A bucket holds at most one live key: two live keys of a reachable table
    are in different buckets, so a table of [n] buckets indexes at most [n]
    spaces, and a [Put] that meets a live cell in its bucket is refused and
    leaves its key unknown. *)
Theorem owmr_one_live_key_per_bucket `{StdHash} (n : nat) (ops : list owmr_op) :
  (0 < n)%nat → Forall op_ok ops →
  let m := snd (run owmr_step ops (owmr_new n)) in
  (∀ k k' i j, owmr_view m !! k = Some i → owmr_view m !! k' = Some j →
     bucket_index n k = bucket_index n k' → k = k') ∧
  (size (owmr_view m) ≤ n)%nat ∧
  (∀ k k' i j, owmr_view m !! k' = Some j → bucket_index n k' = bucket_index n k →
     Put k i m = (false, m) ∧ (k ≠ k' → Get k m = -1)).
Proof.
  intros Hn Hops m.
  destruct (owmr_run_refines ops _ (owmr_new_wf n Hn) Hops) as [Hwf _].
  fold m in Hwf.
  assert (length (buckets_ m) = n) as Hlen.
  { unfold m. rewrite owmr_run_length. apply length_replicate. }
  assert (∀ k k' i j, owmr_view m !! k = Some i → owmr_view m !! k' = Some j →
     bucket_index n k = bucket_index n k' → k = k') as Hinj.
  { rewrite <-Hlen. intros k k' i j. by apply owmr_view_inj. }
  split; [exact Hinj|]. split.
  - rewrite <-length_map_to_list, <-(length_fmap fst), <-(length_fmap (bucket_index n)).
    trans (length (seq 0 n)); [|by rewrite length_seq].
    apply submseteq_length, NoDup_submseteq.
    + apply NoDup_fmap_2_strong; [|apply NoDup_fst_map_to_list].
      intros k k' [[? i] [-> Hi%elem_of_map_to_list]]%list_elem_of_fmap
        [[? j] [-> Hj%elem_of_map_to_list]]%list_elem_of_fmap. by eapply Hinj.
    + intros x (k & -> & _)%list_elem_of_fmap.
      apply list_elem_of_In, in_seq. pose proof (bucket_index_lt n k Hn). lia.
  - intros k k' i j Hk' Hb. split.
    + apply Put_full. rewrite room_spec by done. rewrite Hlen.
      apply bool_decide_eq_false_2. intros HF. by apply (HF k' j).
    + intros Hne. rewrite Get_view by done.
      destruct (owmr_view m !! k) as [i'|] eqn:E; [|done].
      destruct Hne. by eapply Hinj.
Qed.

Lemma owmr_one_live_key_per_bucket_witness :
  let ops := [OpPut "db-a" 0; OpPut "db-b" 1] in
  let m := snd (run owmr_step ops (owmr_new 500)) in
  Put "db-b" 1 m = (false, m) ∧ Get "db-b" m = -1 ∧ Get "db-a" m = 0.
Proof.
  intros ops m.
  assert ((0 < 500)%nat) as Hn by lia.
  assert (Forall op_ok ops) as Hops by (repeat constructor; simpl; lia).
  destruct (owmr_one_live_key_per_bucket 500 ops Hn Hops) as (_ & _ & H3).
  destruct (H3 "db-b" "db-a" 1 0) as [P G]; [vm_compute; reflexivity..|].
  split; [exact P|]. split; [|vm_compute; reflexivity].
  apply G. discriminate.
Defined.
