(* ===== verification/Common.v ===== *)
(** * Common: the messages and src/common/{common,common_type}.cc

    The protobuf messages of src/idl/rpc_service_idl as records (an [optional]
    field is an [option]; a protobuf [map] is the list of its entries in
    iteration order; a [float] or [double] is its bit pattern), the field types
    with their names, and the functions that build the keys used in the router,
    in etcd and in braft. *)
From Stdlib Require Import Ascii.
From S2P Require Import Prelude Numeric.
Local Open Scope Z_scope.

(** ** Messages *)

Record Index := mkIndex {
  ix_name : string; ix_type : string; ix_params : option string
}.

Record Field := mkField {
  fd_name : string; fd_type : string;
  fd_dimension : option Z; fd_index : option Index
}.

Record Replica := mkReplica {
  ps_id : Z; ps_ip : string; ps_port : Z;
  is_leader : option Z; node_status : option string; rp_msg : option string
}.

Record Partition := mkPartition {
  partition_id : Z; group_name : string; replicas : list Replica;
  create_time : option string; update_time : option string
}.

Record Space := mkSpace {
  db_name : string; space_name : string; sp_id : Z;
  partition_num : Z; replica_num : Z;
  fields : list Field; partitions : list Partition;
  _id_type : option string;
  ctime : option string; mtime : option string
}.

(** [pb_space._id_type()]: the default of an absent optional string. *)
Definition space_id_type (s : Space) : string := default "" (_id_type s).

Record RespStatus := mkRespStatus { st_code : option Z; st_msg : option string }.

Definition empty_status : RespStatus := mkRespStatus None None.

Record Document := mkDocument {
  _id : option string;
  ints : list (string * Z);
  longs : list (string * Z);
  floats : list (string * Z);
  doubles : list (string * Z);
  strings : list (string * string);
  string_arrays : list (string * list string);
  vectors : list (string * list Z)
}.

Definition empty_document : Document := mkDocument None [] [] [] [] [] [] [].
Definition doc_id (d : Document) : string := default "" (_id d).

Record DocStatus := mkDocStatus { ds_id : string; ds_code : Z; ds_msg : string }.
Record GetRequest := mkGetRequest {
  gq_db_name : string; gq_space_name : string; gq_trace_id : option string; gq_ids : list string
}.
Record GetResponse := mkGetResponse {
  gs_code : Z; gs_msg : string; gs_documents : list Document; gs_failed_docs : list DocStatus
}.
Definition empty_get_response : GetResponse := mkGetResponse 0 "" [] [].
Record SearchResponse := mkSearchResponse {
  ss_code : Z; ss_msg : string; ss_documents : list Document
}.

Inductive ImplType := UPSERT | DELETE | READ.
Inductive KeyType := INT64 | STRING.

Record BlockRequest := mkBlockRequest {
  br_db_name : string; br_space_name : string;
  br_impl_type : ImplType; br_key_type : KeyType; br_key : string
}.

Record BlockResponse := mkBlockResponse {
  bs_success : option bool; bs_redirect : string; bs_msg : string
}.

Definition empty_response : BlockResponse := mkBlockResponse None "" "".
(** [resp.success()] *)
Definition resp_success (r : BlockResponse) : bool := default false (bs_success r).

Definition empty_space : Space := mkSpace "" "" 0 0 0 [] [] None None None.
Definition empty_partition : Partition := mkPartition 0 "" [] None None.

Record CreateSpaceRequest := mkCreateSpaceRequest {
  cs_space : Space; cs_cur_partition : Partition
}.

Definition empty_create_req : CreateSpaceRequest :=
  mkCreateSpaceRequest empty_space empty_partition.

Record PsNodeInfo := mkPsNodeInfo {
  ni_ps_id : Z; ni_ps_ip : string; ni_ps_port : Z; ni_msg : string
}.

Definition empty_node_info : PsNodeInfo := mkPsNodeInfo 0 "" 0 "".

#[export] Instance Index_eq_dec : EqDecision Index.
Proof. solve_decision. Defined.
#[export] Instance Field_eq_dec : EqDecision Field.
Proof. solve_decision. Defined.
#[export] Instance Replica_eq_dec : EqDecision Replica.
Proof. solve_decision. Defined.
#[export] Instance Partition_eq_dec : EqDecision Partition.
Proof. solve_decision. Defined.
#[export] Instance Space_eq_dec : EqDecision Space.
Proof. solve_decision. Defined.
#[export] Instance Document_eq_dec : EqDecision Document.
Proof. solve_decision. Defined.
#[export] Instance ImplType_eq_dec : EqDecision ImplType.
Proof. solve_decision. Defined.
#[export] Instance KeyType_eq_dec : EqDecision KeyType.
Proof. solve_decision. Defined.
#[export] Instance BlockRequest_eq_dec : EqDecision BlockRequest.
Proof. solve_decision. Defined.

(** ** Field types: src/common/common_type.{h,cc} *)

(** [#define _ID "_id"] *)
Definition _ID : string := "_id".

Module DType.
Inductive t := UNDEFINE | INT | LONG | FLOAT | DOUBLE | STRING | STRINGARRAY | VECTOR.
End DType.

#[export] Instance DType_eq_dec : EqDecision DType.t.
Proof. solve_decision. Defined.

Definition UNDEFINE_SDTYPE : string := "undefine".
Definition INT_SDTYPE : string := "int".
Definition LONG_SDTYPE : string := "long".
Definition FLOAT_SDTYPE : string := "float".
Definition DOUBLE_SDTYPE : string := "double".
Definition STRING_SDTYPE : string := "string".
Definition STRINGARRAY_SDTYPE : string := "stringarrry".
Definition VECTOR_SDTYPE : string := "vector".

Definition sdtype_to_dtype : gmap string DType.t :=
  list_to_map [
    (UNDEFINE_SDTYPE, DType.UNDEFINE);
    (INT_SDTYPE, DType.INT);
    (LONG_SDTYPE, DType.LONG);
    (FLOAT_SDTYPE, DType.FLOAT);
    (DOUBLE_SDTYPE, DType.DOUBLE);
    (STRING_SDTYPE, DType.STRING);
    (STRINGARRAY_SDTYPE, DType.STRINGARRAY);
    (VECTOR_SDTYPE, DType.VECTOR)].

Definition SDTypeToDType (sdtype : string) : DType.t :=
  match sdtype_to_dtype !! sdtype with
  | Some d => d
  | None => DType.UNDEFINE
  end.

Definition DTypeToSDType (t : DType.t) : string :=
  match t with
  | DType.INT => INT_SDTYPE
  | DType.LONG => LONG_SDTYPE
  | DType.FLOAT => FLOAT_SDTYPE
  | DType.DOUBLE => DOUBLE_SDTYPE
  | DType.STRING => STRING_SDTYPE
  | DType.STRINGARRAY => STRINGARRAY_SDTYPE
  | DType.VECTOR => VECTOR_SDTYPE
  | DType.UNDEFINE => UNDEFINE_SDTYPE
  end.

Definition IsIdDType (dtype : DType.t) : bool :=
  if bool_decide (dtype = DType.LONG) || bool_decide (dtype = DType.STRING)
  then true else false.

(** ** Keys: src/common/common.cc *)

Definition _etcd_space_prefix : string := "/spaces/mata".
Definition _ps_register_prefix : string := "/nodes/ps/".
Definition _router_register_prefix : string := "/nodes/router/".

Definition GenSpaceKey (db_name space_name : string) : string :=
  db_name +:+ "-" +:+ space_name.

(** The text of one replica, [ip:port:0,]. *)
Definition replica_conf (r : Replica) : string :=
  ps_ip r +:+ ":" +:+ to_string (ps_port r) +:+ ":0,".

Fixpoint raft_conf_loop (rs : list Replica) (conf : string) : string :=
  match rs with
  | [] => conf
  | r :: rs' => raft_conf_loop rs' (conf +:+ replica_conf r)
  end.

Definition GetRaftConf (pb_partition : Partition) : string :=
  raft_conf_loop (replicas pb_partition) "".

Definition GetPsRegisterKV (IP : string) (port ps_id : Z) : string * string :=
  (_ps_register_prefix +:+ ":" +:+ IP +:+ ":" +:+ to_string port +:+ ":" +:+
     to_string ps_id,
   to_string port).

Definition GetPsRegisterKeyPrefixWithIpAndPort (IP : string) (port : Z) : string :=
  _ps_register_prefix +:+ ":" +:+ IP +:+ ":" +:+ to_string port +:+ ":".

Definition GenRouterNodeKey (node_IP : string) (port : Z) : string :=
  _router_register_prefix +:+ ":" +:+ node_IP +:+ ":" +:+ to_string port.

(** ** Lemmas *)

Definition no_char (c : ascii) (s : string) : Prop :=
  str_forall (λ x, negb (Ascii.eqb x c)) s = true.

Definition str_prefix (p s : string) : Prop := ∃ r, s = p +:+ r.

Lemma str_forall_impl (P Q : ascii → bool) s :
  (∀ c, P c = true → Q c = true) → str_forall P s = true → str_forall Q s = true.
Proof.
  intros HPQ. induction s as [|c s IH]; simpl; [done|].
  intros [H1 H2]%andb_prop. by rewrite HPQ, IH.
Qed.

Lemma digits_no_char c s :
  is_digit c = false → str_forall is_digit s = true → no_char c s.
Proof.
  intros Hc. apply str_forall_impl. intros x Hx.
  destruct (Ascii.eqb_spec x c) as [->|]; [congruence|done].
Qed.

Lemma to_string_no_colon z : no_char ":" (to_string z).
Proof.
  unfold to_string. destruct z as [|p|p]; [done|..];
    destruct (pretty_N_decimal (Npos p)) as (Hd & _);
    apply (digits_no_char ":") in Hd; try done.
Qed.

Lemma append_inj_r s t u : s +:+ t = s +:+ u → t = u.
Proof. apply (inj (String.append s)). Qed.

Lemma raft_conf_loop_app rs conf :
  raft_conf_loop rs conf = conf +:+ raft_conf_loop rs "".
Proof.
  revert conf. induction rs as [|r rs IH]; intros conf; simpl.
  - by rewrite append_nil_r.
  - rewrite IH, (IH (_ +:+ _)), append_nil_l. by rewrite append_assoc.
Qed.

(** ** Properties *)

(** Type names and type codes correspond: every code is recovered from its
    name, a name is recovered from its code when it is one of the eight known
    names and becomes the undefined type otherwise, and the id types are
    exactly [long] and [string]. *)
Theorem dtype_names_roundtrip :
  (∀ t, SDTypeToDType (DTypeToSDType t) = t) ∧
  (∀ s, DTypeToSDType (SDTypeToDType s) =
     if bool_decide (is_Some (sdtype_to_dtype !! s)) then s else UNDEFINE_SDTYPE) ∧
  (∀ s, IsIdDType (SDTypeToDType s) = true ↔ s = LONG_SDTYPE ∨ s = STRING_SDTYPE).
Proof.
  assert (∀ s d, sdtype_to_dtype !! s = Some d → DTypeToSDType d = s) as HS.
  { intros s d. unfold sdtype_to_dtype. intros E%elem_of_list_to_map_2.
    repeat (apply elem_of_cons in E as [E|E]; [by simplify_eq|]). by apply elem_of_nil in E. }
  assert (∀ t, SDTypeToDType (DTypeToSDType t) = t) as HT by (by intros []).
  split; [done|]. split.
  - intros s. unfold SDTypeToDType. destruct (sdtype_to_dtype !! s) as [d|] eqn:E.
    + rewrite bool_decide_eq_true_2 by eauto. by apply HS.
    + rewrite bool_decide_eq_false_2; [done|]. by intros [??].
  - intros s. split; [|by intros [-> | ->]].
    unfold SDTypeToDType. destruct (sdtype_to_dtype !! s) as [d|] eqn:E; [|done].
    apply HS in E. subst s. destruct d; naive_solver.
Qed.

(** Among databases whose names contain no ['-'], a space key determines
    the database and the space. *)
Theorem GenSpaceKey_injective (d1 s1 d2 s2 : string) :
  no_char "-" d1 → no_char "-" d2 →
  GenSpaceKey d1 s1 = GenSpaceKey d2 s2 → d1 = d2 ∧ s1 = s2.
Proof. apply append_sep_inj. Qed.

Lemma GenSpaceKey_injective_witness :
  GenSpaceKey "db" "x-y" = GenSpaceKey "db" "x-y" ∧ ("db" = "db" ∧ "x-y" = "x-y").
Proof.
  split; [reflexivity|].
  apply (GenSpaceKey_injective "db" "x-y" "db" "x-y"); reflexivity.
Defined.

(** Without that restriction two different spaces share a key: database
    ["a-b"] with space ["c"], and database ["a"] with space ["b-c"]. *)
Theorem GenSpaceKey_collision :
  ∃ d1 s1 d2 s2, (d1, s1) ≠ (d2, s2) ∧ GenSpaceKey d1 s1 = GenSpaceKey d2 s2.
Proof. by exists "a-b", "c", "a", "b-c". Qed.

(** The etcd range of an address finds exactly the registrations of that
    address: the prefix built from [IP'] and [port'] is a prefix of the key of
    a node at [IP]:[port] if and only if the addresses are equal. *)
Theorem ps_register_prefix_exact (IP IP' : string) (port port' ps_id : Z) :
  no_char ":" IP → no_char ":" IP' →
  str_prefix (GetPsRegisterKeyPrefixWithIpAndPort IP' port')
             (fst (GetPsRegisterKV IP port ps_id)) ↔
  IP' = IP ∧ port' = port.
Proof.
  intros HI HI'. unfold GetPsRegisterKeyPrefixWithIpAndPort, GetPsRegisterKV, str_prefix.
  simpl. split.
  - intros [r E]. rewrite !append_assoc in E.
    apply append_inj_r, append_inj_r in E.
    change (":" +:+ ?x) with (String ":" x) in E.
    apply append_sep_inj in E as [<- E]; [|done..].
    apply append_sep_inj in E as [E _]; [|apply to_string_no_colon..].
    split; [done|]. by apply (inj pretty) in E.
  - intros [-> ->]. exists (to_string ps_id). by rewrite !append_assoc.
Qed.

Lemma ps_register_prefix_exact_witness :
  ¬ str_prefix (GetPsRegisterKeyPrefixWithIpAndPort "10.0.0.1" 80)
               (fst (GetPsRegisterKV "10.0.0.1" 8081 7)).
Proof.
  intros H%(ps_register_prefix_exact "10.0.0.1" "10.0.0.1" 8081 80 7);
    [|reflexivity..]. destruct H as [_ H]. discriminate H.
Defined.
