(* ===== verification/Dto.v ===== *)
(** * Dto: src/common/dto.cc

    Validation of documents and ids against a space's schema, and the
    translation between protobuf documents and the documents of the gamma
    engine.  The engine (a git submodule) is a parameter: [GammaDoc] holds the
    operations of [vearch::Doc] the code calls and [GammaDocLaws] what it relies
    on. *)
From Stdlib Require Import Ascii.
From S2P Require Import Prelude Numeric Bytes Common.
Local Open Scope Z_scope.

(** ** The engine's documents *)

Module DataType.
Inductive t := INT | LONG | FLOAT | DOUBLE | STRING | STRINGARRAY | VECTOR.
End DataType.

#[export] Instance DataType_eq_dec : EqDecision DataType.t.
Proof. solve_decision. Defined.

(** [vearch::Field] *)
Record GField := mkGField {
  gf_name : string; gf_value : string; gf_datatype : DataType.t
}.

(** [vearch::Doc] *)
Class GammaDoc := {
  Doc : Type;
  Doc_new : Doc;
  AddField : GField → Doc → Doc;
  TableFields : Doc → list (string * GField);
  VectorFields : Doc → list (string * GField)
}.

(** [AddField] files a field under its name, vectors apart from the rest; the
    two collections are maps. *)
Class GammaDocLaws `{GammaDoc} : Prop := {
  TableFields_new : TableFields Doc_new = [];
  TableFields_NoDup d : NoDup (TableFields d).*1;
  TableFields_AddField f d :
    list_to_map (M := gmap string GField) (TableFields (AddField f d)) =
      if bool_decide (gf_datatype f = DataType.VECTOR) then list_to_map (TableFields d)
      else <[gf_name f := f]> (list_to_map (TableFields d))
}.

(** ** Entries of a protobuf map *)

Fixpoint pm_find {A} (k : string) (l : list (string * A)) : option A :=
  match l with
  | [] => None
  | (k', v) :: l' => if bool_decide (k' = k) then Some v else pm_find k l'
  end.

Definition pm_count {A} (k : string) (l : list (string * A)) : bool :=
  match pm_find k l with Some _ => true | None => false end.

(** Assignment to the entry of [k]. *)
Fixpoint pm_set {A} (k : string) (v : A) (l : list (string * A)) : list (string * A) :=
  match l with
  | [] => [(k, v)]
  | (k', v') :: l' => if bool_decide (k' = k) then (k', v) :: l' else (k', v') :: pm_set k v l'
  end.

(** ** Validation *)

Definition CheckPbSpace (pb_space : Space) : string := "".

(** The overload without a schema. *)
Definition CheckPbDocNonEmpty (pb_doc : Document) : string :=
  if bool_decide (ints pb_doc = []) && bool_decide (longs pb_doc = []) &&
     bool_decide (floats pb_doc = []) && bool_decide (doubles pb_doc = []) &&
     bool_decide (strings pb_doc = []) && bool_decide (string_arrays pb_doc = []) &&
     bool_decide (vectors pb_doc = [])
  then "Document is empty" else "".

Definition msg_missing (name type : string) : string :=
  "Missing field in document: name = " +:+ name +:+ ", type = " +:+ type +:+ "; ".

(** What one iteration over the schema appends to the error text. *)
Definition check_field (pb_doc : Document) (field : Field) : string :=
  let name := fd_name field in
  let type := fd_type field in
  let report (found : bool) := if found then "" else msg_missing name type in
  if bool_decide (type = INT_SDTYPE) then report (pm_count name (ints pb_doc))
  else if bool_decide (type = LONG_SDTYPE) then report (pm_count name (longs pb_doc))
  else if bool_decide (type = FLOAT_SDTYPE) then report (pm_count name (floats pb_doc))
  else if bool_decide (type = DOUBLE_SDTYPE) then report (pm_count name (doubles pb_doc))
  else if bool_decide (type = STRING_SDTYPE) then report (pm_count name (strings pb_doc))
  else if bool_decide (type = STRINGARRAY_SDTYPE) then
    report (pm_count name (string_arrays pb_doc))
  else if bool_decide (type = VECTOR_SDTYPE) then
    match pm_find name (vectors pb_doc) with
    | Some v =>
        match fd_dimension field with
        | Some dim =>
            if negb (dim =? Z.of_nat (length v)) then
              "Field [" +:+ name +:+ "] vector dimension mismatch: expected " +:+
              to_string dim +:+ ", got " +:+ to_string (Z.of_nat (length v)) +:+ "; "
            else report true
        | None => report true
        end
    | None => report false
    end
  else "Unknown type for field [" +:+ name +:+ "]: " +:+ type +:+ "; ".

Fixpoint check_fields (pb_doc : Document) (fs : list Field) (oss : string) : string :=
  match fs with
  | [] => oss
  | f :: fs' => check_fields pb_doc fs' (oss +:+ check_field pb_doc f)
  end.

Definition CheckPbDoc (pb_doc : Document) (space : Space) : string :=
  if bool_decide (doc_id pb_doc = "") then "Document _id is empty"
  else
    let status := if bool_decide (space_id_type space = LONG_SDTYPE)
                  then fst (StrToInt64 (doc_id pb_doc) 0) else "" in
    if! status then status else check_fields pb_doc (fields space) "".

(** The loop over the ids; [st] is the set of the ids seen so far. *)
Fixpoint check_ids (long_id : bool) (doc_keys : list string) (st : gset string) : string :=
  match doc_keys with
  | [] => ""
  | key :: rest =>
      if bool_decide (key = "") then "Document key is empty"
      else
        let status := if long_id then fst (StrToInt64 key 0) else "" in
        if! status then "_id:" +:+ key +:+ " StrToInt64 failed: " +:+ status
        else if bool_decide (key ∈ st) then "Duplicate document key: " +:+ key
        else check_ids long_id rest ({[key]} ∪ st)
  end.

Definition CheckPbIds (doc_keys : list string) (space : Space) : string :=
  check_ids (bool_decide (space_id_type space = LONG_SDTYPE)) doc_keys ∅.

(** ** From protobuf to the engine *)

(** [gamma_field.value += val + ","] over the array, then [pop_back]. *)
Definition join_commas (l : list string) : string :=
  fold_left (λ acc v, acc +:+ v +:+ ",") l "".

Fixpoint pop_back (s : string) : string :=
  match s with
  | EmptyString => EmptyString
  | String c EmptyString => EmptyString
  | String c t => String c (pop_back t)
  end.

Definition int_field (kv : string * Z) : GField :=
  mkGField kv.1 (str_of (le_bytes 4 kv.2)) DataType.INT.
Definition long_field (kv : string * Z) : GField :=
  mkGField kv.1 (str_of (le_bytes 8 kv.2)) DataType.LONG.
Definition float_field (kv : string * Z) : GField :=
  mkGField kv.1 (str_of (le_bytes 4 kv.2)) DataType.FLOAT.
Definition double_field (kv : string * Z) : GField :=
  mkGField kv.1 (str_of (le_bytes 8 kv.2)) DataType.DOUBLE.
Definition string_field (kv : string * string) : GField :=
  mkGField kv.1 kv.2 DataType.STRING.
Definition string_array_field (kv : string * list string) : GField :=
  mkGField kv.1 (pop_back (join_commas kv.2)) DataType.STRINGARRAY.
Definition vector_field (kv : string * list Z) : GField :=
  mkGField kv.1 (str_of (mjoin (le_bytes 4 <$> kv.2))) DataType.VECTOR.

Section gamma.
Context `{GammaDoc}.

(** [for (const auto& [key, value] : map) gamma_doc.AddField(...)] *)
Definition add_fields {A} (mk : string * A → GField) (l : list (string * A)) (d : Doc) : Doc :=
  fold_left (λ d kv, AddField (mk kv) d) l d.

(** The status and the final value of [gamma_doc]. *)
Definition PbDocToGammaDoc (pb_doc : Document) (space : Space) (gamma_doc : Doc) :
    string * Doc :=
  if bool_decide (space_id_type space = LONG_SDTYPE) then
    let '(status, id_value) := StrToInt64 (doc_id pb_doc) 0 in
    if! status then
      ("request Document _id:" +:+ doc_id pb_doc +:+ " StrToInt64 failed: " +:+ status,
       gamma_doc)
    else
      let d := AddField (long_field (_ID, id_value)) gamma_doc in
      let d := add_fields int_field (ints pb_doc) d in
      let d := add_fields long_field (longs pb_doc) d in
      let d := add_fields float_field (floats pb_doc) d in
      let d := add_fields double_field (doubles pb_doc) d in
      let d := add_fields string_field (strings pb_doc) d in
      let d := add_fields string_array_field (string_arrays pb_doc) d in
      let d := add_fields vector_field (vectors pb_doc) d in
      ("", d)
  else
    (* The second test of the source repeats [LONG_SDTYPE], so it never holds. *)
    ("Unsupported _id type: " +:+ space_id_type space, gamma_doc).

(** ** From the engine to protobuf *)

(** [while (std::getline(iss, item, ','))] *)
Fixpoint getline_items (s cur : string) : list string :=
  match s with
  | EmptyString => [cur]
  | String c t =>
      if Ascii.eqb c "," then
        cur :: match t with EmptyString => [] | _ => getline_items t "" end
      else getline_items t (cur +:+ String c "")
  end.

Definition getline_split (s : string) : list string :=
  match s with EmptyString => [] | _ => getline_items s "" end.

(** A read through [field.value.c_str()]: the bytes of the value and the
    terminating zero. *)
Definition read_value (n : nat) (f : GField) : option Z :=
  read_le n (bytes_of (gf_value f) ++ [byte_of 0]).

(** One iteration of the first loop; [None] is a read past the buffer. *)
Definition table_field_to_pb (pb : Document) (nf : string * GField) : option Document :=
  let '(name, field) := nf in
  let '(mkDocument id mi ml mf md ms ma mv) := pb in
  match gf_datatype field with
  | DataType.INT =>
      v ← read_value 4 field; Some (mkDocument id (pm_set name (int32 v) mi) ml mf md ms ma mv)
  | DataType.LONG =>
      v ← read_value 8 field; Some (mkDocument id mi (pm_set name (int64 v) ml) mf md ms ma mv)
  | DataType.FLOAT =>
      v ← read_value 4 field; Some (mkDocument id mi ml (pm_set name v mf) md ms ma mv)
  | DataType.DOUBLE =>
      v ← read_value 8 field; Some (mkDocument id mi ml mf (pm_set name v md) ms ma mv)
  | DataType.STRING =>
      Some (mkDocument id mi ml mf md (pm_set name (gf_value field) ms) ma mv)
  | DataType.STRINGARRAY =>
      let old := default [] (pm_find name ma) in
      Some (mkDocument id mi ml mf md ms
              (pm_set name (old ++ getline_split (gf_value field)) ma) mv)
  | DataType.VECTOR => Some pb
  end.

Fixpoint table_fields_to_pb (l : list (string * GField)) (pb : Document) : option Document :=
  match l with
  | [] => Some pb
  | nf :: l' => pb' ← table_field_to_pb pb nf; table_fields_to_pb l' pb'
  end.

(** The floats read from a value: one per four bytes. *)
Definition value_floats (value : string) : list Z :=
  (λ i, le_value (take 4 (drop (4 * i) (bytes_of value)))) <$>
    seq 0 (String.length value / 4).

Definition field_to_vector (pb : Document) (nf : string * GField) : Document :=
  let '(name, field) := nf in
  let '(mkDocument id mi ml mf md ms ma mv) := pb in
  let old := default [] (pm_find name mv) in
  mkDocument id mi ml mf md ms ma (pm_set name (old ++ value_floats (gf_value field)) mv).

(** The second loop runs over [table_fields] again, not over [vector_fields]. *)
Definition GammaDocToPbDoc (gamma_doc : Doc) : option Document :=
  let table_fields := TableFields gamma_doc in
  pb ← table_fields_to_pb table_fields empty_document;
  Some (fold_left field_to_vector table_fields pb).

End gamma.

Definition GetPbDocKey (pb_doc : Document) (id_dtype : DType.t) : string :=
  if bool_decide (id_dtype = DType.LONG) then
    match pm_find _ID (longs pb_doc) with
    | Some value => to_string value
    | None => ""
    end
  else if bool_decide (id_dtype = DType.STRING) then
    match pm_find _ID (strings pb_doc) with
    | Some value => value
    | None => ""
    end
  else "".

(** ** The engine's table *)

Definition ToGammaDtype (data_type : string) : DataType.t :=
  if bool_decide (data_type = INT_SDTYPE) then DataType.INT
  else if bool_decide (data_type = FLOAT_SDTYPE) then DataType.FLOAT
  else if bool_decide (data_type = DOUBLE_SDTYPE) then DataType.DOUBLE
  else if bool_decide (data_type = STRING_SDTYPE) then DataType.STRING
  else if bool_decide (data_type = VECTOR_SDTYPE) then DataType.VECTOR
  else DataType.INT.

(** [vearch::FieldInfo] and [vearch::VectorInfo], the members the code sets. *)
Record FieldInfo := mkFieldInfo {
  fi_name : string; fi_data_type : DataType.t; fi_is_index : bool
}.
Record VectorInfo := mkVectorInfo {
  vi_name : string; vi_data_type : DataType.t; vi_is_index : bool;
  vi_dimension : Z; vi_store_param : string
}.

(** [vearch::TableInfo] *)
Class GammaTable := {
  TableInfo : Type;
  TableInfo_new : TableInfo;
  SetName : string → TableInfo → TableInfo;
  SetIndexType : string → TableInfo → TableInfo;
  SetIndexParams : string → TableInfo → TableInfo;
  AddVectorInfo : VectorInfo → TableInfo → TableInfo;
  AddFieldInfo : FieldInfo → TableInfo → TableInfo
}.

Section table.
Context `{GammaTable}.

Definition add_table_field (t : TableInfo) (field : Field) : TableInfo :=
  let file_type := fd_type field in
  let index := default (mkIndex "" "" None) (fd_index field) in
  if bool_decide (fd_type field = "vector") then
    let params := default "" (ix_params index) in
    let vector_info :=
      mkVectorInfo (fd_name field) (ToGammaDtype file_type) true
        (default 0 (fd_dimension field)) params in
    AddVectorInfo vector_info (SetIndexParams params (SetIndexType (ix_type index) t))
  else
    AddFieldInfo (mkFieldInfo (fd_name field) (ToGammaDtype file_type)
                    (bool_decide (is_Some (fd_index field)))) t.

Definition GetGammaTable (space : Space) : TableInfo :=
  fold_left add_table_field (fields space) (SetName (space_name space) TableInfo_new).

End table.

(** ** Specifications *)

(** A document provides the schema field [f] with the field's type and, for a
    vector of a declared dimension, that many components. *)
Definition field_conforms (d : Document) (f : Field) : Prop :=
  match SDTypeToDType (fd_type f) with
  | DType.INT => is_Some (pm_find (fd_name f) (ints d))
  | DType.LONG => is_Some (pm_find (fd_name f) (longs d))
  | DType.FLOAT => is_Some (pm_find (fd_name f) (floats d))
  | DType.DOUBLE => is_Some (pm_find (fd_name f) (doubles d))
  | DType.STRING => is_Some (pm_find (fd_name f) (strings d))
  | DType.STRINGARRAY => is_Some (pm_find (fd_name f) (string_arrays d))
  | DType.VECTOR => ∃ v, pm_find (fd_name f) (vectors d) = Some v ∧
      ∀ dim, fd_dimension f = Some dim → dim = Z.of_nat (length v)
  | DType.UNDEFINE => False
  end.

(** An id is acceptable for the space: not empty, and an [int64_t] where ids
    are of type long. *)
Definition id_conforms (s : Space) (id : string) : Prop :=
  id ≠ "" ∧
  (space_id_type s = LONG_SDTYPE → ∃ v, int_literal id v ∧ in_int64 v).

Definition doc_conforms (d : Document) (s : Space) : Prop :=
  id_conforms s (doc_id d) ∧ Forall (field_conforms d) (fields s).

(** The type with which [PbDocToGammaDoc] writes a field of each type. *)
Definition written_type (t : DType.t) : option DataType.t :=
  match t with
  | DType.INT => Some (gf_datatype (int_field ("", 0)))
  | DType.LONG => Some (gf_datatype (long_field ("", 0)))
  | DType.FLOAT => Some (gf_datatype (float_field ("", 0)))
  | DType.DOUBLE => Some (gf_datatype (double_field ("", 0)))
  | DType.STRING => Some (gf_datatype (string_field ("", "")))
  | DType.STRINGARRAY => Some (gf_datatype (string_array_field ("", [])))
  | DType.VECTOR => Some (gf_datatype (vector_field ("", [])))
  | DType.UNDEFINE => None
  end.

(** The table entries of the translation of [d] with the id [idv]. *)
Definition named {A} (mk : string * A → GField) (kv : string * A) : string * GField :=
  (kv.1, mk kv).

Definition table_entries (idv : Z) (d : Document) : list (string * GField) :=
  named long_field (_ID, idv) ::
  (named int_field <$> ints d) ++ (named long_field <$> longs d) ++
  (named float_field <$> floats d) ++ (named double_field <$> doubles d) ++
  (named string_field <$> strings d) ++ (named string_array_field <$> string_arrays d).

(** An array that survives the comma-separated encoding. *)
Definition array_ok (l : list string) : Prop :=
  Forall (no_char ",") l ∧ last l ≠ Some "".

Definition doc_wf (idv : Z) (d : Document) : Prop :=
  NoDup (table_entries idv d).*1 ∧
  Forall (λ kv, in_int32 kv.2) (ints d) ∧ Forall (λ kv, in_int64 kv.2) (longs d) ∧
  Forall (λ kv, 0 ≤ kv.2 < 2 ^ 32) (floats d) ∧
  Forall (λ kv, 0 ≤ kv.2 < 2 ^ 64) (doubles d) ∧
  Forall (λ kv, array_ok kv.2) (string_arrays d).

(** Decoding of one table field, by type. *)
Definition dec_int (nf : string * GField) : option (string * Z) :=
  if bool_decide (gf_datatype nf.2 = DataType.INT)
  then v ← read_value 4 nf.2; Some (nf.1, int32 v) else None.
Definition dec_long (nf : string * GField) : option (string * Z) :=
  if bool_decide (gf_datatype nf.2 = DataType.LONG)
  then v ← read_value 8 nf.2; Some (nf.1, int64 v) else None.
Definition dec_float (nf : string * GField) : option (string * Z) :=
  if bool_decide (gf_datatype nf.2 = DataType.FLOAT)
  then v ← read_value 4 nf.2; Some (nf.1, v) else None.
Definition dec_double (nf : string * GField) : option (string * Z) :=
  if bool_decide (gf_datatype nf.2 = DataType.DOUBLE)
  then v ← read_value 8 nf.2; Some (nf.1, v) else None.
Definition dec_string (nf : string * GField) : option (string * string) :=
  if bool_decide (gf_datatype nf.2 = DataType.STRING)
  then Some (nf.1, gf_value nf.2) else None.
Definition dec_array (nf : string * GField) : option (string * list string) :=
  if bool_decide (gf_datatype nf.2 = DataType.STRINGARRAY)
  then Some (nf.1, getline_split (gf_value nf.2)) else None.

Definition readable (nf : string * GField) : Prop :=
  match gf_datatype nf.2 with
  | DataType.INT | DataType.FLOAT => is_Some (read_value 4 nf.2)
  | DataType.LONG | DataType.DOUBLE => is_Some (read_value 8 nf.2)
  | _ => True
  end.

(** ** Lemmas *)

Lemma pm_find_None {A} k (l : list (string * A)) : pm_find k l = None ↔ k ∉ l.*1.
Proof.
  induction l as [|[k' v] l IH]; simpl; [by rewrite elem_of_nil; naive_solver|].
  rewrite elem_of_cons. case_bool_decide; naive_solver.
Qed.

Lemma pm_count_true {A} k (l : list (string * A)) :
  pm_count k l = true ↔ is_Some (pm_find k l).
Proof. unfold pm_count. destruct (pm_find k l); naive_solver. Qed.

Lemma pm_find_elem {A} k (l : list (string * A)) v :
  NoDup l.*1 → (k, v) ∈ l → pm_find k l = Some v.
Proof.
  induction l as [|[k' v'] l IH]; simpl; [by rewrite elem_of_nil|].
  rewrite NoDup_cons, elem_of_cons. intros [Hn Hd] [[= -> ->]|Hin].
  - by rewrite bool_decide_eq_true_2.
  - rewrite bool_decide_eq_false_2; [by apply IH|]. intros ->. apply Hn.
    by apply (list_elem_of_fmap_2 fst) in Hin.
Qed.

Lemma pm_set_fresh {A} k (v : A) l : k ∉ l.*1 → pm_set k v l = l ++ [(k, v)].
Proof.
  induction l as [|[k' v'] l IH]; simpl; [done|].
  intros [? ?]%not_elem_of_cons. rewrite bool_decide_eq_false_2 by done. by rewrite IH.
Qed.

Lemma report_empty (b : bool) name type :
  (if b then "" else msg_missing name type) = "" ↔ b = true.
Proof. by destruct b. Qed.

(** Case analysis on a type name. *)
Lemma sdtype_cases (P : DType.t → string → Prop) s :
  P DType.INT INT_SDTYPE → P DType.LONG LONG_SDTYPE → P DType.FLOAT FLOAT_SDTYPE →
  P DType.DOUBLE DOUBLE_SDTYPE → P DType.STRING STRING_SDTYPE →
  P DType.STRINGARRAY STRINGARRAY_SDTYPE → P DType.VECTOR VECTOR_SDTYPE →
  (s ≠ INT_SDTYPE → s ≠ LONG_SDTYPE → s ≠ FLOAT_SDTYPE → s ≠ DOUBLE_SDTYPE →
   s ≠ STRING_SDTYPE → s ≠ STRINGARRAY_SDTYPE → s ≠ VECTOR_SDTYPE →
   SDTypeToDType s = DType.UNDEFINE → P DType.UNDEFINE s) →
  P (SDTypeToDType s) s.
Proof.
  intros H1 H2 H3 H4 H5 H6 H7 H8.
  destruct (decide (s = INT_SDTYPE)) as [->|]; [done|].
  destruct (decide (s = LONG_SDTYPE)) as [->|]; [done|].
  destruct (decide (s = FLOAT_SDTYPE)) as [->|]; [done|].
  destruct (decide (s = DOUBLE_SDTYPE)) as [->|]; [done|].
  destruct (decide (s = STRING_SDTYPE)) as [->|]; [done|].
  destruct (decide (s = STRINGARRAY_SDTYPE)) as [->|]; [done|].
  destruct (decide (s = VECTOR_SDTYPE)) as [->|]; [done|].
  assert (SDTypeToDType s = DType.UNDEFINE) as E.
  { unfold SDTypeToDType. destruct (sdtype_to_dtype !! s) as [d|] eqn:El; [|done].
    apply elem_of_list_to_map_2 in El.
    repeat (apply elem_of_cons in El as [El|El]; [by simplify_eq|]).
    by apply elem_of_nil in El. }
  rewrite E. by apply H8.
Qed.

Lemma check_field_conforms d f : check_field d f = "" ↔ field_conforms d f.
Proof.
  destruct f as [name type dim ix]. unfold check_field, field_conforms. simpl.
  pattern (SDTypeToDType type), type. apply sdtype_cases.
  1-6: simpl; by rewrite report_empty, pm_count_true.
  - simpl. destruct (pm_find name (vectors d)) as [v|]; [|by split; [|intros (?&?&?)]].
    destruct dim as [dim|]; [|by split; [exists v|]].
    destruct (Z.eqb_spec dim (Z.of_nat (length v))) as [->|Hne]; simpl.
    + split; [|done]. intros _. exists v. split; [done|]. by intros ? [= ->].
    + split; [done|]. intros (v' & [= <-] & Hd). by destruct Hne; apply Hd.
  - intros ??????? ->. do 7 (rewrite bool_decide_eq_false_2 by done).
    split; [discriminate|done].
Qed.

Lemma check_fields_spec d fs oss :
  check_fields d fs oss = "" ↔ oss = "" ∧ Forall (field_conforms d) fs.
Proof.
  revert oss. induction fs as [|f fs IH]; intros oss; simpl; [naive_solver|].
  rewrite IH, append_eq_nil, check_field_conforms, Forall_cons. naive_solver.
Qed.


Lemma check_ids_spec long_id keys st :
  check_ids long_id keys st = "" ↔
    Forall (λ k, k ≠ "" ∧ (long_id = true → fst (StrToInt64 k 0) = "")) keys ∧
    NoDup keys ∧ Forall (λ k, k ∉ st) keys.
Proof.
  revert st. induction keys as [|k keys IH]; intros st; simpl.
  { split; [|done]. intros _. repeat constructor. }
  rewrite NoDup_cons, !Forall_cons.
  case_bool_decide as Hk; [split; [done|naive_solver]|].
  destruct (failed (if long_id then fst (StrToInt64 k 0) else "")) eqn:Ef.
  { split; [discriminate|]. intros [[[_ Hp] _] _]. destruct long_id; [|done].
    apply failed_true in Ef. by rewrite Hp in Ef. }
  apply failed_false in Ef.
  case_bool_decide as Hst; [split; [discriminate|naive_solver]|].
  rewrite IH. split.
  - intros (H1 & H2 & H3). split; [split; [split; [done|]|done]|].
    { by intros ->. }
    split; [split; [|done]|split; [done|]].
    + intros Hin. rewrite Forall_forall in H3. specialize (H3 k Hin). set_solver.
    + eapply Forall_impl; [exact H3|]. set_solver.
  - intros ([_ H1] & [H2 H3] & [_ H4]). split; [done|]. split; [done|].
    rewrite Forall_forall in H4 |- *. intros x Hx. specialize (H4 x Hx).
    assert (x ≠ k) by (by intros ->). set_solver.
Qed.

Lemma CheckPbIds_NoDup keys s : CheckPbIds keys s = "" → NoDup keys.
Proof. by intros (_ & ? & _)%check_ids_spec. Qed.

(** *** The comma-separated arrays *)

Lemma join_commas_acc l acc :
  fold_left (λ acc v, acc +:+ v +:+ ",") l acc = acc +:+ join_commas l.
Proof.
  unfold join_commas. revert acc. induction l as [|x l IH]; intros acc; simpl.
  - by rewrite append_nil_r.
  - rewrite IH, (IH ("" +:+ _)), append_nil_l. by rewrite append_assoc.
Qed.

Lemma join_commas_cons x l : join_commas (x :: l) = x +:+ "," +:+ join_commas l.
Proof.
  unfold join_commas at 1. simpl. rewrite join_commas_acc, append_nil_l.
  by rewrite append_assoc.
Qed.

Lemma pop_back_comma s : pop_back (s +:+ ",") = s.
Proof.
  induction s as [|c s IH]; [done|]. rewrite append_cons. simpl. rewrite IH.
  by destruct s.
Qed.

Lemma pop_back_join l x : pop_back (join_commas (l ++ [x])) = join_commas l +:+ x.
Proof.
  assert (join_commas (l ++ [x]) = (join_commas l +:+ x) +:+ ",") as ->.
  { induction l as [|y l IH]; simpl; [by rewrite append_nil_l|].
    rewrite !join_commas_cons, IH. by rewrite !append_assoc. }
  apply pop_back_comma.
Qed.

Lemma getline_items_nocomma a t cur :
  no_char "," a → getline_items (a +:+ t) cur = getline_items t (cur +:+ a).
Proof.
  revert cur. induction a as [|c a IH]; intros cur Ha.
  - by rewrite append_nil_l, append_nil_r.
  - rewrite append_cons. unfold no_char in Ha. simpl in Ha.
    apply andb_prop in Ha as [Hc%negb_true_iff Ha]. simpl. rewrite Hc, IH by done.
    by rewrite append_assoc, append_cons, append_nil_l.
Qed.

Lemma getline_items_join l x :
  Forall (no_char ",") l → no_char "," x → x ≠ "" →
  getline_items (join_commas l +:+ x) "" = l ++ [x].
Proof.
  intros Hl Hx Hne. induction Hl as [|y l Hy Hl IH].
  - unfold join_commas. simpl. rewrite append_nil_l.
    pose proof (getline_items_nocomma x "" "" Hx) as E.
    by rewrite append_nil_r, append_nil_l in E.
  - rewrite join_commas_cons, !append_assoc, getline_items_nocomma by done.
    rewrite append_nil_l, append_cons, append_nil_l. cbn [getline_items].
    rewrite Ascii.eqb_refl. simpl. f_equal. rewrite IH.
    destruct (join_commas l +:+ x) eqn:E; [|done].
    apply append_eq_nil in E as [_ ->]. done.
Qed.

Lemma array_roundtrip l : array_ok l → getline_split (pop_back (join_commas l)) = l.
Proof.
  intros [Hc Hl]. destruct l as [|x l _] using rev_ind; [done|].
  rewrite last_snoc in Hl. assert (x ≠ "") as Hx by congruence.
  apply Forall_app in Hc as [Hc [Hcx _]%Forall_cons].
  rewrite pop_back_join. unfold getline_split.
  destruct (join_commas l +:+ x) eqn:E.
  { apply append_eq_nil in E as [_ ->]. done. }
  rewrite <-E. by apply getline_items_join.
Qed.

(** *** Reading the engine's fields back *)



(** Keys of the remaining entries are not in the maps built so far. *)
Definition fresh_for (ks : list string) (pb : Document) : Prop :=
  ∀ k, k ∈ ks → k ∉ (ints pb).*1 ∧ k ∉ (longs pb).*1 ∧ k ∉ (floats pb).*1 ∧
    k ∉ (doubles pb).*1 ∧ k ∉ (strings pb).*1 ∧ k ∉ (string_arrays pb).*1.

Definition add_decoded (l : list (string * GField)) (pb : Document) : Document :=
  mkDocument (_id pb) (ints pb ++ omap dec_int l) (longs pb ++ omap dec_long l)
    (floats pb ++ omap dec_float l) (doubles pb ++ omap dec_double l)
    (strings pb ++ omap dec_string l) (string_arrays pb ++ omap dec_array l) (vectors pb).

Lemma table_field_to_pb_fresh pb nf :
  readable nf → fresh_for [nf.1] pb →
  table_field_to_pb pb nf = Some (add_decoded [nf] pb).
Proof.
  destruct nf as [k f], pb as [id mi ml mf md ms ma mv]. intros Hr Hf.
  destruct (Hf k) as (F1 & F2 & F3 & F4 & F5 & F6); [by left|]. simpl in *.
  unfold readable in Hr. unfold table_field_to_pb, add_decoded, dec_int, dec_long,
    dec_float, dec_double, dec_string, dec_array. simpl in *.
  destruct (gf_datatype f); simpl; rewrite ?app_nil_r;
    try match type of Hr with is_Some _ => destruct Hr as [? Hr]; rewrite Hr end; simpl; rewrite ?pm_set_fresh by done; try done.
  apply pm_find_None in F6 as ->. done.
Qed.

Lemma dec_keys (l : list (string * GField)) k :
  k ∉ l.*1 →
  k ∉ (omap dec_int l).*1 ∧ k ∉ (omap dec_long l).*1 ∧ k ∉ (omap dec_float l).*1 ∧
  k ∉ (omap dec_double l).*1 ∧ k ∉ (omap dec_string l).*1 ∧ k ∉ (omap dec_array l).*1.
Proof.
  intros Hk.
  assert (∀ A (g : string * GField → option (string * A)),
    (∀ nf kv, g nf = Some kv → kv.1 = nf.1) → k ∉ (omap g l).*1) as Hg.
  { intros A g Hg (kv & -> & Hin)%list_elem_of_fmap.
    apply list_elem_of_omap in Hin as (nf & Hnf & E). apply Hk.
    rewrite (Hg _ _ E). by apply list_elem_of_fmap_2. }
  repeat split; apply Hg; intros nf kv;
    unfold dec_int, dec_long, dec_float, dec_double, dec_string, dec_array;
    case_bool_decide; try done; try (by intros [= <-]);
    destruct (read_value _ _); simpl; naive_solver.
Qed.

Lemma table_fields_to_pb_fresh l pb :
  NoDup l.*1 → Forall readable l → fresh_for l.*1 pb →
  table_fields_to_pb l pb = Some (add_decoded l pb).
Proof.
  intros Hnd Hr. revert pb Hnd. induction Hr as [|nf l Hnf Hr IH]; intros pb Hnd Hf.
  { destruct pb. unfold add_decoded. simpl. by rewrite !app_nil_r. }
  simpl in Hnd. apply NoDup_cons in Hnd as [Hnin Hnd].
  cbn [table_fields_to_pb]. rewrite table_field_to_pb_fresh; [|done|].
  2:{ intros k ->%list_elem_of_singleton. apply Hf. by left. }
  cbn [mbind option_bind]. rewrite IH; [|done|].
  - f_equal. unfold add_decoded. simpl.
    f_equal; repeat case_match; simpl; by rewrite <-?app_assoc, ?app_nil_r.
  - intros k Hk. destruct (Hf k) as (F1 & F2 & F3 & F4 & F5 & F6); [by right|].
    destruct (dec_keys [nf] k) as (G1 & G2 & G3 & G4 & G5 & G6).
    { intros ->%list_elem_of_singleton. done. }
    unfold add_decoded. cbn [ints longs floats doubles strings string_arrays].
    rewrite !fmap_app, !not_elem_of_app. done.
Qed.

Lemma fold_field_to_vector l pb :
  NoDup l.*1 → (∀ k, k ∈ l.*1 → k ∉ (vectors pb).*1) →
  fold_left field_to_vector l pb =
    mkDocument (_id pb) (ints pb) (longs pb) (floats pb) (doubles pb) (strings pb)
      (string_arrays pb)
      (vectors pb ++ ((λ nf, (nf.1, value_floats (gf_value nf.2))) <$> l)).
Proof.
  revert pb. induction l as [|[k f] l IH]; intros pb Hnd Hf.
  { destruct pb. simpl. by rewrite app_nil_r. }
  simpl in Hnd. apply NoDup_cons in Hnd as [Hnin Hnd]. simpl.
  destruct pb as [id mi ml mf md ms ma mv]. simpl in *.
  assert (k ∉ mv.*1) as Hk by (apply Hf; by left).
  rewrite pm_set_fresh by done. apply pm_find_None in Hk as ->.
  rewrite IH; [|done|].
  - simpl. by rewrite <-app_assoc.
  - simpl. intros k' Hk'. rewrite fmap_app, not_elem_of_app. split.
    + apply Hf. by right.
    + intros ->%list_elem_of_singleton. done.
Qed.

(** *** The fields of a translated document *)

Section translated.
Context `{GammaDocLaws}.

Notation tf d := (list_to_map (M := gmap string GField) (TableFields d)).

Lemma add_fields_table {A} (mk : string * A → GField) l d L :
  (∀ kv, gf_name (mk kv) = kv.1) → (∀ kv, gf_datatype (mk kv) ≠ DataType.VECTOR) →
  tf d = list_to_map L →
  tf (add_fields mk l d) = list_to_map (reverse (named mk <$> l) ++ L).
Proof.
  intros Hn Ht. revert d L. induction l as [|kv l IH]; intros d L Hd; [done|].
  cbn [fmap list_fmap]. rewrite reverse_cons, <-app_assoc. apply IH. simpl.
  rewrite TableFields_AddField, bool_decide_eq_false_2 by apply Ht.
  by rewrite Hn, Hd.
Qed.

Lemma add_fields_vectors l d : tf (add_fields vector_field l d) = tf d.
Proof.
  revert d. induction l as [|kv l IH]; intros d; [done|]. cbn [add_fields fold_left].
  unfold add_fields in IH. rewrite IH, TableFields_AddField. done.
Qed.

(** The table fields of a translated document are exactly the entries of its
    scalar maps and the id. *)
Lemma PbDocToGammaDoc_table d s idv :
  space_id_type s = LONG_SDTYPE → StrToInt64 (doc_id d) 0 = ("", idv) →
  NoDup (table_entries idv d).*1 →
  ∃ g, PbDocToGammaDoc d s Doc_new = ("", g) ∧ TableFields g ≡ₚ table_entries idv d.
Proof.
  intros Hs Hid Hnd. unfold PbDocToGammaDoc.
  rewrite bool_decide_eq_true_2, Hid by done. eexists. split; [done|].
  assert (∀ g L, tf g = list_to_map L → L ≡ₚ table_entries idv d →
    TableFields g ≡ₚ table_entries idv d) as Hfin.
  { intros g L Hg HL. rewrite <-HL. rewrite <-HL in Hnd.
    rewrite <-(map_to_list_to_map (M := gmap string) (TableFields g)) by apply TableFields_NoDup.
    rewrite Hg. by apply map_to_list_to_map. }
  eapply Hfin.
  - rewrite add_fields_vectors. do 6 (apply add_fields_table; [done|done|]).
    rewrite TableFields_AddField, TableFields_new. simpl.
    trans (list_to_map (M := gmap string GField) [named long_field (_ID, idv)]); done.
  - unfold table_entries. rewrite !reverse_Permutation. solve_Permutation.
Qed.

End translated.

Lemma omap_named_none {A B} (mk : string * A → GField) (g : string * GField → option B) l :
  (∀ kv, g (named mk kv) = None) → omap g (named mk <$> l) = [].
Proof. intros Hg. induction l as [|kv l IH]; [done|]. csimpl. by rewrite Hg. Qed.

Lemma omap_named_some {A B} (mk : string * A → GField) (g : string * GField → option B)
    (h : string * A → B) (P : string * A → Prop) l :
  (∀ kv, P kv → g (named mk kv) = Some (h kv)) → Forall P l →
  omap g (named mk <$> l) = h <$> l.
Proof. intros Hg. induction 1 as [|kv l Hkv Hl IH]; [done|]. csimpl. by rewrite Hg, IH. Qed.

Lemma read_value_int n k z t :
  read_value n (mkGField k (str_of (le_bytes n z)) t) = Some (z `mod` 256 ^ Z.of_nat n).
Proof. unfold read_value. simpl. by rewrite bytes_of_str_of, read_le_app. Qed.

(** Decoding the entries of one scalar map gives the map back for its own
    type and nothing for the others. *)
Lemma map_pair_id {A} (l : list (string * A)) : (λ kv : string * A, (kv.1, kv.2)) <$> l = l.
Proof. induction l as [|[k v] l IH]; [done|]. csimpl. by rewrite IH. Qed.

Ltac decode_with lem :=
  rewrite bool_decide_eq_true_2 by done; cbn [named fst snd];
  rewrite read_value_int; cbn [mbind option_bind]; by rewrite lem.

Lemma dec_ints l :
  Forall (λ kv, in_int32 kv.2) l → omap dec_int (named int_field <$> l) = l.
Proof.
  intros Hl. trans ((λ kv : string * Z, (kv.1, kv.2)) <$> l); [|apply map_pair_id].
  eapply omap_named_some, Hl. intros kv Hkv. unfold dec_int, int_field.
  decode_with int32_le.
Qed.

Lemma dec_longs l :
  Forall (λ kv, in_int64 kv.2) l → omap dec_long (named long_field <$> l) = l.
Proof.
  intros Hl. trans ((λ kv : string * Z, (kv.1, kv.2)) <$> l); [|apply map_pair_id].
  eapply omap_named_some, Hl. intros kv Hkv. unfold dec_long, long_field.
  decode_with int64_le.
Qed.

Lemma dec_floats l :
  Forall (λ kv, 0 ≤ kv.2 < 2 ^ 32) l → omap dec_float (named float_field <$> l) = l.
Proof.
  intros Hl. trans ((λ kv : string * Z, (kv.1, kv.2)) <$> l); [|apply map_pair_id].
  eapply omap_named_some, Hl. intros kv Hkv. unfold dec_float, float_field.
  decode_with Z.mod_small.
Qed.

Lemma dec_doubles l :
  Forall (λ kv, 0 ≤ kv.2 < 2 ^ 64) l → omap dec_double (named double_field <$> l) = l.
Proof.
  intros Hl. trans ((λ kv : string * Z, (kv.1, kv.2)) <$> l); [|apply map_pair_id].
  eapply omap_named_some, Hl. intros kv Hkv. unfold dec_double, double_field.
  decode_with Z.mod_small.
Qed.

Lemma dec_strings (l : list (string * string)) : omap dec_string (named string_field <$> l) = l.
Proof.
  trans ((λ kv : string * string, (kv.1, kv.2)) <$> l); [|apply map_pair_id].
  apply (omap_named_some _ _ _ (λ _, True)); [done|]. by apply Forall_forall.
Qed.

Lemma dec_arrays l :
  Forall (λ kv, array_ok kv.2) l → omap dec_array (named string_array_field <$> l) = l.
Proof.
  intros Hl. trans ((λ kv : string * list string, (kv.1, kv.2)) <$> l);
    [|apply map_pair_id].
  eapply omap_named_some, Hl. intros kv Hkv. unfold dec_array. simpl.
  by rewrite array_roundtrip.
Qed.

(** The entries of a well-formed document decode to its maps, the id being
    one more long. *)
Lemma decode_entries idv d :
  doc_wf idv d → in_int64 idv →
  let l := table_entries idv d in
  omap dec_int l = ints d ∧ omap dec_long l = (_ID, idv) :: longs d ∧
  omap dec_float l = floats d ∧ omap dec_double l = doubles d ∧
  omap dec_string l = strings d ∧ omap dec_array l = string_arrays d.
Proof.
  intros (_ & Hi & Hl & Hf & Hd & Ha) Hid. cbv zeta. unfold table_entries.
  match goal with |- context [named long_field (_ID, idv) :: ?r] =>
    change (named long_field (_ID, idv) :: r) with
      ((named long_field <$> [(_ID, idv)]) ++ r) end.
  assert (omap dec_long (named long_field <$> [(_ID, idv)]) = [(_ID, idv)]) as Eid.
  { apply dec_longs. by constructor. }
  rewrite !omap_app, Eid.
  rewrite dec_ints, dec_longs, dec_floats, dec_doubles, dec_strings, dec_arrays by done.
  repeat split; repeat rewrite omap_named_none by done; by rewrite ?app_nil_r.
Qed.

Lemma readable_entries idv d : Forall readable (table_entries idv d).
Proof.
  unfold table_entries. constructor; [unfold readable; simpl; by eexists|].
  rewrite !Forall_app, !Forall_fmap. repeat split; apply Forall_forall; intros kv _;
    unfold readable; simpl; try done; eexists; apply read_value_int.
Qed.

(** What is read back of the document [d] with the id [idv]: the scalar maps up
    to order, the id among the longs; the vectors are lost. *)
Definition read_back (idv : Z) (d d' : Document) : Prop :=
  ints d' ≡ₚ ints d ∧ longs d' ≡ₚ (_ID, idv) :: longs d ∧ floats d' ≡ₚ floats d ∧
  doubles d' ≡ₚ doubles d ∧ strings d' ≡ₚ strings d ∧
  string_arrays d' ≡ₚ string_arrays d ∧
  _id d' = None ∧ (vectors d').*1 ≡ₚ (table_entries idv d).*1.

Lemma GammaDocToPbDoc_entries `{GammaDocLaws} g d idv :
  TableFields g ≡ₚ table_entries idv d → in_int64 idv → doc_wf idv d →
  ∃ d', GammaDocToPbDoc g = Some d' ∧ read_back idv d d'.
Proof.
  intros HP Hr Hwf. destruct (decode_entries idv d Hwf Hr) as (E1&E2&E3&E4&E5&E6).
  pose proof (TableFields_NoDup g) as Hnd. eexists. split.
  { unfold GammaDocToPbDoc. rewrite table_fields_to_pb_fresh; [done|done| |].
    - rewrite HP. apply readable_entries.
    - intros k _. simpl. set_solver. }
  rewrite fold_field_to_vector by (done || (simpl; set_solver)).
  unfold read_back. cbn [vectors _id ints longs
    floats doubles strings string_arrays add_decoded empty_document app].
  rewrite HP, E1, E2, E3, E4, E5, E6. repeat split; try done.
  by rewrite <-list_fmap_compose.
Qed.

Definition id_status (long_id : bool) (id : string) : string :=
  if long_id then fst (StrToInt64 id 0) else "".

Lemma id_status_conforms s id :
  id ≠ "" ∧ id_status (bool_decide (space_id_type s = LONG_SDTYPE)) id = "" ↔
  id_conforms s id.
Proof.
  unfold id_conforms, id_status. case_bool_decide; [|naive_solver].
  rewrite StrToInt64_accepts. naive_solver.
Qed.

(** ** Properties *)

(** C37. [CheckPbDoc] accepts a document exactly when its id is acceptable for
    the space and it provides every field of the schema with the right type
    and dimension: nothing that is reported as valid misses a field, and
    nothing that conforms is refused. *)
Theorem CheckPbDoc_exact (d : Document) (s : Space) : CheckPbDoc d s = "" ↔ doc_conforms d s.
Proof.
  unfold CheckPbDoc, doc_conforms. rewrite <-id_status_conforms.
  case_bool_decide as Hid; [naive_solver|]. fold (id_status
    (bool_decide (space_id_type s = LONG_SDTYPE)) (doc_id d)).
  destruct (failed (id_status _ _)) eqn:Ef.
  - apply failed_true in Ef. split; [done|]. naive_solver.
  - apply failed_false in Ef. rewrite check_fields_spec. naive_solver.
Qed.

(** [CheckPbIds] accepts a list of ids exactly when each of them is
    acceptable for the space and no id occurs twice. *)
Theorem CheckPbIds_exact (keys : list string) (s : Space) :
  CheckPbIds keys s = "" ↔ Forall (id_conforms s) keys ∧ NoDup keys.
Proof.
  unfold CheckPbIds. rewrite check_ids_spec.
  assert (Forall (λ k, k ∉ (∅ : gset string)) keys) as Hst.
  { apply Forall_forall. set_solver. }
  assert (Forall (λ k, k ≠ "" ∧ (bool_decide (space_id_type s = LONG_SDTYPE) = true →
    fst (StrToInt64 k 0) = "")) keys ↔ Forall (id_conforms s) keys) as ->; [|naive_solver].
  apply Forall_iff. intros k. unfold id_conforms.
  rewrite bool_decide_eq_true, StrToInt64_accepts. done.
Qed.


(** A document store with the engine's interface. *)
Definition map_doc : GammaDoc := {|
  Doc := gmap string GField * gmap string GField;
  Doc_new := (∅, ∅);
  AddField f d :=
    if bool_decide (gf_datatype f = DataType.VECTOR) then (d.1, <[gf_name f := f]> d.2)
    else (<[gf_name f := f]> d.1, d.2);
  TableFields d := map_to_list d.1;
  VectorFields d := map_to_list d.2
|}.

Lemma map_doc_laws : GammaDocLaws (H := map_doc).
Proof.
  constructor.
  - done.
  - intros d. apply NoDup_fst_map_to_list.
  - intros f [t v]. simpl. case_bool_decide; simpl; by rewrite !list_to_map_to_list.
Qed.

Definition sample_space (id_type : string) : Space :=
  mkSpace "db" "s" 1 1 1 [mkField "price" INT_SDTYPE None None;
    mkField "tags" STRINGARRAY_SDTYPE None None] [] (Some id_type) None None.

Definition sample_doc : Document :=
  mkDocument (Some "-7") [("price", -3)] [("n", 5)] [("f", 1065353216)] [] [("t", "x")]
    [("tags", ["a"; ""; "b"])] [("v", [0; 1])].


(** A space whose ids are of type string takes documents that can never
    be stored: [CheckPbDoc] accepts those that provide the schema's fields,
    and [PbDocToGammaDoc] refuses every document of such a space and leaves
    the engine's document as it was. *)
Theorem string_ids_not_storable `{GammaDoc} (d : Document) (s : Space) (g : Doc) :
  space_id_type s = STRING_SDTYPE → doc_id d ≠ "" → Forall (field_conforms d) (fields s) →
  CheckPbDoc d s = "" ∧
  PbDocToGammaDoc d s g = ("Unsupported _id type: string", g).
Proof.
  intros Hs Hid Hf. unfold CheckPbDoc, PbDocToGammaDoc. rewrite Hs.
  rewrite !bool_decide_eq_false_2 by done. split; [|done].
  rewrite failed_empty. by apply check_fields_spec.
Qed.

Lemma string_ids_not_storable_witness :
  CheckPbDoc sample_doc (sample_space STRING_SDTYPE) = "" ∧
  PbDocToGammaDoc (H := map_doc) sample_doc (sample_space STRING_SDTYPE) (∅, ∅) =
    ("Unsupported _id type: string", (∅, ∅)).
Proof.
  apply (string_ids_not_storable (H := map_doc)); [reflexivity|discriminate|].
  repeat constructor; vm_compute; eexists; reflexivity.
Defined.

(** The declared type of a schema field and the type its values are
    written with agree for every type but long and string array, for which the
    table is declared with [INT]. *)
Theorem ToGammaDtype_matches_written (t : DType.t) :
  Some (ToGammaDtype (DTypeToSDType t)) = written_type t ↔
    t ≠ DType.LONG ∧ t ≠ DType.STRINGARRAY ∧ t ≠ DType.UNDEFINE.
Proof. destruct t; vm_compute; split; try (intros; repeat split; congruence); naive_solver. Qed.
