(* ===== verification/Files.v ===== *)
(** * Files: the file system the engine works on, and src/utils/file_tool.cc

    A POSIX file system as far as the sources use one: names, inodes and open
    descriptors with a position, so that a descriptor outlives the name of its
    file.  Every [open], [read] and [write] takes the next entry of a schedule
    of outcomes, which may make it fail or stop short; theorems quantify over
    the schedule.  [butil]'s file functions are a parameter, [FileUtil]. *)
From Stdlib Require Import Ascii.
From S2P Require Import Prelude Numeric Bytes.
Local Open Scope Z_scope.

(** ** State *)

(** How a system call ends: completely, after [n] bytes, or with an error. *)
Inductive outcome := Complete | Partial (n : nat) | Error.

Record Fs := mkFs {
  fs_names : gmap string nat;
  fs_inodes : gmap nat bytes;
  fs_fds : gmap Z (nat * nat);
  fs_dirs : gset string;
  fs_sched : list outcome
}.

Definition set_inodes (m : gmap nat bytes) (fs : Fs) : Fs :=
  mkFs (fs_names fs) m (fs_fds fs) (fs_dirs fs) (fs_sched fs).
Definition set_fds (m : gmap Z (nat * nat)) (fs : Fs) : Fs :=
  mkFs (fs_names fs) (fs_inodes fs) m (fs_dirs fs) (fs_sched fs).
Definition set_names (m : gmap string nat) (fs : Fs) : Fs :=
  mkFs m (fs_inodes fs) (fs_fds fs) (fs_dirs fs) (fs_sched fs).

(** The outcome of the coming system call; past the schedule all succeed. *)
Definition next_outcome (fs : Fs) : outcome * Fs :=
  match fs_sched fs with
  | [] => (Complete, fs)
  | o :: rest => (o, mkFs (fs_names fs) (fs_inodes fs) (fs_fds fs) (fs_dirs fs) rest)
  end.

Definition content (fs : Fs) (p : string) : option bytes :=
  ino ← fs_names fs !! p; fs_inodes fs !! ino.

Definition new_inode (fs : Fs) : nat := fresh (dom (fs_inodes fs) ∪ map_img (SA := gset nat) (fs_names fs)).

(** The content [c] under the name [p], in its file if there is one. *)
Definition put_content (p : string) (c : bytes) (fs : Fs) : Fs :=
  match fs_names fs !! p with
  | Some ino => set_inodes (<[ino := c]> (fs_inodes fs)) fs
  | None =>
      let ino := new_inode fs in
      set_names (<[p := ino]> (fs_names fs)) (set_inodes (<[ino := c]> (fs_inodes fs)) fs)
  end.

(** ** System calls *)

(** The lowest descriptor that is not open; 0, 1 and 2 are the standard streams. *)
Definition lowest_fd (fds : gmap Z (nat * nat)) : Z :=
  match list_find (λ n : nat, fds !! (3 + Z.of_nat n) = None) (seq 0 (S (size fds))) with
  | Some (_, n) => 3 + Z.of_nat n
  | None => -1
  end.

(** [open(path, O_RDWR | O_CREAT)] *)
Definition open_file (p : string) (fs : Fs) : Z * Fs :=
  let '(o, fs) := next_outcome fs in
  match o with
  | Complete =>
      let fs := match fs_names fs !! p with Some _ => fs | None => put_content p [] fs end in
      match fs_names fs !! p with
      | Some ino =>
          let fd := lowest_fd (fs_fds fs) in
          (fd, set_fds (<[fd := (ino, 0%nat)]> (fs_fds fs)) fs)
      | None => (-1, fs)
      end
  | _ => (-1, fs)
  end.

Definition close_file (fd : Z) (fs : Fs) : Fs := set_fds (delete fd (fs_fds fs)) fs.

(** [lseek(fd, off, SEEK_SET)] *)
Definition seek_set (fd off : Z) (fs : Fs) : Z * Fs :=
  match fs_fds fs !! fd with
  | Some (ino, _) =>
      if off <? 0 then (-1, fs)
      else (off, set_fds (<[fd := (ino, Z.to_nat off)]> (fs_fds fs)) fs)
  | None => (-1, fs)
  end.

(** [lseek(fd, 0, SEEK_END)] *)
Definition seek_end (fd : Z) (fs : Fs) : Z * Fs :=
  match fs_fds fs !! fd with
  | Some (ino, _) =>
      let n := length (default [] (fs_inodes fs !! ino)) in
      (Z.of_nat n, set_fds (<[fd := (ino, n)]> (fs_fds fs)) fs)
  | None => (-1, fs)
  end.

(** The bytes [b] at position [pos] of [c]; a gap reads as zeros. *)
Definition write_at (c : bytes) (pos : nat) (b : bytes) : bytes :=
  match b with
  | [] => c
  | _ => take pos (c ++ replicate (pos - length c) (byte_of 0)) ++ b ++ drop (pos + length b) c
  end.

(** [write(fd, buf, count)] where [buf] has the bytes [buf] behind it.  A
    negative count is a [size_t] above [SSIZE_MAX], which is refused; a count
    that leaves the buffer is [None]. *)
Definition write_file (fd : Z) (buf : bytes) (count : Z) (fs : Fs) : option (Z * Fs) :=
  if count <? 0 then Some (-1, fs)
  else if Z.of_nat (length buf) <? count then None
  else
    match fs_fds fs !! fd with
    | None => Some (-1, fs)
    | Some (ino, pos) =>
        let '(o, fs) := next_outcome fs in
        match o with
        | Error => Some (-1, fs)
        | _ =>
            let all := take (Z.to_nat count) buf in
            let b := match o with Partial n => take n all | _ => all end in
            let c := default [] (fs_inodes fs !! ino) in
            Some (Z.of_nat (length b),
                  set_fds (<[fd := (ino, (pos + length b)%nat)]> (fs_fds fs))
                    (set_inodes (<[ino := write_at c pos b]> (fs_inodes fs)) fs))
        end
    end.

(** [read(fd, buf, count)]: the result and the bytes stored in the buffer. *)
Definition read_file (fd : Z) (count : nat) (fs : Fs) : Z * bytes * Fs :=
  match fs_fds fs !! fd with
  | None => (-1, [], fs)
  | Some (ino, pos) =>
      let '(o, fs) := next_outcome fs in
      match o with
      | Error => (-1, [], fs)
      | _ =>
          let all := take count (drop pos (default [] (fs_inodes fs !! ino))) in
          let b := match o with Partial n => take n all | _ => all end in
          (Z.of_nat (length b), b,
           set_fds (<[fd := (ino, (pos + length b)%nat)]> (fs_fds fs)) fs)
      end
  end.

(** [rename(from, to)] of a file. *)
Definition rename_file (from to : string) (fs : Fs) : Z * Fs :=
  match fs_names fs !! from with
  | None => (-1, fs)
  | Some ino =>
      if bool_decide (to ∈ fs_dirs fs) then (-1, fs)
      else (0, set_names (<[to := ino]> (delete from (fs_names fs))) fs)
  end.

Definition unlink_file (p : string) (fs : Fs) : Fs :=
  set_names (delete p (fs_names fs)) fs.

(** ** Streams *)

(** [std::ofstream ofs(p); ofs << s; ofs.close()]: whether the stream opened;
    errors of the output itself go unnoticed. *)
Definition ofstream_write (p : string) (s : bytes) (fs : Fs) : bool * Fs :=
  let '(o, fs) := next_outcome fs in
  match o with
  | Error => (false, fs)
  | _ =>
      if bool_decide (p ∈ fs_dirs fs) then (false, fs)
      else (true, put_content p (match o with Partial n => take n s | _ => s end) fs)
  end.

(** The whole content through [std::ifstream]; [None] when it does not open. *)
Definition ifstream_read (p : string) (fs : Fs) : option bytes * Fs :=
  let '(o, fs) := next_outcome fs in
  match o with
  | Error => (None, fs)
  | Partial n => (take n <$> content fs p, fs)
  | Complete => (content fs p, fs)
  end.

(** ** [butil]'s file functions *)

Class FileUtil := {
  PathExists : string → Fs → bool;
  DirectoryExists : string → Fs → bool;
  CopyFile : string → string → Fs → bool * Fs;
  DeleteFile : string → bool → Fs → bool * Fs;
  CreateDirectory : string → Fs → bool * Fs
}.

Class FileUtilLaws `{FileUtil} : Prop := {
  PathExists_spec p fs :
    PathExists p fs = true ↔ is_Some (fs_names fs !! p) ∨ p ∈ fs_dirs fs;
  DirectoryExists_spec p fs : DirectoryExists p fs = true ↔ p ∈ fs_dirs fs;
  (** A successful copy leaves the bytes of [from] in [to] and touches no other file. *)
  CopyFile_true from to fs fs' :
    from ≠ to → CopyFile from to fs = (true, fs') →
    ∃ c, content fs from = Some c ∧ fs' = put_content to c fs;
  DeleteFile_true p fs fs' :
    DeleteFile p false fs = (true, fs') → p ∉ fs_dirs fs → fs' = unlink_file p fs;
  (** Creating a directory touches no file. *)
  CreateDirectory_files p fs b fs' :
    CreateDirectory p fs = (b, fs') →
    fs_names fs' = fs_names fs ∧ fs_inodes fs' = fs_inodes fs ∧ fs_fds fs' = fs_fds fs ∧
    fs_sched fs' = fs_sched fs ∧ fs_dirs fs ⊆ fs_dirs fs' ∧ (b = true → p ∈ fs_dirs fs');
  (** It succeeds on a directory that is there. *)
  CreateDirectory_exists p fs : p ∈ fs_dirs fs → (CreateDirectory p fs).1 = true
}.

(** ** [BackupFile] *)

Section backup.
Context `{FileUtil}.

Definition msg_rename (from to : string) : string :=
  from +:+ " file rename to " +:+ to +:+ " file failed".

(** The loop from index [i], [n] iterations to go. *)
Fixpoint backup_loop (n i : nat) (filename : string) (fs : Fs) : string * Fs :=
  match n with
  | O => ("", fs)
  | S n' =>
      let new_path_file := filename +:+ to_string (Z.of_nat i) in
      if PathExists new_path_file fs && negb (DirectoryExists new_path_file fs) then
        backup_loop n' (S i) filename fs
      else
        let '(rc, fs) := rename_file filename new_path_file fs in
        if negb (rc =? 0) then (msg_rename filename new_path_file, fs)
        else backup_loop n' (S i) filename fs
  end.

Definition BackupFile (filename : string) (fs : Fs) : string * Fs :=
  if PathExists filename fs then backup_loop 100 0 filename fs else ("", fs).

End backup.

(** ** Lemmas *)

Definition no_fail (fs : Fs) : Prop := Forall (eq Complete) (fs_sched fs).

Lemma lowest_fd_fresh fds : 3 ≤ lowest_fd fds ∧ fds !! lowest_fd fds = None.
Proof.
  unfold lowest_fd. destruct (list_find _ _) as [[i n]|] eqn:E.
  { apply list_find_Some in E as (_ & E & _). split; [lia|done]. }
  exfalso. apply list_find_None in E. rewrite Forall_forall in E.
  set (f := λ n : nat, 3 + Z.of_nat n) in *.
  assert (list_to_set (f <$> seq 0 (S (size fds))) ⊆ dom fds) as Hsub.
  { intros k (n & -> & Hn)%elem_of_list_to_set%list_elem_of_fmap.
    apply E in Hn. apply elem_of_dom. by apply not_eq_None_Some. }
  apply subseteq_size in Hsub. rewrite size_dom, size_list_to_set, length_fmap, length_seq in Hsub; [lia|].
  apply NoDup_fmap_2; [|apply NoDup_seq]. intros x y. unfold f. lia.
Qed.

Lemma next_outcome_same fs o fs' :
  next_outcome fs = (o, fs') →
  fs_names fs' = fs_names fs ∧ fs_inodes fs' = fs_inodes fs ∧ fs_fds fs' = fs_fds fs ∧
  fs_dirs fs' = fs_dirs fs ∧ (no_fail fs → o = Complete ∧ no_fail fs').
Proof.
  unfold next_outcome, no_fail. destruct (fs_sched fs) as [|o' rest] eqn:E; intros [= <- <-]; simpl.
  - rewrite E. naive_solver.
  - do 4 (split; [done|]). intros [? ?]%Forall_cons. naive_solver.
Qed.

Lemma take_write_at c pos b :
  (pos ≤ length c)%nat → take (pos + length b) (write_at c pos b) = take pos c ++ b.
Proof.
  intros Hp. unfold write_at. destruct b as [|x b].
  { by rewrite Nat.add_0_r, app_nil_r. }
  replace (pos - length c)%nat with 0%nat by lia. simpl replicate. rewrite app_nil_r, app_assoc.
  apply take_app_length'. rewrite length_app, length_take. lia.
Qed.

Lemma write_at_prefix c pos b :
  (pos ≤ length c)%nat → take pos (write_at c pos b) = take pos c.
Proof.
  intros Hp. pose proof (f_equal (take pos) (take_write_at c pos b Hp)) as E.
  rewrite take_take, Nat.min_l in E by lia. rewrite E.
  rewrite take_app_length' by (rewrite length_take; lia). done.
Qed.

Lemma length_write_at c pos b :
  (pos ≤ length c)%nat → length (write_at c pos b) = Nat.max (length c) (pos + length b).
Proof.
  intros Hp. unfold write_at. destruct b as [|x b]; [simpl; lia|].
  rewrite !length_app, length_drop, length_take, length_app, length_replicate. lia.
Qed.

(** What a positioned write changes: one inode, in which some prefix of the
    data is written at the offset; the result is the count exactly when all of
    it is. *)
Lemma seek_write fd off buf count fs ino pos c :
  fs_fds fs !! fd = Some (ino, pos) → fs_inodes fs !! ino = Some c →
  0 ≤ off → 0 ≤ count ≤ Z.of_nat (length buf) →
  ∃ rc fs' b pos',
    write_file fd buf count (seek_set fd off fs).2 = Some (rc, fs') ∧
    fs_inodes fs' = <[ino := write_at c (Z.to_nat off) b]> (fs_inodes fs) ∧
    fs_fds fs' = <[fd := (ino, pos')]> (fs_fds fs) ∧
    fs_names fs' = fs_names fs ∧ fs_dirs fs' = fs_dirs fs ∧
    (rc = count → b = take (Z.to_nat count) buf) ∧
    (no_fail fs → rc = count ∧ no_fail fs').
Proof.
  intros Hfd Hc Hoff Hcnt. unfold seek_set, write_file. rewrite Hfd.
  rewrite (proj2 (Z.ltb_ge off 0)), (proj2 (Z.ltb_ge count 0)) by lia.
  rewrite (proj2 (Z.ltb_ge _ count)) by lia. simpl. rewrite lookup_insert_eq.
  set (fs1 := set_fds _ fs). destruct (next_outcome fs1) as [o fs2] eqn:Eo.
  apply next_outcome_same in Eo as (En & Ei & Ef & Ed & Hnf). unfold fs1 in *. simpl in *.
  rewrite Ei, Ef, Hc. simpl. destruct o.
  - do 4 eexists. split; [done|]. simpl. rewrite En, Ed, insert_insert_eq.
    repeat split; try done; destruct (Hnf ltac:(assumption)); [|done].
    rewrite length_take. lia.
  - do 4 eexists. split; [done|]. simpl. rewrite En, Ed, insert_insert_eq.
    repeat split; try done.
    + intros Hrc. rewrite take_ge; [done|]. rewrite !length_take in *. lia.
    + by destruct (Hnf ltac:(assumption)).
    + by destruct (Hnf ltac:(assumption)).
  - exists (-1), fs2, [], (Z.to_nat off). split; [done|]. rewrite Ei, Ef, En, Ed.
    simpl. rewrite insert_id by done. repeat split; try done; try lia;
      by destruct (Hnf ltac:(assumption)).
Qed.

(** A read from a position, which may fail or stop early: the first [k] bytes. *)
Lemma seek_read_any fd off n fs ino pos c :
  fs_fds fs !! fd = Some (ino, pos) → fs_inodes fs !! ino = Some c → 0 ≤ off →
  let b := take n (drop (Z.to_nat off) c) in
  ∃ r k fs' pos', (k ≤ length b)%nat ∧
    read_file fd n (seek_set fd off fs).2 = (r, take k b, fs') ∧
    fs_inodes fs' = fs_inodes fs ∧ fs_fds fs' = <[fd := (ino, pos')]> (fs_fds fs) ∧
    fs_names fs' = fs_names fs ∧ fs_dirs fs' = fs_dirs fs ∧
    (no_fail fs → r = Z.of_nat (length b) ∧ k = length b ∧ no_fail fs').
Proof.
  intros Hfd Hc Hoff b. unfold seek_set, read_file. rewrite Hfd.
  rewrite (proj2 (Z.ltb_ge off 0)) by lia. simpl. rewrite lookup_insert_eq.
  set (fs1 := set_fds _ fs). destruct (next_outcome fs1) as [o fs2] eqn:Eo.
  apply next_outcome_same in Eo as (En & Ei & Ef & Ed & Hnf). unfold fs1 in *. simpl in *.
  rewrite Ei, Hc. fold b. destruct o as [|m|].
  - exists (Z.of_nat (length b)), (length b). do 2 eexists. split; [lia|].
    rewrite firstn_all. split; [done|]. simpl. rewrite Ei, Ef, insert_insert_eq. naive_solver.
  - exists (Z.of_nat (length (take m b))), (min m (length b)). do 2 eexists. split; [lia|].
    rewrite <-take_take, firstn_all. split; [done|]. simpl. rewrite Ei, Ef, insert_insert_eq.
    naive_solver.
  - exists (-1), 0%nat. do 2 eexists. split; [lia|]. split; [done|]. rewrite Ei, Ef. naive_solver.
Qed.

Lemma seek_read fd off n fs ino pos c :
  fs_fds fs !! fd = Some (ino, pos) → fs_inodes fs !! ino = Some c → 0 ≤ off → no_fail fs →
  let b := take n (drop (Z.to_nat off) c) in
  ∃ fs' pos',
    read_file fd n (seek_set fd off fs).2 = (Z.of_nat (length b), b, fs') ∧
    fs_inodes fs' = fs_inodes fs ∧ fs_fds fs' = <[fd := (ino, pos')]> (fs_fds fs) ∧
    fs_names fs' = fs_names fs ∧ fs_dirs fs' = fs_dirs fs ∧ no_fail fs'.
Proof.
  intros Hfd Hc Hoff Hn. destruct (seek_read_any fd off n fs ino pos c Hfd Hc Hoff)
    as (r & k & fs' & pos' & _ & E & HI & HF & HN & HD & Hnf).
  destruct (Hnf Hn) as (-> & -> & Hn'). rewrite firstn_all in E. by exists fs', pos'.
Qed.

Lemma open_file_existing p fs ino :
  fs_names fs !! p = Some ino → no_fail fs →
  ∃ fd fs', open_file p fs = (fd, fs') ∧ 3 ≤ fd ∧ fs_fds fs !! fd = None ∧
    fs_fds fs' = <[fd := (ino, 0%nat)]> (fs_fds fs) ∧ fs_inodes fs' = fs_inodes fs ∧
    fs_names fs' = fs_names fs ∧ fs_dirs fs' = fs_dirs fs ∧ no_fail fs'.
Proof.
  intros Hp Hn. unfold open_file. destruct (next_outcome fs) as [o fs2] eqn:Eo.
  apply next_outcome_same in Eo as (En & Ei & Ef & Ed & Hnf).
  destruct (Hnf Hn) as [-> Hn']. rewrite En, Hp. simpl. rewrite En, Hp.
  pose proof (lowest_fd_fresh (fs_fds fs2)). rewrite Ef in *. do 2 eexists. split; [done|].
  simpl. naive_solver.
Qed.

Lemma content_put_eq p c fs : content (put_content p c fs) p = Some c.
Proof.
  unfold content, put_content. destruct (fs_names fs !! p) as [ino|] eqn:E; simpl.
  - rewrite E. simpl. by rewrite lookup_insert_eq.
  - rewrite lookup_insert_eq. simpl. by rewrite lookup_insert_eq.
Qed.

(** Names that share no inode: there are no hard links. *)
Definition names_inj (fs : Fs) : Prop :=
  ∀ p q ino, fs_names fs !! p = Some ino → fs_names fs !! q = Some ino → p = q.

Lemma new_inode_fresh fs :
  fs_inodes fs !! new_inode fs = None ∧ ∀ p, fs_names fs !! p ≠ Some (new_inode fs).
Proof.
  unfold new_inode. set (X := _ ∪ _). pose proof (is_fresh X) as Hf.
  set (n := fresh X) in *. unfold X in Hf. apply not_elem_of_union in Hf as [Hf1 Hf2].
  split; [by apply not_elem_of_dom|]. intros p Hp. apply Hf2.
  by apply (elem_of_map_img_2 _ p).
Qed.

Lemma put_content_names_inj p c fs : names_inj fs → names_inj (put_content p c fs).
Proof.
  intros Hi. unfold put_content. destruct (fs_names fs !! p) as [ino|] eqn:E; [done|].
  pose proof (proj2 (new_inode_fresh fs)) as Hf.
  intros q1 q2 ino. simpl. rewrite !lookup_insert. repeat case_decide; simplify_eq; naive_solver.
Qed.

Lemma content_put_ne p q c fs :
  names_inj fs → p ≠ q → content (put_content p c fs) q = content fs q.
Proof.
  intros Hi Hne. unfold content, put_content.
  destruct (fs_names fs !! p) as [ino|] eqn:E; simpl.
  - destruct (fs_names fs !! q) as [ino'|] eqn:E'; [|done]. simpl.
    rewrite lookup_insert_ne; [done|]. intros ->. by apply Hne, (Hi _ _ ino').
  - rewrite lookup_insert_ne by done. destruct (fs_names fs !! q) as [ino'|] eqn:E'; [|done].
    simpl. rewrite lookup_insert_ne; [done|]. intros <-.
    by apply (proj2 (new_inode_fresh fs) q).
Qed.

Lemma open_file_frame p fs fd fs' :
  open_file p fs = (fd, fs') → names_inj fs →
  names_inj fs' ∧ fs_dirs fs' = fs_dirs fs ∧ (no_fail fs → no_fail fs') ∧
  ∀ q, q ≠ p → content fs' q = content fs q.
Proof.
  unfold open_file. destruct (next_outcome fs) as [o fs1] eqn:Eo. intros E Hi.
  apply next_outcome_same in Eo as (En & Ei & Ef & Ed & Hnf).
  assert (names_inj fs1) as Hi1 by (unfold names_inj; by rewrite En).
  assert (∀ q, content fs1 q = content fs q) as Hc by (intros q; unfold content; by rewrite En, Ei).
  destruct o; [|by injection E as <- <-; naive_solver..].
  destruct (fs_names fs1 !! p) as [ino|] eqn:Ep.
  { rewrite Ep in E. injection E as <- <-. split; [done|]. split; [done|].
    split; [naive_solver|]. intros q _. apply Hc. }
  pose proof (put_content_names_inj p [] fs1 Hi1) as Hi2.
  assert (∀ q, q ≠ p → content (put_content p [] fs1) q = content fs q) as Hc2.
  { intros q Hq. by rewrite content_put_ne, Hc. }
  assert (fs_sched (put_content p [] fs1) = fs_sched fs1 ∧
    fs_dirs (put_content p [] fs1) = fs_dirs fs1) as [Es Ed2].
  { unfold put_content. by rewrite Ep. }
  case_match; injection E as <- <-; (split; [done|]; split; [simpl; congruence|];
    split; [|done]; unfold no_fail in *; simpl; rewrite Es; naive_solver).
Qed.

Lemma ofstream_write_ok p s fs fs' :
  ofstream_write p s fs = (true, fs') → no_fail fs → names_inj fs →
  content fs' p = Some s ∧ names_inj fs' ∧ no_fail fs' ∧ fs_dirs fs' = fs_dirs fs ∧
  ∀ q, q ≠ p → content fs' q = content fs q.
Proof.
  unfold ofstream_write. destruct (next_outcome fs) as [o fs1] eqn:Eo. intros E Hn Hi.
  apply next_outcome_same in Eo as (En & Ei & Ef & Ed & Hnf).
  destruct (Hnf Hn) as [-> Hn1]. case_bool_decide; [done|]. injection E as <-.
  assert (names_inj fs1) as Hi1 by (unfold names_inj; by rewrite En).
  split; [apply content_put_eq|]. split; [by apply put_content_names_inj|].
  split; [unfold no_fail, put_content in *; by case_match|].
  split; [unfold put_content; case_match; done|].
  intros q Hq. rewrite content_put_ne by done. unfold content. by rewrite En, Ei.
Qed.

Lemma ifstream_read_ok p fs :
  no_fail fs → ∃ fs', ifstream_read p fs = (content fs p, fs') ∧ no_fail fs' ∧
    ∀ q, content fs' q = content fs q.
Proof.
  intros Hn. unfold ifstream_read. destruct (next_outcome fs) as [o fs1] eqn:Eo.
  apply next_outcome_same in Eo as (En & Ei & Ef & Ed & Hnf).
  destruct (Hnf Hn) as [-> Hn1]. exists fs1. unfold content. rewrite En, Ei. done.
Qed.

Lemma ifstream_read_frame p fs :
  fs_dirs (ifstream_read p fs).2 = fs_dirs fs ∧ (no_fail fs → no_fail (ifstream_read p fs).2).
Proof.
  unfold ifstream_read. destruct (next_outcome fs) as [o fs1] eqn:Eo.
  apply next_outcome_same in Eo as (_ & _ & _ & Ed & Hnf). destruct o; simpl; naive_solver.
Qed.

Lemma open_file_ok p fs : no_fail fs → 3 ≤ (open_file p fs).1.
Proof.
  intros Hn. unfold open_file. destruct (next_outcome fs) as [o fs1] eqn:Eo.
  apply next_outcome_same in Eo as (_ & _ & _ & _ & Hnf). destruct (Hnf Hn) as [-> _].
  destruct (fs_names fs1 !! p) as [ino|] eqn:Ep.
  - rewrite Ep. apply lowest_fd_fresh.
  - unfold put_content. rewrite Ep. simpl. rewrite lookup_insert_eq. apply lowest_fd_fresh.
Qed.

(** *** The name of a backup *)

Definition backup_name (filename : string) (i : nat) : string :=
  filename +:+ to_string (Z.of_nat i).

Lemma append_inj_l s t1 t2 : s +:+ t1 = s +:+ t2 → t1 = t2.
Proof. induction s as [|c s IH]; [done|]. rewrite !append_cons. intros [= ?]. by apply IH. Qed.

Lemma nat_to_string n : to_string (Z.of_nat n) = pretty (N.of_nat n).
Proof. by destruct n. Qed.

Lemma backup_name_inj f i j : backup_name f i = backup_name f j → i = j.
Proof. unfold backup_name, to_string. intros E%append_inj_l. apply (inj pretty) in E. lia. Qed.

Lemma backup_name_ne f i : backup_name f i ≠ f.
Proof.
  unfold backup_name. intros E. rewrite <-(append_nil_r f) in E at 2.
  by apply append_inj_l, to_string_nonempty in E.
Qed.

(** A backup's name ends in a digit. *)
Lemma backup_name_last f i : ∃ c, last_char (backup_name f i) = Some c ∧ is_digit c = true.
Proof.
  assert (∀ s, str_forall is_digit s = true → s ≠ "" →
    ∃ c, last_char s = Some c ∧ is_digit c = true) as Hs.
  { induction s as [|c s IH]; [done|]. simpl. intros [Hc Hs]%andb_prop _.
    destruct s as [|c' s]; [by exists c|]. by apply IH. }
  destruct (Hs (to_string (Z.of_nat i))) as (c & Hc & Hd).
  - rewrite nat_to_string. apply pretty_N_decimal.
  - apply to_string_nonempty.
  - exists c. split; [|done]. by apply last_char_append.
Qed.

Lemma not_backup_name p c f k :
  last_char p = Some c → is_digit c = false → p ≠ backup_name f k.
Proof. intros Hl Hd ->. destruct (backup_name_last f k) as (c' & ? & ?). congruence. Qed.

(** A name taken by a file. *)
Definition is_file (fs : Fs) (p : string) : Prop :=
  is_Some (fs_names fs !! p) ∧ p ∉ fs_dirs fs.

#[export] Instance is_file_dec fs p : Decision (is_file fs p).
Proof. apply _. Defined.

Section backup_lemmas.
Context `{FileUtilLaws}.

Lemma taken_spec p fs : PathExists p fs && negb (DirectoryExists p fs) = bool_decide (is_file fs p).
Proof.
  apply eq_bool_prop_intro. rewrite bool_decide_spec, !Is_true_true, andb_true_iff.
  rewrite negb_true_iff, <-not_true_iff_false, PathExists_spec, DirectoryExists_spec.
  unfold is_file. naive_solver.
Qed.

(** Once the file is gone, the next name that is not taken ends the loop with
    an error. *)
Lemma backup_loop_gone f fs n i :
  fs_names fs !! f = None →
  (backup_loop n i f fs).2 = fs ∧
  ((backup_loop n i f fs).1 = "" ↔ ∀ k, (i ≤ k < i + n)%nat → is_file fs (backup_name f k)).
Proof.
  intros Hf. revert i. induction n as [|n IH]; intros i; simpl.
  { split; [done|]. split; [intros _ k Hk; lia|done]. }
  rewrite taken_spec. fold (backup_name f i). case_bool_decide as Ht.
  - destruct (IH (S i)) as [-> IH2]. split; [done|]. rewrite IH2. split; intros Hall k Hk.
    + destruct (decide (k = i)) as [->|]; [done|]. apply Hall. lia.
    + apply Hall. lia.
  - unfold rename_file. rewrite Hf. simpl. split; [done|]. split.
    + unfold msg_rename. intros [_ ?]%append_eq_nil. done.
    + intros Hall. destruct Ht. apply Hall. lia.
Qed.

(** Up to the first name that is not taken nothing happens. *)
Lemma backup_loop_skip f fs n i j :
  (i ≤ j)%nat → (∀ k, (i ≤ k < j)%nat → is_file fs (backup_name f k)) →
  backup_loop (j - i + n) i f fs = backup_loop n j f fs.
Proof.
  intros Hij. remember (j - i)%nat as d eqn:Ed. revert i Hij Ed.
  induction d as [|d IH]; intros i Hij Ed Hall.
  { by replace j with i by lia. }
  simpl. rewrite taken_spec. fold (backup_name f i).
  rewrite bool_decide_eq_true_2 by (apply Hall; lia).
  apply IH; [lia|lia|]. intros k Hk. apply Hall. lia.
Qed.

(** What [BackupFile] may change: the names of the file and of its backups. *)
Lemma backup_loop_frame f n i fs :
  let fs' := (backup_loop n i f fs).2 in
  fs_inodes fs' = fs_inodes fs ∧ fs_fds fs' = fs_fds fs ∧ fs_dirs fs' = fs_dirs fs ∧
  fs_sched fs' = fs_sched fs ∧
  (∀ q, q ≠ f → (∀ k, q ≠ backup_name f k) → fs_names fs' !! q = fs_names fs !! q) ∧
  (names_inj fs → names_inj fs').
Proof.
  cbv zeta. revert i fs. induction n as [|n IH]; intros i fs; simpl; [done|].
  case_match; [apply IH|]. unfold rename_file.
  destruct (fs_names fs !! f) as [ino|] eqn:Ef; simpl; [|done].
  case_bool_decide; simpl; [done|]. fold (backup_name f i).
  destruct (IH (S i) (set_names (<[backup_name f i:=ino]> (delete f (fs_names fs))) fs))
    as (-> & -> & -> & -> & E & Hi).
  do 4 (split; [done|]). split.
  - intros q Hq Hk. rewrite E by done. simpl.
    by rewrite lookup_insert_ne, lookup_delete_ne by done.
  - intros Hinj. apply Hi. intros q1 q2 ino'. simpl. pose proof (backup_name_ne f i) as Hb.
    rewrite !lookup_insert. pose proof (Hinj f) as Hif.
    repeat case_decide; simplify_eq; try done;
      rewrite ?lookup_delete; repeat case_decide; naive_solver.
Qed.

Lemma BackupFile_frame f fs :
  let fs' := (BackupFile f fs).2 in
  fs_inodes fs' = fs_inodes fs ∧ fs_fds fs' = fs_fds fs ∧ fs_dirs fs' = fs_dirs fs ∧
  fs_sched fs' = fs_sched fs ∧
  (∀ q, q ≠ f → (∀ k, q ≠ backup_name f k) → fs_names fs' !! q = fs_names fs !! q) ∧
  (names_inj fs → names_inj fs').
Proof. cbv zeta. unfold BackupFile. case_match; [apply backup_loop_frame|done]. Qed.

End backup_lemmas.

(** A file system seen through the names of [butil]. *)
Definition posix_util : FileUtil := {|
  PathExists p fs := bool_decide (is_Some (fs_names fs !! p) ∨ p ∈ fs_dirs fs);
  DirectoryExists p fs := bool_decide (p ∈ fs_dirs fs);
  CopyFile from to fs :=
    match content fs from with
    | Some c => (true, put_content to c fs)
    | None => (false, fs)
    end;
  DeleteFile p _ fs := (true, unlink_file p fs);
  CreateDirectory p fs :=
    (true, mkFs (fs_names fs) (fs_inodes fs) (fs_fds fs) ({[p]} ∪ fs_dirs fs) (fs_sched fs))
|}.

Lemma posix_util_laws : FileUtilLaws (H := posix_util).
Proof.
  constructor; simpl.
  - intros. apply bool_decide_eq_true.
  - intros. apply bool_decide_eq_true.
  - intros from to fs fs' _. destruct (content fs from); naive_solver.
  - naive_solver.
  - intros p fs b fs' [= <- <-]. simpl. set_solver.
  - done.
Qed.

(** ** Properties *)

(** [BackupFile] moves a file to its first backup name that is not taken,
    content and all, and never overwrites an earlier backup.  The loop goes on
    after the move, so the result is the empty string only when every later
    backup name up to 99 is taken: a successful backup is normally reported
    as a failure. *)
Theorem BackupFile_moves_once `{FileUtilLaws} (f : string) (fs : Fs) (j : nat) :
  is_file fs f → (j < 100)%nat →
  (∀ k, (k < j)%nat → is_file fs (backup_name f k)) →
  fs_names fs !! backup_name f j = None → backup_name f j ∉ fs_dirs fs →
  (BackupFile f fs).2 =
    set_names (<[backup_name f j := fs_names fs !!! f]> (delete f (fs_names fs))) fs ∧
  ((BackupFile f fs).1 = "" ↔ ∀ k, (j < k < 100)%nat → is_file fs (backup_name f k)).
Proof.
  intros [[ino Hf] Hd] Hj Hlow Hn Hnd. unfold BackupFile.
  rewrite (proj2 (PathExists_spec f fs)) by (left; by eexists).
  replace 100%nat with (j - 0 + S (99 - j))%nat by lia.
  rewrite backup_loop_skip by (try lia; intros; apply Hlow; lia).
  simpl backup_loop. fold (backup_name f j).
  rewrite taken_spec, bool_decide_eq_false_2 by (intros [[? ?] _]; congruence).
  unfold rename_file. rewrite Hf.
  rewrite bool_decide_eq_false_2 by done. simpl.
  rewrite (lookup_total_correct _ _ _ Hf).
  set (fs' := set_names _ fs).
  assert (fs_names fs' !! f = None) as Hgone.
  { simpl. rewrite lookup_insert_ne by apply backup_name_ne. apply lookup_delete_eq. }
  destruct (backup_loop_gone f fs' (99 - j) (S j) Hgone) as [-> ->]. split; [done|].
  assert (∀ k, j ≠ k → is_file fs' (backup_name f k) ↔ is_file fs (backup_name f k)) as Hk.
  { intros k Hk. unfold is_file. simpl. rewrite lookup_insert_ne, lookup_delete_ne; [done| |].
    - by intros E%eq_sym%backup_name_ne.
    - by intros E%backup_name_inj. }
  split; intros Hall k Hr; [apply Hk|apply Hk]; try lia; apply Hall; lia.
Qed.

Lemma BackupFile_moves_once_witness :
  let fs := mkFs {["d" := 1%nat; "d0" := 2%nat]} {[1%nat := []; 2%nat := []]} ∅ ∅ [] in
  is_file fs "d" ∧ (BackupFile (H := posix_util) "d" fs).2 =
    mkFs {["d1" := 1%nat; "d0" := 2%nat]} {[1%nat := []; 2%nat := []]} ∅ ∅ [].
Proof.
  split; [split; [by eexists|set_solver]|].
  refine (eq_trans (proj1 (BackupFile_moves_once (H := posix_util) (H0 := posix_util_laws)
    "d" _ 1 _ _ _ _ _)) _).
  - split; [by eexists|set_solver].
  - lia.
  - intros [|k] Hk; [|lia]. split; [by eexists|set_solver].
  - reflexivity.
  - set_solver.
  - vm_compute. reflexivity.
Defined.
