(* ===== verification/Engine.v ===== *)
(** * Engine: src/engine/engine.cc

    The append-only store of a partition: a data file of concatenated values, a
    meta file of fixed-size records and an index from key to the place of its
    last value.  Machine widths are written out: [int64_t] offsets, [int16_t]
    lengths and the [int] product of [CreatOrLoad]'s loop. *)
From Stdlib Require Import Ascii.
From S2P Require Import Prelude Bytes Files.
Local Open Scope Z_scope.

Record Engine := mkEngine {
  _path : string;
  _data_fd : Z;
  _mata_fd : Z;
  _data_size : Z;
  _mata_offset : Z;
  _raw_data_offset : Z;
  _key_to_offset : gmap Z (Z * Z)
}.

Definition _mata_filename : string := "/engine_mata.dat".
Definition _data_filename : string := "/engine_data.txt".
Definition _one_doc_mata_size : Z := 4 + 8 + 2.

Definition Engine_new : Engine := mkEngine "" (-1) (-1) 0 0 0 ∅.

Definition Init (path : string) (e : Engine) : bool * Engine :=
  (true, mkEngine path (_data_fd e) (_mata_fd e) (_data_size e) (_mata_offset e)
           (_raw_data_offset e) (_key_to_offset e)).

Definition data_path (e : Engine) : string := _path e +:+ _data_filename.
Definition mata_path (e : Engine) : string := _path e +:+ _mata_filename.

(** ** Records of the meta file *)

Definition encode_mata (key off len : Z) : bytes :=
  le_bytes 4 key ++ le_bytes 8 off ++ le_bytes 2 len.

Definition decode_mata (buf : bytes) : Z * (Z * Z) :=
  (int32 (le_value (take 4 buf)),
   (int64 (le_value (take 8 (drop 4 buf))), int16 (le_value (take 2 (drop 12 buf))))).

(** ** Opening *)

(** The loop that reads the records from index [i], [n] of them to go; the
    file position is the [int] product [i * _one_doc_mata_size]. *)
Fixpoint load_mata (n : nat) (i : Z) (fd : Z) (m : gmap Z (Z * Z)) (fs : Fs) :
    string * gmap Z (Z * Z) * Fs :=
  match n with
  | O => ("", m, fs)
  | S n' =>
      let '(_, fs) := seek_set fd (int32 (i * _one_doc_mata_size)) fs in
      let '(rc, buf, fs) := read_file fd (Z.to_nat _one_doc_mata_size) fs in
      if negb (rc =? _one_doc_mata_size) then ("read mata file failed.", m, fs)
      else
        let '(key, place) := decode_mata buf in
        load_mata n' (i + 1) fd (<[key := place]> m) fs
  end.

(** Opening the two files and reading the index, once the files are in place. *)
Definition open_engine (e : Engine) (fs : Fs) : string * Engine * Fs :=
  let '(dfd, fs) := open_file (data_path e) fs in
  let e := mkEngine (_path e) dfd (_mata_fd e) (_data_size e) (_mata_offset e)
             (_raw_data_offset e) (_key_to_offset e) in
  if dfd <=? 0 then ("open '" +:+ data_path e +:+ "' file failed", e, fs)
  else
    let '(mfd, fs) := open_file (mata_path e) fs in
    let e := mkEngine (_path e) dfd mfd (_data_size e) (_mata_offset e)
               (_raw_data_offset e) (_key_to_offset e) in
    if mfd <=? 0 then ("open '" +:+ mata_path e +:+ "' file failed", e, fs)
    else
      let '(raw, fs) := seek_end dfd fs in
      let '(mat, fs) := seek_end mfd fs in
      let n := int32 (mat `quot` _one_doc_mata_size) in
      let '(msg, m, fs) := load_mata (Z.to_nat n) 0 mfd (_key_to_offset e) fs in
      (msg, mkEngine (_path e) dfd mfd n mat raw m, fs).

Section files.
Context `{FileUtil}.

(** The files of a snapshot replace the engine's. *)
Definition take_snapshot_files (e : Engine) (snapshot_path : string) (fs : Fs) : Fs :=
  let ss_data_path := snapshot_path +:+ _data_filename in
  let ss_mata_path := snapshot_path +:+ _mata_filename in
  if PathExists ss_mata_path fs && PathExists ss_data_path fs then
    let '(_, fs) := BackupFile (data_path e) fs in
    let '(_, fs) := BackupFile (mata_path e) fs in
    let '(_, fs) := CopyFile ss_data_path (data_path e) fs in
    let '(_, fs) := CopyFile ss_mata_path (mata_path e) fs in
    fs
  else fs.

Definition CreatOrLoad (snapshot_path : string) (e : Engine) (fs : Fs) :
    string * Engine * Fs :=
  let fs := if failed snapshot_path then take_snapshot_files e snapshot_path fs else fs in
  open_engine e fs.

End files.

(** ** Writing *)

Definition msg_raw_failed (off len : Z) : string :=
  "Engine::write raw data failed, offset:" +:+ to_string off +:+ ", length:" +:+ to_string len.
Definition msg_mata_failed (off : Z) : string :=
  "Engine::write mata data failed, offset:" +:+ to_string off +:+ ", length:" +:+
  to_string _one_doc_mata_size.

(** One iteration of [BatchAdd]; [buf] is the memory at [data.c_str() + all_len]. *)
Definition add_one (key data_len : Z) (buf : bytes) (e : Engine) (fs : Fs) :
    option (string * Engine * Fs) :=
  let '(_, fs) := seek_set (_data_fd e) (_raw_data_offset e) fs in
  '(rc, fs) ← write_file (_data_fd e) buf data_len fs;
  if negb (rc =? data_len) then
    Some (msg_raw_failed (_raw_data_offset e) data_len, e, fs)
  else
    let rec := encode_mata key (_raw_data_offset e) data_len in
    let '(_, fs) := seek_set (_mata_fd e) (_mata_offset e) fs in
    '(rc, fs) ← write_file (_mata_fd e) rec _one_doc_mata_size fs;
    if negb (rc =? _one_doc_mata_size) then Some (msg_mata_failed (_mata_offset e), e, fs)
    else
      Some ("", mkEngine (_path e) (_data_fd e) (_mata_fd e) (int32 (_data_size e + 1))
              (int64 (_mata_offset e + _one_doc_mata_size))
              (int64 (_raw_data_offset e + data_len))
              (<[key := (_raw_data_offset e, data_len)]> (_key_to_offset e)), fs).

(** The loop from [all_len]; [None] is an access outside of [data]. *)
Fixpoint batch_add (kv_list : list (Z * Z)) (data : bytes) (all_len : Z) (e : Engine)
    (fs : Fs) : option (string * Engine * Fs) :=
  match kv_list with
  | [] => Some ("", e, fs)
  | (key, data_len) :: rest =>
      if (all_len <? 0) || (Z.of_nat (length data) + 1 <? all_len) then None
      else
        '(msg, e, fs) ← add_one key data_len
           (drop (Z.to_nat all_len) (data ++ [byte_of 0])) e fs;
        if! msg then Some (msg, e, fs)
        else batch_add rest data (int64 (all_len + data_len)) e fs
  end.

Definition BatchAdd (kv_list : list (Z * Z)) (data : bytes) (e : Engine) (fs : Fs) :
    option (string * Engine * Fs) := batch_add kv_list data 0 e fs.

(** ** Reading *)

(** [resize] of a string or vector. *)
Definition resize {A} (n : nat) (x : A) (l : list A) : list A :=
  take n l ++ replicate (n - length l) x.

(** [b] stored in [l] from index [i]. *)
Definition overwrite {A} (l : list A) (i : nat) (b : list A) : list A :=
  take i l ++ b ++ drop (i + length b) l.

(** [None] is the exception of [resize] with a negative length. *)
Definition Get (key : Z) (e : Engine) (fs : Fs) : option (bytes * Fs) :=
  match _key_to_offset e !! key with
  | None => Some ([], fs)
  | Some (off, size) =>
      if size <? 0 then None
      else
        let res := resize (Z.to_nat size) (byte_of 0) [] in
        let '(_, fs) := seek_set (_data_fd e) off fs in
        let '(_, b, fs) := read_file (_data_fd e) (Z.to_nat size) fs in
        Some (overwrite res 0 b, fs)
  end.

(** The first loop: the total length and the lengths per key. *)
Fixpoint mget_lengths (keys : list Z) (i : nat) (all_len : Z) (doc_lengths : list Z)
    (e : Engine) : Z * list Z :=
  match keys with
  | [] => (all_len, doc_lengths)
  | key :: rest =>
      match _key_to_offset e !! key with
      | None => mget_lengths rest (S i) all_len doc_lengths e
      | Some (_, size) =>
          mget_lengths rest (S i) (int64 (all_len + size)) (<[i := size]> doc_lengths) e
      end
  end.

(** The second loop.  The [off] of the structured binding hides the running
    [off], so each value is read to [&res_buf[off]] for its offset in the data
    file; [None] is a store outside of [res_buf]. *)
Fixpoint mget_read (keys : list Z) (res_buf : bytes) (e : Engine) (fs : Fs) :
    option (bool * bytes * Fs) :=
  match keys with
  | [] => Some (true, res_buf, fs)
  | key :: rest =>
      match _key_to_offset e !! key with
      | None => mget_read rest res_buf e fs
      | Some (off, size) =>
          if (off <? 0) || (size <? 0) || (Z.of_nat (length res_buf) <? off + size) then None
          else
            let '(_, fs) := seek_set (_data_fd e) off fs in
            let '(rc, b, fs) := read_file (_data_fd e) (Z.to_nat size) fs in
            let res_buf := overwrite res_buf (Z.to_nat off) b in
            if negb (rc =? size) then Some (false, res_buf, fs)
            else mget_read rest res_buf e fs
      end
  end.

(** The result, [doc_lengths], [res_buf] and the file system. *)
Definition Mget (keys : list Z) (doc_lengths : list Z) (res_buf : bytes) (e : Engine)
    (fs : Fs) : option (bool * list Z * bytes * Fs) :=
  let '(all_len, doc_lengths) :=
    mget_lengths keys 0 0 (resize (length keys) 0 doc_lengths) e in
  if all_len <? 0 then None
  else
    '(ok, res_buf, fs) ← mget_read keys (resize (Z.to_nat all_len) (byte_of 0) res_buf) e fs;
    Some (ok, doc_lengths, res_buf, fs).

(** ** Snapshot, deletion, destruction *)

Section more_files.
Context `{FileUtil}.

Definition Snapshot (raft_root : string) (filenames : list string) (e : Engine) (fs : Fs) :
    string * list string * Fs :=
  let '(_, fs) := CopyFile (data_path e) (raft_root +:+ _data_filename) fs in
  let '(_, fs) := CopyFile (mata_path e) (raft_root +:+ _mata_filename) fs in
  ("", filenames ++ [_data_filename; _mata_filename], fs).

Definition Delete (e : Engine) (fs : Fs) : string * Engine * Fs :=
  let fs := if 0 <=? _data_fd e then close_file (_data_fd e) fs else fs in
  let fs := if 0 <=? _mata_fd e then close_file (_mata_fd e) fs else fs in
  let e := mkEngine (_path e) (_data_fd e) (_mata_fd e) 0 0 0 ∅ in
  let '(_, fs) := DeleteFile (_path e +:+ _mata_filename) false fs in
  let '(_, fs) := DeleteFile (_path e +:+ _data_filename) false fs in
  ("", e, fs).

End more_files.

(** [Engine::~Engine] *)
Definition Engine_destroy (e : Engine) (fs : Fs) : Engine * Fs :=
  let '(d, fs) := if 0 <? _data_fd e then (-1, close_file (_data_fd e) fs)
                  else (_data_fd e, fs) in
  let '(m, fs) := if 0 <? _mata_fd e then (-1, close_file (_mata_fd e) fs)
                  else (_mata_fd e, fs) in
  (mkEngine (_path e) d m (_data_size e) (_mata_offset e) (_raw_data_offset e)
     (_key_to_offset e), fs).

(** ** Specification *)

Definition slice (c : bytes) (off len : Z) : bytes :=
  take (Z.to_nat len) (drop (Z.to_nat off) c).

(** The store as its clients see it: a batch assigns to each of its keys the
    next [data_len] bytes of the data, later pairs winning. *)
Fixpoint spec_add (kv_list : list (Z * Z)) (data : bytes) (off : Z) (v : gmap Z bytes) :
    gmap Z bytes :=
  match kv_list with
  | [] => v
  | (key, len) :: rest => spec_add rest data (off + len) (<[key := slice data off len]> v)
  end.

Definition total_len (kv_list : list (Z * Z)) : Z :=
  fold_right (λ kv acc, kv.2 + acc) 0 kv_list.

Definition batch_ok (kv_list : list (Z * Z)) : Prop :=
  Forall (λ kv, in_int32 kv.1 ∧ 0 ≤ kv.2 ∧ in_int16 kv.2) kv_list.

(** One record of the log: key, offset, length. *)
Definition entry_ok (raw : Z) (x : Z * (Z * Z)) : Prop :=
  in_int32 x.1 ∧ 0 ≤ x.2.1 ∧ 0 ≤ x.2.2 ∧ in_int16 x.2.2 ∧ x.2.1 + x.2.2 ≤ raw.

Definition encode_log (l : list (Z * (Z * Z))) : bytes :=
  mjoin ((λ x, encode_mata x.1 x.2.1 x.2.2) <$> l).

Definition index_from (m : gmap Z (Z * Z)) (l : list (Z * (Z * Z))) : gmap Z (Z * Z) :=
  fold_left (λ m x, <[x.1 := x.2]> m) l m.

(** The engine [e] on [fs] holds the log [l] over the data bytes [d]; the meta
    file [m] may have bytes of a failed write past its records. *)
Record eng_rep (e : Engine) (fs : Fs) (dino mino : nat) (d m : bytes)
    (l : list (Z * (Z * Z))) : Prop := {
  rep_dfd : ∃ pos, fs_fds fs !! _data_fd e = Some (dino, pos);
  rep_mfd : ∃ pos, fs_fds fs !! _mata_fd e = Some (mino, pos);
  rep_ino : dino ≠ mino;
  rep_d : fs_inodes fs !! dino = Some d;
  rep_m : fs_inodes fs !! mino = Some m;
  rep_raw : 0 ≤ _raw_data_offset e ≤ Z.of_nat (length d);
  rep_raw64 : _raw_data_offset e < 2 ^ 63;
  rep_size : _data_size e = Z.of_nat (length l);
  rep_moff : _mata_offset e = _one_doc_mata_size * Z.of_nat (length l);
  rep_moff31 : _mata_offset e < 2 ^ 31;
  rep_log : take (Z.to_nat (_mata_offset e)) m = encode_log l;
  rep_index : _key_to_offset e = index_from ∅ l;
  rep_entries : Forall (entry_ok (_raw_data_offset e)) l
}.

Definition view_of (m : gmap Z (Z * Z)) (d : bytes) : gmap Z bytes :=
  (λ p, slice d p.1 p.2) <$> m.

Definition files_end (e : Engine) (d m : bytes) : Prop :=
  Z.of_nat (length d) = _raw_data_offset e ∧ Z.of_nat (length m) = _mata_offset e.

(** The engine implements the map [v], its files being those of its path;
    [clean] says that nothing follows the used part of the files. *)
Definition eng_wf (clean : bool) (e : Engine) (fs : Fs) (v : gmap Z bytes) : Prop :=
  ∃ dino mino d m l, eng_rep e fs dino mino d m l ∧
    fs_names fs !! data_path e = Some dino ∧ fs_names fs !! mata_path e = Some mino ∧
    v = view_of (_key_to_offset e) d ∧
    (clean = true → files_end e d m).

(** ** Lemmas *)

Lemma length_encode_mata key off len : length (encode_mata key off len) = 14%nat.
Proof. unfold encode_mata. by rewrite !length_app, !length_le_bytes. Qed.

Lemma encode_log_cons x l : encode_log (x :: l) = encode_mata x.1 x.2.1 x.2.2 ++ encode_log l.
Proof. done. Qed.

Lemma length_encode_log l : length (encode_log l) = (14 * length l)%nat.
Proof.
  induction l as [|x l IH]; [done|].
  rewrite encode_log_cons, length_app, IH, length_encode_mata. simpl. lia.
Qed.

Lemma encode_log_snoc l x :
  encode_log (l ++ [x]) = encode_log l ++ encode_mata x.1 x.2.1 x.2.2.
Proof.
  induction l as [|y l IH]; [apply app_nil_r|].
  rewrite <-app_comm_cons, !encode_log_cons, IH. by rewrite app_assoc.
Qed.

Lemma decode_encode_mata key off len rest :
  in_int32 key → in_int64 off → in_int16 len →
  decode_mata (encode_mata key off len ++ rest) = (key, (off, len)).
Proof.
  intros Hk Ho Hl. unfold decode_mata, encode_mata. rewrite <-!app_assoc.
  rewrite take_app_length' by (by rewrite length_le_bytes).
  rewrite drop_app_length' by (by rewrite length_le_bytes).
  rewrite take_app_length' by (by rewrite length_le_bytes).
  rewrite (app_assoc (le_bytes 4 key)).
  rewrite drop_app_length' by (by rewrite length_app, !length_le_bytes).
  rewrite take_app_length' by (by rewrite length_le_bytes).
  rewrite !le_value_le_bytes. by rewrite int32_le, int64_le, int16_le.
Qed.

Lemma slice_agree c c' raw off len :
  take (Z.to_nat raw) c' = take (Z.to_nat raw) c → 0 ≤ off → 0 ≤ len → off + len ≤ raw →
  slice c' off len = slice c off len.
Proof.
  intros E Ho Hl Hr. unfold slice.
  assert (∀ x : bytes, take (Z.to_nat len) (drop (Z.to_nat off) x) =
    take (Z.to_nat len) (drop (Z.to_nat off) (take (Z.to_nat raw) x))) as Hx.
  { intros x. rewrite !take_drop_commute, take_take. f_equal. f_equal. lia. }
  by rewrite Hx, E, <-Hx.
Qed.

Lemma index_from_entries raw l k p :
  Forall (entry_ok raw) l → index_from ∅ l !! k = Some p → entry_ok raw (k, p).
Proof.
  intros Hl. unfold index_from.
  assert (∀ m : gmap Z (Z * Z), (∀ k p, m !! k = Some p → entry_ok raw (k, p)) →
    fold_left (λ m x, <[x.1:=x.2]> m) l m !! k = Some p → entry_ok raw (k, p)) as Hm.
  { induction Hl as [|[k' p'] l Hx Hl IH]; intros m Hm; simpl; [apply Hm|].
    apply IH. intros k1 p1. rewrite lookup_insert. case_decide; naive_solver. }
  apply Hm. intros ? ?. by rewrite lookup_empty.
Qed.

Lemma view_of_agree raw l d d' :
  Forall (entry_ok raw) l → take (Z.to_nat raw) d' = take (Z.to_nat raw) d →
  view_of (index_from ∅ l) d' = view_of (index_from ∅ l) d.
Proof.
  intros Hl E. apply map_eq. intros k. unfold view_of. rewrite !lookup_fmap.
  destruct (index_from ∅ l !! k) as [p|] eqn:Ek; [|done]. simpl.
  destruct (index_from_entries _ _ _ _ Hl Ek) as (_ & ? & ? & _ & ?).
  f_equal. by eapply slice_agree.
Qed.

Lemma rep_update e fs fs' dino mino d m d' m' l :
  eng_rep e fs dino mino d m l →
  (∃ pos, fs_fds fs' !! _data_fd e = Some (dino, pos)) →
  (∃ pos, fs_fds fs' !! _mata_fd e = Some (mino, pos)) →
  fs_inodes fs' !! dino = Some d' → fs_inodes fs' !! mino = Some m' →
  _raw_data_offset e ≤ Z.of_nat (length d') →
  take (Z.to_nat (_mata_offset e)) m' = take (Z.to_nat (_mata_offset e)) m →
  eng_rep e fs' dino mino d' m' l.
Proof. intros [] Hd Hm Hd' Hm' Hl Ht. constructor; try done; [lia|congruence]. Qed.

Lemma rep_fds_ne e fs dino mino d m l :
  eng_rep e fs dino mino d m l → _data_fd e ≠ _mata_fd e.
Proof. intros [[? E1] [? E2] Hne]. intros E. rewrite E in E1. congruence. Qed.

Lemma rep_mata_length e fs dino mino d m l :
  eng_rep e fs dino mino d m l → 0 ≤ _mata_offset e ≤ Z.of_nat (length m).
Proof.
  intros []. assert (length (take (Z.to_nat (_mata_offset e)) m) = (14 * length l)%nat) as E
    by (by rewrite rep_log0, length_encode_log).
  rewrite length_take in E. unfold _one_doc_mata_size in *. lia.
Qed.

Lemma Forall_entry_mono raw raw' l :
  raw ≤ raw' → Forall (entry_ok raw) l → Forall (entry_ok raw') l.
Proof.
  intros Hr Hl. eapply Forall_impl; [exact Hl|]. unfold entry_ok. intros x ?. intuition lia.
Qed.

(** The bytes of a written value, and the prefix before it. *)
Lemma slice_write_at d raw b :
  0 ≤ raw ≤ Z.of_nat (length d) →
  slice (write_at d (Z.to_nat raw) b) raw (Z.of_nat (length b)) = b.
Proof.
  intros Hr. unfold slice. rewrite Nat2Z.id, take_drop_commute.
  rewrite take_write_at by lia. apply drop_app_length'. rewrite length_take. lia.
Qed.

Definition added (key len : Z) (e : Engine) : Engine :=
  mkEngine (_path e) (_data_fd e) (_mata_fd e) (_data_size e + 1)
    (_mata_offset e + _one_doc_mata_size) (_raw_data_offset e + len)
    (<[key := (_raw_data_offset e, len)]> (_key_to_offset e)).

Lemma rep_added e fs fs' dino mino d m l key len d' b :
  eng_rep e fs dino mino d m l → in_int32 key → 0 ≤ len → in_int16 len →
  _raw_data_offset e + len < 2 ^ 63 → _mata_offset e + _one_doc_mata_size < 2 ^ 31 →
  (∃ pos, fs_fds fs' !! _data_fd e = Some (dino, pos)) →
  (∃ pos, fs_fds fs' !! _mata_fd e = Some (mino, pos)) →
  b = encode_mata key (_raw_data_offset e) len →
  fs_inodes fs' !! dino = Some d' →
  fs_inodes fs' !! mino = Some (write_at m (Z.to_nat (_mata_offset e)) b) →
  _raw_data_offset e + len ≤ Z.of_nat (length d') →
  eng_rep (added key len e) fs' dino mino d'
    (write_at m (Z.to_nat (_mata_offset e)) b) (l ++ [(key, (_raw_data_offset e, len))]).
Proof.
  intros R Hk Hl Hl16 Hraw Hmo Hd Hm -> Hid Him Hlen. pose proof (rep_mata_length _ _ _ _ _ _ _ R).
  destruct R. constructor; simpl; try done; try lia; rewrite ?length_app; simpl; try lia.
  - rewrite encode_log_snoc, <-rep_log0. simpl.
    rewrite <-(take_write_at m (Z.to_nat (_mata_offset e))), length_encode_mata by lia.
    f_equal. unfold _one_doc_mata_size. lia.
  - rewrite rep_index0. unfold index_from. by rewrite fold_left_app.
  - apply Forall_app. split; [|constructor; [|done]].
    + eapply Forall_entry_mono; [|done]. lia.
    + unfold entry_ok. simpl. intuition lia.
Qed.

(** A write at the end of the used part of either file keeps the log. *)
Lemma rep_write_data e fs fs' dino mino d m l b pos :
  eng_rep e fs dino mino d m l →
  fs_inodes fs' = <[dino := write_at d (Z.to_nat (_raw_data_offset e)) b]> (fs_inodes fs) →
  fs_fds fs' = <[_data_fd e := (dino, pos)]> (fs_fds fs) →
  eng_rep e fs' dino mino (write_at d (Z.to_nat (_raw_data_offset e)) b) m l.
Proof.
  intros R I F. pose proof (rep_fds_ne _ _ _ _ _ _ _ R) as Hfd.
  eapply rep_update; [done|..]; destruct R; rewrite ?F, ?I.
  - eexists. apply lookup_insert_eq.
  - by rewrite lookup_insert_ne.
  - apply lookup_insert_eq.
  - by rewrite lookup_insert_ne.
  - rewrite length_write_at; lia.
  - done.
Qed.

Lemma rep_write_mata e fs fs' dino mino d m l b pos :
  eng_rep e fs dino mino d m l →
  fs_inodes fs' = <[mino := write_at m (Z.to_nat (_mata_offset e)) b]> (fs_inodes fs) →
  fs_fds fs' = <[_mata_fd e := (mino, pos)]> (fs_fds fs) →
  eng_rep e fs' dino mino d (write_at m (Z.to_nat (_mata_offset e)) b) l.
Proof.
  intros R I F. pose proof (rep_fds_ne _ _ _ _ _ _ _ R) as Hfd.
  pose proof (rep_mata_length _ _ _ _ _ _ _ R) as Hml.
  eapply rep_update; [done|..]; destruct R; rewrite ?F, ?I.
  - by rewrite lookup_insert_ne.
  - eexists. apply lookup_insert_eq.
  - by rewrite lookup_insert_ne.
  - apply lookup_insert_eq.
  - lia.
  - apply write_at_prefix. lia.
Qed.

(** One document: either nothing changes but bytes past the used part of the
    files, or the document is the last entry of the log. *)
Lemma add_one_spec e fs dino mino d m l key len buf :
  eng_rep e fs dino mino d m l → in_int32 key → 0 ≤ len → in_int16 len →
  len ≤ Z.of_nat (length buf) →
  _raw_data_offset e + len < 2 ^ 63 → _mata_offset e + _one_doc_mata_size < 2 ^ 31 →
  ∃ msg e' fs' d' m', add_one key len buf e fs = Some (msg, e', fs') ∧
    fs_names fs' = fs_names fs ∧ (no_fail fs → msg = "" ∧ no_fail fs') ∧
    take (Z.to_nat (_raw_data_offset e)) d' = take (Z.to_nat (_raw_data_offset e)) d ∧
    ((msg ≠ "" ∧ e' = e ∧ eng_rep e fs' dino mino d' m' l) ∨
     (msg = "" ∧ e' = added key len e ∧
      eng_rep e' fs' dino mino d' m' (l ++ [(key, (_raw_data_offset e, len))]) ∧
      slice d' (_raw_data_offset e) len = take (Z.to_nat len) buf ∧
      (files_end e d m → files_end e' d' m'))).
Proof.
  intros R Hk Hl Hl16 Hb Hraw Hmo. pose proof (rep_raw _ _ _ _ _ _ _ R) as Hr.
  destruct (rep_dfd _ _ _ _ _ _ _ R) as [dpos Hd].
  destruct (seek_write _ (_raw_data_offset e) buf len _ _ _ _ Hd (rep_d _ _ _ _ _ _ _ R))
    as (rc & fs1 & b & p1 & E1 & I1 & F1 & N1 & _ & B1 & NF1); [lia|lia|].
  pose proof (rep_write_data _ _ _ _ _ _ _ _ _ _ R I1 F1) as R1.
  unfold add_one. destruct (seek_set _ _ fs) as [? fs0]. simpl in E1 |- *. rewrite E1. simpl.
  destruct (Z.eqb_spec rc len) as [->|Hrc]; simpl; cycle 1.
  { do 5 eexists. split; [done|]. split; [done|]. split; [naive_solver|].
    split; [apply (write_at_prefix _ _ b); lia|]. left. split_and!; [|done|done].
    unfold msg_raw_failed. by intros [? _]%append_eq_nil. }
  specialize (B1 eq_refl). pose proof (rep_mata_length _ _ _ _ _ _ _ R1) as Hml.
  assert (Z.of_nat (length b) = len) as Hbl by (subst b; rewrite length_take; lia).
  destruct (rep_mfd _ _ _ _ _ _ _ R1) as [mpos Hm].
  destruct (seek_write _ (_mata_offset e) (encode_mata key (_raw_data_offset e) len)
    _one_doc_mata_size _ _ _ _ Hm (rep_m _ _ _ _ _ _ _ R1))
    as (rc & fs2 & b2 & p2 & E2 & I2 & F2 & N2 & _ & B2 & NF2);
    [lia|by rewrite length_encode_mata|].
  pose proof (rep_write_mata _ _ _ _ _ _ _ _ _ _ R1 I2 F2) as R2.
  destruct (seek_set _ _ fs1) as [? fs3]. simpl in E2 |- *. rewrite E2. simpl.
  destruct (Z.eqb_spec rc _one_doc_mata_size) as [->|Hrc]; simpl.
  - specialize (B2 eq_refl). rewrite take_ge in B2 by (rewrite length_encode_mata; done).
    destruct R2. do 5 eexists. split; [done|]. split; [congruence|]. split; [naive_solver|].
    split; [apply (write_at_prefix _ _ b); lia|]. right. split; [done|].
    rewrite int32_id, !int64_id by (unfold in_int32, in_int64, _one_doc_mata_size in *; lia).
    split; [done|]. split_and!.
    + eapply rep_added; try done. rewrite length_write_at; lia.
    + rewrite <-B1, <-Hbl. apply slice_write_at. lia.
    + unfold files_end. intros [Hcd Hcm]. rewrite !length_write_at, B2, length_encode_mata by lia.
      simpl. unfold _one_doc_mata_size in *. lia.
  - do 5 eexists. split; [done|]. split; [congruence|]. split; [naive_solver|].
    split; [apply (write_at_prefix _ _ b); lia|]. left. split_and!; [|done|done].
    unfold msg_mata_failed. by intros [? _]%append_eq_nil.
Qed.

Lemma add_one_wf clean e fs v key len buf :
  eng_wf clean e fs v → in_int32 key → 0 ≤ len → in_int16 len →
  len ≤ Z.of_nat (length buf) →
  _raw_data_offset e + len < 2 ^ 63 → _mata_offset e + _one_doc_mata_size < 2 ^ 31 →
  ∃ msg e' fs', add_one key len buf e fs = Some (msg, e', fs') ∧
    (no_fail fs → msg = "" ∧ no_fail fs') ∧
    ((msg ≠ "" ∧ e' = e ∧ eng_wf false e fs' v) ∨
     (msg = "" ∧ e' = added key len e ∧
      eng_wf clean e' fs' (<[key := take (Z.to_nat len) buf]> v))).
Proof.
  intros (dino & mino & d & m & l & R & Hnd & Hnm & -> & Hcl) Hk Hl Hl16 Hb Hraw Hmo.
  destruct (add_one_spec _ _ _ _ _ _ _ _ _ _ R Hk Hl Hl16 Hb Hraw Hmo)
    as (msg & e' & fs' & d' & m' & E & N & NF & P & [(Hmsg & -> & R')|(Hmsg & He & R' & S & C)]);
    do 3 eexists; (split; [done|]); (split; [done|]); [left|right].
  - split_and!; [done|done|]. exists dino, mino, d', m', l. rewrite N.
    split_and!; try done. rewrite (rep_index _ _ _ _ _ _ _ R).
    symmetry. eapply view_of_agree; [|done]. apply R.
  - split_and!; [done|done|]. eexists dino, mino, d', m', _. rewrite N. subst e'.
    split_and!; try done; [|naive_solver]. simpl. unfold view_of at 2. rewrite fmap_insert.
    simpl. rewrite S. f_equal. rewrite (rep_index _ _ _ _ _ _ _ R).
    symmetry. eapply view_of_agree; [|done]. apply R.
Qed.

Lemma take_drop_slice data off len :
  0 ≤ off → 0 ≤ len → off + len ≤ Z.of_nat (length data) →
  take (Z.to_nat len) (drop (Z.to_nat off) (data ++ [byte_of 0])) = slice data off len.
Proof.
  intros Ho Hl Hd. unfold slice. rewrite drop_app_le by lia.
  rewrite take_app_le by (rewrite length_drop; lia). done.
Qed.

Lemma total_len_nonneg kv : batch_ok kv → 0 ≤ total_len kv.
Proof. induction 1 as [|x kv [_ [Hx _]] Hkv IH]; simpl; lia. Qed.

Lemma eng_wf_bounds clean e fs v :
  eng_wf clean e fs v → 0 ≤ _raw_data_offset e < 2 ^ 63 ∧ 0 ≤ _mata_offset e < 2 ^ 31.
Proof.
  intros (? & ? & ? & ? & ? & R & _). pose proof (rep_mata_length _ _ _ _ _ _ _ R).
  destruct R. lia.
Qed.

Lemma batch_add_wf clean kv data all_len e fs v :
  eng_wf clean e fs v → batch_ok kv → 0 ≤ all_len →
  all_len + total_len kv ≤ Z.of_nat (length data) → Z.of_nat (length data) < 2 ^ 63 →
  _raw_data_offset e + total_len kv < 2 ^ 63 →
  _mata_offset e + _one_doc_mata_size * Z.of_nat (length kv) < 2 ^ 31 →
  ∃ j msg e' fs', batch_add kv data all_len e fs = Some (msg, e', fs') ∧
    (j ≤ length kv)%nat ∧ (msg = "" ↔ j = length kv) ∧ (no_fail fs → msg = "" ∧ no_fail fs') ∧
    eng_wf (clean && negb (failed msg)) e' fs' (spec_add (take j kv) data all_len v).
Proof.
  intros W B. revert all_len e fs v W.
  induction B as [|[key len] kv (Hk & Hl & Hl16) B IH];
    intros all_len e fs v W Ha Hd Hd63 Hraw Hmo; simpl in *.
  { exists 0%nat. do 3 eexists. split; [done|]. simpl. rewrite andb_true_r. naive_solver. }
  pose proof (total_len_nonneg _ B). pose proof (eng_wf_bounds _ _ _ _ W) as [Hb1 Hb2].
  unfold _one_doc_mata_size in *.
  rewrite (proj2 (Z.ltb_ge all_len 0)), (proj2 (Z.ltb_ge _ all_len)) by lia. simpl.
  destruct (add_one_wf clean e fs v key len (drop (Z.to_nat all_len) (data ++ [byte_of 0])))
    as (msg & e' & fs' & -> & NF & [(Hmsg & -> & W')|(-> & -> & W')]); try done.
  { rewrite length_drop, length_app. simpl. lia. }
  { lia. }
  { unfold _one_doc_mata_size. lia. }
  - simpl. rewrite (proj2 (failed_true msg)) by done. exists 0%nat. do 3 eexists.
    split; [done|]. rewrite (proj2 (failed_true msg)) by done.
    rewrite andb_false_r. split_and!; [lia|naive_solver lia|done|done].
  - simpl. rewrite take_drop_slice in W' by lia. rewrite int64_id by (unfold in_int64; lia).
    destruct (IH (all_len + len) (added key len e) fs' _ W')
      as (j & msg & e' & fs'' & E & Hj & Hm & NF' & W''); simpl; try lia.
    { unfold _one_doc_mata_size. lia. }
    exists (S j), msg, e', fs''. split_and!; [done|lia| |naive_solver|done].
    rewrite Hm. lia.
Qed.

(** *** Opening *)

Lemma encode_log_app l1 l2 : encode_log (l1 ++ l2) = encode_log l1 ++ encode_log l2.
Proof.
  induction l1 as [|x l1 IH]; [done|]. rewrite <-app_comm_cons, !encode_log_cons, IH.
  by rewrite app_assoc.
Qed.

Lemma encode_log_at l1 x l2 :
  take 14 (drop (14 * length l1) (encode_log (l1 ++ x :: l2))) = encode_mata x.1 x.2.1 x.2.2.
Proof.
  rewrite encode_log_app, encode_log_cons, drop_app_length'
    by (by rewrite length_encode_log).
  apply take_app_length'. by rewrite length_encode_mata.
Qed.

Definition same_files (fs fs' : Fs) : Prop :=
  fs_inodes fs' = fs_inodes fs ∧ fs_names fs' = fs_names fs ∧ fs_dirs fs' = fs_dirs fs.

Lemma load_mata_log fd ino raw l1 l2 acc fs pos :
  fs_fds fs !! fd = Some (ino, pos) → fs_inodes fs !! ino = Some (encode_log (l1 ++ l2)) →
  no_fail fs → Forall (entry_ok raw) l2 → raw < 2 ^ 63 →
  _one_doc_mata_size * Z.of_nat (length (l1 ++ l2)) < 2 ^ 31 →
  ∃ fs' fds', load_mata (length l2) (Z.of_nat (length l1)) fd acc fs =
      ("", index_from acc l2, fs') ∧
    same_files fs fs' ∧ no_fail fs' ∧ fs_fds fs' = fds' ∧
    (∃ pos', fds' !! fd = Some (ino, pos')) ∧
    ∀ fd', fd' ≠ fd → fds' !! fd' = fs_fds fs !! fd'.
Proof.
  revert l1 acc fs pos. induction l2 as [|x l2 IH];
    intros l1 acc fs pos Hfd Hino Hn Hl Hraw Hlen; cbn [load_mata length].
  { do 2 eexists. split; [done|]. split; [done|]. naive_solver. }
  apply Forall_cons in Hl as [(Hk & Ho & Hs & Hs16 & Hle) Hl].
  rewrite length_app in Hlen. simpl in Hlen. unfold _one_doc_mata_size in Hlen.
  rewrite int32_id by (unfold in_int32, _one_doc_mata_size; lia).
  destruct (seek_read fd (Z.of_nat (length l1) * _one_doc_mata_size) 14 fs ino pos _ Hfd Hino)
    as (fs1 & p1 & E & I1 & F1 & N1 & D1 & NF1); [unfold _one_doc_mata_size; lia|done|].
  change (Z.to_nat _one_doc_mata_size) with 14%nat.
  destruct (seek_set _ _ fs) as [? fs0]. cbn [snd] in E. rewrite E.
  replace (Z.to_nat (Z.of_nat (length l1) * _one_doc_mata_size)) with (14 * length l1)%nat
    by (unfold _one_doc_mata_size; lia).
  rewrite encode_log_at, length_encode_mata.
  change (Z.of_nat 14 =? _one_doc_mata_size) with true. cbn [negb].
  rewrite <-(app_nil_r (encode_mata _ _ _)), decode_encode_mata
    by (try done; unfold in_int64; lia).
  replace (Z.of_nat (length l1) + 1) with (Z.of_nat (length (l1 ++ [x])))
    by (rewrite length_app; simpl; lia).
  destruct (IH (l1 ++ [x]) (<[x.1 := x.2]> acc) fs1 p1)
    as (fs' & fds' & E' & (I' & N' & D') & NF' & Ef' & Hp' & Ho'); try done.
  - by rewrite F1, lookup_insert_eq.
  - by rewrite I1, <-app_assoc.
  - rewrite !length_app. simpl. unfold _one_doc_mata_size. lia.
  - exists fs', fds'. destruct x as [k [o s]]. simpl in *. split; [done|].
    split; [unfold same_files; naive_solver congruence|]. split_and!; try done.
    intros fd' Hne. rewrite Ho', F1, lookup_insert_ne; done.
Qed.

(** Opening an engine on a log written before. *)
Lemma open_engine_log e fs dino mino d l :
  fs_names fs !! data_path e = Some dino → fs_names fs !! mata_path e = Some mino →
  dino ≠ mino → fs_inodes fs !! dino = Some d → fs_inodes fs !! mino = Some (encode_log l) →
  no_fail fs → _key_to_offset e = ∅ → Forall (entry_ok (Z.of_nat (length d))) l →
  Z.of_nat (length d) < 2 ^ 63 → _one_doc_mata_size * Z.of_nat (length l) < 2 ^ 31 →
  ∃ e' fs', open_engine e fs = ("", e', fs') ∧ _path e' = _path e ∧ same_files fs fs' ∧
    no_fail fs' ∧ files_end e' d (encode_log l) ∧
    eng_rep e' fs' dino mino d (encode_log l) l.
Proof.
  intros Hdn Hmn Hne Hd Hm Hnf He Hl Hd63 Hm31. unfold open_engine.
  destruct (open_file_existing _ _ _ Hdn Hnf) as (dfd & fs1 & -> & D3 & Dnew & F1 & I1 & N1 & Di1 & NF1).
  rewrite (proj2 (Z.leb_gt dfd 0)) by lia. unfold mata_path in *. simpl.
  rewrite <-N1 in Hmn. destruct (open_file_existing _ _ _ Hmn NF1)
    as (mfd & fs2 & -> & M3 & Mnew & F2 & I2 & N2 & Di2 & NF2).
  rewrite (proj2 (Z.leb_gt mfd 0)) by lia.
  assert (dfd ≠ mfd) as Hfd by (intros ->; rewrite F1, lookup_insert_eq in Mnew; done).
  unfold seek_end. rewrite F2, F1, lookup_insert_ne, lookup_insert_eq by done.
  simpl. rewrite lookup_insert_ne, lookup_insert_eq by done. rewrite I2, I1, Hd, Hm. simpl.
  rewrite length_encode_log.
  replace (Z.of_nat (14 * length l) `quot` _one_doc_mata_size) with (Z.of_nat (length l)).
  2:{ replace (Z.of_nat (14 * length l)) with (Z.of_nat (length l) * _one_doc_mata_size)
        by (unfold _one_doc_mata_size; lia). by rewrite Z.quot_mul. }
  rewrite int32_id by (unfold in_int32, _one_doc_mata_size in *; lia). rewrite Nat2Z.id, He.
  set (fs3 := set_fds _ _). destruct (load_mata_log mfd mino (Z.of_nat (length d)) [] l ∅ fs3
    (14 * length l)%nat) as (fs' & fds' & E & (I3 & N3 & D3') & NF3 & EF & Hp & Ho); try done.
  { simpl. apply lookup_insert_eq. }
  { simpl. by rewrite I2, I1. }
  change (Z.of_nat (length [])) with 0 in E. rewrite E.
  do 2 eexists. split; [done|]. split; [done|]. simpl in *.
  split; [unfold same_files; naive_solver congruence|]. split; [done|].
  split; [split; [done|by rewrite length_encode_log]|]. constructor; simpl; try done; try lia.
  - rewrite EF, Ho by done. rewrite lookup_insert_ne, lookup_insert_eq by done. by eexists.
  - by rewrite EF.
  - by rewrite I3, I2, I1.
  - by rewrite I3, I2, I1.
  - unfold _one_doc_mata_size. lia.
  - unfold _one_doc_mata_size in Hm31. lia.
  - rewrite take_ge; [done|]. rewrite length_encode_log. lia.
Qed.

(** *** Paths *)

Lemma engine_paths_differ p q : p +:+ _data_filename ≠ q +:+ _mata_filename.
Proof. by intros [_ ?]%append_inj_suffix. Qed.

(** No file of an engine has the name of a backup. *)
Lemma data_not_backup p q k : p +:+ _data_filename ≠ backup_name q k.
Proof. eapply not_backup_name; [by apply last_char_append|done]. Qed.
Lemma mata_not_backup p q k : p +:+ _mata_filename ≠ backup_name q k.
Proof. eapply not_backup_name; [by apply last_char_append|done]. Qed.

Ltac paths :=
  intros; first [assumption | apply data_not_backup | apply mata_not_backup
    | apply engine_paths_differ | apply not_eq_sym, engine_paths_differ].

Section snapshot.
Context `{FileUtilLaws}.

(** Copies of existing files succeed: the target is writable and there is room. *)
Definition copies_succeed : Prop :=
  ∀ from to fs, is_Some (content fs from) → (CopyFile from to fs).1 = true.

Lemma copy_content from to fs c :
  copies_succeed → from ≠ to → content fs from = Some c →
  ∃ fs', CopyFile from to fs = (true, fs') ∧ fs' = put_content to c fs.
Proof.
  intros Hc Hne E. specialize (Hc from to fs). rewrite E in Hc. specialize (Hc (mk_is_Some _ _ eq_refl)).
  destruct (CopyFile from to fs) as [b fs'] eqn:EC. simpl in Hc. subst b.
  destruct (CopyFile_true _ _ _ _ Hne EC) as (c' & E' & ->). exists (put_content to c fs).
  split; congruence.
Qed.

Lemma put_content_sched p c fs : fs_sched (put_content p c fs) = fs_sched fs.
Proof. unfold put_content. by case_match. Qed.

Lemma content_names fs p c : content fs p = Some c → is_Some (fs_names fs !! p).
Proof. unfold content. destruct (fs_names fs !! p); naive_solver. Qed.

Lemma BackupFile_content f fs q :
  q ≠ f → (∀ k, q ≠ backup_name f k) → content (BackupFile f fs).2 q = content fs q.
Proof.
  intros Hq Hk. destruct (BackupFile_frame f fs) as (Ei & _ & _ & _ & En & _).
  unfold content. by rewrite Ei, En.
Qed.

(** The files of the snapshot are in place before the engine opens. *)
Lemma take_snapshot_files_spec e root fs d m :
  copies_succeed → names_inj fs → root ≠ _path e →
  content fs (root +:+ _data_filename) = Some d →
  content fs (root +:+ _mata_filename) = Some m →
  let fs' := take_snapshot_files e root fs in
  content fs' (data_path e) = Some d ∧ content fs' (mata_path e) = Some m ∧
  names_inj fs' ∧ fs_sched fs' = fs_sched fs.
Proof.
  intros Hc Hi Hp Hd Hm. cbv zeta. unfold take_snapshot_files.
  rewrite !(proj2 (PathExists_spec _ _)) by (left; by eapply content_names). simpl.
  assert (root +:+ _data_filename ≠ data_path e) as Hdd.
  { by intros [? _]%append_inj_suffix. }
  assert (root +:+ _mata_filename ≠ mata_path e) as Hmm.
  { by intros [? _]%append_inj_suffix. }
  pose proof (BackupFile_content (data_path e) fs) as B1.
  destruct (BackupFile_frame (data_path e) fs) as (_ & _ & _ & S1 & _ & I1).
  destruct (BackupFile (data_path e) fs) as [? fs1]. simpl in *.
  pose proof (BackupFile_content (mata_path e) fs1) as B2.
  destruct (BackupFile_frame (mata_path e) fs1) as (_ & _ & _ & S2 & _ & I2).
  destruct (BackupFile (mata_path e) fs1) as [? fs2]. simpl in *.
  assert (content fs2 (root +:+ _data_filename) = Some d) as Hd2.
  { rewrite B2, B1 by paths. done. }
  assert (content fs2 (root +:+ _mata_filename) = Some m) as Hm2.
  { rewrite B2, B1 by paths. done. }
  destruct (copy_content _ _ _ _ Hc Hdd Hd2) as (fs3 & -> & ->).
  assert (content (put_content (data_path e) d fs2) (root +:+ _mata_filename) = Some m) as Hm3.
  { rewrite content_put_ne by (auto; paths). done. }
  destruct (copy_content _ _ _ _ Hc Hmm Hm3) as (fs4 & -> & ->).
  split_and!.
  - rewrite content_put_ne by (auto using put_content_names_inj; paths).
    apply content_put_eq.
  - apply content_put_eq.
  - auto using put_content_names_inj.
  - rewrite !put_content_sched. congruence.
Qed.

Lemma Snapshot_contents e root fn fs d m :
  copies_succeed → names_inj fs → root ≠ _path e →
  content fs (data_path e) = Some d → content fs (mata_path e) = Some m →
  ∃ fs', Snapshot root fn e fs = ("", fn ++ [_data_filename; _mata_filename], fs') ∧
    content fs' (root +:+ _data_filename) = Some d ∧
    content fs' (root +:+ _mata_filename) = Some m ∧
    names_inj fs' ∧ fs_sched fs' = fs_sched fs.
Proof.
  intros Hc Hi Hr Hd Hm. unfold Snapshot.
  destruct (copy_content (data_path e) (root +:+ _data_filename) fs d Hc) as (? & -> & ->);
    [by intros [? _]%append_inj_suffix|done|].
  destruct (copy_content (mata_path e) (root +:+ _mata_filename)
    (put_content (root +:+ _data_filename) d fs) m Hc) as (? & -> & ->).
  { by intros [? _]%append_inj_suffix. }
  { rewrite content_put_ne by (auto; paths). done. }
  eexists. split; [done|]. split_and!.
  - rewrite content_put_ne by (auto using put_content_names_inj; paths). apply content_put_eq.
  - apply content_put_eq.
  - auto using put_content_names_inj.
  - by rewrite !put_content_sched.
Qed.

End snapshot.

(** Opening an engine on a log, in terms of the map. *)
Lemma open_engine_wf e fs d l :
  content fs (data_path e) = Some d → content fs (mata_path e) = Some (encode_log l) →
  names_inj fs → no_fail fs → _key_to_offset e = ∅ →
  Forall (entry_ok (Z.of_nat (length d))) l →
  Z.of_nat (length d) < 2 ^ 63 → _one_doc_mata_size * Z.of_nat (length l) < 2 ^ 31 →
  ∃ e' fs', open_engine e fs = ("", e', fs') ∧ _path e' = _path e ∧ no_fail fs' ∧
    eng_wf true e' fs' (view_of (index_from ∅ l) d).
Proof.
  intros Cd Cm Hi Hn He Hl Hd Hm. unfold content in Cd, Cm.
  destruct (fs_names fs !! data_path e) as [i1|] eqn:E1; [|done].
  destruct (fs_names fs !! mata_path e) as [i2|] eqn:E2; [|done]. simpl in Cd, Cm.
  assert (i1 ≠ i2) as Hne.
  { intros ->. eapply engine_paths_differ, Hi; [apply E1|apply E2]. }
  destruct (open_engine_log e fs i1 i2 d l) as (e' & fs' & E & P & (_ & N & _) & NF & FE & R);
    try done.
  exists e', fs'. split_and!; try done. exists i1, i2, d, (encode_log l), l.
  unfold data_path, mata_path in *. rewrite N, P, (rep_index _ _ _ _ _ _ _ R). done.
Qed.

(** What a clean engine has in its files. *)
Lemma eng_wf_contents e fs v :
  eng_wf true e fs v →
  ∃ d l, content fs (data_path e) = Some d ∧ content fs (mata_path e) = Some (encode_log l) ∧
    v = view_of (index_from ∅ l) d ∧ Forall (entry_ok (Z.of_nat (length d))) l ∧
    Z.of_nat (length d) < 2 ^ 63 ∧ _one_doc_mata_size * Z.of_nat (length l) < 2 ^ 31.
Proof.
  intros (dino & mino & d & m & l & R & Hnd & Hnm & -> & Hcl).
  destruct (Hcl eq_refl) as [Hed Hem]. destruct R. rewrite take_ge in rep_log0 by lia. subst m.
  exists d, l. unfold content. rewrite Hnd, Hnm, Hed, rep_index0. simpl.
  split_and!; try done; lia.
Qed.

(** *** Reading *)

Lemma overwrite_all {A} (x : A) b n : length b = n → overwrite (resize n x []) 0 b = b.
Proof.
  intros <-. unfold overwrite, resize. rewrite take_nil, Nat.sub_0_r. simpl.
  rewrite drop_replicate, Nat.sub_diag. apply app_nil_r.
Qed.

Lemma slice_length c off len :
  0 ≤ off → 0 ≤ len → off + len ≤ Z.of_nat (length c) → Z.of_nat (length (slice c off len)) = len.
Proof. intros. unfold slice. rewrite length_take, length_drop. lia. Qed.

(** A positioned read of an indexed value. *)
Lemma overwrite_prefix {A} (x : A) b n :
  (length b ≤ n)%nat → overwrite (resize n x []) 0 b = b ++ replicate (n - length b) x.
Proof.
  intros Hn. unfold overwrite, resize. rewrite take_nil, Nat.sub_0_r. simpl.
  by rewrite drop_replicate.
Qed.

Lemma read_entry_any clean e fs v key off size :
  eng_wf clean e fs v → _key_to_offset e !! key = Some (off, size) →
  0 ≤ off ∧ 0 ≤ size < 2 ^ 15 ∧ ∃ b r k fs', v !! key = Some b ∧ Z.of_nat (length b) = size ∧
    (k ≤ length b)%nat ∧
    read_file (_data_fd e) (Z.to_nat size) (seek_set (_data_fd e) off fs).2 = (r, take k b, fs') ∧
    eng_wf clean e fs' v ∧ (no_fail fs → r = size ∧ k = length b ∧ no_fail fs').
Proof.
  intros (dino & mino & d & m & l & R & Hnd & Hnm & -> & Hcl) Hk.
  destruct (rep_dfd _ _ _ _ _ _ _ R) as [pos Hfd].
  pose proof Hk as Hk'. rewrite (rep_index _ _ _ _ _ _ _ R) in Hk'.
  destruct (index_from_entries _ _ _ _ (rep_entries _ _ _ _ _ _ _ R) Hk')
    as (_ & Ho & Hs & Hs16 & Hle). simpl in *. unfold in_int16 in Hs16.
  pose proof (rep_raw _ _ _ _ _ _ _ R).
  assert (Z.of_nat (length (slice d off size)) = size) as HL by (apply slice_length; lia).
  destruct (seek_read_any _ off (Z.to_nat size) _ _ _ _ Hfd (rep_d _ _ _ _ _ _ _ R))
    as (r & k & fs' & p' & Hkl & E & I & F & N & _ & NF); [done|].
  fold (slice d off size) in *. rewrite HL in NF.
  split; [done|]. split; [lia|]. exists (slice d off size), r, k, fs'.
  split; [unfold view_of; by rewrite lookup_fmap, Hk|]. do 3 (split; [done|]).
  split; [|done]. exists dino, mino, d, m, l. rewrite N. split; [|done].
  pose proof (rep_fds_ne _ _ _ _ _ _ _ R). destruct R.
  constructor; try done; rewrite ?I, ?F; try done.
  - eexists. apply lookup_insert_eq.
  - by rewrite lookup_insert_ne.
Qed.

Lemma read_entry clean e fs v key off size :
  eng_wf clean e fs v → no_fail fs → _key_to_offset e !! key = Some (off, size) →
  0 ≤ off ∧ 0 ≤ size < 2 ^ 15 ∧ ∃ b fs', v !! key = Some b ∧ Z.of_nat (length b) = size ∧
    read_file (_data_fd e) (Z.to_nat size) (seek_set (_data_fd e) off fs).2 = (size, b, fs') ∧
    eng_wf clean e fs' v ∧ no_fail fs'.
Proof.
  intros W Hn Hk. destruct (read_entry_any _ _ _ _ _ _ _ W Hk)
    as (? & ? & b & r & k & fs' & ? & ? & _ & E & ? & Hnf). destruct (Hnf Hn) as (-> & -> & ?).
  rewrite firstn_all in E. do 2 (split; [done|]). by exists b, fs'.
Qed.

(** ** Properties *)

(** C12. The store implements a map from keys to byte strings, also when system
    calls fail: whatever the schedule of failures and short writes, [BatchAdd]
    adds a prefix of the batch, reports success exactly when that prefix is the
    whole batch, and leaves all other keys with their values. *)
Theorem BatchAdd_refines (clean : bool) (kv : list (Z * Z)) (data : bytes) (e : Engine)
    (fs : Fs) (v : gmap Z bytes) :
  eng_wf clean e fs v → batch_ok kv → total_len kv ≤ Z.of_nat (length data) < 2 ^ 63 →
  _raw_data_offset e + total_len kv < 2 ^ 63 →
  _mata_offset e + _one_doc_mata_size * Z.of_nat (length kv) < 2 ^ 31 →
  ∃ j msg e' fs', BatchAdd kv data e fs = Some (msg, e', fs') ∧
    (j ≤ length kv)%nat ∧ (msg = "" ↔ j = length kv) ∧ (no_fail fs → msg = "" ∧ no_fail fs') ∧
    eng_wf (clean && negb (failed msg)) e' fs' (spec_add (take j kv) data 0 v).
Proof. intros W B [Hd Hd63] Hraw Hmo. by apply batch_add_wf. Qed.

(** C13. A read returns the value of the map, and the empty string for a key the
    store does not have.  When the read of the file fails or stops early, the
    result has the length of the value all the same: the bytes that were read,
    followed by zeros.  A read leaves the map as it is, and when no system call
    fails the result is the whole value. *)
Theorem Get_refines (clean : bool) (key : Z) (e : Engine) (fs : Fs) (v : gmap Z bytes) :
  eng_wf clean e fs v →
  let val := default [] (v !! key) in
  ∃ k fs', (k ≤ length val)%nat ∧
    Get key e fs = Some (take k val ++ replicate (length val - k) (byte_of 0), fs') ∧
    eng_wf clean e fs' v ∧
    (no_fail fs → Get key e fs = Some (val, fs') ∧ no_fail fs').
Proof.
  intros W val. unfold Get. destruct (_key_to_offset e !! key) as [[off size]|] eqn:Ek.
  - destruct (read_entry_any _ _ _ _ _ _ _ W Ek)
      as (Ho & Hs & b & r & k & fs' & Hv & Hl & Hk & E & W' & Hn').
    rewrite (proj2 (Z.ltb_ge size 0)) by lia. destruct (seek_set _ _ fs) as [? fs0].
    simpl in E |- *. unfold val. rewrite E, Hv, overwrite_prefix by (rewrite length_take; lia).
    rewrite length_take, Nat.min_l, <-Hl, Nat2Z.id by lia. exists k, fs'. split_and!; [done..|].
    intros Hn. destruct (Hn' Hn) as (_ & -> & ?).
    by rewrite firstn_all, Nat.sub_diag, app_nil_r.
  - assert (v !! key = None) as Hv.
    { destruct W as (? & ? & d & ? & ? & _ & _ & _ & -> & _).
      unfold view_of. by rewrite lookup_fmap, Ek. }
    unfold val. rewrite Hv. exists 0%nat, fs. by split_and!.
Qed.

(** C15. Snapshot and restore: an engine whose last writes succeeded is copied
    by [Snapshot], and any engine without documents that loads the snapshot,
    whatever files it had, holds the same map, if no system call fails, the
    copies of files succeed, no two names share a file, and the directory of the
    snapshot is neither of the engines' own. *)
Theorem snapshot_restore `{FileUtilLaws} (e e1 : Engine) (fs : Fs) (v : gmap Z bytes)
    (root : string) (fn : list string) :
  eng_wf true e fs v → names_inj fs → no_fail fs → copies_succeed →
  root ≠ "" → root ≠ _path e → root ≠ _path e1 → _key_to_offset e1 = ∅ →
  ∃ fs1 e2 fs2, Snapshot root fn e fs = ("", fn ++ [_data_filename; _mata_filename], fs1) ∧
    CreatOrLoad root e1 fs1 = ("", e2, fs2) ∧ eng_wf true e2 fs2 v.
Proof.
  intros (d & l & Cd & Cm & -> & Hl & Hd & Hm)%eng_wf_contents Hi Hn Hc Hr0 Hr Hr1 He1.
  destruct (Snapshot_contents e root fn fs d _ Hc Hi Hr Cd Cm) as (fs1 & E1 & Sd & Sm & I1 & S1).
  destruct (take_snapshot_files_spec e1 root fs1 d _ Hc I1 Hr1 Sd Sm) as (Td & Tm & I2 & S2).
  destruct (open_engine_wf e1 (take_snapshot_files e1 root fs1) d l)
    as (e2 & fs2 & E2 & _ & _ & W); try done.
  { unfold no_fail. by rewrite S2, S1. }
  exists fs1, e2, fs2. split_and!; try done.
  unfold CreatOrLoad. by rewrite (proj2 (failed_true root)).
Qed.

(** C16. Restart: a new engine that opens the path of an engine whose last
    writes succeeded holds the same map. *)
Theorem restart_same `{FileUtil} (e e1 : Engine) (fs : Fs) (v : gmap Z bytes) :
  eng_wf true e fs v → names_inj fs → no_fail fs →
  _path e1 = _path e → _key_to_offset e1 = ∅ →
  ∃ e2 fs2, CreatOrLoad "" e1 (Engine_destroy e fs).2 = ("", e2, fs2) ∧ eng_wf true e2 fs2 v.
Proof.
  intros (d & l & Cd & Cm & -> & Hl & Hd & Hm)%eng_wf_contents Hi Hn Hp He1.
  destruct (open_engine_wf e1 (Engine_destroy e fs).2 d l) as (e2 & fs2 & E2 & _ & _ & W);
    unfold data_path, mata_path in *; rewrite ?Hp;
    try (unfold Engine_destroy; repeat case_match; simplify_eq; done).
  by exists e2, fs2.
Qed.

(** [Mget] of a single stored key reads the value into the result at the
    value's offset in the data file, so it returns the value when that offset
    is 0 and stores outside of the result otherwise. *)
Theorem Mget_single (clean : bool) (key off size : Z) (e : Engine) (fs : Fs) (v : gmap Z bytes) :
  eng_wf clean e fs v → no_fail fs → _key_to_offset e !! key = Some (off, size) →
  (off = 0 → ∃ b fs', v !! key = Some b ∧ Mget [key] [] [] e fs = Some (true, [size], b, fs')) ∧
  (off ≠ 0 → Mget [key] [] [] e fs = None).
Proof.
  intros W Hn Hk.
  destruct (read_entry _ _ _ _ _ _ _ W Hn Hk) as (Ho & Hs & b & fs' & Hv & Hl & E & _).
  unfold Mget. cbn [mget_lengths mget_read]. rewrite Hk.
  rewrite Z.add_0_l, int64_id by (unfold in_int64; lia).
  rewrite (proj2 (Z.ltb_ge size 0)), (proj2 (Z.ltb_ge off 0)) by lia. simpl.
  replace (length (resize (Z.to_nat size) (byte_of 0) [])) with (Z.to_nat size)
    by (unfold resize; rewrite take_nil; simpl; rewrite length_replicate; lia).
  split; intros Hoff.
  - rewrite (proj2 (Z.ltb_ge _ _)) by lia. destruct (seek_set _ _ fs) as [? fs0].
    simpl in E. subst off. rewrite E, Z.eqb_refl. simpl. rewrite overwrite_all by lia.
    by exists b, fs'.
  - by rewrite (proj2 (Z.ltb_lt _ _)) by lia.
Qed.

(** ** Instances of the properties *)

Definition disk0 : Fs := mkFs ∅ ∅ ∅ ∅ [].
Definition engine0 : Engine := (Init "p" Engine_new).2.
Definition sample_engine : Engine := (open_engine engine0 disk0).1.2.
Definition sample_fs : Fs := (open_engine engine0 disk0).2.

Lemma sample_wf : eng_wf true sample_engine sample_fs ∅.
Proof.
  exists 0%nat, 1%nat, [], [], []. split; [constructor|].
  1-2: exists 0%nat.
  6: vm_compute; split; congruence.
  3: done.
  11: constructor.
  1-10: vm_compute; reflexivity.
  split_and!; try (vm_compute; reflexivity). intros _. split; vm_compute; reflexivity.
Qed.

Definition sample_kv : list (Z * Z) := [(7, 2); (-1, 3)].
Definition sample_data : bytes := bytes_of "abcde".

Lemma BatchAdd_refines_witness :
  ∃ e' fs', BatchAdd sample_kv sample_data sample_engine sample_fs = Some ("", e', fs') ∧
    eng_wf true e' fs' {[7 := bytes_of "ab"; -1 := bytes_of "cde"]}.
Proof.
  destruct (BatchAdd_refines true sample_kv sample_data sample_engine sample_fs ∅)
    as (j & msg & e' & fs' & E & Hj & Hm & Hnf & W).
  - exact sample_wf.
  - repeat constructor; simpl; try lia; vm_compute; congruence.
  - vm_compute. split; congruence.
  - vm_compute. reflexivity.
  - vm_compute. reflexivity.
  - destruct Hnf as [-> _]; [vm_compute; constructor|].
    exists e', fs'. split; [exact E|]. rewrite (proj1 Hm eq_refl) in W. exact W.
Defined.

Lemma sample_names_inj : names_inj sample_fs.
Proof.
  assert (fs_names sample_fs = {["p/engine_data.txt" := 0%nat; "p/engine_mata.dat" := 1%nat]}) as E.
  { vm_compute. reflexivity. }
  unfold names_inj. rewrite E. clear E. intros p q ino.
  rewrite !lookup_insert, !lookup_singleton. repeat case_decide; congruence.
Qed.

(** The engine after the batch of [BatchAdd_refines_witness]. *)
Definition sample_full : option (string * Engine * Fs) :=
  BatchAdd sample_kv sample_data sample_engine sample_fs.
Definition full_engine : Engine := default Engine_new ((λ r, r.1.2) <$> sample_full).
Definition full_fs : Fs := default disk0 ((λ r, r.2) <$> sample_full).

Definition full_view : gmap Z bytes := {[7 := bytes_of "ab"; -1 := bytes_of "cde"]}.

Lemma full_wf : eng_wf true full_engine full_fs full_view ∧ no_fail full_fs.
Proof.
  destruct (batch_add_wf true sample_kv sample_data 0 sample_engine sample_fs ∅)
    as (j & msg & e' & fs' & E & Hj & Hm & Hnf & W).
  - exact sample_wf.
  - repeat constructor; simpl; try lia; vm_compute; congruence.
  - lia.
  - vm_compute. congruence.
  - vm_compute. reflexivity.
  - vm_compute. reflexivity.
  - vm_compute. reflexivity.
  - destruct Hnf as [-> Hn]; [vm_compute; constructor|].
    assert (sample_full = Some ("", e', fs')) as Ef by exact E.
    change (true && negb (failed "")) with true in W.
    unfold full_engine, full_fs. rewrite Ef. rewrite (proj1 Hm eq_refl) in W.
    split; [exact W|exact Hn].
Qed.

Lemma full_names_inj : names_inj full_fs.
Proof.
  assert (fs_names full_fs = fs_names sample_fs) as E by (vm_compute; reflexivity).
  unfold names_inj. rewrite E. apply sample_names_inj.
Qed.

(** A stored value is read, and a read that stops after one byte gives the rest
    as zeros. *)
Lemma Get_refines_witness :
  (∃ fs', Get (-1) full_engine full_fs = Some (bytes_of "cde", fs')) ∧
  (∃ k fs', (k ≤ 3)%nat ∧ Get (-1) full_engine (mkFs (fs_names full_fs) (fs_inodes full_fs)
    (fs_fds full_fs) (fs_dirs full_fs) [Partial 1]) =
    Some (take k (bytes_of "cde") ++ replicate (3 - k) (byte_of 0), fs')).
Proof.
  destruct full_wf as [W Hn]. split.
  - destruct (Get_refines true (-1) full_engine full_fs full_view W)
      as (k & fs' & _ & _ & _ & Hv). exists fs'. apply (Hv Hn).
  - destruct (Get_refines true (-1) full_engine (mkFs (fs_names full_fs) (fs_inodes full_fs)
      (fs_fds full_fs) (fs_dirs full_fs) [Partial 1]) full_view) as (k & fs' & Hk & Hv & _).
    + destruct W as (? & ? & ? & ? & ? & R & W). do 5 eexists. split; [|exact W].
      destruct R. by constructor.
    + exists k, fs'. split; [exact Hk|exact Hv].
Defined.

Lemma snapshot_restore_witness :
  ∃ fs1 e2 fs2, Snapshot (H := posix_util) "snap" [] full_engine full_fs =
      ("", [_data_filename; _mata_filename], fs1) ∧
    CreatOrLoad (H := posix_util) "snap" engine0 fs1 = ("", e2, fs2) ∧
    eng_wf true e2 fs2 full_view.
Proof.
  apply (snapshot_restore (H := posix_util) (H0 := posix_util_laws) full_engine engine0
    full_fs full_view "snap" []).
  - apply full_wf.
  - exact full_names_inj.
  - apply full_wf.
  - intros from to fs [c E]. simpl. rewrite E. reflexivity.
  - discriminate.
  - vm_compute. discriminate.
  - discriminate.
  - reflexivity.
Defined.

Lemma restart_same_witness :
  ∃ e2 fs2, CreatOrLoad (H := posix_util) "" engine0
    (Engine_destroy full_engine full_fs).2 = ("", e2, fs2) ∧ eng_wf true e2 fs2 full_view.
Proof.
  apply (restart_same (H := posix_util) full_engine engine0 full_fs full_view).
  - apply full_wf.
  - exact full_names_inj.
  - apply full_wf.
  - reflexivity.
  - reflexivity.
Defined.

Lemma Mget_single_witness :
  Mget [-1] [] [] full_engine full_fs = None.
Proof.
  destruct full_wf as [W Hn].
  apply (Mget_single true (-1) 2 3 full_engine full_fs full_view W Hn).
  - vm_compute. reflexivity.
  - discriminate.
Defined.

(** A run in which the first write of a record stops after two bytes: the
    engine is opened again, a document is added and read, and the engine is
    opened once more. *)
Definition torn_run : option (list string * bytes * bytes) :=
  let fs0 := mkFs (fs_names sample_fs) (fs_inodes sample_fs) (fs_fds sample_fs)
               (fs_dirs sample_fs) [Complete; Partial 2] in
  '(m1, e1, fs1) ← BatchAdd [(1, 2)] (bytes_of "xy") sample_engine fs0;
  let '(m2, e2, fs2) :=
    CreatOrLoad (H := posix_util) "" engine0 (Engine_destroy e1 fs1).2 in
  '(m3, e3, fs3) ← BatchAdd [(1, 2)] (bytes_of "ab") e2 fs2;
  '(g3, fs3) ← Get 1 e3 fs3;
  let '(m4, e4, fs4) :=
    CreatOrLoad (H := posix_util) "" engine0 (Engine_destroy e3 fs3).2 in
  '(g4, _) ← Get 1 e4 fs4;
  Some ([m1; m2; m3; m4], g3, g4).

(** A meta record that was written only in part stays in the file when
    the engine is opened again, and the records added from then on are not
    aligned: a document whose [BatchAdd] succeeded and which could be read is
    gone after the next restart. *)
Theorem torn_record_loses_document :
  torn_run = Some ([msg_mata_failed 0; ""; ""; ""], bytes_of "ab", []).
Proof. vm_compute. reflexivity. Qed.
