(* ===== verification/Wire.v ===== *)
(** * Wire: encodings and engine interfaces the server code relies on

    Protobuf's wire and JSON encodings (protobuf, json2pb) and the gamma
    engine's API are libraries; each is a class of operations with a class of
    the laws their documentation promises. *)
From S2P Require Import Prelude Numeric Bytes Common Dto.
Local Open Scope Z_scope.

(** ** Protobuf's wire format *)

Class WireCodec (A : Type) := {
  SerializeToString : A → option bytes;
  ParseFromString : bytes → option A;
  ByteSizeLong : A → Z
}.

Class WireCodecLaws (A : Type) `{WireCodec A} : Prop := {
  parse_serialize x b : SerializeToString x = Some b → ParseFromString b = Some x;
  size_serialize x b : SerializeToString x = Some b → ByteSizeLong x = Z.of_nat (length b)
}.

(** ** JSON: [json2pb::ProtoMessageToJson] and [json2pb::JsonToProtoMessage] *)

Class JsonCodec (A : Type) := {
  ProtoMessageToJson : A → option string;
  JsonToProtoMessage : string → option A
}.

Class JsonCodecLaws (A : Type) `{JsonCodec A} : Prop := {
  json_roundtrip x s : ProtoMessageToJson x = Some s → JsonToProtoMessage s = Some x
}.

(** ** The gamma engine: [gamma_cpp_api] *)

Class GammaEngine `{GammaDoc} := {
  GammaState : Type;
  AddOrUpdateDoc : Doc → GammaState → Z * GammaState;
  GetDocByID : string → GammaState → Z * Doc
}.

(** The engine files a document under the value of its [_ID] field and
    [GetDocByID] takes a text.  Which field value a text stands for is the
    engine's choice, and is not among the sources: it is left open as [key_id],
    [None] for a text that stands for none. *)
Class GammaKeys := { key_id : string → option string }.

(** The engine is a map from the values of the [_ID] field: the document stored
    last under a value is found, with the fields it was stored with, by the texts
    that stand for the value, and what any other text finds does not change. *)
Class GammaEngineLaws `{GammaEngine} `{GammaKeys} : Prop := {
  GetDocByID_AddOrUpdateDoc d st st' f key :
    AddOrUpdateDoc d st = (0, st') → (_ID, f) ∈ TableFields d →
    key_id key = Some (gf_value f) →
    ∃ d', GetDocByID key st' = (0, d') ∧ TableFields d' ≡ₚ TableFields d;
  GetDocByID_other d st st' f key :
    AddOrUpdateDoc d st = (0, st') → (_ID, f) ∈ TableFields d →
    key_id key ≠ Some (gf_value f) →
    GetDocByID key st' = GetDocByID key st
}.

(** The value of the [_ID] field of a document with a long id: its eight bytes. *)
Definition id_value (idv : Z) : string := gf_value (long_field (_ID, idv)).

Lemma id_value_inj x y : in_int64 x → in_int64 y → id_value x = id_value y → x = y.
Proof.
  unfold id_value, long_field. cbn [gf_value fst snd]. intros Hx Hy E%(f_equal bytes_of).
  rewrite !bytes_of_str_of in E. apply (f_equal (λ b, int64 (le_value b))) in E.
  by rewrite !le_value_le_bytes, !int64_le in E.
Qed.

(** Opening and closing of the engine and its table. *)
Class GammaAdmin `{GammaEngine} `{GammaTable} := {
  InitEngine : string → string → GammaState → GammaState;
  CreateTable : TableInfo → GammaState → (Z * string) * GammaState;
  CloseEngine : GammaState → GammaState
}.

(** ** Instances

    Encodings and an engine that satisfy the laws, for the instances of the
    theorems. *)

Fixpoint bits_of (p : positive) : bytes :=
  match p with
  | xH => []
  | xO p => byte_of 48 :: bits_of p
  | xI p => byte_of 49 :: bits_of p
  end.

Fixpoint of_bits (b : bytes) : positive :=
  match b with
  | [] => xH
  | c :: b => if byte_val c =? 48 then xO (of_bits b) else xI (of_bits b)
  end.

Lemma of_bits_of p : of_bits (bits_of p) = p.
Proof. induction p as [p IH|p IH|]; simpl; [by rewrite IH..|done]. Qed.

Definition count_codec A `{Countable A} : WireCodec A := {|
  SerializeToString x := Some (bits_of (encode x));
  ParseFromString b := decode (of_bits b);
  ByteSizeLong x := Z.of_nat (length (bits_of (encode x)))
|}.

Lemma count_codec_laws A `{Countable A} : @WireCodecLaws A (count_codec A).
Proof.
  split; intros x b [= <-]; [|done]. simpl. rewrite of_bits_of. apply decode_encode.
Qed.

Definition count_json A `{Countable A} : JsonCodec A := {|
  ProtoMessageToJson x := Some (str_of (bits_of (encode x)));
  JsonToProtoMessage s := decode (of_bits (bytes_of s))
|}.

Lemma count_json_laws A `{Countable A} : @JsonCodecLaws A (count_json A).
Proof.
  split. intros x s [= <-]. simpl. rewrite bytes_of_str_of, of_bits_of. apply decode_encode.
Qed.

#[export] Instance Document_countable : Countable Document.
Proof.
  refine (inj_countable' (λ d, (_id d, ints d, longs d, floats d, doubles d, strings d,
      string_arrays d, vectors d))
    (λ '(a, b, c, d, e, f, g, h), mkDocument a b c d e f g h) _). by intros [].
Defined.

#[export] Instance ImplType_countable : Countable ImplType.
Proof.
  refine (inj_countable' (λ t, match t with UPSERT => 0 | DELETE => 1 | READ => 3 end)
    (λ n, if n =? 0 then UPSERT else if n =? 1 then DELETE else READ) _). by intros [].
Defined.

#[export] Instance KeyType_countable : Countable KeyType.
Proof.
  refine (inj_countable' (λ t, match t with INT64 => 0 | STRING => 1 end)
    (λ n, if n =? 0 then INT64 else STRING) _). by intros [].
Defined.

#[export] Instance BlockRequest_countable : Countable BlockRequest.
Proof.
  refine (inj_countable' (λ r, (br_db_name r, br_space_name r, br_impl_type r,
      br_key_type r, br_key r))
    (λ '(a, b, c, d, e), mkBlockRequest a b c d e) _). by intros [].
Defined.

(** Documents in a map under the value of their [_ID] field, for any choice of
    what a text stands for. *)
Definition map_engine_by (k : GammaKeys) : @GammaEngine map_doc := {|
  GammaState := gmap string (@Doc map_doc);
  AddOrUpdateDoc d st :=
    match pm_find _ID (@TableFields map_doc d) with
    | Some f => (0, <[gf_value f := d]> st)
    | None => (1, st)
    end;
  GetDocByID key st :=
    match key_id key ≫= λ i, st !! i with
    | Some d => (0, d)
    | None => (-1, @Doc_new map_doc)
    end
|}.

Lemma map_engine_by_laws k : @GammaEngineLaws map_doc (map_engine_by k) k.
Proof.
  assert (∀ (d : @Doc map_doc) st f, (_ID, f) ∈ TableFields d →
    @AddOrUpdateDoc map_doc (map_engine_by k) d st = (0, <[gf_value f := d]> st)) as Hadd.
  { intros d st f Hin. cbn [AddOrUpdateDoc map_engine_by].
    by rewrite (pm_find_elem _ _ f); [|apply NoDup_fst_map_to_list|]. }
  constructor; intros d st st' f key E Hin Hk; rewrite (Hadd _ _ _ Hin) in E;
    injection E as <-; cbn [GetDocByID map_engine_by].
  - exists d. split; [|done]. rewrite Hk. simpl. by rewrite lookup_insert_eq.
  - destruct (key_id key) as [i|]; [|done]. simpl. rewrite lookup_insert_ne; [done|congruence].
Qed.

(** A text stands for the number it is the decimal text of. *)
Definition decimal_keys : GammaKeys := {|
  key_id key :=
    match StrToInt64 key 0 with
    | ("", z) => Some (id_value z)
    | _ => None
    end
|}.

Lemma decimal_key idv : in_int64 idv → @key_id decimal_keys (to_string idv) = Some (id_value idv).
Proof. intros Hr. cbn [key_id decimal_keys]. by rewrite StrToInt64_to_string. Qed.

(** A text stands for its own bytes. *)
Definition raw_keys : GammaKeys := {| key_id key := Some key |}.

Definition map_engine : @GammaEngine map_doc := map_engine_by decimal_keys.

Lemma map_engine_laws : @GammaEngineLaws map_doc map_engine decimal_keys.
Proof. apply map_engine_by_laws. Qed.

#[export] Instance Index_countable : Countable Index.
Proof.
  refine (inj_countable' (λ x, (ix_name x, ix_type x, ix_params x))
    (λ '(a, b, c), mkIndex a b c) _). by intros [].
Defined.
#[export] Instance Field_countable : Countable Field.
Proof.
  refine (inj_countable' (λ x, (fd_name x, fd_type x, fd_dimension x, fd_index x))
    (λ '(a, b, c, d), mkField a b c d) _). by intros [].
Defined.
#[export] Instance Replica_countable : Countable Replica.
Proof.
  refine (inj_countable' (λ x, (ps_id x, ps_ip x, ps_port x, is_leader x, node_status x, rp_msg x))
    (λ '(a, b, c, d, e, f), mkReplica a b c d e f) _). by intros [].
Defined.
#[export] Instance Partition_countable : Countable Partition.
Proof.
  refine (inj_countable' (λ x, (partition_id x, group_name x, replicas x, create_time x,
      update_time x))
    (λ '(a, b, c, d, e), mkPartition a b c d e) _). by intros [].
Defined.
#[export] Instance Space_countable : Countable Space.
Proof.
  refine (inj_countable' (λ x, (db_name x, space_name x, sp_id x, partition_num x,
      replica_num x, fields x, partitions x, _id_type x, ctime x, mtime x))
    (λ '(a, b, c, d, e, f, g, h, i, j), mkSpace a b c d e f g h i j) _). by intros [].
Defined.
#[export] Instance CreateSpaceRequest_eq_dec : EqDecision CreateSpaceRequest.
Proof. solve_decision. Defined.
#[export] Instance CreateSpaceRequest_countable : Countable CreateSpaceRequest.
Proof.
  refine (inj_countable' (λ x, (cs_space x, cs_cur_partition x))
    (λ '(a, b), mkCreateSpaceRequest a b) _). by intros [].
Defined.
#[export] Instance PsNodeInfo_eq_dec : EqDecision PsNodeInfo.
Proof. solve_decision. Defined.
#[export] Instance PsNodeInfo_countable : Countable PsNodeInfo.
Proof.
  refine (inj_countable' (λ x, (ni_ps_id x, ni_ps_ip x, ni_ps_port x, ni_msg x))
    (λ '(a, b, c, d), mkPsNodeInfo a b c d) _). by intros [].
Defined.

(** Tables as the names of their fields, and an engine that answers the
    creation of a table with [code]. *)
Definition name_table : GammaTable := {|
  TableInfo := list string;
  TableInfo_new := [];
  SetName s t := s :: t;
  SetIndexType _ t := t;
  SetIndexParams _ t := t;
  AddVectorInfo v t := t ++ [vi_name v];
  AddFieldInfo f t := t ++ [fi_name f]
|}.

Definition map_admin (code : Z) : @GammaAdmin map_doc map_engine name_table := {|
  InitEngine _ _ st := st;
  CreateTable _ st := ((code, "failed"), st);
  CloseEngine st := st
|}.
