(* ===== verification/RaftStore.v ===== *)
(** * RaftStore: src/raft_store/raft_store.cc and src/service/ps/raft_rpc.cc

    A partition's replicated state machine ([Block]) and its manager.  braft is
    a library: what the code hands to it (tasks, node options, results of the
    callbacks) is the value of the definitions, and what it hands to the code
    (committed entries, terms, the leader's address) is an argument. *)
From Stdlib Require Import Ascii.
From S2P Require Import Prelude Numeric Bytes Common Dto Files Engine Wire.
Local Open Scope Z_scope.

(** ** State *)

(** The options [start] gives to [braft::Node]. *)
Record NodeOptions := mkNodeOptions {
  no_group : string; no_addr : string; no_conf : string;
  no_election_timeout_ms : Z; no_snapshot_interval_s : Z;
  no_log_uri : string; no_raft_meta_uri : string; no_snapshot_uri : string
}.

Record Block := mkBlock {
  _node : option NodeOptions;
  _leader_term : Z;
  _fd : option Z;
  _root_path : string;
  _group : string;
  _conf : string;
  _port : Z;
  _check_term : bool;
  _space : Space
}.

Definition Block_new : Block := mkBlock None (-1) None "" "" "" 0 false empty_space.

(** [BlockClosure]: the request of the RPC, its response and attachment. *)
Record BlockClosure := mkBlockClosure {
  bc_request : BlockRequest; bc_response : BlockResponse; bc_data : bytes
}.

(** [braft::Task] *)
Record Task := mkTask {
  task_data : bytes; task_done : BlockClosure; task_expected_term : option Z
}.

(** One step of [braft::Iterator]: the committed data, and the closure of the
    task when this node submitted it. *)
Record IterEntry := mkIterEntry { it_data : bytes; it_done : option BlockClosure }.

Definition set_success (b : bool) (r : BlockResponse) : BlockResponse :=
  mkBlockResponse (Some b) (bs_redirect r) (bs_msg r).
Definition set_msg (m : string) (r : BlockResponse) : BlockResponse :=
  mkBlockResponse (bs_success r) (bs_redirect r) m.
Definition set_redirect (s : string) (r : BlockResponse) : BlockResponse :=
  mkBlockResponse (bs_success r) s (bs_msg r).

(** ** Starting a node *)

(** What braft answers to [start], and the settings of the process.  The result
    of a node's [init] depends on the files it finds, so a node that was started
    once may fail to start again. *)
Class StartEnv := {
  str2endpoint : string → bool;
  parse_conf : string → bool;
  node_init : NodeOptions → Fs → Z;
  raft_election_timeout_ms : Z;
  raft_snap_interval_s : Z
}.

Definition Block_start `{FileUtil} `{StartEnv} (root_path group conf my_ip : string)
    (port : Z) (space : Space) (b : Block) (fs : Fs) : Z * Block * Fs :=
  let with_node n fd :=
    mkBlock n (_leader_term b) fd root_path group conf port true space in
  let '(ok, fs) := CreateDirectory root_path fs in
  if negb ok then (-1, with_node (_node b) (_fd b), fs)
  else
    let '(fd, fs) := open_file (root_path +:+ "/data") fs in
    if fd <? 0 then (-1, with_node (_node b) (_fd b), fs)
    else
      let ip_port := my_ip +:+ ":" +:+ to_string port in
      if negb (str2endpoint ip_port) then (-1, with_node (_node b) (Some fd), fs)
      else if negb (parse_conf conf) then (-1, with_node (_node b) (Some fd), fs)
      else
        let prefix := "local://" +:+ root_path in
        let node := mkNodeOptions group ip_port conf raft_election_timeout_ms
          raft_snap_interval_s (prefix +:+ "/log") (prefix +:+ "/raft_meta")
          (prefix +:+ "/snapshot") in
        if negb (node_init node fs =? 0) then (-1, with_node (_node b) (Some fd), fs)
        else (0, with_node (Some node) (Some fd), fs).

(** ** Leadership *)

Definition Block_is_leader (b : Block) : bool := 0 <? _leader_term b.

Definition set_leader_term (t : Z) (b : Block) : Block :=
  mkBlock (_node b) t (_fd b) (_root_path b) (_group b) (_conf b) (_port b)
    (_check_term b) (_space b).

Definition on_leader_start (term : Z) (b : Block) : Block := set_leader_term term b.
Definition on_leader_stop (b : Block) : Block := set_leader_term (-1) b.

(** [leader_id] is the address the node knows, empty when it knows none. *)
Definition redirect (leader_id : string) (b : Block) (r : BlockResponse) : BlockResponse :=
  let r := set_success false r in
  match _node b with
  | Some _ => if bool_decide (leader_id = "") then r else set_redirect leader_id r
  | None => r
  end.

(** [BlockClosure::Run]: the response that the RPC answers with. *)
Definition BlockClosure_Run (leader_id : string) (b : Block) (ok : bool)
    (r : BlockResponse) : BlockResponse :=
  if ok then r else redirect leader_id b r.

(** ** Writing *)

(** [write] either answers the RPC itself or hands a task to the node, whose
    closure then owns the answer. *)
Inductive write_result :=
  | Answered (r : BlockResponse)
  | Applied (t : Task).

(** The entry of the log: the size of the request in network order, the
    request, the attachment. *)
Definition encode_entry (size : Z) (req data : bytes) : bytes :=
  be_bytes 4 (uint32 size) ++ req ++ data.

Section block.
Context `{GammaEngine} `{WireCodec BlockRequest} `{WireCodec Document}.

Definition Block_write (leader_id : string) (b : Block) (request : BlockRequest)
    (response : BlockResponse) (data : bytes) : write_result :=
  let term := _leader_term b in
  if term <? 0 then Answered (redirect leader_id b response)
  else
    match SerializeToString request with
    | None => Answered (set_success false response)
    | Some req =>
        Applied (mkTask (encode_entry (ByteSizeLong request) req data)
          (mkBlockClosure request response data)
          (if _check_term b then Some term else None))
    end.

(** ** Reading *)

Definition msg_get_failed (key : string) : string := "gamma engine get failed, key:" +:+ key.
Definition msg_serialize_failed (key : string) : string :=
  "SerializeToString gamma_doc failed, key:" +:+ key.

(** The response and the attachment; [None] is the read past a field value in
    [GammaDocToPbDoc]. *)
Definition Block_read (leader_id : string) (b : Block) (st : GammaState)
    (request : BlockRequest) (response : BlockResponse) (buf : bytes) :
    option (BlockResponse * bytes) :=
  if negb (Block_is_leader b) then Some (redirect leader_id b response, buf)
  else
    let doc_key := br_key request in
    let '(code, gamma_doc) := GetDocByID doc_key st in
    if negb (code =? 0) then
      Some (set_success false (set_msg (msg_get_failed doc_key) response), buf)
    else
      pb_doc ← GammaDocToPbDoc gamma_doc;
      match SerializeToString pb_doc with
      | None => Some (set_success false (set_msg (msg_serialize_failed doc_key) response), buf)
      | Some data_buf => Some (set_success true response, data_buf)
      end.

(** ** Applying *)

(** [butil::IOBuf::cutn]: the first [n] bytes, or all there are. *)
Definition cutn (n : nat) (b : bytes) : bytes * bytes := (take n b, drop n b).

(** The data of an entry of another node; [None] is the failed [CHECK]. *)
Definition saved_data (log : bytes) : option bytes :=
  let '(size, saved_log) := cutn 4 log in
  let meta_size := be_value size in
  let '(meta, saved_log) := cutn (Z.to_nat meta_size) saved_log in
  match (ParseFromString meta : option BlockRequest) with
  | Some _ => Some saved_log
  | None => None
  end.

Definition entry_data (e : IterEntry) : option bytes :=
  match it_done e with
  | Some c => Some (bc_data c)
  | None => saved_data (it_data e)
  end.

Definition msg_parse_doc : string := "Fail to parse UpsertRequest from request stream".
Definition msg_write_gamma (code : Z) : string :=
  "Fail to write doc to gamma, code: " +:+ to_string code.

(** How one iteration of the loop ends. *)
Inductive entry_result :=
  | EntryApplied (response : option BlockResponse) (st : GammaState)
  | EntryFailed (response : option BlockResponse) (st : GammaState)
  | EntryAborted.

Definition answer (success : bool) (msg : string) (e : IterEntry) : option BlockResponse :=
  (λ c, set_msg msg (set_success success (bc_response c))) <$> it_done e.

Definition apply_entry (space : Space) (e : IterEntry) (st : GammaState) : entry_result :=
  match entry_data e with
  | None => EntryAborted
  | Some data_buf =>
      match (ParseFromString data_buf : option Document) with
      | None => EntryFailed (answer false msg_parse_doc e) st
      | Some pb_doc =>
          let _cmsg := CheckPbDocNonEmpty pb_doc in
          let msg := "" in
          if! msg then EntryFailed (answer false msg e) st
          else
            let '(_, gamma_doc) := PbDocToGammaDoc pb_doc space Doc_new in
            let '(code, st) := AddOrUpdateDoc gamma_doc st in
            if negb (code =? 0) then EntryFailed (answer false (msg_write_gamma code) e) st
            else EntryApplied ((λ c, set_success true (bc_response c)) <$> it_done e) st
      end
  end.

(** How [on_apply] ends: through the iterator, with [set_error_and_rollback] at
    an entry (whose closure is left to raft, with its response), or in the
    [CHECK]. *)
Inductive apply_end :=
  | Finished
  | RolledBack (response : option BlockResponse) (rest : list IterEntry)
  | Aborted.

(** The responses whose closures [on_apply] itself runs, in order. *)
Fixpoint on_apply (space : Space) (entries : list IterEntry) (st : GammaState) :
    list (option BlockResponse) * apply_end * GammaState :=
  match entries with
  | [] => ([], Finished, st)
  | e :: rest =>
      match apply_entry space e st with
      | EntryAborted => ([], Aborted, st)
      | EntryFailed r st => ([], RolledBack r rest, st)
      | EntryApplied r st =>
          let '(rs, fin, st) := on_apply space rest st in
          (r :: rs, fin, st)
      end
  end.

End block.

(** ** Snapshots *)

Section snapshots.
Context `{FileUtil}.

(** The files added to the writer and whether the closure stays without error;
    [add_file] is the writer's answer. *)
Definition save_snapshot (snapshot_path : string) (add_file : string → Z) (e : Engine)
    (fs : Fs) : list string * bool * Fs :=
  let '(_, filenames, fs) := Snapshot snapshot_path [] e fs in
  (filenames, forallb (λ f, add_file f =? 0) filenames, fs).

Definition on_snapshot_save := save_snapshot.

(** [None] is the failed [CHECK]. *)
Definition on_snapshot_load (snapshot_path : string) (b : Block) (e : Engine) (fs : Fs) :
    option (Z * Engine * Fs) :=
  if Block_is_leader b then None
  else
    let '(msg, e, fs) := CreatOrLoad snapshot_path e fs in
    Some (if failed msg then -1 else 0, e, fs).

(** ** [RaftManager] *)

Definition DeleteBlock (mgr : option Block) (fs : Fs) : string * option Block * Fs :=
  match mgr with
  | Some b => let '(_, fs) := DeleteFile (_root_path b) true fs in ("", None, fs)
  | None => ("", None, fs)
  end.

Definition CreateBlock (mgr : option Block) (fs : Fs) : string * option Block * Fs :=
  let '(_, _, fs) := DeleteBlock mgr fs in ("", Some Block_new, fs).

Definition StartRaftServer `{StartEnv} (root_path group conf my_ip : string) (port : Z)
    (space : Space) (mgr : option Block) (fs : Fs) : string * option Block * Fs :=
  match mgr with
  | None => ("block is nullptr", None, fs)
  | Some b =>
      let '(rc, b, fs) := Block_start root_path group conf my_ip port space b fs in
      if negb (rc =? 0) then ("Fail to start Block", Some b, fs) else ("", Some b, fs)
  end.

End snapshots.

(** ** [RaftRpcImpl] *)

Section rpc.
Context `{GammaEngine} `{WireCodec BlockRequest} `{WireCodec Document}.

Definition msg_no_space : string := "不存在这个space, 或者space has error and not run".

Definition RaftRpcImpl_write (leader_id : string) (mgr : option Block)
    (request : BlockRequest) (response : BlockResponse) (attachment : bytes) : write_result :=
  match mgr with
  | None => Answered (set_msg msg_no_space (set_success false response))
  | Some b => Block_write leader_id b request response attachment
  end.

(** [None] includes the call on the null block, which the guard does not
    prevent since it does not return. *)
Definition RaftRpcImpl_read (leader_id : string) (mgr : option Block) (st : GammaState)
    (request : BlockRequest) (response : BlockResponse) (attachment : bytes) :
    option (BlockResponse * bytes) :=
  let response := match mgr with
    | None => set_msg msg_no_space (set_success false response)
    | Some _ => response
    end in
  b ← mgr; Block_read leader_id b st request response attachment.

End rpc.

(** ** Specification *)

(** The effect of committed documents on the engine: each is stored, up to the
    first one the engine refuses.  The number is how many were stored. *)
Fixpoint commit_docs `{GammaEngine} (space : Space) (ds : list Document) (st : GammaState) :
    nat * GammaState :=
  match ds with
  | [] => (0%nat, st)
  | d :: ds' =>
      let '(code, st) := AddOrUpdateDoc (PbDocToGammaDoc d space Doc_new).2 st in
      if code =? 0 then let '(n, st) := commit_docs space ds' st in (S n, st)
      else (0%nat, st)
  end.

(** Two ends of [on_apply] that say the same of the state machine. *)
Definition same_end (f1 f2 : apply_end) : Prop :=
  match f1, f2 with
  | Finished, Finished => True
  | RolledBack _ r1, RolledBack _ r2 => it_data <$> r1 = it_data <$> r2
  | Aborted, Aborted => True
  | _, _ => False
  end.

(** A block as braft drives it: a node reports leadership only after it was
    started, with terms from 1. *)
Inductive block_step : Block → Block → Prop :=
  | step_start `{FileUtil} `{StartEnv} root group conf ip port space b b' rc fs fs' :
      _node b = None → Block_start root group conf ip port space b fs = (rc, b', fs') →
      block_step b b'
  | step_leader_start term b :
      is_Some (_node b) → 1 ≤ term → block_step b (on_leader_start term b)
  | step_leader_stop b :
      is_Some (_node b) → block_step b (on_leader_stop b).

Inductive block_reachable : Block → Prop :=
  | reach_new : block_reachable Block_new
  | reach_step b b' : block_reachable b → block_step b b' → block_reachable b'.

(** ** Lemmas *)

Section entries.
Context `{WireCodecLaws BlockRequest}.

(** A task that a write of this group submitted. *)
Definition submitted (t : Task) : Prop :=
  ∃ leader_id b req resp data,
    Block_write leader_id b req resp data = Applied t ∧ ByteSizeLong req < 2 ^ 32.

(** An entry of the log of a node, for that task. *)
Definition entry_of (t : Task) (e : IterEntry) : Prop :=
  it_data e = task_data t ∧ (it_done e = None ∨ it_done e = Some (task_done t)).

Lemma saved_data_encode size req reqb data :
  SerializeToString req = Some reqb → size = ByteSizeLong req → ByteSizeLong req < 2 ^ 32 →
  saved_data (encode_entry size reqb data) = Some data.
Proof.
  intros Hs -> Hlt. unfold saved_data, encode_entry, cutn.
  rewrite take_app_length', drop_app_length' by (by rewrite length_be_bytes).
  rewrite be_value_be_bytes, (size_serialize _ _ Hs).
  rewrite (size_serialize _ _ Hs) in Hlt. change (256 ^ Z.of_nat 4) with (2 ^ 32).
  unfold uint32, wrapU. rewrite Z.mod_mod, Z.mod_small, Nat2Z.id by lia.
  rewrite take_app_length, drop_app_length. by rewrite (parse_serialize _ _ Hs).
Qed.

(** Whether a node submitted an entry or received it, it takes the same data
    from it. *)
Lemma entry_data_of t e : submitted t → entry_of t e → entry_data e = Some (bc_data (task_done t)).
Proof.
  intros (lid & b & req & resp & data & Hw & Hlt) [Hd Hdone]. unfold entry_data.
  destruct Hdone as [->| ->]; [|done]. unfold Block_write in Hw.
  destruct (_leader_term b <? 0); [done|].
  destruct (SerializeToString req) as [reqb|] eqn:Hs; [|done].
  injection Hw as <-. simpl in *. rewrite Hd. by eapply saved_data_encode.
Qed.

End entries.

Section apply.
Context `{GammaEngine} `{WireCodec BlockRequest} `{WireCodec Document}.

Lemma apply_entry_same space e1 e2 st :
  entry_data e1 = entry_data e2 →
  match apply_entry space e1 st, apply_entry space e2 st with
  | EntryApplied _ s1, EntryApplied _ s2 => s1 = s2
  | EntryFailed _ s1, EntryFailed _ s2 => s1 = s2
  | EntryAborted, EntryAborted => True
  | _, _ => False
  end.
Proof.
  intros E. unfold apply_entry. rewrite E. destruct (entry_data e2) as [data|]; [|done].
  destruct (ParseFromString data) as [d|]; [|done]. rewrite failed_empty.
  destruct (PbDocToGammaDoc d space Doc_new) as [? g].
  destruct (AddOrUpdateDoc g st) as [code st']. by destruct (code =? 0).
Qed.

(** One entry, in terms of the engine. *)
Lemma apply_entry_doc space e data d st :
  entry_data e = Some data → ParseFromString data = Some d →
  apply_entry space e st =
    let '(code, st) := AddOrUpdateDoc (PbDocToGammaDoc d space Doc_new).2 st in
    if code =? 0 then EntryApplied ((λ c, set_success true (bc_response c)) <$> it_done e) st
    else EntryFailed (answer false (msg_write_gamma code) e) st.
Proof.
  intros E P. unfold apply_entry. rewrite E, P, failed_empty.
  destruct (PbDocToGammaDoc d space Doc_new) as [? g]. simpl.
  destruct (AddOrUpdateDoc g st) as [code st']. by destruct (code =? 0).
Qed.

(** The document an entry carries. *)
Definition carries (e : IterEntry) (d : Document) : Prop :=
  ∃ data, entry_data e = Some data ∧ ParseFromString data = Some d.

(** An answer that reports success or failure, where there is a caller. *)
Definition reports (b : bool) (r : option BlockResponse) : Prop :=
  ∀ r', r = Some r' → resp_success r' = b.

Lemma on_apply_docs space es ds st rs fin st' :
  Forall2 carries es ds → on_apply space es st = (rs, fin, st') →
  commit_docs space ds st = (length rs, st') ∧ Forall (reports true) rs ∧
  match fin with
  | Finished => length rs = length es
  | RolledBack r rest => reports false r ∧ rest = drop (S (length rs)) es ∧
      (length rs < length es)%nat
  | Aborted => False
  end.
Proof.
  intros Hc. revert st rs. induction Hc as [|e d es ds (data & E & P) Hc IH];
    intros st rs Ha; simpl in Ha.
  { injection Ha as <- <- <-. done. }
  simpl. rewrite (apply_entry_doc _ _ _ _ _ E P) in Ha.
  destruct (AddOrUpdateDoc _ st) as [code st1]. destruct (code =? 0).
  - destruct (on_apply space es st1) as [[rs1 fin1] st2] eqn:E1. injection Ha as <- <- <-.
    destruct (IH _ _ E1) as (-> & Hrs & Hfin). split; [done|]. split.
    + constructor; [|done]. intros r' (c & _ & ->)%fmap_Some. done.
    + destruct fin1; simpl in *; [lia| |done]. destruct Hfin as (? & ? & ?).
      split; [done|]. split; [done|lia].
  - injection Ha as <- <- <-. split; [done|]. split; [done|]. simpl.
    split; [|split; [done|lia]]. intros r' (c & _ & ->)%fmap_Some. done.
Qed.

End apply.

(** A read on a leader that finds the fields of a document. *)
Lemma Block_read_found `{GammaDocLaws} `{!GammaEngine} `{WireCodecLaws Document}
    leader_id b st rreq resp buf d idv g :
  (∀ d', is_Some (SerializeToString (A := Document) d')) → in_int64 idv → doc_wf idv d →
  Block_is_leader b = true →
  GetDocByID (br_key rreq) st = (0, g) → TableFields g ≡ₚ table_entries idv d →
  ∃ d' buf', Block_read leader_id b st rreq resp buf = Some (set_success true resp, buf') ∧
    ParseFromString buf' = Some d' ∧ read_back idv d d'.
Proof.
  intros Hall Hr Hwf Hl EG HP.
  destruct (GammaDocToPbDoc_entries g d idv) as (d' & Ed' & HR); [done..|].
  destruct (Hall d') as [buf' Eb]. exists d', buf'. unfold Block_read.
  rewrite Hl, EG. simpl. rewrite Ed'. simpl. rewrite Eb.
  split; [done|]. split; [|done]. by apply parse_serialize.
Qed.

(** A read depends on the engine only through what its key finds. *)
Lemma Block_read_same `{GammaDoc} `{!GammaEngine} `{WireCodec Document}
    leader_id b st st' rreq resp buf :
  GetDocByID (br_key rreq) st' = GetDocByID (br_key rreq) st →
  Block_read leader_id b st' rreq resp buf = Block_read leader_id b st rreq resp buf.
Proof. unfold Block_read. by intros ->. Qed.

(** ** Properties *)

(** C1. Replicas agree: two nodes that apply the log of the same tasks, each
    having submitted any part of them and received the others, go through the
    same states of the engine, stop at the same entry if they stop, and end in
    the same state. *)
Theorem replicas_agree `{GammaEngine} `{WireCodecLaws BlockRequest} `{WireCodec Document}
    (space : Space) (ts : list Task) (es1 es2 : list IterEntry) (st : GammaState) :
  Forall submitted ts → Forall2 entry_of ts es1 → Forall2 entry_of ts es2 →
  let '(rs1, f1, st1) := on_apply space es1 st in
  let '(rs2, f2, st2) := on_apply space es2 st in
  st1 = st2 ∧ length rs1 = length rs2 ∧ same_end f1 f2.
Proof.
  intros Hts HE1. revert es2 st Hts. induction HE1 as [|t e1 ts es1 He1 HE1 IH];
    intros es2 st Hts HE2.
  { by apply Forall2_nil_inv_l in HE2 as ->. }
  apply Forall2_cons_inv_l in HE2 as (e2 & es2' & He2 & HE2 & ->).
  apply Forall_cons in Hts as [Ht Hts]. simpl.
  pose proof (apply_entry_same space e1 e2 st) as Hs.
  rewrite (entry_data_of _ _ Ht He1), (entry_data_of _ _ Ht He2) in Hs.
  specialize (Hs eq_refl).
  destruct (apply_entry space e1 st) as [r1 s1|r1 s1|],
    (apply_entry space e2 st) as [r2 s2|r2 s2|]; try done; subst.
  - specialize (IH es2' s2 Hts HE2).
    destruct (on_apply space es1 s2) as [[rs1 f1] st1],
      (on_apply space es2' s2) as [[rs2 f2] st2]. simpl. naive_solver.
  - split; [done|]. split; [done|]. simpl. apply list_eq_Forall2.
    clear -HE1 HE2. revert es2' HE2. induction HE1 as [|t e ts es [E _] HE1 IH]; intros es2' HE2.
    { apply Forall2_nil_inv_l in HE2 as ->. constructor. }
    apply Forall2_cons_inv_l in HE2 as (e2 & es2'' & [E2 _] & HE2 & ->).
    simpl. constructor; [congruence|]. by apply IH.
Qed.

(** [on_apply] implements the commit of the documents its entries carry:
    they are stored in order up to the first one the engine refuses, every
    stored document is answered with success and the refused one with failure,
    and from the refused one on the iterator is left to raft. *)
Theorem on_apply_commits `{GammaEngine} `{WireCodec BlockRequest} `{WireCodec Document}
    (space : Space) (es : list IterEntry) (ds : list Document) (st : GammaState) :
  Forall2 carries es ds →
  ∃ n rs fin st', on_apply space es st = (rs, fin, st') ∧ commit_docs space ds st = (n, st') ∧
    length rs = n ∧ Forall (reports true) rs ∧
    match fin with
    | Finished => n = length es
    | RolledBack r rest => reports false r ∧ rest = drop (S n) es ∧ (n < length es)%nat
    | Aborted => False
    end.
Proof.
  intros Hc. destruct (on_apply space es st) as [[rs fin] st'] eqn:E.
  destruct (on_apply_docs _ _ _ _ _ _ _ Hc E) as (? & ? & ?).
  by exists (length rs), rs, fin, st'.
Qed.

(** C3. A document written through raft can be read back: when the leader's
    entry of a document with a long id and fields that can be stored is applied
    without error, a read on a leader whose key is a text that the engine takes for the stored id succeeds
    and returns a document with the id and every scalar field of the one that was
    written, and a read of any other key answers as it did before the write.
    Every document is assumed to serialize.  The id is stored as its eight bytes
    while a read passes on the text of the request, so which texts find the
    document is the engine's choice. *)
Theorem written_document_is_read `{GammaDocLaws} `{!GammaEngine} `{GammaKeys}
    `{!GammaEngineLaws} `{WireCodec BlockRequest} `{WireCodecLaws Document}
    (leader_id : string) (b1 b2 : Block) (req rreq : BlockRequest) (resp : BlockResponse)
    (d : Document) (data buf : bytes) (t : Task) (idv : Z) (st st' : GammaState)
    (rs : list (option BlockResponse)) :
  Block_write leader_id b1 req resp data = Applied t →
  SerializeToString d = Some data → (∀ d', is_Some (SerializeToString (A := Document) d')) →
  space_id_type (_space b1) = LONG_SDTYPE → StrToInt64 (doc_id d) 0 = ("", idv) →
  in_int64 idv → doc_wf idv d →
  on_apply (_space b1) [mkIterEntry (task_data t) (Some (task_done t))] st = (rs, Finished, st') →
  Block_is_leader b2 = true →
  if decide (key_id (br_key rreq) = Some (id_value idv)) then
    ∃ d' buf', Block_read leader_id b2 st' rreq resp buf = Some (set_success true resp, buf') ∧
      ParseFromString buf' = Some d' ∧ read_back idv d d'
  else Block_read leader_id b2 st' rreq resp buf = Block_read leader_id b2 st rreq resp buf.
Proof.
  intros Hw Hser Hall Hs Hid Hr Hwf Ha Hl.
  assert (bc_data (task_done t) = data) as Hd.
  { unfold Block_write in Hw. case_match; [done|]. case_match; [|done]. by injection Hw as <-. }
  destruct (PbDocToGammaDoc_table d (_space b1) idv Hs Hid (proj1 Hwf)) as (g & Hg & HP).
  simpl in Ha. rewrite (apply_entry_doc _ _ data d) in Ha;
    [|unfold entry_data; simpl; by rewrite Hd|by apply parse_serialize].
  rewrite Hg in Ha. simpl in Ha. destruct (AddOrUpdateDoc g st) as [code st1] eqn:EA.
  destruct (Z.eqb_spec code 0) as [->|]; [|done]. injection Ha as _ <-.
  assert ((_ID, long_field (_ID, idv)) ∈ TableFields g) as Hin by (rewrite HP; by left).
  destruct (decide _) as [Hk|Hk]; [|by eapply Block_read_same, GetDocByID_other].
  destruct (GetDocByID_AddOrUpdateDoc _ _ _ _ _ EA Hin Hk) as (g' & EG & HP').
  by eapply Block_read_found; [..|exact EG|rewrite HP'].
Qed.

(** Leadership is consistent: in every state a block can reach, the test
    of [write] on the term and the test of [is_leader] that [read] uses agree,
    a leader has a node, and a task is only handed over by a leader, with the
    term it leads in. *)
Theorem leader_checks_agree `{WireCodec BlockRequest} (b : Block) :
  block_reachable b →
  (Block_is_leader b = negb (_leader_term b <? 0)) ∧
  (Block_is_leader b = true → is_Some (_node b)) ∧
  ∀ lid req resp data t, Block_write lid b req resp data = Applied t →
    is_Some (_node b) ∧ task_expected_term t = Some (_leader_term b).
Proof.
  intros Hb. assert ((_leader_term b = -1 ∨ 1 ≤ _leader_term b ∧ is_Some (_node b)) ∧
    (is_Some (_node b) → _check_term b = true)) as [HI Hc].
  { induction Hb as [|b b' Hb [IH1 IH2] Hs]; [by split; [left|intros [? ?]]|].
    destruct Hs as [? ? root group conf ip port space b b' rc fs fs' Hn Hst|term b Hn Ht|b Hn].
    - unfold Block_start in Hst. destruct IH1 as [IH1|[_ [? ?]]]; [|congruence].
      repeat case_match; simplify_eq; (split; [by left|done]).
    - split; [right|]; done.
    - split; [by left|done]. }
  unfold Block_is_leader. split; [|split].
  - destruct HI as [-> |[? _]]; [done|]. rewrite (proj2 (Z.ltb_lt _ _)) by lia.
    by rewrite (proj2 (Z.ltb_ge _ _)) by lia.
  - intros Hl%Z.ltb_lt. destruct HI as [?|[_ ?]]; [lia|done].
  - intros lid req resp data t Hw. unfold Block_write in Hw.
    destruct (Z.ltb_spec (_leader_term b) 0) as [|Hge]; [done|].
    destruct HI as [?|[_ Hn]]; [lia|]. case_match; [|done]. injection Hw as <-. simpl.
    by rewrite (Hc Hn).
Qed.

(** ** Instances of the properties *)

Definition sample_block : Block :=
  mkBlock (Some (mkNodeOptions "g" "1.1.1.1:1" "c" 0 0 "local://r/log" "local://r/raft_meta"
    "local://r/snapshot")) 3 None "" "g" "" 1 true
    (Dto.sample_space LONG_SDTYPE).

Definition sample_req : BlockRequest := mkBlockRequest "db" "s" UPSERT INT64 "-7".

#[local] Instance req_codec : WireCodec BlockRequest := count_codec BlockRequest.
#[local] Instance doc_codec : WireCodec Document := count_codec Document.
#[local] Instance req_codec_laws : WireCodecLaws BlockRequest := count_codec_laws BlockRequest.
#[local] Instance doc_codec_laws : WireCodecLaws Document := count_codec_laws Document.

Lemma triple_eta {A B C} (p : A * B * C) x : p.1.2 = x → p = (p.1.1, x, p.2).
Proof. by destruct p as [[? ?] ?]; intros <-. Qed.

Definition doc_bytes : bytes := bits_of (encode sample_doc).

Definition sample_task : Task :=
  mkTask (encode_entry (ByteSizeLong sample_req) (bits_of (encode sample_req)) doc_bytes)
    (mkBlockClosure sample_req empty_response doc_bytes) (Some 3).

Definition leader_entry : IterEntry :=
  mkIterEntry (task_data sample_task) (Some (task_done sample_task)).
Definition follower_entry : IterEntry := mkIterEntry (task_data sample_task) None.

Lemma replicas_agree_witness :
  let '(rs1, f1, st1) := @on_apply map_doc map_engine _ _ (Dto.sample_space LONG_SDTYPE)
    [leader_entry] ∅ in
  let '(rs2, f2, st2) := @on_apply map_doc map_engine _ _ (Dto.sample_space LONG_SDTYPE)
    [follower_entry] ∅ in
  st1 = st2 ∧ length rs1 = length rs2 ∧ same_end f1 f2.
Proof.
  apply (@replicas_agree map_doc map_engine _ _ _ (Dto.sample_space LONG_SDTYPE) [sample_task]).
  - constructor; [|constructor].
    exists "", sample_block, sample_req, empty_response, doc_bytes.
    split; [reflexivity|vm_compute; reflexivity].
  - constructor; [|constructor]. split; [reflexivity|by right].
  - constructor; [|constructor]. split; [reflexivity|by left].
Defined.

Lemma on_apply_commits_witness :
  ∃ n rs fin st', @on_apply map_doc map_engine _ _ (Dto.sample_space LONG_SDTYPE)
      [leader_entry] ∅ = (rs, fin, st') ∧ n = length rs.
Proof.
  destruct (@on_apply_commits map_doc map_engine _ _ (Dto.sample_space LONG_SDTYPE)
    [leader_entry] [sample_doc] ∅) as (n & rs & fin & st' & E & _ & Hn & _).
  - constructor; [|constructor]. exists doc_bytes. split; [reflexivity|].
    apply (parse_serialize sample_doc). reflexivity.
  - exists n, rs, fin, st'. split; [exact E|symmetry; exact Hn].
Defined.

Lemma written_document_is_read_witness :
  ∃ d' buf' st',
    @Block_read map_doc map_engine _ "" sample_block st' sample_req empty_response [] =
      Some (set_success true empty_response, buf') ∧
    ParseFromString buf' = Some d' ∧ read_back (-7) sample_doc d'.
Proof.
  pose proof (@written_document_is_read map_doc map_doc_laws map_engine decimal_keys
    map_engine_laws _ _ _
    "" sample_block sample_block sample_req sample_req empty_response sample_doc doc_bytes []
    sample_task (-7) ∅
    (@on_apply map_doc map_engine _ _ (Dto.sample_space LONG_SDTYPE) [leader_entry] ∅).2
    (@on_apply map_doc map_engine _ _ (Dto.sample_space LONG_SDTYPE) [leader_entry] ∅).1.1)
    as HT.
  rewrite decide_True in HT by (vm_compute; reflexivity).
  destruct HT as (d' & buf' & E & P & R).
  - reflexivity.
  - reflexivity.
  - intros d'. eexists. reflexivity.
  - reflexivity.
  - vm_compute. reflexivity.
  - vm_compute. split; congruence.
  - split; [apply (bool_decide_unpack _); vm_compute; exact I|].
    repeat split; repeat constructor; vm_compute; congruence.
  - change (_space sample_block) with (Dto.sample_space LONG_SDTYPE).
    change (mkIterEntry _ _) with leader_entry.
    apply triple_eta. vm_compute. reflexivity.
  - reflexivity.
  - eexists d', buf', _. split; [exact E|]. split; [exact P|exact R].
Defined.

(** With an engine that compares the bytes of a text with those of the stored
    id, the document that was just written with success is not found under the
    text of its id. *)
Example raw_keys_hide_document :
  let '(rs, fin, st) := @on_apply map_doc (map_engine_by raw_keys) _ _
    (Dto.sample_space LONG_SDTYPE) [leader_entry] ∅ in
  Forall (reports true) rs ∧ fin = Finished ∧ doc_id sample_doc = br_key sample_req ∧
  resp_success <$> (fst <$> @Block_read map_doc (map_engine_by raw_keys) _ "" sample_block st
    sample_req empty_response []) = Some false.
Proof.
  vm_compute. split_and!; [|reflexivity..]. repeat constructor. intros r [= <-]. reflexivity.
Qed.

Lemma leader_checks_agree_witness :
  let b := on_leader_start 3 (mkBlock (_node sample_block) (-1) (Some 3) "r" "g" "c" 1 true
    empty_space) in
  block_reachable b ∧ is_Some (_node b).
Proof.
  assert (block_reachable (on_leader_start 3 (mkBlock (_node sample_block) (-1) (Some 3)
    "r" "g" "c" 1 true empty_space))) as Hb.
  { eapply reach_step; [|apply step_leader_start; [eexists; reflexivity|lia]].
    eapply reach_step; [apply reach_new|].
    eapply (@step_start posix_util (Build_StartEnv (λ _, true) (λ _, true) (λ _ _, 0) 0 0)
      "r" "g" "c" "1.1.1.1" 1 empty_space _ _ 0 disk0); [reflexivity|]. reflexivity. }
  split; [exact Hb|]. apply (leader_checks_agree _ Hb). reflexivity.
Defined.
