(* ===== verification/ReplicaGroup.v ===== *)
(** * ReplicaGroup: the raft group of a partition

    The blocks of RaftStore as a group: the steps are the calls that braft makes
    to the state machines of a group, each of which is a function of RaftStore,
    in any order that raft permits.  What raft promises is in the rules: there is
    one sequence of committed entries, each of them was handed over by a leader's
    [write], every node applies the sequence from its start or its last snapshot
    without a gap, unless it is sent the snapshot of a node that is ahead, and a
    node is told that it leads only when it has applied everything that is
    committed.  A node whose snapshot cannot be saved or loaded makes no step. *)
From S2P Require Import Prelude Numeric Bytes Common Dto Files Engine Wire RaftStore.
Local Open Scope Z_scope.

(** ** State *)

(** A task with the address of the node that submitted it. *)
Record LogEntry := mkLogEntry { le_from : string; le_task : Task }.

(** A node.  [p_written] are the indices of the entries in the order in which they
    were written to the engine; entries that are replayed after a restart occur
    again.  [p_snapshot] and [p_flushed] are [p_applied] and the length of
    [p_written] at the last snapshot. *)
Record Peer `{GammaEngine} := mkPeer {
  p_block : Block;
  p_gamma : GammaState;
  p_applied : nat;
  p_stopped : bool;
  p_written : list nat;
  p_snapshot : nat;
  p_flushed : nat
}.

(** The space of the partition, the engine's state after its table was created,
    the tasks that are not committed, the committed ones, and the nodes. *)
Record Group `{GammaEngine} := mkGroup {
  g_space : Space;
  g_init : GammaState;
  g_proposed : list LogEntry;
  g_log : list LogEntry;
  g_peers : gmap string Peer
}.
Arguments mkPeer {_ _}.
Arguments mkGroup {_ _}.

(** The answer of the node at [ev_at] to a write RPC. *)
Record Replied := mkReplied {
  ev_at : string; ev_request : BlockRequest; ev_data : bytes; ev_response : BlockResponse
}.

Section group.
Context `{GammaEngine} `{WireCodec BlockRequest} `{WireCodec Document}.

Definition set_peer (a : string) (p : Peer) (g : Group) : Group :=
  mkGroup (g_space g) (g_init g) (g_proposed g) (g_log g) (<[a := p]> (g_peers g)).
Definition set_block (b : Block) (p : Peer) : Peer :=
  mkPeer b (p_gamma p) (p_applied p) (p_stopped p) (p_written p) (p_snapshot p) (p_flushed p).

(** The iterator's view of an entry at the node [a]: the closure is there at most
    where the task was submitted. *)
Definition entry_at (a : string) (le : LogEntry) (e : IterEntry) : Prop :=
  it_data e = task_data (le_task le) ∧
  (it_done e = None ∨ (le_from le = a ∧ it_done e = Some (task_done (le_task le)))).

(** The answers of the closures of [es] with the responses [rs], run with a
    status that is [ok] or not. *)
Definition run_closures (ok : bool) (a leader_id : string) (b : Block) (es : list IterEntry)
    (rs : list (option BlockResponse)) : list Replied :=
  omap id (zip_with (λ e r, c ← it_done e; r ← r;
    Some (mkReplied a (bc_request c) (bc_data c) (BlockClosure_Run leader_id b ok r))) es rs).

(** Those [on_apply] ran itself, and after a rollback those that raft runs with
    an error. *)
Definition apply_answers (a leader_id : string) (b : Block) (es : list IterEntry)
    (rs : list (option BlockResponse)) (fin : apply_end) : list Replied :=
  run_closures true a leader_id b es rs ++
  match fin with
  | RolledBack r rest => run_closures false a leader_id b (drop (length rs) es)
      (r :: ((λ e, bc_response <$> it_done e) <$> rest))
  | _ => []
  end.

(** The document of a committed entry. *)
Definition entry_doc (le : LogEntry) : option Document :=
  ParseFromString (bc_data (task_done (le_task le))).
Definition doc_at (log : list LogEntry) (i : nat) : option Document := log !! i ≫= entry_doc.

(** [p] after it applied [n] more entries, up to the end of the batch or not. *)
Definition advance (n : nat) (gamma : GammaState) (fin : apply_end) (p : Peer) : Peer :=
  mkPeer (p_block p) gamma (p_applied p + n)
    (match fin with Finished => false | _ => true end)
    (p_written p ++ seq (p_applied p) n) (p_snapshot p) (p_flushed p).

(** The handler takes a snapshot, in some state of [Engine] and the files. *)
Definition snapshot_loads (b : Block) : Prop :=
  ∃ (fu : FileUtil) path e fs e' fs', on_snapshot_load path b e fs = Some (0, e', fs').

(** ** Steps

    The files that a node saves and loads with a snapshot are those of [Engine],
    of any state, and none of gamma's, so no snapshot carries documents.  [lossy]
    permits what can lose documents for this reason: a restart after which gamma
    lacks writes that it took before the last snapshot, and a node that is behind
    and is sent the snapshot of another node in place of the entries. *)
Inductive group_step (lossy : bool) : Group → list Replied → Group → Prop :=
  (** A write that is answered without a task. *)
  | gs_answer g a p lid req data r :
      g_peers g !! a = Some p →
      Block_write lid (p_block p) req empty_response data = Answered r →
      group_step lossy g [mkReplied a req data r] g
  (** A write that hands a task to raft. *)
  | gs_propose g a p lid req data t :
      g_peers g !! a = Some p → ByteSizeLong req < 2 ^ 32 →
      Block_write lid (p_block p) req empty_response data = Applied t →
      group_step lossy g []
        (mkGroup (g_space g) (g_init g) (g_proposed g ++ [mkLogEntry a t]) (g_log g) (g_peers g))
  (** Raft gives up on a task, which may be committed nevertheless. *)
  | gs_fail g a p lid t :
      g_peers g !! a = Some p → mkLogEntry a t ∈ g_proposed g →
      group_step lossy g [mkReplied a (bc_request (task_done t)) (bc_data (task_done t))
        (BlockClosure_Run lid (p_block p) false (bc_response (task_done t)))] g
  | gs_commit g l1 le l2 :
      g_proposed g = l1 ++ le :: l2 →
      group_step lossy g []
        (mkGroup (g_space g) (g_init g) (l1 ++ l2) (g_log g ++ [le]) (g_peers g))
  | gs_apply g a p lid n es rs fin gamma :
      g_peers g !! a = Some p → p_stopped p = false →
      Forall2 (entry_at a) (take n (drop (p_applied p) (g_log g))) es →
      on_apply (_space (p_block p)) es (p_gamma p) = (rs, fin, gamma) →
      group_step lossy g (apply_answers a lid (p_block p) es rs fin)
        (set_peer a (advance (length rs) gamma fin p) g)
  | gs_leader_start g a p term :
      g_peers g !! a = Some p → p_stopped p = false → p_applied p = length (g_log g) →
      1 ≤ term →
      group_step lossy g [] (set_peer a (set_block (on_leader_start term (p_block p)) p) g)
  | gs_leader_stop g a p :
      g_peers g !! a = Some p →
      group_step lossy g [] (set_peer a (set_block (on_leader_stop (p_block p)) p) g)
  | gs_snapshot `{FileUtil} g a p path add_file e fs names fs' :
      g_peers g !! a = Some p → p_stopped p = false →
      on_snapshot_save path add_file e fs = (names, true, fs') →
      group_step lossy g [] (set_peer a (mkPeer (p_block p) (p_gamma p) (p_applied p)
        (p_stopped p) (p_written p) (p_applied p) (length (p_written p))) g)
  (** The process starts again: raft continues from the last snapshot, if there
      is one, and gamma has the first [m] of its writes. *)
  | gs_restart `{FileUtil} `{StartEnv} g a p m ds gamma root group conf ip port fs fs' b :
      g_peers g !! a = Some p → lossy = true ∨ (p_flushed p ≤ m)%nat →
      Forall2 (λ i d, doc_at (g_log g) i = Some d) (take m (p_written p)) ds →
      commit_docs (g_space g) ds (g_init g) = (length ds, gamma) →
      Block_start root group conf ip port (g_space g) Block_new fs = (0, b, fs') →
      p_snapshot p = 0%nat ∨ snapshot_loads b →
      group_step lossy g [] (set_peer a (mkPeer b gamma (p_snapshot p) false
        (take m (p_written p)) (p_snapshot p) (min m (p_flushed p))) g)
  (** A node that is behind is sent the snapshot of the node [a']. *)
  | gs_install g a p a' q :
      lossy = true → g_peers g !! a = Some p → p_stopped p = false →
      g_peers g !! a' = Some q → (p_applied p < p_snapshot q)%nat →
      snapshot_loads (p_block p) →
      group_step lossy g [] (set_peer a (mkPeer (p_block p) (p_gamma p) (p_snapshot q) false
        (p_written p) (p_snapshot q) (length (p_written p))) g).

(** Runs with the answers that were given, the last one first. *)
Inductive group_run (lossy : bool) (g0 : Group) : list Replied → Group → Prop :=
  | gr_start : group_run lossy g0 [] g0
  | gr_step evs g evs' g' :
      group_run lossy g0 evs g → group_step lossy g evs' g' →
      group_run lossy g0 (evs' ++ evs) g'.

(** A group whose nodes have just been started for the space. *)
Definition new_peer (g : Group) (p : Peer) : Prop :=
  _space (p_block p) = g_space g ∧ _leader_term (p_block p) = -1 ∧
  p_gamma p = g_init g ∧ p_applied p = 0%nat ∧ p_stopped p = false ∧
  p_written p = [] ∧ p_snapshot p = 0%nat ∧ p_flushed p = 0%nat.
Definition new_group (g : Group) : Prop :=
  g_proposed g = [] ∧ g_log g = [] ∧ map_Forall (λ _, new_peer g) (g_peers g).

Definition reachable (lossy : bool) (evs : list Replied) (g : Group) : Prop :=
  ∃ g0, new_group g0 ∧ group_run lossy g0 evs g.

End group.

(** ** The order of writes

    [ws] is a sequence of indices with keys: which index a key was written with
    last, and when replaying part of the sequence is harmless. *)

Section replay.
Context (key : nat → option Z).

Definition last_write (ws : list nat) (i : nat) : Prop :=
  ∃ l1 l2, ws = l1 ++ i :: l2 ∧ Forall (λ j, key j ≠ key i) l2.

(** After [k] entries were applied: an index below [k] whose key has no later
    index below [k] or in [ws] is the last write of its key. *)
Definition replay_ok (ws : list nat) (k : nat) : Prop :=
  ∀ i, (i < k)%nat → (∀ j, j ∈ ws ∨ (j < k)%nat → key j = key i → (j ≤ i)%nat) →
    last_write ws i.

Lemma last_write_app ws ws' i :
  last_write ws i → Forall (λ j, key j ≠ key i) ws' → last_write (ws ++ ws') i.
Proof.
  intros (l1 & l2 & -> & Hl) Hw. exists l1, (l2 ++ ws'). rewrite <-app_assoc. split; [done|].
  by apply Forall_app.
Qed.

Lemma replay_ok_snoc ws k : replay_ok ws k → replay_ok (ws ++ [k]) (S k).
Proof.
  intros Hr i Hi Hj. destruct (decide (i = k)) as [->|Hne].
  { by exists ws, []. }
  assert (key k ≠ key i) as Hk by (intros E; specialize (Hj k ltac:(right; lia) E); lia).
  apply last_write_app; [|by repeat constructor]. apply Hr; [lia|].
  intros j Hjw. apply Hj. set_solver by lia.
Qed.

Lemma replay_ok_seq ws k n : replay_ok ws k → replay_ok (ws ++ seq k n) (k + n).
Proof.
  revert ws k. induction n as [|n IH]; intros ws k Hr; simpl.
  { by rewrite app_nil_r, Nat.add_0_r. }
  rewrite Nat.add_succ_r, <-Nat.add_succ_l, cons_middle, app_assoc.
  by apply IH, replay_ok_snoc.
Qed.

(** After a restart from the snapshot [s], at which [m0] writes had been done. *)
Lemma replay_ok_restart ws m0 m s :
  replay_ok (take m0 ws) s → Forall (λ j, s ≤ j)%nat (drop m0 ws) → (m0 ≤ m)%nat →
  replay_ok (take m ws) s.
Proof.
  intros Hr Hd Hm i Hi Hj.
  assert (take m ws = take m0 ws ++ take (m - m0) (drop m0 ws)) as E.
  { rewrite take_drop_commute. replace (m0 + (m - m0))%nat with m by lia.
    rewrite <-(take_drop m0 (take m ws)) at 1. by rewrite take_take, Nat.min_l by lia. }
  rewrite E in Hj |- *. apply last_write_app.
  - apply Hr; [done|]. intros j [Hin|?]; apply Hj; [|by right]. left. set_solver.
  - apply Forall_forall. intros j Hin Ek.
    apply (Forall_take _ (m - m0)%nat) in Hd. rewrite Forall_forall in Hd.
    specialize (Hj j ltac:(left; set_solver) Ek). specialize (Hd j Hin). lia.
Qed.

(** A node that has caught up has written each key with its last index. *)
Lemma replay_caught_up ws k i :
  replay_ok ws k → Forall (λ j, j < k)%nat ws → (i < k)%nat →
  (∀ j, (j < k)%nat → key j = key i → (j ≤ i)%nat) → last_write ws i.
Proof.
  intros Hr Hw Hi Hl. apply Hr; [done|]. intros j [Hin|?]; [|by apply Hl].
  apply Hl. rewrite Forall_forall in Hw. by apply Hw.
Qed.

End replay.

Lemma replay_ok_ext (key key' : nat → option Z) n ws k :
  (∀ i, (i < n)%nat → key i = key' i) → (k ≤ n)%nat → Forall (λ j, j < n)%nat ws →
  replay_ok key ws k → replay_ok key' ws k.
Proof.
  intros E Hk Hw Hr i Hi Hj. rewrite Forall_forall in Hw.
  destruct (Hr i Hi) as (l1 & l2 & -> & Hl).
  { intros j Hjk. rewrite !E by (destruct Hjk; [by apply Hw|lia] || lia). by apply Hj. }
  exists l1, l2. split; [done|]. apply Forall_forall. intros j Hin.
  rewrite Forall_forall in Hl. rewrite <-!E by (lia || apply Hw; set_solver). by apply Hl.
Qed.

(** ** Applying and committing *)

Section commits.
Context `{GammaEngine} `{WireCodec BlockRequest} `{WireCodec Document}.

Lemma commit_docs_app space ds1 ds2 st st1 :
  commit_docs space ds1 st = (length ds1, st1) →
  commit_docs space (ds1 ++ ds2) st =
    let '(n, st2) := commit_docs space ds2 st1 in ((length ds1 + n)%nat, st2).
Proof.
  revert st. induction ds1 as [|d ds1 IH]; intros st E; simpl in E |- *.
  { injection E as ->. by destruct (commit_docs space ds2 st1). }
  destruct (AddOrUpdateDoc _ st) as [code st0]. destruct (code =? 0); [|done].
  destruct (commit_docs space ds1 st0) as [n st2] eqn:E1. injection E as -> ->.
  rewrite (IH _ E1). by destruct (commit_docs space ds2 st1).
Qed.

(** The documents of the entries that [on_apply] applied are committed, and
    each of these entries was one that can be applied. *)
Lemma on_apply_prefix space es st rs fin st' :
  on_apply space es st = (rs, fin, st') →
  ∃ ds st1, Forall2 carries (take (length rs) es) ds ∧ length ds = length rs ∧
    commit_docs space ds st = (length ds, st1) ∧
    (fin = Finished → st1 = st' ∧ length rs = length es) ∧ Forall (reports true) rs ∧
    Forall (λ e, ∃ st r st', apply_entry space e st = EntryApplied r st') (take (length rs) es).
Proof.
  revert st rs. induction es as [|e es IH]; intros st rs Ha; simpl in Ha.
  { injection Ha as <- <- <-. by exists [], st. }
  destruct (apply_entry space e st) as [r st0|r st0|] eqn:Ee.
  - destruct (on_apply space es st0) as [[rs1 fin1] st2] eqn:E1. injection Ha as <- <- <-.
    destruct (IH _ _ E1) as (ds & st1 & Hc & Hl & Hd & Hf & Hr & Hx). clear IH.
    pose proof Ee as Ee'. unfold apply_entry in Ee'.
    destruct (entry_data e) as [data|] eqn:Ed; [|done].
    destruct (ParseFromString data) as [d|] eqn:Ep; [|done]. clear Ee'. simpl.
    pose proof Ee as Ee'. rewrite (apply_entry_doc _ _ _ _ _ Ed Ep) in Ee'.
    destruct (AddOrUpdateDoc _ st) as [code st3] eqn:EA.
    destruct (code =? 0) eqn:Ecode; [|done]. injection Ee' as <- <-.
    exists (d :: ds), st1. split_and!.
    + constructor; [by exists data|done].
    + simpl. lia.
    + simpl. by rewrite EA, Ecode, Hd.
    + naive_solver.
    + constructor; [|done]. intros r' (c & _ & ->)%fmap_Some. done.
    + constructor; [by eauto|done].
  - injection Ha as <- <- <-. by exists [], st.
  - injection Ha as <- <- <-. by exists [], st.
Qed.

End commits.

(** ** Invariant *)

(** The id of a document, where it is a number. *)
Definition doc_key (d : Document) : option Z :=
  let '(msg, idv) := StrToInt64 (doc_id d) 0 in if failed msg then None else Some idv.

Section invariant.
Context `{GammaEngine} `{WireCodecLaws BlockRequest} `{WireCodec Document}.

Definition key_at (log : list LogEntry) (i : nat) : option Z := doc_at log i ≫= doc_key.

(** An entry that the state machine takes, in some state of the engine. *)
Definition applicable (space : Space) (le : LogEntry) : Prop :=
  ∃ e st r st', entry_of (le_task le) e ∧ apply_entry space e st = EntryApplied r st'.

Record peer_ok (lossy : bool) (g : Group) (p : Peer) : Prop := {
  po_space : _space (p_block p) = g_space g;
  po_le : (p_snapshot p ≤ p_applied p ≤ length (g_log g))%nat;
  po_bound : Forall (λ i, i < length (g_log g))%nat (p_written p);
  po_flush : (p_flushed p ≤ length (p_written p))%nat;
  po_docs : ∃ ds gamma, Forall2 (λ i d, doc_at (g_log g) i = Some d) (p_written p) ds ∧
    commit_docs (g_space g) ds (g_init g) = (length ds, gamma) ∧
    (p_stopped p = false → p_gamma p = gamma);
  po_leader : Block_is_leader (p_block p) = true →
    Forall (λ i, i < p_applied p)%nat (p_written p);
  po_applicable : Forall (applicable (g_space g)) (take (p_applied p) (g_log g));
  po_replay : lossy = false →
    replay_ok (key_at (g_log g)) (p_written p) (p_applied p) ∧
    replay_ok (key_at (g_log g)) (take (p_flushed p) (p_written p)) (p_snapshot p) ∧
    Forall (λ i, p_snapshot p ≤ i)%nat (drop (p_flushed p) (p_written p))
}.

Definition group_ok (lossy : bool) (g : Group) : Prop :=
  Forall (λ le, submitted (le_task le)) (g_proposed g) ∧
  Forall (λ le, submitted (le_task le)) (g_log g) ∧
  map_Forall (λ _, peer_ok lossy g) (g_peers g).

(** An answer with success is for an entry of the log that was applied, with all
    entries before it. *)
Definition ack_ok (g : Group) (ev : Replied) : Prop :=
  resp_success (ev_response ev) = true →
  ∃ i le, g_log g !! i = Some le ∧ le_from le = ev_at ev ∧
    bc_request (task_done (le_task le)) = ev_request ev ∧
    bc_data (task_done (le_task le)) = ev_data ev ∧
    Forall (applicable (g_space g)) (take (S i) (g_log g)).

Lemma doc_at_app log le i : (i < length log)%nat → doc_at (log ++ [le]) i = doc_at log i.
Proof. intros Hi. unfold doc_at. by rewrite lookup_app_l. Qed.

(** The invariant of a node when an entry is committed. *)
Lemma peer_ok_commit lossy g ps le p :
  peer_ok lossy g p →
  peer_ok lossy (mkGroup (g_space g) (g_init g) ps (g_log g ++ [le]) (g_peers g)) p.
Proof.
  intros [I1 I2 I3 I4 I5 I6 I7 I8].
  assert (Forall (λ i, i < length (g_log g ++ [le]))%nat (p_written p)) as Hb.
  { eapply Forall_impl; [exact I3|]. intros i. rewrite length_app. simpl. lia. }
  assert (∀ i, (i < length (g_log g))%nat → key_at (g_log g) i = key_at (g_log g ++ [le]) i) as Hk.
  { intros i Hi. unfold key_at. by rewrite doc_at_app. }
  constructor; simpl; try done.
  - rewrite length_app. simpl. lia.
  - destruct I5 as (ds & gamma & HF & ? & ?). exists ds, gamma. split; [|done].
    apply Forall2_same_length_lookup_2; [by eapply Forall2_length|]. intros j i d Hi Hd.
    rewrite doc_at_app; [by eapply (Forall2_lookup_lr _ _ _ _ _ _ HF)|].
    by eapply (Forall_lookup_1 _ _ _ _ I3).
  - by rewrite take_app_le by lia.
  - intros Hl. destruct (I8 Hl) as (R1 & R2 & R3). split_and!; [| |done].
    + by eapply replay_ok_ext; [exact Hk|lia| |].
    + by eapply replay_ok_ext; [exact Hk|lia|apply Forall_take|].
Qed.

(** The entries that a node applies, with their documents. *)
Lemma apply_entries_docs g a p n es k ds :
  Forall (λ le, submitted (le_task le)) (g_log g) →
  Forall2 (entry_at a) (take n (drop (p_applied p) (g_log g))) es →
  Forall2 carries (take k es) ds → (k ≤ length es)%nat →
  (p_applied p ≤ length (g_log g))%nat →
  (p_applied p + k ≤ length (g_log g))%nat ∧
  Forall2 (λ i d, doc_at (g_log g) i = Some d) (seq (p_applied p) k) ds.
Proof.
  intros Hs He Hc Hl Hap. pose proof (Forall2_length _ _ _ He) as Hlen.
  rewrite length_take, length_drop in Hlen. split; [lia|].
  apply Forall2_same_length_lookup_2.
  { rewrite <-(Forall2_length _ _ _ Hc), length_seq, length_take. lia. }
  intros j i d Hi Hd. apply lookup_seq in Hi as [-> Hj].
  destruct (Forall2_lookup_r _ _ _ _ _ Hc Hd) as (e & Ee & data & Ed & Ep).
  rewrite lookup_take_lt in Ee by done.
  destruct (Forall2_lookup_r _ _ _ _ _ He Ee) as (le & El & Hit & Hdone).
  rewrite lookup_take_lt, lookup_drop in El by (apply lookup_lt_Some in Ee; lia).
  unfold doc_at. rewrite El. simpl. rewrite Forall_forall in Hs.
  assert (submitted (le_task le)) as Hsub by (by apply Hs; eapply list_elem_of_lookup_2).
  rewrite (entry_data_of _ _ Hsub) in Ed; [|by split; naive_solver].
  injection Ed as <-. done.
Qed.

Lemma apply_entries_applicable g a p n es k :
  Forall2 (entry_at a) (take n (drop (p_applied p) (g_log g))) es → (k ≤ length es)%nat →
  Forall (applicable (g_space g)) (take (p_applied p) (g_log g)) →
  Forall (λ e, ∃ st r st', apply_entry (g_space g) e st = EntryApplied r st')
    (take k es) →
  Forall (applicable (g_space g)) (take (p_applied p + k) (g_log g)).
Proof.
  intros He Hl Ha Hx. apply Forall_lookup. intros i le Hi.
  apply lookup_take_Some in Hi as [Hi Hlt].
  destruct (decide (i < p_applied p)%nat) as [Hlt'|Hge].
  { rewrite Forall_lookup in Ha. apply (Ha i). by rewrite lookup_take_lt. }
  assert (i = p_applied p + (i - p_applied p))%nat as E by lia.
  rewrite E, <-lookup_drop in Hi. set (j := (i - p_applied p)%nat) in *.
  pose proof (Forall2_length _ _ _ He) as Hlen. rewrite length_take, length_drop in Hlen.
  destruct (Forall2_lookup_l _ _ _ j le He) as (e & Ee & Hit & Hdone).
  { by rewrite lookup_take_lt by lia. }
  rewrite Forall_lookup in Hx. destruct (Hx j e) as (st & r & st' & Ex).
  { by rewrite lookup_take_lt by lia. }
  exists e, st, r, st'. split; [|done]. split; naive_solver.
Qed.

Lemma peer_ok_same lossy g g' p :
  g_space g' = g_space g → g_init g' = g_init g → g_log g' = g_log g →
  peer_ok lossy g p → peer_ok lossy g' p.
Proof. intros E1 E2 E3 []. constructor; rewrite ?E1, ?E2, ?E3; auto. Qed.

Lemma peer_ok_apply lossy g a p n es rs fin gamma :
  Forall (λ le, submitted (le_task le)) (g_log g) → peer_ok lossy g p → p_stopped p = false →
  Forall2 (entry_at a) (take n (drop (p_applied p) (g_log g))) es →
  on_apply (_space (p_block p)) es (p_gamma p) = (rs, fin, gamma) →
  peer_ok lossy g (advance (length rs) gamma fin p).
Proof.
  intros Hs [I1 I2 I3 I4 I5 I6 I7 I8] Hst He Ha. rewrite I1 in Ha.
  destruct (on_apply_prefix _ _ _ _ _ _ Ha) as (ds & st1 & Hc & Hds & Hcd & Hf & _ & Hx).
  assert (length rs ≤ length es)%nat as Hle.
  { apply Forall2_length in Hc. rewrite length_take in Hc. lia. }
  destruct (apply_entries_docs g a p n es (length rs) ds) as [Hlen HF]; [done..|lia|].
  constructor; simpl; try done.
  - lia.
  - apply Forall_app. split; [done|]. apply Forall_seq. lia.
  - rewrite length_app. lia.
  - destruct I5 as (ds0 & gamma0 & HF0 & Hc0 & Hg). rewrite (Hg Hst) in Hcd.
    exists (ds0 ++ ds), st1. split_and!; [by apply Forall2_app| |].
    + rewrite (commit_docs_app _ _ _ _ _ Hc0), Hcd, length_app. done.
    + destruct fin; [|done..]. intros _. symmetry. by apply Hf.
  - intros Hl. apply Forall_app. split; [|apply Forall_seq; lia].
    eapply Forall_impl; [by apply I6|]. simpl. lia.
  - by eapply apply_entries_applicable.
  - intros Hlo. destruct (I8 Hlo) as (R1 & R2 & R3). split_and!.
    + by apply replay_ok_seq.
    + by rewrite take_app_le by lia.
    + rewrite drop_app_le by lia. apply Forall_app. split; [done|]. apply Forall_seq. lia.
Qed.

Lemma peer_ok_block lossy g b p :
  _space b = _space (p_block p) → (Block_is_leader b = true →
    Block_is_leader (p_block p) = true ∨ p_applied p = length (g_log g)) →
  peer_ok lossy g p → peer_ok lossy g (set_block b p).
Proof.
  intros E Hb [I1 I2 I3 I4 I5 I6 I7 I8]. constructor; simpl; try done; [congruence|].
  intros Hl. destruct (Hb Hl) as [?| ->]; [by apply I6|done].
Qed.

Lemma Block_start_new `{FileUtil} `{StartEnv} root group conf ip port space fs b fs' :
  Block_start root group conf ip port space Block_new fs = (0, b, fs') →
  _space b = space ∧ _leader_term b = -1.
Proof. unfold Block_start. intros E. repeat case_match; simplify_eq; done. Qed.

Lemma peer_ok_restart lossy g p m ds gamma b :
  peer_ok lossy g p → (lossy = true ∨ (p_flushed p ≤ m)%nat) →
  Forall2 (λ i d, doc_at (g_log g) i = Some d) (take m (p_written p)) ds →
  commit_docs (g_space g) ds (g_init g) = (length ds, gamma) →
  _space b = g_space g → _leader_term b = -1 →
  peer_ok lossy g (mkPeer b gamma (p_snapshot p) false (take m (p_written p)) (p_snapshot p)
    (min m (p_flushed p))).
Proof.
  intros [I1 I2 I3 I4 I5 I6 I7 I8] Hm HF Hc Hsp Hlt. constructor; simpl; try done.
  - lia.
  - by apply Forall_take.
  - rewrite length_take. lia.
  - by exists ds, gamma.
  - unfold Block_is_leader. rewrite Hlt. done.
  - rewrite <-(Nat.min_l (p_snapshot p) (p_applied p)), <-take_take by lia. by apply Forall_take.
  - intros Hlo. destruct (I8 Hlo) as (R1 & R2 & R3). destruct Hm as [?|Hm]; [congruence|].
    rewrite Nat.min_r, take_take, Nat.min_l by done. split_and!; [|done|].
    + by eapply replay_ok_restart.
    + rewrite <-(take_drop m (p_written p)), drop_app_le, Forall_app in R3; [by destruct R3|].
      rewrite length_take. lia.
Qed.

Lemma peer_ok_install g p q :
  peer_ok true g p → peer_ok true g q → (p_applied p < p_snapshot q)%nat →
  p_stopped p = false →
  peer_ok true g (mkPeer (p_block p) (p_gamma p) (p_snapshot q) false (p_written p)
    (p_snapshot q) (length (p_written p))).
Proof.
  intros [I1 I2 I3 I4 I5 I6 I7 _] [_ Q2 _ _ _ _ Q7 _] Hlt Hst.
  constructor; simpl; try done; [lia|..].
  - destruct I5 as (ds & gamma & HF & Hc & Hg). exists ds, gamma. auto.
  - intros Hl. eapply Forall_impl; [by apply I6|]. simpl. lia.
  - rewrite <-(Nat.min_l (p_snapshot q) (p_applied q)), <-take_take by lia.
    by apply Forall_take.
Qed.

Lemma group_ok_peer lossy g a p :
  group_ok lossy g → peer_ok lossy g p → group_ok lossy (set_peer a p g).
Proof.
  intros (G1 & G2 & G3) Hp. split_and!; [done..|]. apply map_Forall_insert_2.
  - by apply (peer_ok_same lossy g).
  - intros a' p' Ha'. apply (peer_ok_same lossy g); [done..|]. by eapply G3.
Qed.

Lemma group_step_ok lossy g evs g' :
  group_step lossy g evs g' → group_ok lossy g → group_ok lossy g'.
Proof.
  intros Hstep Hg. pose proof Hg as (G1 & G2 & G3). destruct Hstep as
    [g a p lid req data r Hp Hw|g a p lid req data t Hp Hlt Hw|g a p lid t Hp Ht
    |g l1 le l2 El|g a p lid n es rs fin gamma Hp Hst He Ha|g a p term Hp Hst Hap Ht
    |g a p Hp|? g a p path add_file e fs names fs' Hp Hst _
    |? ? g a p m ds gamma root group conf ip port fs fs' b Hp Hm HF Hc Hb _
    |g a p a' q Hlo Hp Hst Hq Hlt _];
    try done; try (apply group_ok_peer; [done|]; specialize (G3 _ _ Hp); simpl in G3).
  - split_and!; [|done|].
    + apply Forall_app. split; [done|]. constructor; [|constructor]. by do 5 eexists.
    + intros a' p' Ha'. apply (peer_ok_same lossy g); [done..|]. by eapply G3.
  - rewrite El in G1. apply Forall_app in G1 as [G1 [Gle G1']%Forall_cons].
    split_and!; simpl; [by apply Forall_app|apply Forall_app; split; [done|by constructor]|].
    intros a' p' Ha'. by eapply peer_ok_commit, G3.
  - by eapply peer_ok_apply.
  - apply peer_ok_block; [done|by right|done].
  - apply peer_ok_block; [done| |done]. by left.
  - destruct G3 as [I1 I2 I3 I4 I5 I6 I7 I8]. constructor; simpl; try done; [lia|].
    intros Hlo. destruct (I8 Hlo) as (R1 & R2 & R3).
    by rewrite firstn_all, drop_ge by done.
  - destruct (Block_start_new _ _ _ _ _ _ _ _ _ Hb). by apply peer_ok_restart with (ds := ds).
  - subst lossy. apply peer_ok_install; [done| |done..]. by eapply (proj2 (proj2 Hg)).
Qed.

(** ** Answers *)

Lemma run_closures_elem ok a lid b es rs ev :
  ev ∈ run_closures ok a lid b es rs →
  ∃ j e c r, es !! j = Some e ∧ rs !! j = Some (Some r) ∧ it_done e = Some c ∧
    ev = mkReplied a (bc_request c) (bc_data c) (BlockClosure_Run lid b ok r).
Proof.
  intros (x & Hx & Ex)%list_elem_of_omap. simpl in Ex. subst x.
  apply list_elem_of_lookup in Hx as [j Hj]. apply lookup_zip_with_Some in Hj
    as (e & r & Ej & He & Hr). exists j, e.
  destruct (it_done e) as [c|]; [|done]. destruct r as [r|]; [|done].
  injection Ej as ->. by exists c, r.
Qed.

Lemma redirect_fails lid b r : resp_success (redirect lid b r) = false.
Proof. unfold redirect. by repeat case_match. Qed.

Lemma Block_write_answer_fails lid b req data r :
  Block_write lid b req empty_response data = Answered r → resp_success r = false.
Proof.
  unfold Block_write. intros E. repeat case_match; simplify_eq; [|done]. apply redirect_fails.
Qed.

(** The log only grows. *)
Lemma group_step_log lossy g evs g' :
  group_step lossy g evs g' →
  g_space g' = g_space g ∧ g_init g' = g_init g ∧ g_log g `prefix_of` g_log g'.
Proof. destruct 1; simpl; split_and!; try done; by eexists. Qed.

Lemma acknowledged_grows lossy g evs g' ev :
  group_step lossy g evs g' → ack_ok g ev → ack_ok g' ev.
Proof.
  intros (Hs & _ & [l Hl])%group_step_log Ha Hr.
  destruct (Ha Hr) as (i & le & Hi & ? & ? & ? & HF). exists i, le. rewrite Hs, Hl.
  pose proof (lookup_lt_Some _ _ _ Hi). split_and!; try done.
  - by rewrite lookup_app_l.
  - by rewrite take_app_le by lia.
Qed.

Lemma apply_acknowledged lossy g a p lid n es rs fin gamma ev :
  group_ok lossy g → g_peers g !! a = Some p → p_stopped p = false →
  Forall2 (entry_at a) (take n (drop (p_applied p) (g_log g))) es →
  on_apply (_space (p_block p)) es (p_gamma p) = (rs, fin, gamma) →
  ev ∈ apply_answers a lid (p_block p) es rs fin →
  ack_ok (set_peer a (advance (length rs) gamma fin p) g) ev.
Proof.
  intros (G1 & G2 & G3) Hp Hst He Ha Hev Hr. pose proof (G3 _ _ Hp) as Hok. simpl in Hok.
  apply elem_of_app in Hev as [Hev|Hev]; cycle 1.
  { destruct fin; try (by apply elem_of_nil in Hev).
    apply run_closures_elem in Hev as (j & e & c & r & _ & _ & _ & ->).
    simpl in Hr. by rewrite redirect_fails in Hr. }
  apply run_closures_elem in Hev as (j & e & c & r & Hj & Hrj & Hc & ->).
  pose proof (lookup_lt_Some _ _ _ Hrj) as Hlt.
  destruct (Forall2_lookup_r _ _ _ _ _ He Hj) as (le & El & Hit & Hdone).
  apply lookup_take_Some in El as [El Hn]. rewrite lookup_drop in El.
  destruct Hdone as [?|[Hfrom Hd]]; [congruence|]. rewrite Hc in Hd. injection Hd as ->.
  exists (p_applied p + j)%nat, le. split_and!; try done. simpl.
  pose proof (po_applicable _ _ _ (peer_ok_apply _ _ _ _ _ _ _ _ _ G2 Hok Hst He Ha)) as HA.
  simpl in HA. rewrite <-(Nat.min_l (S (p_applied p + j)) (p_applied p + length rs)), <-take_take
    by lia. by apply Forall_take.
Qed.

Lemma group_step_acknowledged lossy g evs g' :
  group_step lossy g evs g' → group_ok lossy g → Forall (ack_ok g') evs.
Proof.
  intros Hstep Hg. destruct Hstep as
    [g a p lid req data r Hp Hw|g a p lid req data t Hp Hlt Hw|g a p lid t Hp Ht
    |g l1 le l2 El|g a p lid n es rs fin gamma Hp Hst He Ha|g a p term Hp Hst Hap Ht
    |g a p Hp|? g a p path add_file e fs names fs' Hp Hst _
    |? ? g a p m ds gamma root group conf ip port fs fs' b Hp Hm HF Hc Hb _
    |g a p a' q Hlo Hp Hst Hq Hlt _];
    try constructor; try constructor.
  - intros Hr. simpl in Hr. by rewrite (Block_write_answer_fails _ _ _ _ _ Hw) in Hr.
  - intros Hr. simpl in Hr. by rewrite redirect_fails in Hr.
  - apply Forall_forall. intros ev Hev. by eapply apply_acknowledged.
Qed.

Lemma reachable_ok lossy evs g :
  reachable lossy evs g → group_ok lossy g ∧ Forall (ack_ok g) evs.
Proof.
  intros (g0 & (N1 & N2 & N3) & Hrun). induction Hrun as [|evs g evs' g' Hrun [IH1 IH2] Hs].
  - split; [|constructor]. split_and!; [by rewrite N1|by rewrite N2|].
    intros a p Hp. destruct (N3 _ _ Hp) as (E1 & E2 & E3 & E4 & E5 & E6 & E7 & E8).
    constructor; rewrite ?E4, ?E6, ?E7, ?E8, ?N2; try done; simpl.
    + exists [], (g_init g0). split_and!; [constructor|done|done].
    + intros _. split_and!; [| |done]; intros i Hi; lia.
  - split; [by eapply group_step_ok|]. apply Forall_app.
    split; [by eapply group_step_acknowledged|].
    eapply Forall_impl; [exact IH2|]. intros ev. by eapply acknowledged_grows.
Qed.

End invariant.

(** ** Reading *)

(** A document that can be stored under its id. *)
Definition storable (d : Document) : Prop :=
  ∃ idv, doc_key d = Some idv ∧ in_int64 idv ∧ doc_wf idv d.

Lemma doc_key_StrToInt64 d idv : doc_key d = Some idv → StrToInt64 (doc_id d) 0 = ("", idv).
Proof.
  unfold doc_key. destruct (StrToInt64 (doc_id d) 0) as [msg z].
  destruct (failed msg) eqn:E; [done|]. apply failed_false in E as ->. by intros [= ->].
Qed.

Section reading.
Context `{GammaDocLaws} `{!GammaEngine} `{GammaKeys} `{!GammaEngineLaws}.

(** Storing one document: the texts of its id find its fields, and what the
    others find is as before. *)
Lemma store_doc space d idv key st st' :
  space_id_type space = LONG_SDTYPE → doc_key d = Some idv → in_int64 idv → doc_wf idv d →
  AddOrUpdateDoc (PbDocToGammaDoc d space Doc_new).2 st = (0, st') →
  if decide (key_id key = Some (id_value idv)) then
    ∃ g, GetDocByID key st' = (0, g) ∧ TableFields g ≡ₚ table_entries idv d
  else GetDocByID key st' = GetDocByID key st.
Proof.
  intros Hs Hk%doc_key_StrToInt64 Hr Hwf EA.
  destruct (PbDocToGammaDoc_table d space idv Hs Hk (proj1 Hwf)) as (g & Hg & HP).
  rewrite Hg in EA. simpl in EA. 
  assert ((_ID, long_field (_ID, idv)) ∈ TableFields g) as Hin by (rewrite HP; by left).
  destruct (decide _) as [Hkey|Hkey]; [|by eapply GetDocByID_other].
  destruct (GetDocByID_AddOrUpdateDoc _ _ _ _ _ EA Hin Hkey) as (g' & EG & HP').
  exists g'. by rewrite HP'.
Qed.

(** The documents after the last one with an id do not change what is found. *)
Lemma commit_docs_other space ds idv key st st' :
  space_id_type space = LONG_SDTYPE → Forall storable ds → in_int64 idv →
  key_id key = Some (id_value idv) →
  Forall (λ d, doc_key d ≠ Some idv) ds → commit_docs space ds st = (length ds, st') →
  GetDocByID key st' = GetDocByID key st.
Proof.
  intros Hs HF Hi Hkey HK. revert st. induction HF as [|d ds (z & Hz & Hr & Hwf) HF IH]; intros st E;
    simpl in E; [by injection E as <-|].
  apply Forall_cons in HK as [Hk HK].
  destruct (AddOrUpdateDoc _ st) as [code st1] eqn:EA.
  destruct (Z.eqb_spec code 0) as [-> |]; [|done].
  destruct (commit_docs space ds st1) as [n st2] eqn:E1. injection E as -> ->.
  rewrite (IH HK _ E1). pose proof (store_doc _ _ _ key _ _ Hs Hz Hr Hwf EA) as HS.
  rewrite decide_False in HS; [done|]. rewrite Hkey. intros E%(inj Some)%id_value_inj; congruence.
Qed.

Lemma commit_docs_last space l1 d l2 idv key st st' :
  space_id_type space = LONG_SDTYPE → Forall storable (l1 ++ d :: l2) → doc_key d = Some idv →
  key_id key = Some (id_value idv) → Forall (λ d', doc_key d' ≠ Some idv) l2 →
  commit_docs space (l1 ++ d :: l2) st = (length (l1 ++ d :: l2), st') →
  ∃ g, GetDocByID key st' = (0, g) ∧ TableFields g ≡ₚ table_entries idv d.
Proof.
  intros Hs [_ HF]%Forall_app Hk Hkey HK. revert st. induction l1 as [|d1 l1 IH]; intros st E;
    simpl in E; destruct (AddOrUpdateDoc _ st) as [code st1] eqn:EA;
    destruct (Z.eqb_spec code 0) as [-> |]; try done.
  - destruct (commit_docs space l2 st1) as [n st2] eqn:E1. injection E as -> ->.
    apply Forall_cons in HF as [(z & Hz & Hr & Hwf) HF]. assert (z = idv) as -> by congruence.
    rewrite (commit_docs_other _ _ _ _ _ _ Hs HF Hr Hkey HK E1).
    pose proof (store_doc _ _ _ key _ _ Hs Hk Hr Hwf EA) as HS. by rewrite decide_True in HS.
  - destruct (commit_docs space (l1 ++ d :: l2) st1) as [n st2] eqn:E1. injection E as -> ->.
    by eapply IH.
Qed.

End reading.

(** What was applied has a document. *)
Lemma applicable_doc `{GammaEngine} `{WireCodecLaws BlockRequest} `{WireCodec Document} space le :
  submitted (le_task le) → applicable space le → is_Some (entry_doc le).
Proof.
  intros Hs (e & st & r & st' & He & E). unfold apply_entry in E.
  rewrite (entry_data_of _ _ Hs He) in E. unfold entry_doc. by destruct (ParseFromString _).
Qed.

Section leader_read.
Context `{GammaDocLaws} `{!GammaEngine} `{GammaKeys} `{!GammaEngineLaws}
  `{WireCodecLaws BlockRequest} `{WireCodecLaws Document}.

(** All documents of the log can be stored. *)
Definition log_storable (g : Group) : Prop :=
  ∀ i d, doc_at (g_log g) i = Some d → storable d.

(** [d] is the last document with the id [idv] among the first [k] entries. *)
Definition last_document (g : Group) (k : nat) (idv : Z) (d : Document) : Prop :=
  doc_key d = Some idv ∧ ∃ i, (i < k)%nat ∧ doc_at (g_log g) i = Some d ∧
    ∀ j d', (i < j < k)%nat → doc_at (g_log g) j = Some d' → doc_key d' ≠ Some idv.

Lemma leader_finds_last g p idv key d :
  space_id_type (g_space g) = LONG_SDTYPE → log_storable g → peer_ok false g p →
  p_stopped p = false → Block_is_leader (p_block p) = true →
  last_document g (p_applied p) idv d → key_id key = Some (id_value idv) →
  ∃ gd, GetDocByID key (p_gamma p) = (0, gd) ∧
    TableFields gd ≡ₚ table_entries idv d.
Proof.
  intros Hs HL [_ _ _ _ I5 I6 _ I8] Hst Hl (Hk & i & Hi & Hd & Hlast) Hkey.
  destruct (I8 eq_refl) as (R1 & _ & _). destruct I5 as (ds & gamma & HF & Hc & Hg).
  rewrite (Hg Hst). destruct (replay_caught_up _ _ _ i R1 (I6 Hl) Hi) as (w1 & w2 & Ew & Hw2).
  { intros j Hj Ek. destruct (decide (j ≤ i)%nat) as [|Hgt]; [done|]. exfalso.
    unfold key_at in Ek. rewrite Hd in Ek. simpl in Ek. rewrite Hk in Ek.
    destruct (doc_at (g_log g) j) as [d'|] eqn:Ej; [|done]. by eapply (Hlast j); [lia|..]. }
  rewrite Ew in HF. apply Forall2_app_inv_l in HF as (l1 & l2 & HF1 & HF2 & ->).
  apply Forall2_cons_inv_l in HF2 as (d0 & l3 & Hd0 & HF2 & ->).
  assert (d0 = d) as -> by congruence. eapply commit_docs_last; [done| |done|done| |done].
  - apply Forall_forall. intros x Hx.
    assert (Forall2 (λ i d, doc_at (g_log g) i = Some d) (w1 ++ i :: w2) (l1 ++ d :: l3)) as HF.
    { by apply Forall2_app, Forall2_cons. }
    apply list_elem_of_lookup in Hx as [n Hn].
    destruct (Forall2_lookup_r _ _ _ _ _ HF Hn) as (m & _ & Hm). by eapply HL.
  - apply Forall_forall. intros x Hx. apply list_elem_of_lookup in Hx as [n Hn].
    destruct (Forall2_lookup_r _ _ _ _ _ HF2 Hn) as (m & Hm & Hdm).
    rewrite Forall_lookup in Hw2. specialize (Hw2 _ _ Hm). unfold key_at in Hw2.
    rewrite Hd, Hdm in Hw2. simpl in Hw2. congruence.
Qed.

Lemma last_document_exists g k i d idv :
  (i < k)%nat → doc_at (g_log g) i = Some d → doc_key d = Some idv →
  ∃ last, last_document g k idv last.
Proof.
  intros Hi Hd Hk. induction k as [|k IH]; [lia|].
  destruct (decide (doc_at (g_log g) k ≫= doc_key = Some idv))
    as [(d' & Ed & Ek)%bind_Some|Hno].
  { exists d'. split; [done|]. exists k. split_and!; [lia|done|]. intros; lia. }
  destruct (decide (i = k)) as [-> |]; [by rewrite Hd in Hno|].
  destruct IH as (last & Hl & j & Hj & Ej & Hlast); [lia|].
  exists last. split; [done|]. exists j. split_and!; [lia|done|].
  intros j' d' Hj' Ed' Ek'. destruct (decide (j' = k)) as [-> |]; [by rewrite Ed' in Hno|].
  by eapply (Hlast j'); [lia|..].
Qed.

(** A leader that has applied the entry [i] reads the last document of its id,
    by the texts that the engine takes for the id. *)
Definition read_by_leaders (g : Group) (i : nat) (idv : Z) : Prop :=
  ∀ a p lid rreq resp buf, g_peers g !! a = Some p → p_stopped p = false →
    Block_is_leader (p_block p) = true → (i < p_applied p)%nat →
    key_id (br_key rreq) = Some (id_value idv) →
    ∃ last d' buf', last_document g (p_applied p) idv last ∧
      Block_read lid (p_block p) (p_gamma p) rreq resp buf =
        Some (set_success true resp, buf') ∧
      ParseFromString buf' = Some d' ∧ read_back idv last d'.

Lemma committed_read evs g i d idv :
  reachable false evs g → space_id_type (g_space g) = LONG_SDTYPE → log_storable g →
  (∀ d', is_Some (SerializeToString (A := Document) d')) →
  doc_at (g_log g) i = Some d → doc_key d = Some idv → read_by_leaders g i idv.
Proof.
  intros HR Hs HL Hall Hdi Hk a p lid rreq resp buf Hp Hst Hl Hip Hkey.
  destruct (reachable_ok _ _ _ HR) as [(_ & _ & G3) _].
  destruct (last_document_exists g _ i d idv Hip Hdi Hk) as [last Hlast].
  destruct (leader_finds_last g p idv (br_key rreq) last Hs HL (G3 _ _ Hp))
    as (gd & EG & HP); [done..|].
  pose proof Hlast as (Hkl & j & _ & Hj & _).
  destruct (HL _ _ Hj) as (z & Hz & Hr & Hwfl). assert (z = idv) as -> by congruence.
  destruct (Block_read_found lid (p_block p) (p_gamma p) rreq resp buf last idv gd)
    as (d' & buf' & ? & ? & ?); [done..|]. by exists last, d', buf'.
Qed.

End leader_read.

(** An acknowledged write is in the log, with a document. *)
Lemma ack_in_log `{GammaEngine} `{WireCodecLaws BlockRequest} `{WireCodec Document}
    lossy evs g ev :
  reachable lossy evs g → ev ∈ evs → resp_success (ev_response ev) = true →
  ∃ i d, doc_at (g_log g) i = Some d ∧ ParseFromString (ev_data ev) = Some d.
Proof.
  intros HR Hev Hsucc. destruct (reachable_ok _ _ _ HR) as [(_ & G2 & _) HA].
  rewrite Forall_forall in HA. destruct (HA _ Hev Hsucc) as (i & le & Hi & _ & _ & Hdata & HF).
  destruct (applicable_doc (g_space g) le) as [d Hd].
  { by eapply (Forall_lookup_1 _ _ _ _ G2). }
  { eapply (Forall_lookup_1 _ _ i _ HF). by rewrite lookup_take_lt by lia. }
  exists i, d. split; [|by rewrite <-Hdata]. unfold doc_at. by rewrite Hi.
Qed.

(** ** Properties *)

(** C2. In a space with long ids an acknowledged document is committed, and read
    until it is replaced: in every run of a group, with any changes of
    leadership, batches, snapshots, restarts and replays, each write that was
    answered with success has its document in the log, and a leader that has
    applied it answers a read, by any text the engine takes for the id, with the
    fields of the last document with this id that it has applied.  This is for
    runs in which every committed document has an int64 id and fields that can be
    stored, every document serializes, a restarted engine has the writes it had
    at its last snapshot, and no node is caught up by the snapshot of another
    node. *)
Theorem acknowledged_document_is_read `{GammaDocLaws} `{!GammaEngine} `{GammaKeys}
    `{!GammaEngineLaws} `{WireCodecLaws BlockRequest} `{WireCodecLaws Document}
    (evs : list Replied) (g : Group) (ev : Replied) :
  reachable false evs g → space_id_type (g_space g) = LONG_SDTYPE → log_storable g →
  (∀ d', is_Some (SerializeToString (A := Document) d')) →
  ev ∈ evs → resp_success (ev_response ev) = true →
  ∃ i d idv, doc_at (g_log g) i = Some d ∧ ParseFromString (ev_data ev) = Some d ∧
    doc_key d = Some idv ∧ read_by_leaders g i idv.
Proof.
  intros HR Hs HL Hall Hev Hsucc. destruct (ack_in_log _ _ _ _ HR Hev Hsucc) as (i & d & Hd & Hp).
  destruct (HL _ _ Hd) as (idv & Hk & _). exists i, d, idv. split_and!; [done..|].
  by eapply committed_read.
Qed.

(** C24. A committed entry whose attachment is no document blocks the group for
    good: no node ever gets past it, through no restart or change of leader, and
    every write that was answered with success is before it in the log. *)
Theorem unparsable_entry_blocks_group `{GammaEngine} `{WireCodecLaws BlockRequest}
    `{WireCodec Document} (lossy : bool) (evs : list Replied) (g : Group) (i : nat)
    (le : LogEntry) :
  reachable lossy evs g → g_log g !! i = Some le → entry_doc le = None →
  (∀ a p, g_peers g !! a = Some p → (p_applied p ≤ i)%nat) ∧
  ∀ ev, ev ∈ evs → resp_success (ev_response ev) = true →
    ∃ j le', (j < i)%nat ∧ g_log g !! j = Some le' ∧
      bc_request (task_done (le_task le')) = ev_request ev ∧
      bc_data (task_done (le_task le')) = ev_data ev.
Proof.
  intros HR Hi Hn. destruct (reachable_ok _ _ _ HR) as [(_ & G2 & G3) HA].
  assert (∀ k, Forall (applicable (g_space g)) (take k (g_log g)) → (k ≤ i)%nat) as Hk.
  { intros k HF. destruct (decide (k ≤ i)%nat) as [|Hgt]; [done|]. exfalso.
    destruct (applicable_doc (g_space g) le) as [d Hd]; [|..|congruence].
    - by eapply (Forall_lookup_1 _ _ _ _ G2).
    - eapply (Forall_lookup_1 _ _ i _ HF). by rewrite lookup_take_lt by lia. }
  split.
  - intros a p Hp. apply Hk. by apply (po_applicable _ _ _ (G3 _ _ Hp)).
  - intros ev Hev Hs. rewrite Forall_forall in HA.
    destruct (HA _ Hev Hs) as (j & le' & Hj & _ & Hreq & Hdata & HF). exists j, le'.
    split_and!; try done. specialize (Hk _ HF). lia.
Qed.

(** In a space with string ids no write is ever acknowledged: if the engine
    refuses a document without fields, as which every document arrives, the
    first committed entry stops all nodes. *)
Theorem string_ids_never_acknowledged `{GammaEngine} `{WireCodecLaws BlockRequest}
    `{WireCodec Document} (lossy : bool) (evs : list Replied) (g : Group) :
  reachable lossy evs g → space_id_type (g_space g) = STRING_SDTYPE →
  (∀ st, (AddOrUpdateDoc Doc_new st).1 ≠ 0) →
  Forall (λ ev, resp_success (ev_response ev) = false) evs ∧
  map_Forall (λ _ p, p_applied p = 0%nat) (g_peers g).
Proof.
  intros HR Hs Hadd. destruct (reachable_ok _ _ _ HR) as [(_ & G2 & G3) HA].
  assert (∀ le, ¬ applicable (g_space g) le) as Hno.
  { intros le (e & st & r & st' & He & E). unfold apply_entry in E.
    destruct (entry_data e) as [data|]; [|done].
    destruct (ParseFromString data) as [d|]; [|done]. rewrite failed_empty in E.
    unfold PbDocToGammaDoc in E. rewrite Hs, !bool_decide_eq_false_2 in E by done.
    simpl in E. specialize (Hadd st). destruct (AddOrUpdateDoc Doc_new st) as [code st1].
    simpl in Hadd. by destruct (Z.eqb_spec code 0). }
  split.
  - apply Forall_forall. intros ev Hev. rewrite Forall_forall in HA.
    destruct (resp_success (ev_response ev)) eqn:E; [|done].
    destruct (HA _ Hev E) as (i & le & Hi & _ & _ & _ & HF). exfalso. apply (Hno le).
    eapply (Forall_lookup_1 _ _ i _ HF). by rewrite lookup_take_lt by lia.
  - intros a p Hp. pose proof (G3 _ _ Hp) as [_ [_ Hle] _ _ _ _ HF _].
    destruct (p_applied p) as [|k]; [done|]. exfalso.
    destruct (g_log g) as [|le log]; simpl in *; [lia|]. apply Forall_cons in HF as [HF _].
    by apply (Hno le).
Qed.

(** ** Runs of a group of two nodes *)

#[local] Instance group_req_codec : WireCodec BlockRequest := count_codec BlockRequest.
#[local] Instance group_doc_codec : WireCodec Document := count_codec Document.
#[local] Instance group_req_laws : WireCodecLaws BlockRequest := count_codec_laws BlockRequest.
#[local] Instance group_doc_laws : WireCodecLaws Document := count_codec_laws Document.
#[local] Instance group_doc : GammaDoc := map_doc.
#[local] Instance group_engine : GammaEngine := map_engine.

Definition started (space : Space) (term : Z) : Block :=
  mkBlock (_node sample_block) term (Some 3) "r" "g" "c" 1 true space.
Definition fresh_peer (space : Space) : Peer := mkPeer (started space (-1)) ∅ 0 false [] 0 0.
Definition two_nodes (space : Space) : Group :=
  mkGroup space ∅ [] [] {["n1" := fresh_peer space; "n2" := fresh_peer space]}.

(** The task of a write at a leader, and the group in which it is committed. *)
Definition one_task (data : bytes) : Task :=
  mkTask (encode_entry (ByteSizeLong sample_req) (bits_of (encode sample_req)) data)
    (mkBlockClosure sample_req empty_response data) (Some 3).
Definition leading (space : Space) : Peer := set_block (started space 3) (fresh_peer space).
Definition one_proposal (space : Space) (data : bytes) : Group :=
  mkGroup space ∅ [mkLogEntry "n1" (one_task data)] []
    (<["n1" := leading space]> (g_peers (two_nodes space))).
Definition one_entry (space : Space) (data : bytes) : Group :=
  mkGroup space ∅ [] [mkLogEntry "n1" (one_task data)]
    (<["n1" := leading space]> (g_peers (two_nodes space))).

Lemma one_entry_reachable lossy space data : reachable lossy [] (one_entry space data).
Proof.
  exists (two_nodes space). split.
  { split_and!; [done..|]. apply map_Forall_insert_2; [done|]. by apply map_Forall_singleton. }
  apply (gr_step lossy _ [] (one_proposal space data) []);
    [|exact (gs_commit lossy (one_proposal space data) [] _ [] eq_refl)].
  apply (gr_step lossy _ [] (set_peer "n1" (leading space) (two_nodes space)) []).
  - apply (gr_step lossy _ [] (two_nodes space) []); [constructor|].
    by apply (gs_leader_start lossy (two_nodes space) "n1" (fresh_peer space) 3).
  - apply (gs_propose lossy (set_peer "n1" (leading space) (two_nodes space)) "n1"
      (leading space) "" sample_req data); [done| |done].
    vm_compute. reflexivity.
Qed.

Lemma sample_storable : storable sample_doc.
Proof.
  exists (-7). split; [vm_compute; reflexivity|]. split; [vm_compute; split; congruence|].
  split; [apply (bool_decide_unpack _); vm_compute; exact I|].
  repeat split; repeat constructor; vm_compute; congruence.
Qed.

(** The leader applies the entry, is restarted without a snapshot and with the
    document in its engine, applies the entry again and leads again. *)
Definition long_space : Space := Dto.sample_space LONG_SDTYPE.
Notation first_apply := (on_apply long_space [leader_entry] ∅) (only parsing).
Definition applied_once : Peer := advance 1 first_apply.2 Finished (leading long_space).
Definition loaded : GammaState := (commit_docs long_space [sample_doc] ∅).2.
Definition restarted (m : nat) (gamma : GammaState) (p : Peer) : Peer :=
  mkPeer (started long_space (-1)) gamma (p_snapshot p) false (take m (p_written p))
    (p_snapshot p) (min m (p_flushed p)).
Notation second_apply := (on_apply long_space [follower_entry] loaded) (only parsing).
Definition applied_twice : Peer := advance 1 second_apply.2 Finished (restarted 1 loaded applied_once).
Definition leading_again (p : Peer) : Peer := set_block (started long_space 4) p.
Definition group_with (p : Peer) : Group := set_peer "n1" p (one_entry long_space doc_bytes).

Definition first_answer : Replied :=
  mkReplied "n1" sample_req doc_bytes (set_success true empty_response).

Lemma group_with_step lossy evs p evs' p' :
  reachable lossy evs (group_with p) →
  (∃ g, group_step lossy (group_with p) evs' g ∧ g = set_peer "n1" p' (group_with p)) →
  reachable lossy (evs' ++ evs) (group_with p').
Proof.
  intros (g0 & Hn & Hr) (g & Hs & ->). exists g0. split; [done|].
  assert (set_peer "n1" p' (group_with p) = group_with p') as <-.
  { unfold group_with, set_peer. simpl. by rewrite insert_insert_eq. }
  by eapply gr_step.
Qed.

Lemma pair_of {A B} (p : A * B) x : p.1 = x → p = (x, p.2).
Proof. by destruct p; intros <-. Qed.

Lemma first_apply_eq :
  first_apply = ([Some (set_success true empty_response)], Finished, first_apply.2).
Proof. apply (pair_of first_apply). vm_compute. reflexivity. Qed.
Lemma loaded_eq : commit_docs long_space [sample_doc] ∅ = (1%nat, loaded).
Proof. apply pair_of. vm_compute. reflexivity. Qed.
Lemma second_apply_eq : second_apply = ([None], Finished, second_apply.2).
Proof. apply (pair_of second_apply). vm_compute. reflexivity. Qed.

Lemma sample_doc_at p : doc_at (g_log (group_with p)) 0 = Some sample_doc.
Proof. apply (parse_serialize sample_doc). reflexivity. Qed.

Lemma apply_step lossy evs p es rs gamma :
  reachable lossy evs (group_with p) → _space (p_block p) = long_space → p_stopped p = false →
  Forall2 (entry_at "n1") (take 1 (drop (p_applied p) (g_log (group_with p)))) es →
  on_apply long_space es (p_gamma p) = (rs, Finished, gamma) →
  reachable lossy (apply_answers "n1" "" (p_block p) es rs Finished ++ evs)
    (group_with (advance (length rs) gamma Finished p)).
Proof.
  intros Hr Hs Hst HF Ha. apply (group_with_step lossy evs p); [done|].
  eexists. split; [|reflexivity]. apply (gs_apply lossy (group_with p) "n1" p "" 1 es);
    [apply lookup_insert_eq|done|done|by rewrite Hs].
Qed.

Lemma applied_once_reachable lossy : reachable lossy [first_answer] (group_with applied_once).
Proof.
  change [first_answer] with (apply_answers "n1" "" (p_block (leading long_space)) [leader_entry]
    [Some (set_success true empty_response)] Finished ++ []).
  unfold applied_once. apply (apply_step lossy [] (leading long_space) [leader_entry]
    [Some (set_success true empty_response)] first_apply.2).
  - unfold group_with, one_entry, set_peer. simpl. rewrite insert_insert_eq.
    apply one_entry_reachable.
  - reflexivity.
  - reflexivity.
  - constructor; [|constructor]. split; [reflexivity|by right].
  - assert (p_gamma (leading long_space) = ∅) as -> by reflexivity.
    exact first_apply_eq.
Qed.

Lemma start_env_block :
  ∃ fs', @Block_start posix_util (Build_StartEnv (λ _, true) (λ _, true) (λ _ _, 0) 0 0)
    "r" "g" "c" "1.1.1.1" 1 long_space Block_new disk0 = (0, started long_space (-1), fs').
Proof. eexists. vm_compute. reflexivity. Qed.

Lemma started_loads : snapshot_loads (started long_space (-1)).
Proof. exists posix_util, "snap", engine0, disk0. do 2 eexists. vm_compute. reflexivity. Qed.

Lemma empty_snapshot_saved :
  ∃ names fs', on_snapshot_save (H := posix_util) "snap" (λ _, 0) engine0 disk0 = (names, true, fs').
Proof. do 2 eexists. vm_compute. reflexivity. Qed.

Lemma restart_step lossy evs p m ds gamma :
  reachable lossy evs (group_with p) → (lossy = true ∨ (p_flushed p ≤ m)%nat) →
  Forall2 (λ i d, doc_at (g_log (group_with p)) i = Some d) (take m (p_written p)) ds →
  commit_docs long_space ds ∅ = (length ds, gamma) →
  reachable lossy evs (group_with (restarted m gamma p)).
Proof.
  intros Hr Hm HF Hc. apply (group_with_step lossy evs p [] _ Hr).
  destruct start_env_block as [fs' E]. eexists. split; [|reflexivity].
  eapply (gs_restart lossy (group_with p) "n1" p m ds gamma);
    [apply lookup_insert_eq|exact Hm|exact HF|exact Hc|exact E|right; apply started_loads].
Qed.

Lemma lead_step lossy evs p :
  reachable lossy evs (group_with p) → p_stopped p = false → p_applied p = 1%nat →
  p_block p = started long_space (-1) → reachable lossy evs (group_with (leading_again p)).
Proof.
  intros Hr Hst Hap Hb. apply (group_with_step lossy evs p [] _ Hr). eexists.
  split; [|reflexivity]. unfold leading_again. assert (started long_space 4 =
    on_leader_start 4 (p_block p)) as -> by (by rewrite Hb).
  by apply (gs_leader_start lossy (group_with p) "n1" p 4); [apply lookup_insert_eq|..].
Qed.

Lemma applied_twice_reachable :
  reachable false [first_answer] (group_with (leading_again applied_twice)).
Proof.
  apply lead_step; [|reflexivity..].
  change [first_answer] with (apply_answers "n1" "" (p_block (restarted 1 loaded applied_once))
    [follower_entry] [None] Finished ++ [first_answer]).
  unfold applied_twice.
  apply (apply_step false [first_answer] (restarted 1 loaded applied_once) [follower_entry]
    [None] second_apply.2).
  - apply (restart_step false [first_answer] applied_once 1 [sample_doc] loaded).
    + apply applied_once_reachable.
    + right. vm_compute. lia.
    + constructor; [apply sample_doc_at|constructor].
    + exact loaded_eq.
  - reflexivity.
  - reflexivity.
  - constructor; [|constructor]. split; [reflexivity|by left].
  - exact second_apply_eq.
Qed.

Lemma group_with_storable p : log_storable (group_with p).
Proof.
  intros [|i] d Hd; [|done]. rewrite sample_doc_at in Hd. injection Hd as <-.
  apply sample_storable.
Qed.

Lemma acknowledged_document_is_read_witness :
  let p := leading_again applied_twice in
  ∃ last d' buf', last_document (group_with p) (p_applied p) (-7) last ∧
    Block_read "" (p_block p) (p_gamma p) sample_req empty_response [] =
      Some (set_success true empty_response, buf') ∧
    ParseFromString buf' = Some d' ∧ read_back (-7) last d'.
Proof.
  destruct (@acknowledged_document_is_read map_doc map_doc_laws map_engine
    decimal_keys map_engine_laws _ _ _ _ [first_answer] (group_with (leading_again applied_twice)) first_answer)
    as (i & d & idv & Hd & _ & Hk & Hread).
  - exact applied_twice_reachable.
  - reflexivity.
  - apply group_with_storable.
  - intros d'. eexists. reflexivity.
  - left.
  - reflexivity.
  - destruct i as [|i]; [|discriminate Hd]. rewrite sample_doc_at in Hd. injection Hd as <-.
    assert (idv = -7) as ->.
    { assert (doc_key sample_doc = Some (-7)) as E by (vm_compute; reflexivity). congruence. }
    apply (Hread "n1" (leading_again applied_twice) "" sample_req empty_response []);
      [apply lookup_insert_eq|reflexivity|reflexivity|exact (le_n 1)|vm_compute; reflexivity].
Defined.

Definition no_doc_bytes : bytes := [byte_of 48].

Lemma unparsable_entry_blocks_group_witness :
  is_Some (g_peers (one_entry long_space no_doc_bytes) !! "n1") ∧
  ∀ a p, g_peers (one_entry long_space no_doc_bytes) !! a = Some p → (p_applied p ≤ 0)%nat.
Proof.
  split; [by eexists|].
  apply (unparsable_entry_blocks_group false [] (one_entry long_space no_doc_bytes) 0
    (mkLogEntry "n1" (one_task no_doc_bytes))).
  - apply one_entry_reachable.
  - reflexivity.
  - vm_compute. reflexivity.
Defined.

Lemma string_ids_never_acknowledged_witness :
  map_Forall (λ _ p, p_applied p = 0%nat)
    (g_peers (one_entry (Dto.sample_space STRING_SDTYPE) doc_bytes)).
Proof.
  apply (string_ids_never_acknowledged true [] (one_entry (Dto.sample_space STRING_SDTYPE) doc_bytes)).
  - apply one_entry_reachable.
  - reflexivity.
  - intros st. vm_compute. congruence.
Defined.

(** The leader after its snapshot. *)
Definition snapped : Peer :=
  mkPeer (started long_space 3) (p_gamma applied_once) 1 false [0%nat] 1 1.

Lemma snapped_reachable lossy : reachable lossy [first_answer] (group_with snapped).
Proof.
  apply (group_with_step lossy [first_answer] applied_once []); [apply applied_once_reachable|].
  destruct empty_snapshot_saved as (names & fs' & E). eexists. split; [|reflexivity].
  by eapply (gs_snapshot lossy (group_with applied_once) "n1" applied_once);
    [apply lookup_insert_eq|..|exact E].
Qed.

Lemma sample_last_document g k :
  g_log g = [mkLogEntry "n1" (one_task doc_bytes)] → (0 < k)%nat →
  last_document g k (-7) sample_doc.
Proof.
  intros E Hk. split; [vm_compute; reflexivity|]. exists 0%nat. rewrite E.
  split_and!; [done|apply (parse_serialize sample_doc); reflexivity|].
  intros [|j] d' Hj Hd; [lia|]. unfold doc_at in Hd.
  by rewrite lookup_ge_None_2 in Hd by (simpl; lia).
Qed.

(** The restart needs an engine that kept its documents: nothing in the snapshot
    of a node makes the engine write them out, and with an engine that has lost
    them a document that was acknowledged is not found on a leader that has
    applied the whole log. *)
Theorem unflushed_restart_loses_document :
  ∃ evs g ev p, reachable true evs g ∧ ev ∈ evs ∧ resp_success (ev_response ev) = true ∧
    g_peers g !! "n1" = Some p ∧ p_stopped p = false ∧ Block_is_leader (p_block p) = true ∧
    p_applied p = length (g_log g) ∧ last_document g (p_applied p) (-7) sample_doc ∧
    Block_read "" (p_block p) (p_gamma p) sample_req empty_response [] =
      Some (set_success false (set_msg (msg_get_failed "-7") empty_response), []).
Proof.
  exists [first_answer], (group_with (leading_again (restarted 0 ∅ snapped))), first_answer,
    (leading_again (restarted 0 ∅ snapped)). split_and!; try done; [|left|].
  - apply lead_step; [|reflexivity..].
    apply (restart_step true [first_answer] snapped 0 [] ∅);
      [apply snapped_reachable|by left|constructor|done].
  - apply sample_last_document; [done|exact (le_n 1)].
Qed.

(** A node that is caught up by the snapshot of another node does not get its
    documents: the files of a snapshot are not those of gamma.  When the node
    leads, it has applied the whole log and does not find a document that was
    acknowledged. *)
Theorem installed_snapshot_loses_document :
  ∃ evs g ev p, reachable true evs g ∧ ev ∈ evs ∧ resp_success (ev_response ev) = true ∧
    g_peers g !! "n2" = Some p ∧ p_stopped p = false ∧ Block_is_leader (p_block p) = true ∧
    p_applied p = length (g_log g) ∧ last_document g (p_applied p) (-7) sample_doc ∧
    Block_read "" (p_block p) (p_gamma p) sample_req empty_response [] =
      Some (set_success false (set_msg (msg_get_failed "-7") empty_response), []).
Proof.
  set (p := mkPeer (started long_space (-1)) ∅ 1 false [] 1 0).
  set (g := set_peer "n2" p (group_with snapped)).
  exists [first_answer], (set_peer "n2" (set_block (on_leader_start 4 (p_block p)) p) g),
    first_answer, (set_block (on_leader_start 4 (p_block p)) p).
  split_and!; try done; [|left|by apply sample_last_document; [|exact (le_n 1)]].
  destruct (snapped_reachable true) as (g0 & Hn & Hr). exists g0. split; [done|].
  apply (gr_step true g0 [first_answer] g []);
    [|by apply (gs_leader_start true g "n2" p 4)].
  apply (gr_step true g0 [first_answer] (group_with snapped) []); [done|].
  apply (gs_install true (group_with snapped) "n2" (fresh_peer long_space) "n1" snapped);
    [done..|exact (le_n 1)|apply started_loads].
Qed.
