(* ===== verification/Config.v ===== *)
(** * Config: src/config/{toml_conf,conf}.{h,cc} and src/utils/net.cc

    The configuration file, the process-wide settings computed from it and from
    the command line, and the choice of the local address.  toml11 is a
    parameter, [Toml]; loading is written in a state and exception monad since
    an exception leaves the settings read before it in place. *)
From Stdlib Require Import Ascii.
From S2P Require Import Prelude Numeric Files.
Local Open Scope Z_scope.

(** ** The settings *)

Record GlobalConfig := mkGlobalConfig {
  gl_name : string; gl_data : list string; gl_level : string;
  gl_signkey : string; gl_skip_auth : bool
}.

Record MasterConfig := mkMasterConfig {
  ms_name : string; ms_address : string; ms_api_port : Z;
  ms_etcd_port : Z; ms_etcd_peer_port : Z; ms_etcd_client_port : Z
}.

Record RouterConfig := mkRouterConfig {
  rt_port : Z; rt_skip_auth : bool; rt_hearbeat_interval_s : Z
}.

Record PsConfig := mkPsConfig {
  ps_rpc_port : Z; ps_raft_election_timeout_ms : Z;
  ps_raft_snap_interval_s : Z; ps_hearbeat_interval_s : Z
}.

Record TomlConfig := mkTomlConfig {
  tc_global : GlobalConfig;
  tc_masters : list MasterConfig;
  tc_router : RouterConfig;
  tc_ps : PsConfig;
  tc_master_urls : list string
}.

Definition set_global (f : GlobalConfig → GlobalConfig) (c : TomlConfig) : TomlConfig :=
  mkTomlConfig (f (tc_global c)) (tc_masters c) (tc_router c) (tc_ps c) (tc_master_urls c).
Definition add_master (m : MasterConfig) (c : TomlConfig) : TomlConfig :=
  mkTomlConfig (tc_global c) (tc_masters c ++ [m]) (tc_router c) (tc_ps c) (tc_master_urls c).
Definition set_router (f : RouterConfig → RouterConfig) (c : TomlConfig) : TomlConfig :=
  mkTomlConfig (tc_global c) (tc_masters c) (f (tc_router c)) (tc_ps c) (tc_master_urls c).
Definition set_ps (f : PsConfig → PsConfig) (c : TomlConfig) : TomlConfig :=
  mkTomlConfig (tc_global c) (tc_masters c) (tc_router c) (f (tc_ps c)) (tc_master_urls c).
Definition set_master_urls (u : list string) (c : TomlConfig) : TomlConfig :=
  mkTomlConfig (tc_global c) (tc_masters c) (tc_router c) (tc_ps c) u.

(** ** toml11 *)

(** The exceptions the code tells apart. *)
Inductive toml_exn := TypeError | OtherToml.
Inductive toml_parse_exn := SyntaxError | RuntimeError.

Class Toml := {
  toml_value : Type;
  toml_parse : string → toml_parse_exn + toml_value;
  find_value : toml_value → string → toml_exn + toml_value;
  find_values : toml_value → string → toml_exn + list toml_value;
  find_string : toml_value → string → toml_exn + string;
  find_strings : toml_value → string → toml_exn + list string;
  find_int : toml_value → string → toml_exn + Z;
  find_bool : toml_value → string → toml_exn + bool
}.

(** ** Loading *)

(** A computation that may throw, on the settings under construction. *)
Definition load (A : Type) : Type := TomlConfig → (toml_exn + A) * TomlConfig.
Definition load_ret {A} (x : A) : load A := λ c, (inr x, c).
Definition load_bind {A B} (m : load A) (f : A → load B) : load B :=
  λ c, match m c with
       | (inl e, c') => (inl e, c')
       | (inr x, c') => f x c'
       end.
Definition found {A} (r : toml_exn + A) : load A := λ c, (r, c).
Definition assign (f : TomlConfig → TomlConfig) : load () := λ c, (inr (), f c).

Notation "'let!' x := m 'in' k" := (load_bind m (λ x, k))
  (at level 200, x pattern, m at level 100, k at level 200) : simsearch_scope.

(** [std::to_string] is [to_string]; a [bool] prints as a number. *)
Definition bool_text (b : bool) : string := if b then "1" else "0".

Definition GlobalConfig_to_string (g : GlobalConfig) : string :=
  "GlobalConfig=[name:" +:+ gl_name g +:+ ", skip_auth:" +:+ bool_text (gl_skip_auth g) +:+
  ", data:" +:+ fold_left (λ acc d, acc +:+ d +:+ ", ") (gl_data g) "" +:+
  "skip_auth:" +:+ bool_text (gl_skip_auth g) +:+ "] ".

Definition MasterConfig_to_string (m : MasterConfig) : string :=
  "MasterConfig=[name:" +:+ ms_name m +:+ ", address:" +:+ ms_address m +:+
  ", api_port:" +:+ to_string (ms_api_port m) +:+ ", etcd_port:" +:+
  to_string (ms_etcd_port m) +:+ ", etcd_peer_port:" +:+ to_string (ms_etcd_peer_port m) +:+
  ", etcd_client_port" +:+ to_string (ms_etcd_client_port m) +:+ "]".

Definition RouterConfig_to_string (r : RouterConfig) : string :=
  "RouterConfig=[port:" +:+ to_string (rt_port r) +:+ ", skip_auth:" +:+
  bool_text (rt_skip_auth r) +:+ ", hearbeat_interval_s:" +:+
  to_string (rt_hearbeat_interval_s r) +:+ "] ".

Definition PsConfig_to_string (p : PsConfig) : string :=
  "PsConfig=[rpc_port:" +:+ to_string (ps_rpc_port p) +:+ ", raft_election_timeout_ms:" +:+
  to_string (ps_raft_election_timeout_ms p) +:+ ", raft_snap_interval_s:" +:+
  to_string (ps_raft_snap_interval_s p) +:+ ", hearbeat_interval_s:" +:+
  to_string (ps_hearbeat_interval_s p) +:+ "] ".

Definition TomlConfig_to_string (c : TomlConfig) : string :=
  fold_left (λ msg m, msg +:+ MasterConfig_to_string m) (tc_masters c)
    (GlobalConfig_to_string (tc_global c) +:+ RouterConfig_to_string (tc_router c) +:+
     PsConfig_to_string (tc_ps c)).

Section load.
Context `{Toml}.
Local Open Scope simsearch_scope.

Definition load_global (toml_data : toml_value) : load () :=
  let! g := found (find_value toml_data "global") in
  let! name := found (find_string g "name") in
  let! _ := assign (set_global (λ g, mkGlobalConfig name (gl_data g) (gl_level g)
    (gl_signkey g) (gl_skip_auth g))) in
  let! data := found (find_strings g "data") in
  let! _ := assign (set_global (λ g, mkGlobalConfig (gl_name g) data (gl_level g)
    (gl_signkey g) (gl_skip_auth g))) in
  let! level := found (find_string g "level") in
  let! _ := assign (set_global (λ g, mkGlobalConfig (gl_name g) (gl_data g) level
    (gl_signkey g) (gl_skip_auth g))) in
  let! signkey := found (find_string g "signkey") in
  let! _ := assign (set_global (λ g, mkGlobalConfig (gl_name g) (gl_data g) (gl_level g)
    signkey (gl_skip_auth g))) in
  let! skip_auth := found (find_bool g "skip_auth") in
  assign (set_global (λ g, mkGlobalConfig (gl_name g) (gl_data g) (gl_level g)
    (gl_signkey g) skip_auth)).

Definition load_master (m : toml_value) : load () :=
  let! name := found (find_string m "name") in
  let! address := found (find_string m "address") in
  let! api_port := found (find_int m "api_port") in
  let! etcd_port := found (find_int m "etcd_port") in
  let! etcd_peer_port := found (find_int m "etcd_peer_port") in
  let! etcd_client_port := found (find_int m "etcd_client_port") in
  assign (add_master
    (mkMasterConfig name address api_port etcd_port etcd_peer_port etcd_client_port)).

Fixpoint load_masters (ms : list toml_value) : load () :=
  match ms with
  | [] => load_ret ()
  | m :: ms' => let! _ := load_master m in load_masters ms'
  end.

Definition load_router (toml_data : toml_value) : load () :=
  let! r := found (find_value toml_data "router") in
  let! port := found (find_int r "port") in
  let! _ := assign (set_router (λ c, mkRouterConfig port (rt_skip_auth c)
    (rt_hearbeat_interval_s c))) in
  let! skip_auth := found (find_bool r "skip_auth") in
  let! _ := assign (set_router (λ c, mkRouterConfig (rt_port c) skip_auth
    (rt_hearbeat_interval_s c))) in
  let! hb := found (find_int r "hearbeat_interval_s") in
  assign (set_router (λ c, mkRouterConfig (rt_port c) (rt_skip_auth c) hb)).

Definition load_ps (toml_data : toml_value) : load () :=
  let! p := found (find_value toml_data "ps") in
  let! port := found (find_int p "rpc_port") in
  let! _ := assign (set_ps (λ c, mkPsConfig port (ps_raft_election_timeout_ms c)
    (ps_raft_snap_interval_s c) (ps_hearbeat_interval_s c))) in
  let! el := found (find_int p "raft_election_timeout_ms") in
  let! _ := assign (set_ps (λ c, mkPsConfig (ps_rpc_port c) el
    (ps_raft_snap_interval_s c) (ps_hearbeat_interval_s c))) in
  let! sn := found (find_int p "raft_snap_interval_s") in
  let! _ := assign (set_ps (λ c, mkPsConfig (ps_rpc_port c) (ps_raft_election_timeout_ms c)
    sn (ps_hearbeat_interval_s c))) in
  let! hb := found (find_int p "hearbeat_interval_s") in
  assign (set_ps (λ c, mkPsConfig (ps_rpc_port c) (ps_raft_election_timeout_ms c)
    (ps_raft_snap_interval_s c) hb)).

Definition load_sections (toml_data : toml_value) : load () :=
  let! _ := load_global toml_data in
  let! ms := found (find_values toml_data "masters") in
  let! _ := load_masters ms in
  let! _ := load_router toml_data in
  load_ps toml_data.

Definition master_url (m : MasterConfig) : string :=
  ms_address m +:+ ":" +:+ to_string (ms_api_port m).

Definition Load (filepath : string) (c : TomlConfig) : string * TomlConfig :=
  match toml_parse filepath with
  | inl SyntaxError => ("syntax_error", c)
  | inl RuntimeError => ("runtime_error", c)
  | inr toml_data =>
      match load_sections toml_data c with
      | (inl TypeError, c) => ("type_error", c)
      | (inl OtherToml, c) => ("missing_key", c)
      | (inr _, c) =>
          ("", set_master_urls (tc_master_urls c ++ (master_url <$> tc_masters c)) c)
      end
  end.

End load.

Definition GetMasterIpPorts (c : TomlConfig) : list (string * Z) :=
  (λ m, (ms_address m, ms_etcd_client_port m)) <$> tc_masters c.

(** ** The local address: src/utils/net.cc *)

(** [struct ifaddrs]: a name and, if there is one, the address: an IPv4 address
    in its text form or one of another family. *)
Inductive if_addr := NoAddr | Inet (text : string) | OtherFamily.
Record IfAddrs := mkIfAddrs { ifa_name : string; ifa_addr : if_addr }.

Fixpoint first_inet (l : list IfAddrs) (ip_addr : string) : string :=
  match l with
  | [] => ip_addr
  | ifa :: rest =>
      match ifa_addr ifa with
      | NoAddr => first_inet rest ip_addr
      | Inet addressBuffer =>
          if bool_decide (ifa_name ifa = "lo") then first_inet rest ip_addr else addressBuffer
      | OtherFamily => first_inet rest ip_addr
      end
  end.

(** [getifaddrs] gives the list or fails. *)
Definition GetLocalIPAddress (getifaddrs : option (list IfAddrs)) (ip_addr : string) :
    bool * string :=
  match getifaddrs with
  | None => (false, ip_addr)
  | Some l =>
      let ip_addr := first_inet l ip_addr in
      (if bool_decide (ip_addr = "") then false else true, ip_addr)
  end.

(** ** The process-wide settings: src/config/conf.cc *)

(** [atoi]: [strtol] in base 10, converted to [int]. *)
Definition strtol (s : string) : Z :=
  let '(_, s1) := skip_spaces s in
  let '(neg, _, s2) := scan_sign s1 in
  let '(v, _) := scan_digits s2 0 in
  let v := if neg : bool then - v else v in
  Z.max (- 2 ^ 63) (Z.min (2 ^ 63 - 1) v).
Definition atoi (s : string) : Z := int32 (strtol s).

Record Conf := mkConf {
  _cur_IP : string;
  _data_dir : string;
  _router_store_dir : string;
  _ps_storage_dir : string;
  _raft_root_dir : string;
  _engine_data_dir : string;
  _log_dir : string;
  toml_conf_ : TomlConfig
}.

Definition empty_toml : TomlConfig :=
  mkTomlConfig (mkGlobalConfig "" [] "" "" false) [] (mkRouterConfig 0 false 0)
    (mkPsConfig 0 0 0 0) [].
Definition Conf_new : Conf := mkConf "" "" "" "" "" "" "" empty_toml.

Definition set_ps_port (p : Z) (c : TomlConfig) : TomlConfig :=
  set_ps (λ c, mkPsConfig p (ps_raft_election_timeout_ms c) (ps_raft_snap_interval_s c)
    (ps_hearbeat_interval_s c)) c.
Definition set_router_port (p : Z) (c : TomlConfig) : TomlConfig :=
  set_router (λ c, mkRouterConfig p (rt_skip_auth c) (rt_hearbeat_interval_s c)) c.

Section init.
Context `{Toml} `{FileUtil}.

(** [None] is the access to [data[0]] of an empty list. *)
Definition InitConfig (getifaddrs : option (list IfAddrs))
    (ip ps_port router_port toml_file log_dir : string) (g : Conf) (fs : Fs) :
    option (Z * Conf * Fs) :=
  let '(msg, t) := Load toml_file (toml_conf_ g) in
  let with_ip ip t :=
    mkConf ip (_data_dir g) (_router_store_dir g) (_ps_storage_dir g) (_raft_root_dir g)
      (_engine_data_dir g) log_dir t in
  if! msg then Some (-1, with_ip (_cur_IP g) t, fs)
  else
    let '(ok, cur_ip) :=
      if failed ip then (true, ip) else GetLocalIPAddress getifaddrs (_cur_IP g) in
    if negb ok then Some (-1, with_ip cur_ip t, fs)
    else
      let t := if failed ps_port then set_ps_port (atoi ps_port) t else t in
      let t := if failed router_port then set_router_port (atoi router_port) t else t in
      match gl_data (tc_global t) with
      | [] => None
      | d :: _ =>
          let '(_, fs) := CreateDirectory d fs in
          Some (0, mkConf cur_ip d (d +:+ "router_storage") (d +:+ "ps_storage")
            (d +:+ "raft_data") (d +:+ "engine_data") log_dir t, fs)
      end.

End init.
