(* ===== verification/Http.v ===== *)
(** * Http: src/utils/brpc_http.h

    [HttpPost]: a JSON request to one of several servers, tried in turn from a
    random one.  The network is a parameter that may answer each attempt
    differently. *)
From S2P Require Import Prelude Numeric Wire.
Local Open Scope Z_scope.

(** [channel_init] and [http_call] get the number of the attempt; a call either
    fails or returns the body of the response. *)
Class HttpNet := {
  channel_init : nat → string → bool;
  http_call : nat → string → string → string → option string
}.

Section http.
Context `{HttpNet} {REQ RESP : Type} `{JsonCodec REQ} `{JsonCodec RESP}.

(** The attempts from number [i], [n] of them to go.  The body of a request
    that does not convert to JSON is empty.  [None] is the access outside of
    the list. *)
Fixpoint post_loop (n i : nat) (ip_port_list : list string) (addr_idx : nat) (path : string)
    (req : REQ) : option (option RESP) :=
  match n with
  | O => Some None
  | S n' =>
      ip_port ← ip_port_list !! addr_idx;
      let next := ((addr_idx + 1) mod length ip_port_list)%nat in
      if negb (channel_init i ip_port) then post_loop n' (S i) ip_port_list next path req
      else
        let json_body := default "" (ProtoMessageToJson req) in
        match http_call i ip_port path json_body with
        | None => post_loop n' (S i) ip_port_list next path req
        | Some resp_str =>
            match JsonToProtoMessage resp_str with
            | Some resp => Some (Some resp)
            | None => post_loop n' (S i) ip_port_list next path req
            end
        end
  end.

(** [Some (Some resp)] is the return value 0 with [resp], [Some None] is -1;
    [raw] is the random draw. *)
Definition HttpPost (raw : Z) (ip_port_list : list string) (path : string) (req : REQ)
    (max_retry : nat) : option (option RESP) :=
  let addr_idx := GenRandomInt raw 0 (Z.of_nat (length ip_port_list) - 1) in
  post_loop max_retry 0 ip_port_list (Z.to_nat addr_idx) path req.

(** ** Lemmas *)

(** A server that answers every attempt with a response in JSON. *)
Definition live (ip path : string) (req : REQ) : Prop :=
  ∀ i, channel_init i ip = true ∧
    ∃ s resp, http_call i ip path (default "" (ProtoMessageToJson req)) = Some s ∧
      JsonToProtoMessage s = Some (resp : RESP).

Lemma post_loop_defined n i l a path req :
  (a < length l)%nat → is_Some (post_loop n i l a path req).
Proof.
  revert i a. induction n as [|n IH]; intros i a Ha; [by eexists|]. simpl.
  destruct (lookup_lt_is_Some_2 l a Ha) as [ip ->]. simpl.
  assert ((a + 1) mod length l < length l)%nat by (apply Nat.mod_upper_bound; lia).
  repeat case_match; try apply IH; try done; by eexists.
Qed.

(** Attempt [k] from index [a] goes to the server at [(a + k) mod length]. *)
Lemma post_loop_reaches n i l a k path req ip :
  (a < length l)%nat → (k < n)%nat → l !! ((a + k) mod length l)%nat = Some ip →
  live ip path req → ∃ resp, post_loop n i l a path req = Some (Some resp).
Proof.
  revert i a k. induction n as [|n IH]; intros i a k Ha Hk Hl Hlive; [lia|]. simpl.
  destruct (lookup_lt_is_Some_2 l a Ha) as [ip0 Hip0]. rewrite Hip0. simpl.
  assert ((a + 1) mod length l < length l)%nat by (apply Nat.mod_upper_bound; lia).
  destruct k as [|k].
  - rewrite Nat.add_0_r, Nat.mod_small, Hip0 in Hl by done. injection Hl as <-.
    destruct (Hlive i) as (-> & s & resp & -> & ->). simpl. by eexists.
  - assert (l !! (((a + 1) mod length l + k) mod length l)%nat = Some ip) as Hl'.
    { rewrite Nat.Div0.add_mod_idemp_l. by replace (a + 1 + k)%nat with (a + S k)%nat by lia. }
    repeat case_match; try (eapply IH; [done| |exact Hl'|done]; lia); by eexists.
Qed.

End http.

(** ** Properties *)

(** One live server is enough: with at least as many attempts as servers,
    a post reaches every server, whatever the random start, so that it succeeds
    when any one of them answers, and it never reads outside of the list. *)
Theorem HttpPost_one_live_server `{HttpNet} {REQ RESP : Type} `{JsonCodec REQ}
    `{JsonCodec RESP} (raw : Z) (l : list string) (path : string) (req : REQ) (n : nat) :
  l ≠ [] →
  is_Some (HttpPost (RESP := RESP) raw l path req n) ∧
  (∀ ip, (length l ≤ n)%nat → ip ∈ l → live (RESP := RESP) ip path req →
    ∃ resp, HttpPost (RESP := RESP) raw l path req n = Some (Some resp)).
Proof.
  intros Hne. assert (0 < length l)%nat as Hlen by (destruct l; simpl; [done|lia]).
  unfold HttpPost. pose proof (GenRandomInt_range raw 0 (Z.of_nat (length l) - 1) ltac:(lia)).
  set (a := GenRandomInt _ _ _) in *. split; [apply post_loop_defined; lia|].
  intros ip Hn (j & Hj)%list_elem_of_lookup Hlive. pose proof (lookup_lt_Some _ _ _ Hj).
  eapply (post_loop_reaches _ _ _ _ ((j + (length l - Z.to_nat a)) mod length l)); [lia| | |done].
  - eapply Nat.lt_le_trans; [apply Nat.mod_upper_bound; lia|done].
  - rewrite Nat.Div0.add_mod_idemp_r.
    replace (Z.to_nat a + (j + (length l - Z.to_nat a)))%nat with (j + 1 * length l)%nat by lia.
    rewrite Nat.Div0.mod_add, Nat.mod_small by lia. done.
Qed.

Lemma HttpPost_one_live_server_witness :
  ∃ resp, @HttpPost (Build_HttpNet (λ _ _, true) (λ _ ip _ b, if bool_decide (ip = "b")
      then Some b else None)) Z Z (count_json Z) (count_json Z) 5 ["a"; "b"; "c"] "/p" 7 3 =
    Some (Some resp).
Proof.
  eapply (@HttpPost_one_live_server (Build_HttpNet (λ _ _, true)
    (λ _ ip _ b, if bool_decide (ip = "b") then Some b else None)) Z Z (count_json Z)
    (count_json Z) 5 ["a"; "b"; "c"] "/p" 7 3) with (ip := "b").
  - discriminate.
  - simpl. lia.
  - right. left.
  - intros i. split; [reflexivity|]. eexists. exists 7. split; [reflexivity|].
    vm_compute. reflexivity.
Defined.
