(* ===== verification/PsMeta.v ===== *)
(** * PsMeta: src/service/ps/{local_mata,local_storager}.{h,cc}

    What a partition server knows of itself: its identity and its one space,
    each kept in a JSON file of the storage directory. *)
From S2P Require Import Prelude Numeric Bytes Common Files Wire Config Http.
Local Open Scope Z_scope.

Record PsLocalNodeMata := mkMata {
  _dir_path : string;
  _node_info_file : string;
  _space_schema_file : string;
  _ps_node_info : PsNodeInfo;
  _space_req : CreateSpaceRequest;
  _has_space : bool
}.

Definition Mata_new : PsLocalNodeMata :=
  mkMata "" "" "" empty_node_info empty_create_req false.

Definition set_node_info (i : PsNodeInfo) (m : PsLocalNodeMata) : PsLocalNodeMata :=
  mkMata (_dir_path m) (_node_info_file m) (_space_schema_file m) i (_space_req m) (_has_space m).
Definition set_space_req (r : CreateSpaceRequest) (b : bool) (m : PsLocalNodeMata) :
    PsLocalNodeMata :=
  mkMata (_dir_path m) (_node_info_file m) (_space_schema_file m) (_ps_node_info m) r b.

(** ** Accessors *)

Definition IsLoadFromFile (m : PsLocalNodeMata) : bool :=
  (0 <? ni_ps_id (_ps_node_info m)) && negb (bool_decide (ni_ps_ip (_ps_node_info m) = "")).

Definition SetCreateSapceReq (space_req : CreateSpaceRequest) (m : PsLocalNodeMata) :
    PsLocalNodeMata :=
  set_space_req space_req
    (if bool_decide (db_name (cs_space space_req) = "") then _has_space m else true) m.

Definition SpaceKey (m : PsLocalNodeMata) : string :=
  GenSpaceKey (db_name (cs_space (_space_req m))) (space_name (cs_space (_space_req m))).

Definition SetPsId (id : Z) (m : PsLocalNodeMata) : PsLocalNodeMata :=
  let i := _ps_node_info m in
  set_node_info (mkPsNodeInfo id (ni_ps_ip i) (ni_ps_port i) (ni_msg i)) m.
Definition SetPsPort (port : Z) (m : PsLocalNodeMata) : PsLocalNodeMata :=
  let i := _ps_node_info m in
  set_node_info (mkPsNodeInfo (ni_ps_id i) (ni_ps_ip i) port (ni_msg i)) m.
Definition SetPsIP (ip : string) (m : PsLocalNodeMata) : PsLocalNodeMata :=
  let i := _ps_node_info m in
  set_node_info (mkPsNodeInfo (ni_ps_id i) ip (ni_ps_port i) (ni_msg i)) m.

Definition Mata_Id (m : PsLocalNodeMata) : Z := ni_ps_id (_ps_node_info m).
Definition Mata_IP (m : PsLocalNodeMata) : string := ni_ps_ip (_ps_node_info m).
Definition Mata_Port (m : PsLocalNodeMata) : Z := ni_ps_port (_ps_node_info m).
Definition HasSpace (m : PsLocalNodeMata) : bool := _has_space m.
Definition DbName (m : PsLocalNodeMata) : string := db_name (cs_space (_space_req m)).
Definition SpaceName (m : PsLocalNodeMata) : string := space_name (cs_space (_space_req m)).

Section mata.
Context `{FileUtil} `{JsonCodec PsNodeInfo} `{JsonCodec CreateSpaceRequest}.

(** ** Loading *)

Definition Mata_Init (dir_path : string) (m : PsLocalNodeMata) (fs : Fs) :
    bool * PsLocalNodeMata * Fs :=
  let m := mkMata dir_path (dir_path +:+ "/node_info.json")
    (dir_path +:+ "/create_space_req.json") (_ps_node_info m) (_space_req m) (_has_space m) in
  if negb (PathExists dir_path fs) then
    let '(ok, fs) := CreateDirectory dir_path fs in
    if negb ok then (true, m, fs) else (true, m, fs)
  else
    let '(json_content, fs) := ifstream_read (_node_info_file m) fs in
    match json_content with
    | None => (true, m, fs)
    | Some json_content =>
        match JsonToProtoMessage (str_of json_content) with
        | None => (false, m, fs)
        | Some info =>
            let m := set_node_info info m in
            let '(space_json, fs) := ifstream_read (_space_schema_file m) fs in
            match space_json with
            | None => (true, m, fs)
            | Some space_json =>
                match JsonToProtoMessage (str_of space_json) with
                | None => (false, m, fs)
                | Some req => (true, set_space_req req true m, fs)
                end
            end
        end
    end.

(** ** Saving *)

Definition msg_to_json : string := "Failed to convert protobuf to JSON. json_str:".
Definition msg_space_unset : string := "space is not set. not dump CreateSpaceReq".
Definition msg_node_unset : string := "_ps_node_info is not null or id is not set. skip".

Definition DumpCreateSpaceReq (m : PsLocalNodeMata) (fs : Fs) : string * Fs :=
  if bool_decide (DbName m = "") then (msg_space_unset, fs)
  else
    match ProtoMessageToJson (_space_req m) with
    | None => (msg_to_json, fs)
    | Some json_str =>
        let '(ok, fs) := ofstream_write (_space_schema_file m) (bytes_of json_str) fs in
        if negb ok then
          ("Failed to open create_space_req: " +:+ _space_schema_file m +:+ " json_str:" +:+
             json_str, fs)
        else ("", fs)
    end.

Definition DumpNodeInfo (m : PsLocalNodeMata) (fs : Fs) : string * Fs :=
  if Mata_Id m <=? 0 then (msg_node_unset, fs)
  else
    match ProtoMessageToJson (_ps_node_info m) with
    | None => (msg_to_json, fs)
    | Some json_str =>
        let '(ok, fs) := ofstream_write (_node_info_file m) (bytes_of json_str) fs in
        if negb ok then
          ("Failed to open file, node_info_file: " +:+ _node_info_file m +:+ " json_str:" +:+
             json_str, fs)
        else ("", fs)
    end.

(** ** Deleting *)

Definition Mata_DeleteSpace (m : PsLocalNodeMata) (fs : Fs) : string * PsLocalNodeMata * Fs :=
  let '(_, fs) := DeleteFile (_space_schema_file m) false fs in
  ("", set_space_req empty_create_req false m, fs).

Definition DeleteNodeInfo (m : PsLocalNodeMata) (fs : Fs) : string * PsLocalNodeMata * Fs :=
  let '(_, fs) := DeleteFile (_node_info_file m) false fs in
  ("", set_node_info empty_node_info m, fs).

(** ** [LocalStorager] *)

Definition LocalStorager_DeleteSpace (db space : string) (m : PsLocalNodeMata) (fs : Fs) :
    string * PsLocalNodeMata * Fs :=
  if bool_decide (db = DbName m) && bool_decide (space = SpaceName m) then
    let '(_, m, fs) := Mata_DeleteSpace m fs in ("", m, fs)
  else ("Incorrect db_name or space_name", m, fs).

Definition GetRaftRoot (g : Conf) (m : PsLocalNodeMata) : string :=
  if negb (HasSpace m) then ""
  else _raft_root_dir g +:+ "/" +:+ group_name (cs_cur_partition (_space_req m)).

(** The output arguments [root_path], [group], [conf] and [port]; [None] is the
    result [false], which leaves them untouched. *)
Definition GetRaftParams (g : Conf) (m : PsLocalNodeMata) :
    option (string * string * string * Z) :=
  if negb (HasSpace m) then None
  else
    let cur_partition := cs_cur_partition (_space_req m) in
    Some (GetRaftRoot g m, group_name cur_partition, GetRaftConf cur_partition,
          ps_rpc_port (tc_ps (toml_conf_ g))).

(** The messages of the master's id generator. *)
Record MasterGenIdRequest := mkGenIdRequest { gi_id : option Z }.
Record MasterGenIdResponse := mkGenIdResponse {
  gr_code : option Z; gr_msg : option string; gr_id : option Z
}.

Context `{HttpNet} `{JsonCodec MasterGenIdRequest} `{JsonCodec MasterGenIdResponse}.

Definition GetNodeIdByQueryApi (raw : Z) (g : Conf) (max_retry : nat) : option Z :=
  r ← HttpPost (RESP := MasterGenIdResponse) raw (tc_master_urls (toml_conf_ g)) "/api/gen_id"
        (mkGenIdRequest (Some (-1))) max_retry;
  Some (match r with
        | Some resp =>
            if (0 <=? default 0 (gr_id resp)) && (default 0 (gr_code resp) =? 0)
            then default 0 (gr_id resp) else -1
        | None => -1
        end).

Definition CreateOrLoadNodeMata (raw : Z) (g : Conf) (dir_path : string) (m : PsLocalNodeMata)
    (fs : Fs) : option (Z * PsLocalNodeMata * Fs) :=
  let '(ok, m, fs) := Mata_Init dir_path m fs in
  if negb ok then Some (-1, m, fs)
  else if negb (IsLoadFromFile m) then
    let m := SetPsIP (_cur_IP g) m in
    let m := SetPsPort (ps_rpc_port (tc_ps (toml_conf_ g))) m in
    node_id ← GetNodeIdByQueryApi raw g 4;
    if 0 <=? node_id then
      let m := SetPsId node_id m in
      let '(msg, fs) := DumpNodeInfo m fs in
      if failed msg then Some (-1, m, fs) else Some (node_id, m, fs)
    else Some (-1, m, fs)
  else Some (Mata_Id m, m, fs).

End mata.

(** ** Lemmas *)

(** The node's files are those [Init] gives it, its storage directory is there
    and its identity is saved. *)
Definition mata_saved `{JsonCodec PsNodeInfo} (m : PsLocalNodeMata) (fs : Fs) : Prop :=
  _node_info_file m = _dir_path m +:+ "/node_info.json" ∧
  _space_schema_file m = _dir_path m +:+ "/create_space_req.json" ∧
  _dir_path m ∈ fs_dirs fs ∧
  ∃ s, content fs (_node_info_file m) = Some (bytes_of s) ∧
    JsonToProtoMessage s = Some (_ps_node_info m).

Section recover.
Context `{FileUtilLaws} `{JsonCodec PsNodeInfo} `{JsonCodecLaws CreateSpaceRequest}.

(** A new process reads a saved identity and a saved space. *)
Lemma Mata_Init_saved m fs s :
  mata_saved m fs → no_fail fs → _has_space m = true →
  content fs (_space_schema_file m) = Some (bytes_of s) →
  JsonToProtoMessage s = Some (_space_req m) →
  ∃ fs', Mata_Init (_dir_path m) Mata_new fs = (true, m, fs').
Proof.
  intros (Hf1 & Hf2 & Hd & i & Hi & Hj) Hn Hs Hc Hr. unfold Mata_Init. simpl.
  rewrite (proj2 (PathExists_spec _ _)) by by right. simpl. rewrite <-Hf1, <-Hf2.
  destruct (ifstream_read_ok (_node_info_file m) fs Hn) as (fs1 & -> & Hn1 & Hc1).
  rewrite Hi, str_of_bytes_of, Hj. simpl.
  destruct (ifstream_read_ok (_space_schema_file m) fs1 Hn1) as (fs2 & -> & _ & _).
  rewrite Hc1, Hc, str_of_bytes_of, Hr. destruct m. simpl in *. subst. by eexists.
Qed.

Lemma Mata_Init_frame dir m fs :
  let fs' := (Mata_Init dir m fs).2 in
  fs_dirs fs ⊆ fs_dirs fs' ∧ (no_fail fs → no_fail fs').
Proof.
  unfold Mata_Init. destruct (PathExists dir fs); cbn [negb].
  - match goal with |- context [ifstream_read ?p fs] =>
      pose proof (ifstream_read_frame p fs) as [Hd Hn]; destruct (ifstream_read p fs) as [c fs1] end.
    destruct c as [c|]; [|simpl in *; by rewrite Hd].
    destruct (JsonToProtoMessage _); [|simpl in *; by rewrite Hd].
    match goal with |- context [ifstream_read ?p fs1] =>
      pose proof (ifstream_read_frame p fs1) as [Hd1 Hn1];
      destruct (ifstream_read p fs1) as [c1 fs2] end.
    simpl in *. repeat case_match; simpl; rewrite Hd1, Hd; auto.
  - destruct (CreateDirectory dir fs) as [ok fs1] eqn:E.
    destruct (CreateDirectory_files _ _ _ _ E) as (_ & _ & _ & Es & Hd & _).
    destruct ok; simpl; (split; [done|]); unfold no_fail; by rewrite Es.
Qed.

(** A saved request can be read. *)
Lemma DumpCreateSpaceReq_saved m fs fs' :
  DumpCreateSpaceReq m fs = ("", fs') → no_fail fs → names_inj fs →
  no_fail fs' ∧ fs_dirs fs' = fs_dirs fs ∧
  (∀ q, q ≠ _space_schema_file m → content fs' q = content fs q) ∧
  ∃ s, content fs' (_space_schema_file m) = Some (bytes_of s) ∧
    JsonToProtoMessage s = Some (_space_req m).
Proof.
  unfold DumpCreateSpaceReq. intros E Hn Hi. case_bool_decide; [done|].
  destruct (ProtoMessageToJson (_space_req m)) as [s|] eqn:Es; [|done].
  destruct (ofstream_write _ _ fs) as [ok fs1] eqn:Ew. destruct ok; simpl in E.
  - injection E as <-. destruct (ofstream_write_ok _ _ _ _ Ew Hn Hi) as (Hc & _ & Hn1 & Hd & Hq).
    split_and!; try done. exists s. split; [done|]. by apply json_roundtrip.
  - by apply (f_equal fst) in E; apply append_eq_nil in E as [? _].
Qed.

End recover.
