(* ===== verification/PsRpc.v ===== *)
(** * PsRpc: src/service/ps/ps_rpc.cc

    The administrative RPCs of a partition server.  Each handler runs under the
    lock of the [RaftManager] and answers its RPC exactly once, so a handler is
    a function from the request and the server's state to the answer and the
    new state. *)
From S2P Require Import Prelude Numeric Bytes Common Dto Files Engine Wire RaftStore Config Http PsMeta.
Local Open Scope Z_scope.

Section ps.
Context `{FileUtil} `{StartEnv} `{GammaAdmin} `{JsonCodec PsNodeInfo}
  `{JsonCodec CreateSpaceRequest}.

(** The singletons of the process: [LocalStorager], [RaftManager], the gamma
    engine, and the files. *)
Record PsNode := mkPsNode {
  n_mata : PsLocalNodeMata;
  n_mgr : option Block;
  n_gamma : GammaState;
  n_fs : Fs
}.

Definition set_mata (m : PsLocalNodeMata) (n : PsNode) : PsNode :=
  mkPsNode m (n_mgr n) (n_gamma n) (n_fs n).

Definition status_of (code : Z) (msg : string) : RespStatus := mkRespStatus (Some code) (Some msg).

(** [status->set_code] and [set_msg] of [vearch::Status]: its code and text. *)
Definition msg_create_table (text : string) : string :=
  "Engine create table failed, msg:" +:+ text.

Definition CreateSpace (g : Conf) (req : CreateSpaceRequest) (n : PsNode) : RespStatus * PsNode :=
  if HasSpace (n_mata n) then
    (status_of 201 ("Space has exist, space_name:" +:+ SpaceName (n_mata n)), n)
  else
    let mata := SetCreateSapceReq req (n_mata n) in
    let '(root_path, group, conf, port) := default ("", "", "", 0) (GetRaftParams g mata) in
    let gamma := InitEngine (_engine_data_dir g) (SpaceName mata) (n_gamma n) in
    let '((code, text), gamma) := CreateTable (GetGammaTable (cs_space (_space_req mata))) gamma in
    if negb (code =? 0) then
      (status_of code (msg_create_table text),
       mkPsNode (SetCreateSapceReq empty_create_req mata) (n_mgr n) gamma (n_fs n))
    else
      let '(_, mgr, fs) := CreateBlock (n_mgr n) (n_fs n) in
      let '(msg, mgr, fs) :=
        StartRaftServer root_path group conf (Mata_IP mata) port (cs_space req) mgr fs in
      if! msg then
        (status_of 202 msg, mkPsNode (SetCreateSapceReq empty_create_req mata) mgr gamma fs)
      else
        let '(msg, fs) := DumpCreateSpaceReq mata fs in
        if! msg then
          (status_of 203 msg, mkPsNode (SetCreateSapceReq empty_create_req mata) mgr gamma fs)
        else (status_of 0 "", mkPsNode mata mgr gamma fs).

Definition msg_not_exist : string := "db_name and space_name is not exist.".

Definition DeleteSpace (g : Conf) (db space : string) (n : PsNode) : RespStatus * PsNode :=
  let mata := n_mata n in
  if negb (bool_decide (DbName mata = db)) || negb (bool_decide (SpaceName mata = space)) then
    (status_of 201 msg_not_exist, n)
  else
    let '(_, mgr, fs) := DeleteBlock (n_mgr n) (n_fs n) in
    let gamma := CloseEngine (n_gamma n) in
    let '(_, fs) := DeleteFile (_engine_data_dir g) true fs in
    let '(_, mata, fs) := LocalStorager_DeleteSpace db space mata fs in
    (status_of 0 "", mkPsNode mata mgr gamma fs).

Definition Ping : RespStatus := mkRespStatus (Some 0) (Some "success").

(** [Get] and [Search] answer with the response as it was created. *)
Definition PsRpc_Get (req : GetRequest) (n : PsNode) : GetResponse * PsNode :=
  (empty_get_response, n).
Definition PsRpc_Search (n : PsNode) : SearchResponse * PsNode := (mkSearchResponse 0 "" [], n).

(** [MockGet] on the file engine: key and value of each key; [None] is an
    exception in [Engine::Get]. *)
Fixpoint MockGet (keys : list string) (e : Engine) (fs : Fs) :
    option (list (string * bytes) * Fs) :=
  match keys with
  | [] => Some ([], fs)
  | k :: rest =>
      '(val, fs) ← Engine.Get (atoi k) e fs;
      '(docs, fs) ← MockGet rest e fs;
      Some ((k, val) :: docs, fs)
  end.

(** The start of the process after the configuration is loaded
    (src/service/ps_main.cc): the node's identity, then the space it had. *)
Context `{HttpNet} `{JsonCodec MasterGenIdRequest} `{JsonCodec MasterGenIdResponse}.

(** [brpc_start] is the result of the RPC server's start and [gamma_load] that
    of the engine's recovery.  [inl] is the exit code of a start that failed. *)
Definition ps_boot (raw : Z) (g : Conf) (brpc_start : string)
    (gamma_load : GammaState → Z * GammaState) (gamma : GammaState) (fs : Fs) :
    option (Z + PsNode) :=
  '(id, mata, fs) ← CreateOrLoadNodeMata raw g (_ps_storage_dir g) Mata_new fs;
  if id <=? 0 then Some (inl (-1))
  else if failed brpc_start then Some (inl (-1))
  else if HasSpace mata then
    let gamma := InitEngine (_engine_data_dir g) (SpaceName mata) gamma in
    let '(code, gamma) := gamma_load gamma in
    if negb (code =? 0) then Some (inl (-1))
    else
      let '(_, mgr, fs) := CreateBlock None fs in
      let '(root_path, grp, conf, port) := default ("", "", "", 0) (GetRaftParams g mata) in
      let '(_, mgr, fs) :=
        StartRaftServer root_path grp conf (Mata_IP mata) port (cs_space (_space_req mata)) mgr fs in
      Some (inr (mkPsNode mata mgr gamma fs))
  else Some (inr (mkPsNode mata None gamma fs)).

End ps.

(** ** Lemmas *)

Section start.
Context `{FileUtilLaws} `{StartEnv}.

(** Starting a raft server touches no file but its own. *)
Lemma StartRaftServer_frame root group conf ip port space mgr fs mgr' fs' msg :
  StartRaftServer root group conf ip port space mgr fs = (msg, mgr', fs') → names_inj fs →
  names_inj fs' ∧ (no_fail fs → no_fail fs') ∧ fs_dirs fs ⊆ fs_dirs fs' ∧
  ∀ q, q ≠ root +:+ "/data" → content fs' q = content fs q.
Proof.
  intros E Hi. unfold StartRaftServer in E. destruct mgr as [b|]; [|by injection E as <- <- <-].
  unfold Block_start in E. destruct (CreateDirectory root fs) as [ok fs1] eqn:Ec.
  destruct (CreateDirectory_files _ _ _ _ Ec) as (En & Ei & Ef & Es & Hd & _).
  assert (names_inj fs1) as Hi1 by (unfold names_inj; by rewrite En).
  assert (no_fail fs → no_fail fs1) as Hn1 by (unfold no_fail; by rewrite Es).
  assert (∀ q, content fs1 q = content fs q) as Hc by (intros q; unfold content; by rewrite En, Ei).
  destruct ok; [|simpl in E; injection E as _ _ <-; auto].
  destruct (open_file _ fs1) as [fd fs2] eqn:Eo. simpl in E.
  destruct (open_file_frame _ _ _ _ Eo Hi1) as (Hi2 & Hd2 & Hn2 & Hc2).
  assert (fs' = fs2) as -> by (repeat case_match; simplify_eq; done).
  split_and!; [done|auto|by rewrite Hd2|]. intros q Hq. by rewrite Hc2.
Qed.

End start.

Lemma SetCreateSapceReq_has req m :
  db_name (cs_space req) ≠ "" → _has_space (SetCreateSapceReq req m) = true.
Proof. intros Hd. unfold SetCreateSapceReq. simpl. by rewrite bool_decide_eq_false_2. Qed.

(** What of a block does not depend on the leadership. *)
Definition block_view (b : Block) : option NodeOptions * string * string * Space :=
  (_node b, _group b, _conf b, _space b).

(** A raft server that was started once is started again as the same node, if
    braft's [init] succeeds, and otherwise has no node. *)
Lemma StartRaftServer_again `{FileUtilLaws} `{StartEnv} root group conf ip port space mgr fs mgr' fs' fs2 :
  StartRaftServer root group conf ip port space mgr fs = ("", mgr', fs') →
  no_fail fs2 → root ∈ fs_dirs fs2 →
  ∃ b node msg b2 fs3, mgr' = Some b ∧ _node b = Some node ∧
    StartRaftServer root group conf ip port space (Some Block_new) fs2 = (msg, Some b2, fs3) ∧
    if node_init node fs3 =? 0 then block_view b2 = block_view b
    else _node b2 = None ∧ _leader_term b2 = -1.
Proof.
  intros E Hn Hr. unfold StartRaftServer in *. destruct mgr as [b|]; [|done].
  unfold Block_start in *.
  pose proof (CreateDirectory_exists root fs2 Hr) as Hok.
  destruct (CreateDirectory root fs2) as [ok fs3] eqn:Ec. simpl in Hok. subst ok.
  destruct (CreateDirectory_files _ _ _ _ Ec) as (_ & _ & _ & Es & _ & _).
  assert (no_fail fs3) as Hn3 by (unfold no_fail; by rewrite Es).
  pose proof (open_file_ok (root +:+ "/data") fs3 Hn3) as Hfd.
  destruct (open_file _ fs3) as [fd fs4]. simpl in Hfd. cbn [negb].
  rewrite (proj2 (Z.ltb_ge fd 0)) by lia.
  destruct (CreateDirectory root fs) as [[|] fs1]; cbn [negb] in E; [|done].
  destruct (open_file _ fs1) as [fd1 fs5]. destruct (fd1 <? 0); [done|].
  destruct (str2endpoint _); cbn [negb] in *; [|done].
  destruct (parse_conf conf); cbn [negb] in *; [|done].
  destruct (node_init _ fs5 =? 0); cbn [negb] in *; [|done].
  injection E as <- <-. eexists _, _. destruct (node_init _ fs4 =? 0) eqn:Ei; cbn [negb Z.eqb];
    (do 3 eexists; split; [done|]; split; [done|]; split; [done|]); by rewrite Ei.
Qed.

Lemma StartRaftServer_root `{FileUtilLaws} `{StartEnv} root group conf ip port space mgr fs mgr' fs' :
  StartRaftServer root group conf ip port space mgr fs = ("", mgr', fs') → names_inj fs →
  root ∈ fs_dirs fs'.
Proof.
  intros E Hi. unfold StartRaftServer, Block_start in E. destruct mgr as [b|]; [|done].
  destruct (CreateDirectory root fs) as [ok fs1] eqn:Ec.
  destruct (CreateDirectory_files _ _ _ _ Ec) as (En & _ & _ & _ & _ & Hr).
  destruct ok; cbn [negb] in E; [|done].
  destruct (open_file _ fs1) as [fd fs2] eqn:Eo.
  assert (names_inj fs1) as Hi1 by (unfold names_inj; by rewrite En).
  destruct (open_file_frame _ _ _ _ Eo Hi1) as (_ & Hd & _ & _).
  assert (fs' = fs2) as -> by (repeat case_match; simplify_eq; done).
  rewrite Hd. by apply Hr.
Qed.

(** What a server that has no space remembers of a creation. *)
Lemma CreateSpace_mata `{FileUtil} `{StartEnv} `{GammaAdmin} `{JsonCodec PsNodeInfo}
    `{JsonCodec CreateSpaceRequest} (g : Conf) (req : CreateSpaceRequest) (n n' : PsNode)
    (code : Z) (msg : string) :
  HasSpace (n_mata n) = false → CreateSpace g req n = (status_of code msg, n') →
  n_mata n' = (if code =? 0 then SetCreateSapceReq req (n_mata n)
               else SetCreateSapceReq empty_create_req (SetCreateSapceReq req (n_mata n))) ∧
  (code = 0 → msg = "").
Proof.
  intros Hs E. unfold CreateSpace in E. rewrite Hs in E. destruct (default _ _) as [[[??]?]?].
  destruct (CreateTable _ _) as [[c ?] ?].
  destruct (Z.eqb_spec c 0) as [|Hc]; cbn [negb] in E.
  2: { injection E as <- _ <-. by rewrite (proj2 (Z.eqb_neq c 0)). }
  destruct (CreateBlock _ _) as [[??]?]. destruct (StartRaftServer _ _ _ _ _ _ _ _) as [[m1 ?]?].
  destruct (failed m1); [by injection E as <- _ <-|]. destruct (DumpCreateSpaceReq _ _) as [m2 ?].
  destruct (failed m2); [by injection E as <- _ <-|]. by injection E as <- <- <-.
Qed.

Section started.
Context `{FileUtil} `{StartEnv} `{GammaAdmin} `{JsonCodec PsNodeInfo}
  `{JsonCodec CreateSpaceRequest}.

Lemma Block_start_node root group conf ip port space b fs b' fs' :
  Block_start root group conf ip port space b fs = (0, b', fs') →
  ∃ node, _node b' = Some node ∧ no_group node = group ∧ no_conf node = conf ∧
    no_addr node = ip +:+ ":" +:+ to_string port ∧ _space b' = space.
Proof.
  unfold Block_start. destruct (CreateDirectory root fs) as [[|] fs1]; cbn [negb]; [|done].
  destruct (open_file _ fs1) as [fd fs2]. destruct (fd <? 0); [done|].
  destruct (str2endpoint _); cbn [negb]; [|done].
  destruct (parse_conf conf); cbn [negb]; [|done].
  destruct (node_init _ _ =? 0); cbn [negb]; [|done]. intros [= <- <-]. by eexists.
Qed.

Lemma StartRaftServer_node root group conf ip port space mgr fs mgr' fs' :
  StartRaftServer root group conf ip port space mgr fs = ("", mgr', fs') →
  ∃ b node, mgr' = Some b ∧ _node b = Some node ∧ no_group node = group ∧ no_conf node = conf ∧
    no_addr node = ip +:+ ":" +:+ to_string port ∧ _space b = space.
Proof.
  unfold StartRaftServer. destruct mgr as [b|]; [|done].
  destruct (Block_start root group conf ip port space b fs) as [[rc b'] fs1] eqn:E.
  destruct (Z.eqb_spec rc 0) as [->|]; cbn [negb]; [|done]. intros [= <- <-].
  destruct (Block_start_node _ _ _ _ _ _ _ _ _ _ E) as (node & ? & ? & ? & ? & ?). eauto 10.
Qed.

(** A server that answers with success runs a node of the group of the
    request. *)
Lemma CreateSpace_started g req n msg n' :
  db_name (cs_space req) ≠ "" → CreateSpace g req n = (status_of 0 msg, n') →
  HasSpace (n_mata n) = false ∧ HasSpace (n_mata n') = true ∧
  ∃ b node, n_mgr n' = Some b ∧ _node b = Some node ∧
    no_group node = group_name (cs_cur_partition req) ∧
    no_conf node = GetRaftConf (cs_cur_partition req) ∧
    no_addr node = Mata_IP (n_mata n) +:+ ":" +:+ to_string (ps_rpc_port (tc_ps (toml_conf_ g))) ∧
    _space b = cs_space req.
Proof.
  intros Hdb. unfold CreateSpace. destruct (HasSpace (n_mata n)) eqn:Eh; [done|].
  set (mata := SetCreateSapceReq req (n_mata n)).
  assert (HasSpace mata = true) as Hm.
  { unfold mata, SetCreateSapceReq, HasSpace. cbn. by rewrite bool_decide_eq_false_2. }
  assert (GetRaftParams g mata = Some (GetRaftRoot g mata, group_name (cs_cur_partition req),
    GetRaftConf (cs_cur_partition req), ps_rpc_port (tc_ps (toml_conf_ g)))) as ->.
  { unfold GetRaftParams. by rewrite Hm. }
  cbn [default id]. destruct (CreateTable _ _) as [[code text] gamma].
  destruct (Z.eqb_spec code 0) as [->|Hc]; cbn [negb]; [|by intros [= ?]].
  destruct (CreateBlock (n_mgr n) (n_fs n)) as [[m0 mgr] fs].
  destruct (StartRaftServer _ _ _ _ _ _ mgr fs) as [[m1 mgr'] fs1] eqn:Es.
  destruct (failed m1) eqn:Ef; [done|]. apply failed_false in Ef. subst m1.
  destruct (DumpCreateSpaceReq mata fs1) as [m2 fs2]. destruct (failed m2); [done|].
  intros [= <- <-]. split_and!; [done|done|]. by apply StartRaftServer_node in Es.
Qed.
(** The steps of a creation that is answered with success. *)
Lemma CreateSpace_steps g req n n' msg :
  CreateSpace g req n = (status_of 0 msg, n') → n_mgr n = None → db_name (cs_space req) ≠ "" →
  ∃ group conf port fs1,
    n_mata n' = SetCreateSapceReq req (n_mata n) ∧
    GetRaftParams g (n_mata n') = Some (GetRaftRoot g (n_mata n'), group, conf, port) ∧
    StartRaftServer (GetRaftRoot g (n_mata n')) group conf (Mata_IP (n_mata n')) port (cs_space req)
      (Some Block_new) (n_fs n) = ("", n_mgr n', fs1) ∧
    DumpCreateSpaceReq (n_mata n') fs1 = ("", n_fs n').
Proof.
  intros E Hmgr Hdb. unfold CreateSpace in E. destruct (HasSpace (n_mata n)); [done|].
  pose proof (SetCreateSapceReq_has req (n_mata n) Hdb) as Hhas.
  set (mata := SetCreateSapceReq req (n_mata n)) in *.
  assert (GetRaftParams g mata = Some (GetRaftRoot g mata, group_name (cs_cur_partition req),
    GetRaftConf (cs_cur_partition req), ps_rpc_port (tc_ps (toml_conf_ g)))) as EG.
  { unfold GetRaftParams, HasSpace. by rewrite Hhas. }
  rewrite EG in E. cbn [default id] in E. destruct (CreateTable _ _) as [[code text] gamma].
  destruct (Z.eqb_spec code 0) as [->|Hne]; cbn [negb] in E; [|by injection E as -> _ _].
  rewrite Hmgr in E. cbn [CreateBlock DeleteBlock] in E.
  destruct (StartRaftServer _ _ _ _ _ _ _ _) as [[m1 mgr] fs1] eqn:Es.
  destruct (failed m1) eqn:Ef1; [done|]. apply failed_false in Ef1 as ->.
  destruct (DumpCreateSpaceReq mata fs1) as [m2 fs2] eqn:Ed.
  destruct (failed m2) eqn:Ef; [done|]. apply failed_false in Ef as ->.
  injection E as _ <-. by do 4 eexists.
Qed.
End started.

Section saved.
Context `{FileUtilLaws} `{StartEnv} `{GammaAdmin} `{JsonCodec PsNodeInfo}
  `{JsonCodecLaws CreateSpaceRequest}.

(** It leaves the request on the disk. *)
Lemma CreateSpace_saved g req n n' msg :
  CreateSpace g req n = (status_of 0 msg, n') →
  mata_saved (n_mata n) (n_fs n) → n_mgr n = None →
  no_fail (n_fs n) → names_inj (n_fs n) → db_name (cs_space req) ≠ "" →
  mata_saved (n_mata n') (n_fs n') ∧ no_fail (n_fs n') ∧
  ∃ s, content (n_fs n') (_space_schema_file (n_mata n')) = Some (bytes_of s) ∧
    JsonToProtoMessage s = Some (_space_req (n_mata n')).
Proof.
  intros E Hm Hmgr Hn Hi Hdb.
  destruct (CreateSpace_steps _ _ _ _ _ E Hmgr Hdb) as (group & conf & port & fs1 & EM & _ & ES & ED).
  destruct (StartRaftServer_frame _ _ _ _ _ _ _ _ _ _ _ ES Hi) as (Hi1 & Hn1 & Hd1 & Hc1).
  destruct (DumpCreateSpaceReq_saved _ _ _ ED (Hn1 Hn) Hi1) as (Hn2 & Hd2 & Hc2 & s & Hs & Hj).
  split_and!; [|done|by exists s]. destruct Hm as (Hf1 & Hf2 & Hdir & i & Hci & Hji).
  rewrite EM in *. split_and!; try done.
  - rewrite Hd2. by apply Hd1.
  - exists i. split; [|done]. simpl. rewrite Hc2, Hc1; [done| |].
    + rewrite Hf1. by eapply append_last_ne.
    + simpl. rewrite Hf1, Hf2. intros ?%append_inj_l. done.
Qed.
End saved.

(** A block that has no node refuses writes and reads. *)
Lemma no_node_refuses `{GammaEngine} `{WireCodec BlockRequest} `{WireCodec Document} b :
  _node b = None ∧ _leader_term b = -1 →
  (∀ lid req resp data, Block_write lid b req resp data = Answered (set_success false resp)) ∧
  ∀ lid st req resp buf, Block_read lid b st req resp buf = Some (set_success false resp, buf).
Proof.
  intros [Hn Ht]. unfold Block_write, Block_read, Block_is_leader, redirect. by rewrite Hn, Ht.
Qed.

(** ** Properties *)

(** C34. A server that answered a creation with success rejoins its group after a
    restart: a new process that finds the files as the old one left them reads
    the same identity and the same space, and runs the same node of the same raft
    group if braft starts it from the files.  If braft refuses, the process runs
    without a node and refuses all reads and writes.  The conditions are that the
    server's identity had been saved in its directory, no system call fails in
    the creation or the restart, no two names share a file, the RPC server starts
    and the engine's recovery succeeds. *)
Theorem restarted_server_rejoins `{FileUtilLaws} `{StartEnv} `{GammaAdmin}
    `{JsonCodec PsNodeInfo} `{JsonCodecLaws CreateSpaceRequest} `{HttpNet}
    `{JsonCodec MasterGenIdRequest} `{JsonCodec MasterGenIdResponse}
    `{WireCodec BlockRequest} `{WireCodec Document}
    (raw : Z) (g : Conf) (req : CreateSpaceRequest) (n n' : PsNode) (msg : string)
    (gamma_load : GammaState → Z * GammaState) (gamma : GammaState) (fs : Fs) :
  CreateSpace g req n = (status_of 0 msg, n') →
  mata_saved (n_mata n) (n_fs n) → n_mgr n = None →
  no_fail (n_fs n) → names_inj (n_fs n) → db_name (cs_space req) ≠ "" →
  IsLoadFromFile (n_mata n) = true → _dir_path (n_mata n) = _ps_storage_dir g →
  (∀ q, content fs q = content (n_fs n') q) → fs_dirs fs = fs_dirs (n_fs n') → no_fail fs →
  (∀ st, (gamma_load st).1 = 0) →
  ∃ n2 b node b2, ps_boot raw g "" gamma_load gamma fs = Some (inr n2) ∧
    n_mata n2 = n_mata n' ∧ n_mgr n' = Some b ∧ _node b = Some node ∧ n_mgr n2 = Some b2 ∧
    if node_init node (n_fs n2) =? 0 then block_view b2 = block_view b
    else (∀ lid req resp data,
        Block_write lid b2 req resp data = Answered (set_success false resp)) ∧
      ∀ lid req resp buf, Block_read lid b2 (n_gamma n2) req resp buf =
        Some (set_success false resp, buf).
Proof.
  intros E Hm Hmgr Hn Hi Hdb Hload Hdir Hc Hd Hnf Hg.
  destruct (CreateSpace_saved _ _ _ _ _ E Hm Hmgr Hn Hi Hdb) as (Hs' & Hn' & s & Hcs & Hjs).
  destruct (CreateSpace_steps _ _ _ _ _ E Hmgr Hdb) as
    (group & conf & port & fs1 & EM & EG & ES & ED).
  assert (Hh : _has_space (n_mata n') = true) by (rewrite EM; by apply SetCreateSapceReq_has).
  destruct (Mata_Init_saved (n_mata n') fs s) as [fs2 EI]; try done; [|by rewrite Hc|].
  { destruct Hs' as (F1 & F2 & F3 & i & F4 & F5). split_and!; try done; [by rewrite Hd|].
    exists i. by rewrite Hc. }
  pose proof (Mata_Init_frame (_dir_path (n_mata n')) Mata_new fs) as [Hd2 Hn2].
  rewrite EI in Hd2, Hn2. simpl in Hd2, Hn2.
  assert (_dir_path (n_mata n') = _ps_storage_dir g ∧ IsLoadFromFile (n_mata n') = true)
    as [Edir Eload] by (by rewrite EM).
  assert (GetRaftRoot g (n_mata n') ∈ fs_dirs fs2) as Hroot.
  { apply Hd2. rewrite Hd.
    destruct (StartRaftServer_frame _ _ _ _ _ _ _ _ _ _ _ ES Hi) as (Hi1 & Hn1 & _).
    destruct (DumpCreateSpaceReq_saved _ _ _ ED (Hn1 Hn) Hi1) as (_ & -> & _).
    by eapply StartRaftServer_root. }
  destruct (StartRaftServer_again _ _ _ _ _ _ _ _ _ _ fs2 ES (Hn2 Hnf) Hroot)
    as (b & node & m2 & b2 & fs3 & Eb & Enode & ES2 & EV).
  rewrite Edir in EI. unfold ps_boot, CreateOrLoadNodeMata. rewrite EI. cbn [negb]. rewrite Eload.
  cbn [negb mbind option_bind].
  assert (0 < Mata_Id (n_mata n')) as Hid.
  { unfold IsLoadFromFile in Eload. apply andb_true_iff in Eload as [?%Z.ltb_lt _]. done. }
  rewrite (proj2 (Z.leb_gt _ _)) by done. cbn [failed]. unfold HasSpace. rewrite Hh.
  match goal with |- context [gamma_load ?x] => specialize (Hg x); destruct (gamma_load x) as [c ge] end.
  simpl in Hg. subst c. cbn [Z.eqb negb CreateBlock DeleteBlock]. rewrite EG. cbn [default id].
  assert (cs_space (_space_req (n_mata n')) = cs_space req) as -> by (by rewrite EM).
  rewrite ES2. eexists _, b, node, b2. split_and!; [done..|]. simpl.
  destruct (node_init node fs3 =? 0); [done|]. by destruct (no_node_refuses b2 EV).
Qed.

(** An acknowledged space survives a restart: when [CreateSpace] answers
    with code 0 on a node whose identity is saved, a new process finds the
    identity and the space as they are in memory. *)
Theorem CreateSpace_survives_restart `{FileUtilLaws} `{StartEnv} `{GammaAdmin}
    `{JsonCodec PsNodeInfo} `{JsonCodecLaws CreateSpaceRequest}
    (g : Conf) (req : CreateSpaceRequest) (n n' : PsNode) (msg : string) :
  CreateSpace g req n = (status_of 0 msg, n') →
  mata_saved (n_mata n) (n_fs n) → n_mgr n = None →
  no_fail (n_fs n) → names_inj (n_fs n) → db_name (cs_space req) ≠ "" →
  HasSpace (n_mata n') = true ∧ cs_space (_space_req (n_mata n')) = cs_space req ∧
  ∃ fs', Mata_Init (_dir_path (n_mata n)) Mata_new (n_fs n') = (true, n_mata n', fs').
Proof.
  intros E Hm Hmgr Hn Hi Hdb.
  destruct (CreateSpace_saved _ _ _ _ _ E Hm Hmgr Hn Hi Hdb) as (Hs & Hn' & s & Hc & Hj).
  destruct (CreateSpace_steps _ _ _ _ _ E Hmgr Hdb) as (_ & _ & _ & _ & EM & _).
  assert (_has_space (n_mata n') = true) as Hh by (rewrite EM; by apply SetCreateSapceReq_has).
  destruct (Mata_Init_saved _ _ s Hs Hn' Hh Hc Hj) as [fs' EI].
  split_and!; [done|by rewrite EM|]. exists fs'. by rewrite EM in EI |- *.
Qed.

(** A space whose creation fails blocks the node: the request is cleared
    but the mark that the node has a space is not, so that every later
    [CreateSpace] is refused and no [DeleteSpace] that names a database can
    undo it. *)
Theorem failed_CreateSpace_blocks `{FileUtil} `{StartEnv} `{GammaAdmin} `{JsonCodec PsNodeInfo}
    `{JsonCodec CreateSpaceRequest} (g : Conf) (req : CreateSpaceRequest) (n n' : PsNode)
    (code : Z) (msg : string) :
  HasSpace (n_mata n) = false → db_name (cs_space req) ≠ "" →
  CreateSpace g req n = (status_of code msg, n') → code ≠ 0 →
  (∀ g' req', CreateSpace g' req' n' = (status_of 201 "Space has exist, space_name:", n')) ∧
  (∀ g' db space, db ≠ "" → DeleteSpace g' db space n' = (status_of 201 msg_not_exist, n')).
Proof.
  intros Hs Hdb E Hcode.
  destruct (CreateSpace_mata _ _ _ _ _ _ Hs E) as [Hm _].
  rewrite (proj2 (Z.eqb_neq code 0)) in Hm by done.
  split; intros.
  - unfold CreateSpace, HasSpace. rewrite Hm. simpl. by rewrite bool_decide_eq_false_2.
  - unfold DeleteSpace, DbName. rewrite Hm. simpl.
    by rewrite (bool_decide_eq_false_2 ("" = db)) by done.
Qed.

(** ** Instances of the properties *)

#[local] Instance info_json : JsonCodec PsNodeInfo := count_json PsNodeInfo.
#[local] Instance creq_json : JsonCodec CreateSpaceRequest := count_json CreateSpaceRequest.
#[local] Instance creq_json_laws : JsonCodecLaws CreateSpaceRequest :=
  count_json_laws CreateSpaceRequest.
#[local] Instance sample_env : StartEnv := Build_StartEnv (λ _, true) (λ _, true) (λ _ _, 0) 0 0.

Definition sample_info : PsNodeInfo := mkPsNodeInfo 4 "1.1.1.1" 9000 "".
Definition sample_mata : PsLocalNodeMata :=
  mkMata "d" "d/node_info.json" "d/create_space_req.json" sample_info empty_create_req false.
Definition sample_disk : Fs :=
  mkFs {["d/node_info.json" := 0%nat]} {[0%nat := bits_of (encode sample_info)]} ∅ {["d"]} [].
Definition sample_node : @PsNode map_doc map_engine :=
  @mkPsNode map_doc map_engine sample_mata None ∅ sample_disk.
Definition sample_creq : CreateSpaceRequest :=
  mkCreateSpaceRequest (Dto.sample_space LONG_SDTYPE) empty_partition.

Lemma sample_saved : mata_saved sample_mata sample_disk.
Proof.
  split; [done|]. split; [done|]. split; [set_solver|].
  exists (str_of (bits_of (encode sample_info))). rewrite bytes_of_str_of. split; [done|].
  apply (@json_roundtrip _ _ (count_json_laws PsNodeInfo) sample_info). reflexivity.
Qed.

Definition sample_conf : Conf := mkConf "" "" "" "d" "r" "" "" empty_toml.
Definition silent_net : HttpNet := Build_HttpNet (λ _ _, false) (λ _ _ _ _, None).
#[local] Instance id_json : JsonCodec MasterGenIdRequest :=
  {| ProtoMessageToJson _ := Some "{}"; JsonToProtoMessage _ := None |}.
#[local] Instance id_resp_json : JsonCodec MasterGenIdResponse :=
  {| ProtoMessageToJson _ := Some "{}"; JsonToProtoMessage _ := None |}.

Definition sample_created : RespStatus * @PsNode map_doc map_engine :=
  @CreateSpace posix_util _ _ _ _ (map_admin 0) _ sample_conf sample_creq sample_node.

Lemma restarted_server_rejoins_witness :
  ∃ n2, sample_created.1 = status_of 0 "" ∧
    @ps_boot posix_util _ _ _ _ (map_admin 0) _ _ silent_net _ _ 0 sample_conf ""
      (λ st, (0, st)) ∅ (set_fds ∅ (n_fs sample_created.2)) = Some (inr n2) ∧
    SpaceName (n_mata n2) = "s" ∧
    block_view <$> n_mgr n2 = block_view <$> n_mgr sample_created.2.
Proof.
  destruct (@restarted_server_rejoins posix_util posix_util_laws _ _ _ _
    (map_admin 0) _ _ _ silent_net _ _ (count_codec _) (count_codec _) 0 sample_conf sample_creq sample_node sample_created.2 ""
    (λ st, (0, st)) ∅ (set_fds ∅ (n_fs sample_created.2))) as (n2 & b & node & b2 & E & Em & Eb & _ & Eb2 & Hv).
  - reflexivity.
  - exact sample_saved.
  - reflexivity.
  - constructor.
  - intros p q ino. simpl. rewrite !lookup_singleton. repeat case_decide; congruence.
  - discriminate.
  - reflexivity.
  - reflexivity.
  - reflexivity.
  - reflexivity.
  - constructor.
  - reflexivity.
  - exists n2. split; [reflexivity|]. split; [exact E|].
    split; [by rewrite Em|]. rewrite Eb, Eb2. cbn. by rewrite Hv.
Defined.

Lemma CreateSpace_survives_restart_witness :
  ∃ n' fs', @CreateSpace posix_util _ _ _ _ (map_admin 0) _ Conf_new sample_creq sample_node =
      (status_of 0 "", n') ∧
    @Mata_Init posix_util _ _ "d" Mata_new (n_fs n') = (true, n_mata n', fs').
Proof.
  eexists. pose proof (@CreateSpace_survives_restart posix_util posix_util_laws _ _ _ _
    (map_admin 0) _ _ _ Conf_new sample_creq sample_node _ "" eq_refl) as T.
  destruct T as (_ & _ & fs' & E).
  - exact sample_saved.
  - reflexivity.
  - constructor.
  - intros p q ino. simpl. rewrite !lookup_singleton. repeat case_decide; congruence.
  - discriminate.
  - exists fs'. split; [reflexivity|exact E].
Defined.

Lemma failed_CreateSpace_blocks_witness :
  ∃ n', @CreateSpace posix_util _ _ _ _ (map_admin 5) _ Conf_new sample_creq sample_node =
      (status_of 5 (msg_create_table "failed"), n') ∧
    @CreateSpace posix_util _ _ _ _ (map_admin 5) _ Conf_new sample_creq n' =
      (status_of 201 "Space has exist, space_name:", n').
Proof.
  eexists. split; [reflexivity|].
  apply (@failed_CreateSpace_blocks posix_util _ _ _ _ (map_admin 5) _ _ Conf_new sample_creq
    sample_node _ 5 (msg_create_table "failed")); [reflexivity|discriminate|reflexivity|discriminate].
Defined.
