(* ===== verification/PsService.v ===== *)
(** * PsService: src/service/ps/ps_rpc.h, src/service/ps/raft_rpc.h

    The two services of a partition server as one server: a call of
    [PsRpcImpl] or [RaftRpcImpl], the events braft delivers between the calls,
    and histories of both.  The life of the space on the server is the abstract
    specification: the server is free, holds a space, or is stuck after a
    creation that failed. *)
From S2P Require Import Prelude Numeric Bytes Common Dto Files Engine Wire RaftStore.
From S2P Require Import Config Http PsMeta PsRpc.
Local Open Scope Z_scope.

(** ** The services *)

(** The methods of [PsRpcImpl]. *)
Inductive PsRpcCall :=
  | CallMockGet (keys : list string)
  | CallPing
  | CallCreateSpace (req : CreateSpaceRequest)
  | CallDeleteSpace (db space : string)
  | CallGet (req : GetRequest)
  | CallSearch.

(** The methods of [RaftRpcImpl], with the attachment of the call. *)
Inductive RaftRpcCall :=
  | CallWrite (request : BlockRequest) (attachment : bytes)
  | CallRead (request : BlockRequest).

(** A server registers one object of each class. *)
Definition PsCall : Type := PsRpcCall + RaftRpcCall.

Inductive PsAnswer :=
  | AnsDocs (docs : list (string * bytes))
  | AnsStatus (status : RespStatus)
  | AnsGet (resp : GetResponse)
  | AnsSearch (resp : SearchResponse)
  | AnsWrite (r : write_result)
  | AnsRead (resp : BlockResponse) (attachment : bytes).

Section service.
Context `{FileUtil} `{StartEnv} `{GammaAdmin} `{JsonCodec PsNodeInfo}
  `{JsonCodec CreateSpaceRequest} `{WireCodec BlockRequest} `{WireCodec Document}.

(** The singletons: those of [PsNode] and the file engine that [MockGet]
    reads. *)
Record PsServer := mkPsServer { s_node : PsNode; s_engine : Engine }.

Definition set_node (n : PsNode) (s : PsServer) : PsServer := mkPsServer n (s_engine s).
Definition set_block (b : Block) (n : PsNode) : PsNode :=
  mkPsNode (n_mata n) (Some b) (n_gamma n) (n_fs n).
Definition set_gamma (st : GammaState) (n : PsNode) : PsNode :=
  mkPsNode (n_mata n) (n_mgr n) st (n_fs n).
Definition set_fs (fs : Fs) (n : PsNode) : PsNode :=
  mkPsNode (n_mata n) (n_mgr n) (n_gamma n) fs.

(** One call of [PsRpcImpl]; [None] is an exception in [Engine::Get]. *)
Definition PsRpc_serve (g : Conf) (c : PsRpcCall) (s : PsServer) : option (PsAnswer * PsServer) :=
  let n := s_node s in
  match c with
  | CallMockGet keys =>
      '(docs, fs) ← MockGet keys (s_engine s) (n_fs n);
      Some (AnsDocs docs, set_node (set_fs fs n) s)
  | CallPing => Some (AnsStatus Ping, s)
  | CallCreateSpace req =>
      let '(st, n) := CreateSpace g req n in Some (AnsStatus st, set_node n s)
  | CallDeleteSpace db space =>
      let '(st, n) := DeleteSpace g db space n in Some (AnsStatus st, set_node n s)
  | CallGet req => let '(r, n) := PsRpc_Get req n in Some (AnsGet r, set_node n s)
  | CallSearch => let '(r, n) := PsRpc_Search n in Some (AnsSearch r, set_node n s)
  end.

(** One call of [RaftRpcImpl]; [leader_id] is the leader its node knows.  A
    [write] that hands a task to the node is answered by the task's closure.
    [None] is the access to the null block, or past a field of a document. *)
Definition RaftRpc_serve (leader_id : string) (c : RaftRpcCall) (s : PsServer) :
    option (PsAnswer * PsServer) :=
  let n := s_node s in
  match c with
  | CallWrite request attachment =>
      Some (AnsWrite (RaftRpcImpl_write leader_id (n_mgr n) request empty_response attachment), s)
  | CallRead request =>
      '(r, buf) ← RaftRpcImpl_read leader_id (n_mgr n) (n_gamma n) request empty_response [];
      Some (AnsRead r buf, s)
  end.

Definition ps_serve (g : Conf) (leader_id : string) (c : PsCall) (s : PsServer) :
    option (PsAnswer * PsServer) :=
  match c with
  | inl c => PsRpc_serve g c s
  | inr c => RaftRpc_serve leader_id c s
  end.

(** What braft does to a server whose node it runs: it applies committed
    entries, and reports the leadership. *)
Inductive raft_event : PsServer → PsServer → Prop :=
  | event_apply b node es rs fin st s :
      n_mgr (s_node s) = Some b → _node b = Some node →
      on_apply (_space b) es (n_gamma (s_node s)) = (rs, fin, st) →
      raft_event s (set_node (set_gamma st (s_node s)) s)
  | event_leader_start b node term s :
      n_mgr (s_node s) = Some b → _node b = Some node → 1 ≤ term →
      raft_event s (set_node (set_block (on_leader_start term b) (s_node s)) s)
  | event_leader_stop b node s :
      n_mgr (s_node s) = Some b → _node b = Some node →
      raft_event s (set_node (set_block (on_leader_stop b) (s_node s)) s).

(** A history: the calls with their answers, and events of raft in between. *)
Inductive ps_run (g : Conf) : PsServer → list (PsCall * PsAnswer) → PsServer → Prop :=
  | run_nil s : ps_run g s [] s
  | run_call leader_id c a s s' h s'' :
      ps_serve g leader_id c s = Some (a, s') → ps_run g s' h s'' → ps_run g s ((c, a) :: h) s''
  | run_raft s s' h s'' : raft_event s s' → ps_run g s' h s'' → ps_run g s h s''.

(** ** The specification: the life of the space on a server *)

Inductive PsLife := Free | Holds (db space : string) | Stuck.

(** [Free] can take a space, and a creation that fails leaves it [Stuck]; only
    the space that is held can be deleted; [Stuck] lasts as long as the process. *)
Inductive life_step : PsLife → PsCall → PsAnswer → PsLife → Prop :=
  | life_created req :
      life_step Free (inl (CallCreateSpace req)) (AnsStatus (status_of 0 ""))
        (Holds (db_name (cs_space req)) (space_name (cs_space req)))
  | life_create_failed req code msg :
      code ≠ 0 →
      life_step Free (inl (CallCreateSpace req)) (AnsStatus (status_of code msg)) Stuck
  | life_occupied db space req :
      life_step (Holds db space) (inl (CallCreateSpace req))
        (AnsStatus (status_of 201 ("Space has exist, space_name:" +:+ space))) (Holds db space)
  | life_refused req :
      life_step Stuck (inl (CallCreateSpace req))
        (AnsStatus (status_of 201 "Space has exist, space_name:")) Stuck
  | life_deleted db space :
      life_step (Holds db space) (inl (CallDeleteSpace db space)) (AnsStatus (status_of 0 "")) Free
  | life_unknown l db space :
      l ≠ Holds db space →
      life_step l (inl (CallDeleteSpace db space)) (AnsStatus (status_of 201 msg_not_exist)) l
  | life_no_space request attachment :
      life_step Free (inr (CallWrite request attachment))
        (AnsWrite (Answered (set_msg msg_no_space (set_success false empty_response)))) Free
  | life_write l request attachment r :
      l ≠ Free → life_step l (inr (CallWrite request attachment)) (AnsWrite r) l
  | life_read l request r buf :
      l ≠ Free → life_step l (inr (CallRead request)) (AnsRead r buf) l
  | life_docs l keys docs : life_step l (inl (CallMockGet keys)) (AnsDocs docs) l
  | life_ping l : life_step l (inl CallPing) (AnsStatus Ping) l
  | life_get l req : life_step l (inl (CallGet req)) (AnsGet empty_get_response) l
  | life_search l : life_step l (inl CallSearch) (AnsSearch (mkSearchResponse 0 "" [])) l.

Inductive life_run : PsLife → list (PsCall * PsAnswer) → PsLife → Prop :=
  | life_nil l : life_run l [] l
  | life_cons l c a l' h l'' :
      life_step l c a l' → life_run l' h l'' → life_run l ((c, a) :: h) l''.

(** How a server represents its life: [Free] has no mark, no request and no
    block; [Holds] has the mark, the request, and a block with a node for the
    space; [Stuck] has the mark without a request. *)
Definition life_rel (l : PsLife) (s : PsServer) : Prop :=
  let m := n_mata (s_node s) in
  match l with
  | Free => HasSpace m = false ∧ DbName m = "" ∧ SpaceName m = "" ∧ n_mgr (s_node s) = None
  | Holds db space =>
      HasSpace m = true ∧ DbName m = db ∧ SpaceName m = space ∧ db ≠ "" ∧
      ∃ b node, n_mgr (s_node s) = Some b ∧ _node b = Some node ∧
        db_name (_space b) = db ∧ space_name (_space b) = space
  | Stuck => HasSpace m = true ∧ DbName m = "" ∧ SpaceName m = ""
  end.

(** A call that creates or deletes a space names a database, as the master's
    calls do. *)
Definition names_db (c : PsCall) : Prop :=
  match c with
  | inl (CallCreateSpace req) => db_name (cs_space req) ≠ ""
  | inl (CallDeleteSpace db _) => db ≠ ""
  | _ => True
  end.

End service.

(** ** Lemmas *)

Section lemmas.
Context `{FileUtil} `{StartEnv} `{GammaAdmin} `{JsonCodec PsNodeInfo}
  `{JsonCodec CreateSpaceRequest} `{WireCodec BlockRequest} `{WireCodec Document}.

(** The events of raft do not touch the space. *)
Lemma raft_event_life l s s' : raft_event s s' → life_rel l s → life_rel l s'.
Proof.
  intros [b node es rs fin st ? Hb Hn _|b node term ? Hb Hn _|b node ? Hb Hn];
    destruct l as [|db space|]; simpl; rewrite ?Hb; try naive_solver;
    intros (? & ? & ? & ? & b' & node' & [= <-] & ? & ? & ?); eauto 12.
Qed.

Lemma create_life g req l s st n :
  db_name (cs_space req) ≠ "" → life_rel l s → CreateSpace g req (s_node s) = (st, n) →
  ∃ l', life_step l (inl (CallCreateSpace req)) (AnsStatus st) l' ∧ life_rel l' (set_node n s).
Proof.
  intros Hdb Hl E. destruct (HasSpace (n_mata (s_node s))) eqn:Hs.
  { assert (st = status_of 201 ("Space has exist, space_name:" +:+ SpaceName (n_mata (s_node s))) ∧
      n = s_node s) as [-> ->] by (unfold CreateSpace in E; rewrite Hs in E; by injection E).
    exists l. destruct s as [n e], l as [|db space|]; simpl in *.
    - destruct Hl as [Hl _]. congruence.
    - destruct Hl as (? & ? & -> & ?). split; [constructor|done].
    - destruct Hl as (? & ? & ->). split; [constructor|done]. }
  destruct l as [|db space|]; simpl in Hl; [|destruct Hl; congruence..].
  assert (∃ code msg, st = status_of code msg) as (code & msg & ->).
  { unfold CreateSpace in E. rewrite Hs in E. repeat case_match; injection E as <- <-; eauto. }
  destruct (CreateSpace_mata _ _ _ _ _ _ Hs E) as [Hm Hmsg].
  destruct (Z.eqb_spec code 0) as [->|Hc].
  - rewrite Hmsg in E |- * by done.
    destruct (CreateSpace_started _ _ _ _ _ Hdb E) as (_ & Hh & b & node & Hb & Hn & _ & _ & _ & Hsp).
    exists (Holds (db_name (cs_space req)) (space_name (cs_space req))).
    split; [constructor|]. simpl. split_and!; [done|by rewrite Hm..|done|].
    exists b, node. by rewrite Hsp.
  - exists Stuck. split; [by constructor|]. unfold life_rel. cbn [s_node set_node]. rewrite Hm.
    split_and!; [|done..]. by apply (SetCreateSapceReq_has req (n_mata (s_node s))) in Hdb.
Qed.

Lemma delete_life g db space l s st n :
  db ≠ "" → life_rel l s → DeleteSpace g db space (s_node s) = (st, n) →
  ∃ l', life_step l (inl (CallDeleteSpace db space)) (AnsStatus st) l' ∧ life_rel l' (set_node n s).
Proof.
  intros Hdb Hl E. unfold DeleteSpace in E. set (m := n_mata (s_node s)) in *.
  destruct (decide (DbName m = db)) as [Ed|Ed], (decide (SpaceName m = space)) as [Es|Es];
    rewrite ?bool_decide_eq_true_2, ?bool_decide_eq_false_2 in E by done; cbn [negb orb] in E.
  2-4: injection E as <- <-; exists l; (split; [|by destruct s]); constructor; intros ->;
    simpl in Hl; naive_solver.
  destruct l as [|db' space'|]; simpl in Hl; [unfold m in *; naive_solver| |unfold m in *; naive_solver].
  destruct Hl as (_ & Ed' & Es' & _). exists Free.
  assert (Holds db' space' = Holds db space) as -> by (unfold m in *; congruence).
  destruct (DeleteBlock _ _) as [[? mgr] fs] eqn:EB. destruct (DeleteFile _ _ _) as [? fs1].
  unfold LocalStorager_DeleteSpace in E. rewrite !bool_decide_eq_true_2 in E by done.
  cbn [andb] in E. unfold Mata_DeleteSpace in E. destruct (DeleteFile _ false fs1) as [? fs2].
  injection E as <- <-. split; [constructor|]. simpl. split_and!; try done.
  unfold DeleteBlock in EB. destruct (n_mgr _); [destruct (DeleteFile _ _ _)|]; by injection EB as _ <- _.
Qed.

(** One call. *)
Lemma serve_life g leader_id c l s a s' :
  names_db c → life_rel l s → ps_serve g leader_id c s = Some (a, s') →
  ∃ l', life_step l c a l' ∧ life_rel l' s'.
Proof.
  intros Hc Hl E. destruct c as [[keys| |req|db space|req|]|[request att|request]]; simpl in *.
  - destruct (MockGet _ _ _) as [[docs fs]|]; [|done]. injection E as <- <-. exists l.
    split; [constructor|]. by destruct l.
  - injection E as <- <-. exists l. by split; [constructor|].
  - destruct (CreateSpace _ _ _) as [st n] eqn:EC. injection E as <- <-. by eapply create_life.
  - destruct (DeleteSpace _ _ _ _) as [st n] eqn:EC. injection E as <- <-. by eapply delete_life.
  - injection E as <- <-. exists l. split; [constructor|]. by destruct l.
  - injection E as <- <-. exists l. split; [constructor|]. by destruct l.
  - injection E as <- <-. exists l. split; [|done]. destruct l; [|by constructor..].
    simpl in Hl. destruct Hl as (_ & _ & _ & ->). constructor.
  - destruct (RaftRpcImpl_read _ _ _ _ _ _) as [[r buf]|] eqn:ER; [|done]. injection E as <- <-.
    exists l. split; [|done]. constructor. intros ->. simpl in Hl.
    destruct Hl as (_ & _ & _ & Hm). by rewrite Hm in ER.
Qed.

Lemma run_life g l s h s' :
  ps_run g s h s' → Forall (names_db ∘ fst) h → life_rel l s →
  ∃ l', life_run l h l' ∧ life_rel l' s'.
Proof.
  intros R. revert l. induction R as [s|lid c a s s1 h s2 E R IH|s s1 h s2 E R IH]; intros l Hh Hl.
  - exists l. by split; [constructor|].
  - apply Forall_cons in Hh as [Hc Hh]. destruct (serve_life _ _ _ _ _ _ _ Hc Hl E) as (l1 & L1 & Hl1).
    destruct (IH _ Hh Hl1) as (l2 & L2 & Hl2). exists l2. by split; [econstructor|].
  - apply IH; [done|]. by eapply raft_event_life.
Qed.

(** A server that is stuck stays so. *)
Lemma life_stuck h l : life_run Stuck h l → l = Stuck.
Proof.
  intros R. remember Stuck as l0 eqn:E0. induction R as [|l0 c a l1 h l2 S R IH]; [done|].
  subst l0. assert (l1 = Stuck) as -> by (by inversion S). auto.
Qed.

(** A read of a block fails only on a stored document that cannot be read. *)
Lemma Block_read_None leader_id b st request response buf :
  Block_read leader_id b st request response buf = None ↔
  Block_is_leader b = true ∧
  ∃ d, GetDocByID (br_key request) st = (0, d) ∧ GammaDocToPbDoc d = None.
Proof.
  unfold Block_read. destruct (Block_is_leader b); cbn [negb]; [|naive_solver].
  destruct (GetDocByID _ st) as [code d]. destruct (Z.eqb_spec code 0) as [->|]; cbn [negb];
    [|naive_solver].
  destruct (GammaDocToPbDoc d) as [p|] eqn:Ed; simpl.
  - destruct (SerializeToString p); naive_solver.
  - naive_solver.
Qed.

End lemmas.

(** ** Properties *)

(** C9. The services of a partition server implement the life of a space: over
    every history of calls that name a database, with the events of raft in
    between, the answers are those of a server that is free, takes one space,
    refuses a second one, gives it up to the deletion that names it, and is
    stuck for its life once a creation failed; and whenever it holds a space, a
    node of that space's group runs on it. *)
Theorem ps_server_refines `{FileUtil} `{StartEnv} `{GammaAdmin} `{JsonCodec PsNodeInfo}
    `{JsonCodec CreateSpaceRequest} `{WireCodec BlockRequest} `{WireCodec Document}
    (g : Conf) (l : PsLife) (s : PsServer) (h1 h2 : list (PsCall * PsAnswer)) (s1 s2 : PsServer) :
  life_rel l s → ps_run g s h1 s1 → ps_run g s1 h2 s2 → Forall (names_db ∘ fst) (h1 ++ h2) →
  ∃ l1 l2, life_run l h1 l1 ∧ life_rel l1 s1 ∧ life_run l1 h2 l2 ∧ life_rel l2 s2 ∧
    (l1 = Stuck → l2 = Stuck).
Proof.
  intros Hl R1 R2 [Hh1 Hh2]%Forall_app.
  destruct (run_life _ _ _ _ _ R1 Hh1 Hl) as (l1 & L1 & Hl1).
  destruct (run_life _ _ _ _ _ R2 Hh2 Hl1) as (l2 & L2 & Hl2).
  exists l1, l2. split_and!; try done. intros ->. by eapply life_stuck.
Qed.

(** A call has no answer in exactly two kinds of situation: the file engine
    throws in [MockGet], or [read] reaches a server without a block (its guard
    does not return) or a leader that stores a document it cannot convert. *)
Theorem ps_serve_fails_iff `{FileUtil} `{StartEnv} `{GammaAdmin} `{JsonCodec PsNodeInfo}
    `{JsonCodec CreateSpaceRequest} `{WireCodec BlockRequest} `{WireCodec Document}
    (g : Conf) (leader_id : string) (c : PsCall) (s : PsServer) :
  ps_serve g leader_id c s = None ↔
  (∃ keys, c = inl (CallMockGet keys) ∧ MockGet keys (s_engine s) (n_fs (s_node s)) = None) ∨
  (∃ request, c = inr (CallRead request) ∧
     (n_mgr (s_node s) = None ∨
      ∃ b d, n_mgr (s_node s) = Some b ∧ Block_is_leader b = true ∧
        GetDocByID (br_key request) (n_gamma (s_node s)) = (0, d) ∧ GammaDocToPbDoc d = None)).
Proof.
  destruct c as [[keys| |req|db space|req|]|[request att|request]]; simpl.
  - destruct (MockGet _ _ _) as [[docs fs]|] eqn:E; simpl; naive_solver.
  - naive_solver.
  - destruct (CreateSpace _ _ _). naive_solver.
  - destruct (DeleteSpace _ _ _ _). naive_solver.
  - naive_solver.
  - naive_solver.
  - naive_solver.
  - unfold RaftRpcImpl_read. destruct (n_mgr (s_node s)) as [b|]; simpl; [|naive_solver].
    destruct (Block_read _ _ _ _ _ _) as [[r buf]|] eqn:E; simpl.
    + split; [done|]. intros [?|(? & [= <-] & [?|(b' & d & [= <-] & ? & ? & ?)])]; [naive_solver|done|].
      enough (Block_read leader_id b (n_gamma (s_node s)) request empty_response [] = None)
        by congruence. apply Block_read_None. eauto.
    + apply Block_read_None in E as (? & d & ? & ?). split; [|done]. intros _. right. eauto 10.
Qed.

(** ** Instances of the properties *)

#[local] Instance service_info_json : JsonCodec PsNodeInfo := count_json PsNodeInfo.
#[local] Instance service_creq_json : JsonCodec CreateSpaceRequest := count_json CreateSpaceRequest.
#[local] Instance service_env : StartEnv := Build_StartEnv (λ _, true) (λ _, true) (λ _ _, 0) 0 0.
#[local] Instance service_request : WireCodec BlockRequest := count_codec BlockRequest.
#[local] Instance service_document : WireCodec Document := count_codec Document.

Definition sample_server : @PsServer map_doc map_engine := mkPsServer sample_node Engine_new.
Definition create_answered (st : RespStatus) : PsCall * PsAnswer :=
  (inl (CallCreateSpace sample_creq), AnsStatus st).
Definition sample_delete : PsCall :=
  inl (CallDeleteSpace (db_name (cs_space sample_creq)) (space_name (cs_space sample_creq))).
Definition kept_and_deleted : list (PsCall * PsAnswer) :=
  [create_answered (status_of 201 "Space has exist, space_name:s");
   (sample_delete, AnsStatus (status_of 0 ""))].
Definition not_deleted : list (PsCall * PsAnswer) :=
  [(sample_delete, AnsStatus (status_of 201 msg_not_exist))].

(** A space is created, its node becomes the leader, a second creation is
    refused and the space is deleted; or the creation fails, and the server is
    stuck. *)
Lemma ps_server_refines_witness :
  (∃ l1 l2, life_run Free [create_answered (status_of 0 "")] l1 ∧
     life_run l1 kept_and_deleted l2) ∧
  (∃ l1 l2, life_run Free [create_answered (status_of 5 (msg_create_table "failed"))] l1 ∧
     life_run l1 not_deleted l2 ∧
     (l1 = Stuck → l2 = Stuck)).
Proof.
  split.
  - edestruct (@ps_server_refines posix_util _ _ _ _ (map_admin 0) _ _ _ _ Conf_new Free
      sample_server [create_answered (status_of 0 "")] kept_and_deleted) as (l1 & l2 & L1 & _ & L2 & _).
    + by split_and!.
    + eapply (run_call _ ""); [reflexivity|apply run_nil].
    + eapply run_raft; [by eapply (event_leader_start _ _ 3)|].
      eapply (run_call _ ""); [reflexivity|]. eapply (run_call _ ""); [reflexivity|apply run_nil].
    + repeat constructor; discriminate.
    + exists l1, l2. split; [exact L1|exact L2].
  - edestruct (@ps_server_refines posix_util _ _ _ _ (map_admin 5) _ _ _ _ Conf_new Free
      sample_server [create_answered (status_of 5 (msg_create_table "failed"))] not_deleted) as (l1 & l2 & L1 & _ & L2 & _ & L).
    + by split_and!.
    + eapply (run_call _ ""); [reflexivity|apply run_nil].
    + eapply (run_call _ ""); [reflexivity|apply run_nil].
    + repeat constructor; discriminate.
    + exists l1, l2. split_and!; [exact L1|exact L2|exact L].
Defined.
