(* ===== verification/GroupStart.v ===== *)
(** * GroupStart: from the creation of a space to its documents

    The servers that answered [CreateSpace] of src/service/ps/ps_rpc.cc for the
    replicas of one partition are the raft group of ReplicaGroup at its start,
    so that what holds of its runs holds of the space from its creation on. *)
From S2P Require Import Prelude Numeric Bytes Common Dto Files Engine Wire RaftStore ReplicaGroup.
From S2P Require Import Config Http PsMeta PsRpc.
Local Open Scope Z_scope.

Section start.
Context `{FileUtil} `{StartEnv} `{GammaAdmin} `{JsonCodec PsNodeInfo}
  `{JsonCodec CreateSpaceRequest} `{WireCodec BlockRequest} `{WireCodec Document}.

(** A server as a node of a group, and the servers of a request. *)
Definition peer_of (n : PsNode) : Peer :=
  mkPeer (default Block_new (n_mgr n)) (n_gamma n) 0 false [] 0 0.
Definition group_of (req : CreateSpaceRequest) (init : GammaState) (nodes : gmap string PsNode) :
    Group := mkGroup (cs_space req) init [] [] (peer_of <$> nodes).

(** The server has answered the request with success. *)
Definition created_by (req : CreateSpaceRequest) (n' : PsNode) : Prop :=
  ∃ g n msg, CreateSpace g req n = (status_of 0 msg, n').

Lemma StartRaftServer_term root group conf ip port space fs msg mgr fs' :
  StartRaftServer root group conf ip port space (Some Block_new) fs = (msg, mgr, fs') →
  _leader_term <$> mgr = Some (-1).
Proof. unfold StartRaftServer, Block_start. intros E. repeat case_match; by simplify_eq/=. Qed.

Lemma created_leaderless req n' :
  created_by req n' → _leader_term <$> n_mgr n' = Some (-1).
Proof.
  intros (g & n & msg & E). unfold CreateSpace in E. destruct (HasSpace (n_mata n)); [done|].
  destruct (default _ _) as [[[root group] conf] port].
  destruct (CreateTable _ _) as [[code text] gamma].
  destruct (Z.eqb_spec code 0) as [->|Hne]; cbn [negb] in E; [|by injection E as -> _ _].
  unfold CreateBlock in E. destruct (DeleteBlock _ _) as [[??] fs].
  destruct (StartRaftServer _ _ _ _ _ _ _ _) as [[m1 mgr] fs1] eqn:Es.
  apply StartRaftServer_term in Es. destruct (failed m1); [done|].
  destruct (DumpCreateSpaceReq _ _) as [m2 fs2]. destruct (failed m2); [done|]. by injection E as _ <-.
Qed.

Lemma group_of_new req init nodes :
  db_name (cs_space req) ≠ "" →
  map_Forall (λ _ n, created_by req n ∧ n_gamma n = init) nodes → new_group (group_of req init nodes).
Proof.
  intros Hdb HN. split_and!; [done..|]. intros a p. cbn [g_peers group_of].
  intros (n & <- & Hn)%lookup_fmap_Some. destruct (HN a n Hn) as [HC Hg].
  pose proof (created_leaderless _ _ HC) as Ht. destruct HC as (g & n0 & msg & E).
  destruct (CreateSpace_started _ _ _ _ _ Hdb E) as (_ & _ & b & node & Hb & _ & _ & _ & _ & Hs).
  unfold new_peer, peer_of. rewrite Hb in *. simpl in *. split_and!; try done. congruence.
Qed.

Lemma group_run_space lossy g0 evs g : group_run lossy g0 evs g → g_space g = g_space g0.
Proof. induction 1 as [|evs g evs' g' _ IH Hs]; [done|]. rewrite <-IH. by destruct Hs. Qed.

End start.

(** ** Properties *)

(** C8. A space with long ids keeps the documents it acknowledged from its
    creation on: if the servers of a partition have answered the request for it
    with success and their engines start alike, then after every run of raft on
    these servers, with changes of leadership, snapshots and restarts, each write
    that was answered with success has its document in the log, and a leader that
    has applied it answers a read, by any text the engine takes for the id, with
    the last document under the id.  This is for runs in which every committed
    document has an int64 id and fields that can be stored, every document
    serializes, a restarted engine has the writes it had at its last snapshot,
    and no node is caught up by the snapshot of another node. *)
Theorem created_group_keeps_documents `{GammaDocLaws} `{!GammaEngine} `{GammaKeys}
    `{!GammaEngineLaws} `{GammaTable} `{!GammaAdmin} `{FileUtil} `{StartEnv} `{JsonCodec PsNodeInfo}
    `{JsonCodec CreateSpaceRequest} `{WireCodecLaws BlockRequest} `{WireCodecLaws Document}
    (req : CreateSpaceRequest) (init : GammaState) (nodes : gmap string PsNode)
    (evs : list Replied) (g : Group) (ev : Replied) :
  db_name (cs_space req) ≠ "" → space_id_type (cs_space req) = LONG_SDTYPE →
  map_Forall (λ _ n, created_by req n ∧ n_gamma n = init) nodes →
  group_run false (group_of req init nodes) evs g → log_storable g →
  (∀ d', is_Some (SerializeToString (A := Document) d')) →
  ev ∈ evs → resp_success (ev_response ev) = true →
  ∃ i d idv, doc_at (g_log g) i = Some d ∧ ParseFromString (ev_data ev) = Some d ∧
    doc_key d = Some idv ∧ read_by_leaders g i idv.
Proof.
  intros Hdb Hid HN HR HL Hall Hev Hsucc.
  assert (reachable false evs g) as Hreach.
  { exists (group_of req init nodes). split; [by apply group_of_new|done]. }
  assert (space_id_type (g_space g) = LONG_SDTYPE) as Hs
    by (by rewrite (group_run_space _ _ _ _ HR)).
  destruct (ack_in_log _ _ _ _ Hreach Hev Hsucc) as (i & d & Hd & Hp).
  destruct (HL _ _ Hd) as (idv & Hk & _). exists i, d, idv. split_and!; [done..|].
  by eapply committed_read.
Qed.

(** ** Instances of the properties *)

#[local] Instance start_doc : GammaDoc := map_doc.
#[local] Instance start_engine : GammaEngine := map_engine.
#[local] Instance start_request : WireCodec BlockRequest := count_codec BlockRequest.
#[local] Instance start_document : WireCodec Document := count_codec Document.
#[local] Instance start_request_laws : WireCodecLaws BlockRequest := count_codec_laws BlockRequest.
#[local] Instance start_document_laws : WireCodecLaws Document := count_codec_laws Document.
#[local] Existing Instances info_json creq_json sample_env.

(** One server; it becomes the leader, takes a document and applies it. *)
Definition one_server : gmap string PsNode := {["n1" := sample_created.2]}.
Definition start_group : Group := group_of sample_creq ∅ one_server.
Definition start_leader : Peer :=
  set_block (on_leader_start 3 (default Block_new (n_mgr sample_created.2))) (peer_of sample_created.2).
Definition start_log (proposed log : list LogEntry) : Group :=
  mkGroup (cs_space sample_creq) ∅ proposed log (<["n1" := start_leader]> (g_peers start_group)).
Definition start_entry : LogEntry := mkLogEntry "n1" (one_task doc_bytes).
Definition start_applied : Peer :=
  advance 1 (on_apply long_space [leader_entry] ∅).2 Finished start_leader.
Definition start_end : Group := set_peer "n1" start_applied (start_log [] [start_entry]).

Lemma start_run : group_run false start_group [first_answer] start_end.
Proof.
  change [first_answer] with (apply_answers "n1" "" (p_block start_leader) [leader_entry]
    [Some (set_success true empty_response)] Finished ++ [] ++ [] ++ [] ++ []).
  apply (gr_step false _ _ (start_log [] [start_entry])).
  - apply (gr_step false _ _ (start_log [start_entry] []));
      [|exact (gs_commit false (start_log [start_entry] []) [] _ [] eq_refl)].
    apply (gr_step false _ _ (start_log [] [])).
    + apply (gr_step false _ [] start_group); [constructor|].
      by apply (gs_leader_start false start_group "n1" (peer_of sample_created.2) 3).
    + apply (gs_propose false (start_log [] []) "n1" start_leader "" sample_req doc_bytes);
        [apply lookup_insert_eq|vm_compute; reflexivity|reflexivity].
  - apply (gs_apply false (start_log [] [start_entry]) "n1" start_leader "" 1 [leader_entry]);
      [apply lookup_insert_eq|reflexivity| |exact first_apply_eq].
    constructor; [|constructor]. split; [reflexivity|by right].
Qed.

Lemma created_group_keeps_documents_witness :
  ∃ i d idv, doc_at (g_log start_end) i = Some d ∧
    ParseFromString (ev_data first_answer) = Some d ∧ doc_key d = Some idv ∧
    read_by_leaders (H2 := decimal_keys) start_end i idv.
Proof.
  apply (@created_group_keeps_documents map_doc map_doc_laws map_engine decimal_keys
    map_engine_laws name_table (map_admin 0) posix_util _ _ _ _ _ _ _ sample_creq ∅ one_server [first_answer] start_end
    first_answer).
  - discriminate.
  - reflexivity.
  - apply map_Forall_singleton. split; [|reflexivity]. by exists sample_conf, sample_node, "".
  - exact start_run.
  - intros [|i] d Hd; [|done]. assert (Some d = Some sample_doc) as [= ->].
    { rewrite <-Hd. apply (parse_serialize sample_doc). reflexivity. }
    apply sample_storable.
  - intros d'. eexists. reflexivity.
  - left.
  - reflexivity.
Defined.
