(* ===== verification/RaftClient.v ===== *)
(** * RaftClient: src/raft_store/raft_client.{h,cc} and src/common/brpc_options.{h,cc}

    The router's client of a partition's raft group: two connections, one in use
    and one to build the next in.  braft's route table and the RPCs are a
    parameter with a state of its own, [RaftNet]. *)
From S2P Require Import Prelude Bytes Common.
Local Open Scope Z_scope.

(** ** The network *)

(** [inl] is a failed RPC with its error text. *)
Class RaftNet := {
  Net : Type;
  select_leader : string → Net → option string * Net;
  refresh_leader : string → Net → bool * Net;
  update_leader : string → string → Net → Net;
  update_configuration : string → string → Net → Z * Net;
  IsAskedToQuit : Net → bool * Net;
  channel_Init : string → Net → Z * Net;
  rpc_write : string → BlockRequest → bytes → Net → (string + BlockResponse) * Net
}.

(** ** State *)

(** [RaftOptions]; a stub is known by the leader its channel was opened to. *)
Record RaftOptions := mkRaftOptions {
  ro_group : string;
  ro_conf : string;
  ro_leader : string;
  ro_stub : option string;
  ro_ok : bool
}.

Definition RaftOptions_new : RaftOptions := mkRaftOptions "" "" "" None false.

Record RaftClient := mkRaftClient {
  _raft_options : list RaftOptions;
  _idx : nat
}.

Definition RaftClient_new : RaftClient := mkRaftClient [] 0.

Definition set_option (i : nat) (o : RaftOptions) (c : RaftClient) : RaftClient :=
  mkRaftClient (<[i := o]> (_raft_options c)) (_idx c).

Section client.
Context `{RaftNet}.

(** [RaftOptions::Build] *)
Definition Build (o : RaftOptions) (net : Net) : bool * RaftOptions * Net :=
  let '(rc, net) := channel_Init (ro_leader o) net in
  if negb (rc =? 0) then (false, o, net)
  else (true, mkRaftOptions (ro_group o) (ro_conf o) (ro_leader o) (Some (ro_leader o)) (ro_ok o), net).

(** ** Connecting *)

Definition msg_select (group conf : string) : string :=
  "Fail to select leader of group:[" +:+ group +:+ "] conf:[" +:+ conf +:+ "]".

(** The message and the output argument [leader], [retries] attempts to go. *)
Fixpoint GetLeader (leader group conf : string) (retries : nat) (net : Net) :
    string * string * Net :=
  match retries with
  | O => (msg_select group conf, leader, net)
  | S n =>
      let '(r, net) := select_leader group net in
      match r with
      | None =>
          let '(_, net) := refresh_leader group net in
          GetLeader leader group conf n net
      | Some l => ("", l, net)
      end
  end.

Definition msg_quit : string := "Brpc IsAskedToQuit, not update raft connection.".

(** [None] is the access to an option that is not there. *)
Definition CreateRaftConnection (group conf : string) (new_idx : nat) (c : RaftClient)
    (net : Net) : option (string * RaftClient * Net) :=
  o ← _raft_options c !! new_idx;
  let o := mkRaftOptions group conf (ro_leader o) (ro_stub o) false in
  let '(quit, net) := IsAskedToQuit net in
  if quit then Some (msg_quit, set_option new_idx o c, net)
  else
    let '(msg, leader, net) := GetLeader (ro_leader o) group conf 3 net in
    let o := mkRaftOptions group conf leader (ro_stub o) false in
    if! msg then Some (msg, set_option new_idx o c, net)
    else
      let '(ok, o, net) := Build o net in
      if negb ok then
        Some ("Fail to connet brpc, leader:" +:+ ro_leader o, set_option new_idx o c, net)
      else
        let o := mkRaftOptions group conf (ro_leader o) (ro_stub o) true in
        Some ("", mkRaftClient (<[new_idx := o]> (_raft_options c)) new_idx, net).

(** The loop of [Init]. *)
Fixpoint init_connections (n i : nat) (group conf : string) (c : RaftClient) (net : Net) :
    option (string * RaftClient * Net) :=
  match n with
  | O => Some ("", c, net)
  | S n' =>
      '(msg, c, net) ← CreateRaftConnection group conf i c net;
      if! msg then Some ("Fail to get leader", c, net)
      else init_connections n' (S i) group conf c net
  end.

Definition RaftClient_Init (group conf : string) (c : RaftClient) (net : Net) :
    option (string * RaftClient * Net) :=
  let c := mkRaftClient
    (take 2 (_raft_options c) ++ replicate (2 - length (_raft_options c)) RaftOptions_new)
    (_idx c) in
  let '(rc, net) := update_configuration group conf net in
  if negb (rc =? 0) then Some ("group:" +:+ group +:+ "update_configuratione error", c, net)
  else init_connections 2 0 group conf c net.

(** ** Writing *)

Definition msg_send (leader text : string) : string :=
  "Fail to send request to " +:+ leader +:+ " : " +:+ text.
Definition msg_redirect (leader redirect : string) : string :=
  "Fail to send request to " +:+ leader +:+ ", redirecting to " +:+
  (if bool_decide (redirect = "") then "nowhere" else redirect).

(** The connection is replaced by a new one in the other slot. *)
Definition reconnect (o : RaftOptions) (c : RaftClient) (net : Net) : option (RaftClient * Net) :=
  '(_, c, net) ← CreateRaftConnection (ro_group o) (ro_conf o) ((_idx c + 1) mod 2)%nat c net;
  Some (c, net).

(** The attempts, [n] of them to go; [None] is an access to an option or a stub
    that is not there. *)
Fixpoint write_loop (n : nat) (msg : string) (resp : BlockResponse) (req : BlockRequest)
    (data : bytes) (c : RaftClient) (net : Net) :
    option (string * BlockResponse * RaftClient * Net) :=
  match n with
  | O => Some (msg, resp, c, net)
  | S n' =>
      o ← _raft_options c !! _idx c;
      if negb (ro_ok o) then
        '(c, net) ← reconnect o c net;
        write_loop n' msg empty_response req data c net
      else
        stub ← ro_stub o;
        let '(r, net) := rpc_write stub req data net in
        match r with
        | inl text =>
            let net := update_leader (ro_group o) "" net in
            '(c, net) ← reconnect o c net;
            write_loop n' (msg_send (ro_leader o) text) empty_response req data c net
        | inr resp =>
            if negb (resp_success resp) then
              let net := update_leader (ro_group o) (bs_redirect resp) net in
              '(c, net) ← reconnect o c net;
              write_loop n' (msg_redirect (ro_leader o) (bs_redirect resp)) resp req data c net
            else Some ("", resp, c, net)
        end
  end.

Definition Write (req : BlockRequest) (resp : BlockResponse) (data : bytes) (c : RaftClient)
    (net : Net) : option (string * BlockResponse * RaftClient * Net) :=
  write_loop 3 "" resp req data c net.

#[global] Arguments GetLeader : simpl never.

(** ** Invariant *)

(** Two options, the one in use for the group [g] with configuration [cf]; an
    option marked ok has a stub to its leader. *)
Record client_wf (g cf : string) (c : RaftClient) : Prop := {
  cw_two : length (_raft_options c) = 2%nat;
  cw_idx : (_idx c < 2)%nat;
  cw_cur : ∀ o, _raft_options c !! _idx c = Some o → ro_group o = g ∧ ro_conf o = cf;
  cw_ok : ∀ i o, _raft_options c !! i = Some o → ro_ok o = true → ro_stub o = Some (ro_leader o)
}.

Lemma set_other_wf g cf c i o :
  client_wf g cf c → i ≠ _idx c → (ro_ok o = true → ro_stub o = Some (ro_leader o)) →
  client_wf g cf (set_option i o c).
Proof.
  intros [H2 Hi Hc Ho] Hne Hok. constructor; simpl.
  - by rewrite length_insert.
  - done.
  - intros o'. rewrite list_lookup_insert_ne by done. apply Hc.
  - intros j o' [(-> & <- & _)|[_ Hl]]%list_lookup_insert_Some; [done|]. by eapply Ho.
Qed.

(** A new connection in the other slot keeps the invariant, whatever becomes of
    it, and a connection that was made is in use. *)
Lemma CreateRaftConnection_wf g cf c net i :
  client_wf g cf c → (i < 2)%nat → i ≠ _idx c →
  ∃ msg c' net', CreateRaftConnection g cf i c net = Some (msg, c', net') ∧
    client_wf g cf c' ∧ (msg = "" → _idx c' = i ∧ ∃ o, _raft_options c' !! i = Some o ∧ ro_ok o = true).
Proof.
  intros Hw Hi Hne. unfold CreateRaftConnection.
  destruct (lookup_lt_is_Some_2 (_raft_options c) i) as [o ->]; [by rewrite (cw_two _ _ _ Hw)|].
  simpl. destruct (IsAskedToQuit net) as [quit net1].
  destruct quit; [do 3 eexists; split; [done|]; split; [by apply set_other_wf|done]|].
  destruct (GetLeader _ _ _ _ _) as [[msg leader] net2].
  destruct (failed msg) eqn:Ef.
  { do 3 eexists. split; [done|]. split; [by apply set_other_wf|].
    intros ->. done. }
  unfold Build. simpl. destruct (channel_Init leader net2) as [rc net3].
  destruct (rc =? 0); simpl.
  - do 3 eexists. split; [done|]. destruct Hw as [H2 Hidx Hc Ho]. split.
    + constructor; simpl; [by rewrite length_insert|done| |].
      * intros o' [(_ & <- & _)|[? _]]%list_lookup_insert_Some; done.
      * intros j o' [(-> & <- & _)|[_ Hl]]%list_lookup_insert_Some; [done|]. by eapply Ho.
    + intros _. split; [done|]. eexists. simpl. rewrite list_lookup_insert_eq by lia. done.
  - do 3 eexists. split; [done|]. split; [by apply set_other_wf|].
    by intros [? _]%append_eq_nil.
Qed.

Lemma other_slot i : (i < 2)%nat → ((i + 1) mod 2 < 2)%nat ∧ ((i + 1) mod 2)%nat ≠ i.
Proof. intros Hi. destruct i as [|[|]]; [simpl; lia..|lia]. Qed.

Lemma reconnect_wf g cf c o net :
  client_wf g cf c → _raft_options c !! _idx c = Some o →
  ∃ c' net', reconnect o c net = Some (c', net') ∧ client_wf g cf c'.
Proof.
  intros Hw Ho. destruct (cw_cur _ _ _ Hw _ Ho) as [<- <-]. unfold reconnect.
  destruct (other_slot _ (cw_idx _ _ _ Hw)) as [Hlt Hne].
  destruct (CreateRaftConnection_wf _ _ _ net _ Hw Hlt Hne) as (msg & c' & net' & -> & Hw' & _).
  by exists c', net'.
Qed.

Lemma write_loop_wf g cf n msg resp req data c net :
  client_wf g cf c → (n ≠ 0%nat ∨ resp_success resp = false) →
  ∃ msg' resp' c' net', write_loop n msg resp req data c net = Some (msg', resp', c', net') ∧
    client_wf g cf c' ∧
    (resp_success resp' = true → msg' = "" ∧
      ∃ leader net0, rpc_write leader req data net0 = (inr resp', net')).
Proof.
  revert msg resp c net. induction n as [|n IH]; intros msg resp c net Hw Hr.
  { do 4 eexists. split; [done|]. split; [done|]. destruct Hr; congruence. }
  simpl. destruct (lookup_lt_is_Some_2 (_raft_options c) (_idx c)) as [o Ho].
  { rewrite (cw_two _ _ _ Hw). apply Hw. }
  rewrite Ho. simpl. destruct (ro_ok o) eqn:Eok; simpl; cycle 1.
  { destruct (reconnect_wf _ _ _ _ net Hw Ho) as (c' & net' & -> & Hw'). simpl. apply IH; [done|by right]. }
  rewrite (cw_ok _ _ _ Hw _ _ Ho Eok). simpl.
  destruct (rpc_write (ro_leader o) req data net) as [[text|r] net1] eqn:Er.
  - destruct (reconnect_wf _ _ _ _ (update_leader (ro_group o) "" net1) Hw Ho)
      as (c' & net' & -> & Hw'). simpl. apply IH; [done|by right].
  - destruct (resp_success r) eqn:Es; simpl.
    + do 4 eexists. split; [done|]. split; [done|]. intros _. split; [done|]. by do 2 eexists.
    + destruct (reconnect_wf _ _ _ _ (update_leader (ro_group o) (bs_redirect r) net1) Hw Ho)
        as (c' & net' & -> & Hw'). simpl. apply IH; [done|by right].
Qed.

(** Without a leader the connection in use stays the same. *)
Lemma reconnect_stays g cf c o net :
  client_wf g cf c → _raft_options c !! _idx c = Some o →
  (∀ n leader net0, (GetLeader leader g cf n net0).1.1 = msg_select g cf) →
  ∃ c' net', reconnect o c net = Some (c', net') ∧ client_wf g cf c' ∧
    _raft_options c' !! _idx c' = Some o.
Proof.
  intros Hw Ho HG. destruct (cw_cur _ _ _ Hw _ Ho) as [Eg Ec]. unfold reconnect. rewrite Eg, Ec.
  destruct (other_slot _ (cw_idx _ _ _ Hw)) as [Hlt Hne]. set (j := (_ mod 2)%nat) in *.
  unfold CreateRaftConnection.
  destruct (lookup_lt_is_Some_2 (_raft_options c) j) as [o' ->]; [by rewrite (cw_two _ _ _ Hw)|].
  simpl. destruct (IsAskedToQuit net) as [quit net1].
  assert (∀ o'', ro_ok o'' = false →
    client_wf g cf (set_option j o'' c) ∧
    _raft_options (set_option j o'' c) !! _idx (set_option j o'' c) = Some o) as Hs.
  { intros o'' Hf. split; [apply set_other_wf; [done|done|congruence]|].
    simpl. by rewrite list_lookup_insert_ne. }
  destruct quit; [do 2 eexists; split; [done|]; by apply Hs|].
  specialize (HG 3%nat (ro_leader o') net1).
  destruct (GetLeader _ _ _ _ _) as [[msg leader] net2]. simpl in HG. subst msg.
  do 2 eexists. split; [done|]. by apply Hs.
Qed.

Lemma CreateRaftConnection_defined g cf c net i :
  length (_raft_options c) = 2%nat → (i < 2)%nat →
  ∃ msg c' net', CreateRaftConnection g cf i c net = Some (msg, c', net') ∧
    length (_raft_options c') = 2%nat.
Proof.
  intros H2 Hi. unfold CreateRaftConnection.
  destruct (lookup_lt_is_Some_2 (_raft_options c) i) as [o ->]; [by rewrite H2|]. simpl.
  destruct (IsAskedToQuit net) as [[|] net1]; [|destruct (GetLeader _ _ _ _ _) as [[m leader] net2];
    destruct (failed m); [|destruct (Build _ _) as [[[|] o'] net3]]];
    do 3 eexists; (split; [done|]); simpl; by rewrite length_insert.
Qed.

Lemma RaftClient_Init_defined g cf c net : is_Some (RaftClient_Init g cf c net).
Proof.
  unfold RaftClient_Init. destruct (update_configuration g cf net) as [rc net1].
  destruct (rc =? 0); [|by eexists]. simpl negb. cbn [init_connections].
  set (c0 := mkRaftClient _ _). assert (length (_raft_options c0) = 2%nat) as H0.
  { simpl. rewrite length_app, length_take, length_replicate. lia. }
  destruct (CreateRaftConnection_defined g cf c0 net1 0 H0) as (m1 & c1 & net2 & -> & H1); [lia|].
  cbn [mbind option_bind]. destruct (failed m1); [by eexists|].
  destruct (CreateRaftConnection_defined g cf c1 net2 1 H1) as (m2 & c2 & net3 & -> & H2); [lia|].
  cbn [mbind option_bind]. destruct (failed m2); by eexists.
Qed.

Lemma CreateRaftConnection_new g cf c net i msg c' net' :
  length (_raft_options c) = 2%nat → (i < 2)%nat →
  (∀ j o, _raft_options c !! j = Some o → ro_ok o = true → ro_stub o = Some (ro_leader o)) →
  CreateRaftConnection g cf i c net = Some (msg, c', net') → msg = "" → client_wf g cf c'.
Proof.
  intros H2 Hi Ho E Hmsg. unfold CreateRaftConnection in E.
  destruct (lookup_lt_is_Some_2 (_raft_options c) i) as [o Hl]; [by rewrite H2|].
  rewrite Hl in E. simpl in E. destruct (IsAskedToQuit net) as [[|] net1]; [by simplify_eq|].
  destruct (GetLeader _ _ _ _ _) as [[m leader] net2]. destruct (failed m) eqn:Ef.
  { apply failed_true in Ef. congruence. }
  unfold Build in E. simpl in E. destruct (channel_Init leader net2) as [rc net3].
  destruct (rc =? 0); simpl in E.
  - injection E as <- <- <-. constructor; simpl; [by rewrite length_insert|done| |].
    + intros o' [(_ & <- & _)|[? _]]%list_lookup_insert_Some; done.
    + intros j o' [(-> & <- & _)|[_ Hj]]%list_lookup_insert_Some; [done|]. by eapply Ho.
  - exfalso. assert ("Fail to connet brpc, leader:" +:+ leader = "") as Hx by congruence.
    by apply append_eq_nil in Hx as [? _].
Qed.

End client.

(** ** Properties *)

(** C27. The client's connections: once [Init] has succeeded there are always
    two options, the one in use is for the group of [Init], and a write never
    uses a connection that was not built; a write that returns with a
    successful response got that response from a replica for this very request
    in its last RPC. *)
Theorem raft_client_write `{RaftNet} (g cf : string) (net net1 : Net) (c : RaftClient)
    (req : BlockRequest) (resp : BlockResponse) (data : bytes) :
  RaftClient_Init g cf RaftClient_new net = Some ("", c, net1) →
  client_wf g cf c ∧
  ∀ c0 net0, client_wf g cf c0 →
    ∃ msg resp' c' net', Write req resp data c0 net0 = Some (msg, resp', c', net') ∧
      client_wf g cf c' ∧
      (resp_success resp' = true → msg = "" ∧
        ∃ leader netx, rpc_write leader req data netx = (inr resp', net')).
Proof.
  intros E. split; cycle 1.
  { intros c0 net0 Hw. apply write_loop_wf; [done|by left]. }
  unfold RaftClient_Init in E. simpl in E.
  destruct (update_configuration g cf net) as [rc net2]. destruct (rc =? 0); [|by simplify_eq].
  simpl in E. destruct (CreateRaftConnection g cf 0 _ net2) as [[[m1 c1] net3]|] eqn:E1; [|done].
  simpl in E. destruct (failed m1) eqn:F1; [done|]. apply failed_false in F1 as ->.
  assert (client_wf g cf c1) as Hw1.
  { eapply CreateRaftConnection_new in E1; try done; [simpl; lia|].
    intros [|[|j]] o [= <-]; done. }
  destruct (CreateRaftConnection g cf 1 c1 net3) as [[[m2 c2] net4]|] eqn:E2; [|done].
  simpl in E. destruct (failed m2) eqn:F2; [done|]. apply failed_false in F2 as ->.
  injection E as <- <-. eapply CreateRaftConnection_new in E2; try done; apply Hw1 || lia.
Qed.

(** A write without any connection is not an error by itself: when the
    group has no leader, the message of [Write] is empty and only the missing
    success of the response tells the caller. *)
Theorem write_without_leader_silent `{RaftNet} (g cf : string) (c : RaftClient) (net : Net)
    (o : RaftOptions) (req : BlockRequest) (resp : BlockResponse) (data : bytes) :
  client_wf g cf c → _raft_options c !! _idx c = Some o → ro_ok o = false →
  (∀ group n, (select_leader group n).1 = None) →
  ∃ c' net', Write req resp data c net = Some ("", empty_response, c', net').
Proof.
  intros Hw Ho Hok Hsel.
  assert (∀ n leader net0, (GetLeader leader g cf n net0).1.1 = msg_select g cf) as HG.
  { induction n as [|n IH]; intros leader net0; [done|]. unfold GetLeader. fold GetLeader.
    specialize (Hsel g net0). destruct (select_leader g net0) as [r net1]. simpl in Hsel. subst r.
    destruct (refresh_leader g net1). apply IH. }
  assert (∀ n resp c net, client_wf g cf c → _raft_options c !! _idx c = Some o →
    ∃ c' net', write_loop (S n) "" resp req data c net = Some ("", empty_response, c', net')) as HL.
  { clear c net Hw Ho resp. induction n as [|n IH]; intros resp c net Hw Ho;
      simpl; rewrite Ho; simpl; rewrite Hok; simpl;
      destruct (cw_cur _ _ _ Hw _ Ho) as [Hg Hc];
      destruct (other_slot _ (cw_idx _ _ _ Hw)) as [Hlt Hne];
      destruct (reconnect_stays g cf c o net Hw Ho HG) as (c' & net' & -> & Hw' & Ho'); simpl.
    - by do 2 eexists.
    - by apply (IH empty_response). }
  by apply (HL 2%nat resp).
Qed.

(** ** Instances of the properties *)

(** A network whose route table is the leader itself: a group with the leader
    [leader], or with none, and replicas that answer every write alike. *)
Definition fixed_net (leader : option string) (answer : BlockResponse) : RaftNet := {|
  Net := ();
  select_leader _ _ := (leader, ());
  refresh_leader _ _ := (true, ());
  update_leader _ _ _ := ();
  update_configuration _ _ _ := (0, ());
  IsAskedToQuit _ := (false, ());
  channel_Init _ _ := (0, ());
  rpc_write _ _ _ _ := (inr answer, ())
|}.

Definition answer_ok : BlockResponse := mkBlockResponse (Some true) "" "".
Definition any_request : BlockRequest := mkBlockRequest "db" "s" UPSERT STRING "k".

Definition connected : RaftClient :=
  mkRaftClient [mkRaftOptions "g" "c" "a:1" (Some "a:1") true;
    mkRaftOptions "g" "c" "a:1" (Some "a:1") true] 1.

Lemma raft_client_write_witness :
  client_wf "g" "c" connected ∧
  ∃ msg resp' c', @Write (fixed_net (Some "a:1") answer_ok) any_request empty_response []
    connected () = Some (msg, resp', c', ()).
Proof.
  destruct (@raft_client_write (fixed_net (Some "a:1") answer_ok) "g" "c" () () connected
    any_request empty_response [] eq_refl) as [Hw HW].
  split; [exact Hw|]. destruct (HW connected () Hw) as (msg & resp' & c' & [] & E & _).
  exists msg, resp', c'. exact E.
Defined.

Definition broken : RaftClient :=
  mkRaftClient [mkRaftOptions "g" "c" "a:1" (Some "a:1") false; RaftOptions_new] 0.

Lemma broken_wf : client_wf "g" "c" broken.
Proof.
  constructor; simpl; [done|lia|by intros o [= <-]|].
  intros [|[|i]] o; simpl; intros [= <-]; done.
Qed.

Lemma write_without_leader_silent_witness :
  ∃ c' net', @Write (fixed_net None answer_ok) any_request empty_response [] broken () =
    Some ("", empty_response, c', net').
Proof.
  apply (@write_without_leader_silent (fixed_net None answer_ok) "g" "c" broken ()
    (mkRaftOptions "g" "c" "a:1" (Some "a:1") false)).
  - exact broken_wf.
  - reflexivity.
  - reflexivity.
  - intros. reflexivity.
Defined.
