(* ===== verification/Partition.v ===== *)
(** * Partition: src/service/router/{partition_connection,space_connection}.{h,cc}
    and src/clients/ps_rpc_client.{h,cc}

    The router's connections to the replicas of a partition and to the
    partitions of a space.  A [std::map] is a sorted list of entries (StdMap);
    the partition servers' read RPC is a parameter on the same network as the
    raft client's. *)
From S2P Require Import Prelude StdMap Numeric Bytes Common Wire RaftClient.
Local Open Scope Z_scope.

(** ** The partition server's client *)

Class PsNet `{RaftNet} := {
  ps_channel_Init : string → Net → Z * Net;
  rpc_get : string → list string → Net → (string + GetResponse) * Net
}.

(** The RPCs [Search] and [MockGet], with responses in [R]; the latter also takes
    the type of the keys. *)
Class PsOtherNet (R : Type) `{RaftNet} := {
  rpc_search : string → Net → (string + R) * Net;
  rpc_mock_get : string → list string → Z → Net → (string + R) * Net
}.

(** [PsRpcClient] with its [BrpcOptions]: the address and whether there is a stub. *)
Record PsRpcClient := mkPsRpcClient { pc_addr_port : string; pc_stub : bool }.
Definition PsRpcClient_new : PsRpcClient := mkPsRpcClient "" false.

(** A document with its key, as the router groups them. *)
Record PbDocInfo := mkPbDocInfo { pdi_key : string; pdi_doc : Document }.
Record DocsGroup := mkDocsGroup { dg_partition_id : Z; dg_infos : list PbDocInfo }.

Definition Errs : Type := list (string * string).
Definition Docs : Type := list (string * Document).

(** ** State *)

Record PartitionOpt := mkPartitionOpt {
  po_partition : Partition;
  po_ps_list : list PsRpcClient;
  po_replicas_num : Z
}.

Record PartitionConn := mkPartitionConn {
  pt_opt : list (option PartitionOpt);
  pt_idx : nat;
  pt_raft : RaftClient;
  pt_db : string;
  pt_space : string
}.

Definition PartitionConn_new (db space : string) : PartitionConn :=
  mkPartitionConn [] 0 RaftClient_new db space.

Section partition.
Context `{PsNet} `{WireCodec Document}.

(** [PsRpcClient::Init] over [BrpcOptions::Init]: the stub stays as it was when
    the channel does not open. *)
Definition PsRpcClient_Init (addr_port : string) (c : PsRpcClient) (net : Net) :
    string * PsRpcClient * Net :=
  let '(rc, net) := ps_channel_Init addr_port net in
  if negb (rc =? 0) then
    ("Fail to initialize channel, addr_and_port:" +:+ addr_port,
     mkPsRpcClient addr_port (pc_stub c), net)
  else ("", mkPsRpcClient addr_port true, net).

(** [QueryPsRpcImp]: the RPC [call] for the operation [op_type] into [resp]. *)
Definition QueryPsRpcImp {R} (call : Net → (string + R) * Net) (op_type : string) (resp : R)
    (net : Net) : string * R * Net :=
  let '(r, net) := call net in
  match r with
  | inl text => ("Query Ps " +:+ op_type +:+ " rpc failed. error:" +:+ text, resp, net)
  | inr resp => ("", resp, net)
  end.

Definition msg_no_stub (c : PsRpcClient) (op_type : string) : string :=
  "addr_port:" +:+ pc_addr_port c +:+ " stub is nullptr, not run " +:+ op_type +:+ "()".

Definition PsRpcClient_Get (keys : list string) (c : PsRpcClient) (net : Net) :
    string * GetResponse * Net :=
  if negb (pc_stub c) then (msg_no_stub c "Get", empty_get_response, net)
  else QueryPsRpcImp (rpc_get (pc_addr_port c) keys) "Get" empty_get_response net.

(** [Search] sends an empty request and drops the answer; it does not look
    whether there is a stub, [None] is the call through the null pointer. *)
Definition PsRpcClient_Search {R} `{!PsOtherNet R} (resp : R) (c : PsRpcClient) (net : Net) :
    option Net :=
  if negb (pc_stub c) then None
  else Some (QueryPsRpcImp (rpc_search (pc_addr_port c)) "Search" resp net).2.

Definition PsRpcClient_MockGet {R} `{!PsOtherNet R} (keys : list string) (resp : R)
    (c : PsRpcClient) (net : Net) : string * R * Net :=
  if negb (pc_stub c) then (msg_no_stub c "MockGet", resp, net)
  else QueryPsRpcImp (rpc_mock_get (pc_addr_port c) keys 1) "MockGet" resp net.

(** ** Opening *)

(** [None] is the exception of [resize] with a negative number. *)
Definition PartitionOpt_new (pb_partition : Partition) : option PartitionOpt :=
  let n := int8 (Z.of_nat (length (replicas pb_partition))) in
  if n <? 0 then None
  else Some (mkPartitionOpt pb_partition (replicate (Z.to_nat n) PsRpcClient_new) n).

Fixpoint opt_init_loop (rs : list Replica) (i : nat) (msg : string) (ps_list : list PsRpcClient)
    (net : Net) : option (string * list PsRpcClient * Net) :=
  match rs with
  | [] => Some (msg, ps_list, net)
  | rep :: rs' =>
      let addr_port := ps_ip rep +:+ ":" +:+ to_string (ps_port rep) in
      cl ← ps_list !! i;
      let '(one_msg, cl, net) := PsRpcClient_Init addr_port cl net in
      let msg := if failed one_msg then
          msg +:+ "replica_id:" +:+ to_string (Z.of_nat i) +:+ ", " +:+ one_msg +:+ "; "
        else msg in
      opt_init_loop rs' (S i) msg (<[i := cl]> ps_list) net
  end.

Definition PartitionOpt_Init (o : PartitionOpt) (net : Net) :
    option (string * PartitionOpt * Net) :=
  '(msg, ps_list, net) ← opt_init_loop (replicas (po_partition o)) 0 "" (po_ps_list o) net;
  Some (msg, mkPartitionOpt (po_partition o) ps_list (po_replicas_num o), net).

Definition open_opt (pb_partition : Partition) (net : Net) : option (string * PartitionOpt * Net) :=
  o ← PartitionOpt_new pb_partition; PartitionOpt_Init o net.

Definition msg_no_replicas (pb_partition : Partition) : string :=
  "partition group_name:" +:+ group_name pb_partition +:+ "replicas num is 0".

Definition Partition_Init (pb_partition : Partition) (c : PartitionConn) (net : Net) :
    option (string * PartitionConn * Net) :=
  if bool_decide (replicas pb_partition = []) then
    Some (msg_no_replicas pb_partition,
          mkPartitionConn (take 2 (pt_opt c) ++ replicate (2 - length (pt_opt c)) None)
            (pt_idx c) (pt_raft c) (pt_db c) (pt_space c), net)
  else
    '(_, o1, net) ← open_opt pb_partition net;
    '(_, o2, net) ← open_opt pb_partition net;
    '(msg, raft, net) ←
      RaftClient_Init (group_name pb_partition) (GetRaftConf pb_partition) (pt_raft c) net;
    Some (msg, mkPartitionConn [Some o1; Some o2] 0 raft (pt_db c) (pt_space c), net).

Definition UpdatePsConn (pb_partition : Partition) (c : PartitionConn) (net : Net) :
    option (string * PartitionConn * Net) :=
  if bool_decide (replicas pb_partition = []) then
    Some (msg_no_replicas pb_partition, c, net)
  else
    let new_ps_idx := ((pt_idx c + 1) mod 2)%nat in
    '(msg, o, net) ← open_opt pb_partition net;
    if! msg then Some (msg, c, net)
    else
      _ ← pt_opt c !! new_ps_idx;
      Some ("", mkPartitionConn (<[new_ps_idx := Some o]> (pt_opt c)) new_ps_idx (pt_raft c)
        (pt_db c) (pt_space c), net).

(** ** Reading *)

Definition GetReplicaIdx (raw : Z) (replicas_num : Z) : Z :=
  let max_v := if replicas_num <? 1 then 1 else replicas_num in
  uint32 (uint32 (GenRandomInt raw 1 max_v) - 1).

Definition add_err_msg (doc_keys : list string) (msg : string) (err_docs : Errs) : Errs :=
  fold_left (λ m key, sm_insert key msg m) doc_keys err_docs.

(** [key_to_idx[doc._id()] = i] over a list, from index [i]. *)
Fixpoint index_by {A} (id : A → string) (l : list A) (i : nat) (m : list (string * nat)) :
    list (string * nat) :=
  match l with
  | [] => m
  | x :: l' => index_by id l' (S i) (sm_insert (id x) i m)
  end.

Definition msg_key_not_found : string := "Key not found in response".

(** The answer of a partition server is distributed over the keys.  The
    accesses to the response are at indices of its own lists. *)
Fixpoint take_response (doc_keys : list string) (resp : GetResponse)
    (succ failed_idx : list (string * nat)) (err_docs : Errs) (docs_mp : Docs) :
    option (Errs * Docs) :=
  match doc_keys with
  | [] => Some (err_docs, docs_mp)
  | key :: rest =>
      match sm_lookup key succ with
      | Some i =>
          d ← gs_documents resp !! i;
          take_response rest resp succ failed_idx err_docs (sm_insert key d docs_mp)
      | None =>
          match sm_lookup key failed_idx with
          | Some i =>
              s ← gs_failed_docs resp !! i;
              take_response rest resp succ failed_idx (sm_insert key (ds_msg s) err_docs) docs_mp
          | None =>
              take_response rest resp succ failed_idx
                (sm_insert key msg_key_not_found err_docs) docs_mp
          end
      end
  end.

Definition _retries : nat := 3.

(** The attempts, [n] of them to go, from the replica [replica_idx]. *)
Fixpoint get_loop (n : nat) (first : bool) (replica_idx : Z) (one_msg : string)
    (doc_keys : list string) (o : PartitionOpt) (docs_mp : Docs) (net : Net) :
    option (Errs * Docs * Net) :=
  match n with
  | O => Some (add_err_msg doc_keys ("GetDocs from Ps error, msg:" +:+ one_msg) [], docs_mp, net)
  | S n' =>
      let replica_idx :=
        if first then replica_idx else (replica_idx + 1) `rem` po_replicas_num o in
      if replica_idx <? 0 then None
      else
        cl ← po_ps_list o !! Z.to_nat replica_idx;
        let '(one_msg, ps_resp, net) := PsRpcClient_Get doc_keys cl net in
        if! one_msg then get_loop n' false replica_idx one_msg doc_keys o docs_mp net
        else
          let succ := index_by doc_id (gs_documents ps_resp) 0 [] in
          let failed_idx := index_by ds_id (gs_failed_docs ps_resp) 0 [] in
          '(err_docs, docs_mp) ← take_response doc_keys ps_resp succ failed_idx [] docs_mp;
          Some (err_docs, docs_mp, net)
  end.

Definition msg_null_opt : string := "***** two buffer partion_opt is null *****".

Definition Partition_GetDocs (raw : Z) (doc_keys : list string) (docs_mp : Docs)
    (c : PartitionConn) (net : Net) : option (Errs * Docs * Net) :=
  o ← pt_opt c !! pt_idx c;
  match o with
  | None => Some (add_err_msg doc_keys msg_null_opt [], docs_mp, net)
  | Some o =>
      get_loop _retries true (GetReplicaIdx raw (po_replicas_num o)) "" doc_keys o docs_mp net
  end.

(** ** Writing *)

Definition msg_serialize_doc : string := "SerializeToString Document failed".

Definition upsert_request (c : PartitionConn) (key : string) : BlockRequest :=
  mkBlockRequest (pt_db c) (pt_space c) UPSERT STRING key.

Definition set_raft (r : RaftClient) (c : PartitionConn) : PartitionConn :=
  mkPartitionConn (pt_opt c) (pt_idx c) r (pt_db c) (pt_space c).

Fixpoint upsert_loop (infos : list PbDocInfo) (err_docs : Errs) (c : PartitionConn) (net : Net) :
    option (Errs * PartitionConn * Net) :=
  match infos with
  | [] => Some (err_docs, c, net)
  | one :: rest =>
      match SerializeToString (pdi_doc one) with
      | None => upsert_loop rest (sm_insert (pdi_key one) msg_serialize_doc err_docs) c net
      | Some binary =>
          '(one_msg, resp, raft, net) ←
            Write (upsert_request c (pdi_key one)) empty_response binary (pt_raft c) net;
          let c := set_raft raft c in
          if failed one_msg || negb (resp_success resp) then
            upsert_loop rest
              (sm_insert (pdi_key one) (one_msg +:+ ", ret_msg:" +:+ bs_msg resp) err_docs) c net
          else upsert_loop rest err_docs c net
      end
  end.

Definition Partition_UpsertDocs (docs_grp : DocsGroup) (c : PartitionConn) (net : Net) :
    option (Errs * PartitionConn * Net) := upsert_loop (dg_infos docs_grp) [] c net.

(** The loop over the keys has no body. *)
Definition Partition_DeleteDocs (doc_keys : list string) (c : PartitionConn) : Errs :=
  fold_left (λ err_ids one_key, err_ids) doc_keys [].

End partition.

(** ** [SpaceConnection] *)

Record SpaceConn := mkSpaceConn {
  sc_pb_space : Space;
  sc_space_key : string;
  sc_partition_list : list PartitionConn;
  sc_db_name : string;
  sc_space_name : string;
  sc_id_type : DType.t
}.

Definition SpaceConn_new : SpaceConn := mkSpaceConn empty_space "" [] "" "" DType.UNDEFINE.

Definition PartitionNum (c : SpaceConn) : Z := int32 (partition_num (sc_pb_space c)).
Definition ReplicaNum (c : SpaceConn) : Z := int32 (replica_num (sc_pb_space c)).

Definition set_partitions (l : list PartitionConn) (c : SpaceConn) : SpaceConn :=
  mkSpaceConn (sc_pb_space c) (sc_space_key c) l (sc_db_name c) (sc_space_name c) (sc_id_type c).

(** [GetPartitionId]: [uint64_t] modulo the [int] converted to it; [None] is the
    division by zero. *)
Definition GetPartitionId `{StdHash} (key : string) (partition_num : Z) : option Z :=
  if uint64 partition_num =? 0 then None
  else Some (uint32 (StrHashUint64 key `mod` uint64 partition_num)).

Definition msg_id_type (fie_type : string) : string :=
  "_id type:" +:+ fie_type +:+ " is not allowed, it only is string or long type.".
Definition msg_no_id : string := "not has _id field.".

(** The loop over the fields that looks for the type of [_id]. *)
Fixpoint scan_id_type (fs : list Field) (id_type : DType.t) : string * DType.t :=
  match fs with
  | [] => if bool_decide (id_type = DType.UNDEFINE) then (msg_no_id, id_type) else ("", id_type)
  | fie :: rest =>
      if bool_decide (fd_name fie = _ID) then
        let t := SDTypeToDType (fd_type fie) in
        if negb (IsIdDType t) then (msg_id_type (fd_type fie), DType.UNDEFINE)
        else scan_id_type rest t
      else scan_id_type rest id_type
  end.

Section space.
Context `{PsNet} `{WireCodec Document}.

Fixpoint init_partitions (db space : string) (ps : list Partition) (net : Net) :
    option (list PartitionConn * Net) :=
  match ps with
  | [] => Some ([], net)
  | p :: rest =>
      '(_, c, net) ← Partition_Init p (PartitionConn_new db space) net;
      '(cs, net) ← init_partitions db space rest net;
      Some (c :: cs, net)
  end.

Definition SpaceConn_Init (space : Space) (net : Net) : option (string * SpaceConn * Net) :=
  let db := db_name space in
  let name := space_name space in
  '(ps, net) ← init_partitions db name (partitions space) net;
  let '(msg, id_type) := scan_id_type (fields space) DType.UNDEFINE in
  Some (msg, mkSpaceConn space (GenSpaceKey db name) ps db name id_type, net).

(** The access [_partition_list[idx]]. *)
Definition partition_at (idx : Z) (c : SpaceConn) : option (nat * PartitionConn) :=
  if idx <? 0 then None
  else p ← sc_partition_list c !! Z.to_nat idx; Some (Z.to_nat idx, p).

Fixpoint space_upsert (docs_grps : list (Z * DocsGroup)) (err_mp : Errs) (c : SpaceConn)
    (net : Net) : option (Errs * SpaceConn * Net) :=
  match docs_grps with
  | [] => Some (err_mp, c, net)
  | (idx, docs_grp) :: rest =>
      '(i, p) ← partition_at idx c;
      '(one_grp_res, p, net) ← Partition_UpsertDocs docs_grp p net;
      space_upsert rest (sm_merge err_mp one_grp_res)
        (set_partitions (<[i := p]> (sc_partition_list c)) c) net
  end.

Definition Space_UpsertDocs (docs_grps : list (Z * DocsGroup)) (c : SpaceConn) (net : Net) :
    option (Errs * SpaceConn * Net) := space_upsert docs_grps [] c net.

Fixpoint space_delete (idx_keys_mp : list (Z * list string)) (err_mp : Errs) (c : SpaceConn) :
    option Errs :=
  match idx_keys_mp with
  | [] => Some err_mp
  | (idx, keys) :: rest =>
      '(_, p) ← partition_at idx c;
      space_delete rest (sm_merge err_mp (Partition_DeleteDocs keys p)) c
  end.

Definition Space_DeleteDocs (idx_keys_mp : list (Z * list string)) (c : SpaceConn) :
    option Errs := space_delete idx_keys_mp [] c.

(** [raws] are the random draws, one per group. *)
Fixpoint space_get (raws : nat → Z) (idx_keys_mp : list (Z * list string)) (err_mp : Errs)
    (docs_res : Docs) (c : SpaceConn) (net : Net) : option (Errs * Docs * Net) :=
  match idx_keys_mp with
  | [] => Some (err_mp, docs_res, net)
  | (idx, keys) :: rest =>
      '(_, p) ← partition_at idx c;
      '(one_grp_err, one_grp_res, net) ← Partition_GetDocs (raws 0%nat) keys [] p net;
      space_get (λ n, raws (S n)) rest (sm_merge err_mp one_grp_err)
        (sm_merge docs_res one_grp_res) c net
  end.

Definition Space_GetDocs (raws : nat → Z) (idx_keys_mp : list (Z * list string))
    (docs_res : Docs) (c : SpaceConn) (net : Net) : option (Errs * Docs * Net) :=
  space_get raws idx_keys_mp [] docs_res c net.

End space.

(** ** Specification *)

(** Every key of [keys] is in exactly one of the maps, and no other key is in
    either; a returned document is the one that was asked for. *)
Definition accounted (keys : list string) (errs : Errs) (docs : Docs) : Prop :=
  sm_sorted errs ∧ sm_sorted docs ∧
  (∀ k, k ∈ keys → (sm_lookup k docs = None ↔ is_Some (sm_lookup k errs))) ∧
  (∀ k, k ∉ keys → sm_lookup k errs = None ∧ sm_lookup k docs = None) ∧
  (∀ k d, sm_lookup k docs = Some d → doc_id d = k).

(** The buffers of a connection: what is in use is null or has a client for
    each of at least one replica. *)
Definition opt_wf (o : PartitionOpt) : Prop :=
  1 ≤ po_replicas_num o < 2 ^ 7 ∧ length (po_ps_list o) = Z.to_nat (po_replicas_num o).

Definition conn_wf (c : PartitionConn) : Prop :=
  ∃ o, pt_opt c !! pt_idx c = Some o ∧ from_option opt_wf True o.

(** ** Lemmas *)

Lemma GetReplicaIdx_range raw n : 1 ≤ n < 2 ^ 7 → 0 ≤ GetReplicaIdx raw n < n.
Proof.
  intros Hn. unfold GetReplicaIdx. rewrite (proj2 (Z.ltb_ge n 1)) by lia.
  pose proof (GenRandomInt_range raw 1 n ltac:(lia)). unfold uint32, wrapU.
  rewrite (Z.mod_small (GenRandomInt raw 1 n)) by lia. rewrite Z.mod_small by lia. lia.
Qed.

Lemma add_err_msg_lookup keys msg m k :
  sm_lookup k (add_err_msg keys msg m) =
    if decide (k ∈ keys) then Some msg else sm_lookup k m.
Proof.
  unfold add_err_msg. revert m. induction keys as [|x keys IH]; intros m; simpl.
  { done. }
  rewrite IH, sm_lookup_insert_decide. repeat case_decide; set_solver.
Qed.

Lemma add_err_msg_sorted keys msg m : sm_sorted m → sm_sorted (add_err_msg keys msg m).
Proof.
  unfold add_err_msg. revert m. induction keys as [|x keys IH]; intros m Hm; simpl; [done|].
  by apply IH, sm_insert_sorted.
Qed.

Lemma add_err_msg_accounted keys msg : accounted keys (add_err_msg keys msg []) [].
Proof.
  split_and!; [apply add_err_msg_sorted, sm_empty_sorted|apply sm_empty_sorted| | |done].
  - intros k Hk. rewrite add_err_msg_lookup, decide_True by done. naive_solver.
  - intros k Hk. rewrite add_err_msg_lookup, decide_False by done. done.
Qed.

Lemma index_by_lookup {A} (id : A → string) l i m k j :
  sm_lookup k (index_by id l i m) = Some j →
  sm_lookup k m = Some j ∨ (i ≤ j)%nat ∧ ∃ x, l !! (j - i)%nat = Some x ∧ id x = k.
Proof.
  revert i m. induction l as [|x l IH]; intros i m; simpl; [by left|].
  intros [Hl|(Hle & y & Hy & Hid)]%IH.
  - rewrite sm_lookup_insert_decide in Hl. case_decide; [|by left]. simplify_eq. right.
    split; [done|]. exists x. by rewrite Nat.sub_diag.
  - right. split; [lia|]. exists y. split; [|done].
    by replace (j - i)%nat with (S (j - S i)) by lia.
Qed.

Lemma index_by_at {A} (id : A → string) l k j :
  sm_lookup k (index_by id l 0 []) = Some j → ∃ x, l !! j = Some x ∧ id x = k.
Proof. intros [?|(_ & x & Hx & Hid)]%index_by_lookup; [done|]. rewrite Nat.sub_0_r in Hx. eauto. Qed.

(** The distribution of a response over the keys. *)
Lemma take_response_spec keys resp errs docs :
  let succ := index_by doc_id (gs_documents resp) 0 [] in
  let failed_idx := index_by ds_id (gs_failed_docs resp) 0 [] in
  sm_sorted errs → sm_sorted docs → (∀ k d, sm_lookup k docs = Some d → doc_id d = k) →
  ∃ errs' docs', take_response keys resp succ failed_idx errs docs = Some (errs', docs') ∧
    sm_sorted errs' ∧ sm_sorted docs' ∧ (∀ k d, sm_lookup k docs' = Some d → doc_id d = k) ∧
    (∀ k, k ∉ keys → sm_lookup k errs' = sm_lookup k errs ∧ sm_lookup k docs' = sm_lookup k docs) ∧
    (∀ k, k ∈ keys → if sm_lookup k succ
      then is_Some (sm_lookup k docs') ∧ sm_lookup k errs' = sm_lookup k errs
      else is_Some (sm_lookup k errs') ∧ sm_lookup k docs' = sm_lookup k docs).
Proof.
  cbv zeta. set (succ := index_by doc_id _ _ _). set (fidx := index_by ds_id _ _ _).
  revert errs docs. induction keys as [|key keys IH]; intros errs docs Hse Hsd Hid; simpl.
  { do 2 eexists. split; [done|]. split_and!; try done. by intros k ?%elem_of_nil. }
  destruct (sm_lookup key succ) as [i|] eqn:Es.
  - destruct (index_by_at _ _ _ _ Es) as (d & Hd & Hdid). rewrite Hd. simpl.
    destruct (IH errs (sm_insert key d docs)) as (e' & d' & -> & ? & ? & ? & Hout & Hin);
      [done|by apply sm_insert_sorted| |].
    { intros k d0. rewrite sm_lookup_insert_decide. case_decide; naive_solver. }
    do 2 eexists. split; [done|]. split_and!; try done.
    + intros k [Hk1 Hk2]%not_elem_of_cons. destruct (Hout k Hk2) as [-> ->].
      by rewrite sm_lookup_insert_decide, decide_False.
    + intros k Hk. destruct (decide (k ∈ keys)) as [Hkk|Hkk]; [specialize (Hin k Hkk)|].
      * destruct (sm_lookup k succ) eqn:Ek; [done|]. destruct Hin as [? ->]. split; [done|].
        rewrite sm_lookup_insert_decide, decide_False; [done|congruence].
      * apply elem_of_cons in Hk as [->|?]; [|done]. rewrite Es. destruct (Hout key Hkk) as [-> ->].
        rewrite sm_lookup_insert_eq. split; [by eexists|done].
  - assert (∃ msg, match sm_lookup key fidx with
      | Some i => s ← gs_failed_docs resp !! i;
          take_response keys resp succ fidx (sm_insert key (ds_msg s) errs) docs
      | None => take_response keys resp succ fidx (sm_insert key msg_key_not_found errs) docs
      end = take_response keys resp succ fidx (sm_insert key msg errs) docs) as [msg ->].
    { destruct (sm_lookup key fidx) as [i|] eqn:Ef; [|by eexists].
      destruct (index_by_at _ _ _ _ Ef) as (s & Hs & _). rewrite Hs. by eexists. }
    destruct (IH (sm_insert key msg errs) docs) as (e' & d' & -> & ? & ? & ? & Hout & Hin);
      [by apply sm_insert_sorted|done..|].
    do 2 eexists. split; [done|]. split_and!; try done.
    + intros k [Hk1 Hk2]%not_elem_of_cons. destruct (Hout k Hk2) as [-> ->].
      by rewrite sm_lookup_insert_decide, decide_False.
    + intros k Hk. destruct (decide (k ∈ keys)) as [Hkk|Hkk]; [specialize (Hin k Hkk)|].
      * destruct (sm_lookup k succ) eqn:Ek; [|done]. destruct Hin as [? ->]. split; [done|].
        rewrite sm_lookup_insert_decide, decide_False; [done|congruence].
      * apply elem_of_cons in Hk as [->|?]; [|done]. rewrite Es. destruct (Hout key Hkk) as [-> ->].
        rewrite sm_lookup_insert_eq. split; [by eexists|done].
Qed.

Lemma take_response_accounted keys resp :
  let succ := index_by doc_id (gs_documents resp) 0 [] in
  let failed_idx := index_by ds_id (gs_failed_docs resp) 0 [] in
  ∃ errs docs, take_response keys resp succ failed_idx [] [] = Some (errs, docs) ∧
    accounted keys errs docs.
Proof.
  cbv zeta. destruct (take_response_spec keys resp [] []) as (e & d & -> & H1 & H2 & H3 & H4 & H5);
    [apply sm_empty_sorted..|done|]. do 2 eexists. split; [done|]. split_and!; try done.
  intros k Hk. specialize (H5 k Hk). destruct (sm_lookup k _) as [j|]; destruct H5 as [[x ->] ->].
  - naive_solver.
  - simpl. naive_solver.
Qed.

Section conn.
Context `{PsNet} `{WireCodec Document}.

Lemma get_loop_accounted n first idx msg keys o net :
  opt_wf o → 0 ≤ idx < po_replicas_num o →
  ∃ errs docs net', get_loop n first idx msg keys o [] net = Some (errs, docs, net') ∧
    accounted keys errs docs.
Proof.
  intros [Hn Hl]. revert first idx msg net. induction n as [|n IH]; intros first idx msg net Hidx.
  { do 3 eexists. split; [done|]. apply add_err_msg_accounted. }
  simpl. set (j := if first then idx else _).
  assert (0 ≤ j < po_replicas_num o) as Hj.
  { unfold j. destruct first; [done|]. pose proof (Z.rem_bound_pos (idx + 1) (po_replicas_num o)). lia. }
  rewrite (proj2 (Z.ltb_ge j 0)) by lia.
  destruct (lookup_lt_is_Some_2 (po_ps_list o) (Z.to_nat j)) as [cl ->]; [lia|]. simpl.
  destruct (PsRpcClient_Get keys cl net) as [[one_msg resp] net1].
  destruct (failed one_msg); [by apply IH|].
  destruct (take_response_accounted keys resp) as (e & d & -> & Ha). simpl. by do 3 eexists.
Qed.

Lemma Partition_GetDocs_accounted raw keys c net :
  conn_wf c → ∃ errs docs net', Partition_GetDocs raw keys [] c net = Some (errs, docs, net') ∧
    accounted keys errs docs.
Proof.
  intros (o & Ho & Hw). unfold Partition_GetDocs. rewrite Ho. cbn [mbind option_bind].
  destruct o as [o|]; simpl in Hw.
  - apply get_loop_accounted; [done|]. apply GetReplicaIdx_range, Hw.
  - do 3 eexists. split; [done|]. apply add_err_msg_accounted.
Qed.

(** ** Upserts *)

(** A replica answered the write of this document with success. *)
Definition acknowledged (c : PartitionConn) (info : PbDocInfo) : Prop :=
  ∃ binary leader net0 resp net1, SerializeToString (pdi_doc info) = Some binary ∧
    rpc_write leader (upsert_request c (pdi_key info)) binary net0 = (inr resp, net1) ∧
    resp_success resp = true.

(** Errors are only added. *)
Lemma upsert_loop_mono infos errs c net errs' c' net' k :
  upsert_loop infos errs c net = Some (errs', c', net') →
  is_Some (sm_lookup k errs) → is_Some (sm_lookup k errs').
Proof.
  revert errs c net. induction infos as [|one rest IH]; intros errs c net; simpl.
  { by intros [= <- _ _]. }
  assert (∀ k0 v, is_Some (sm_lookup k errs) → is_Some (sm_lookup k (sm_insert k0 v errs))) as Hi.
  { intros k0 v Hk. rewrite sm_lookup_insert_decide. case_decide; [by eexists|done]. }
  destruct (SerializeToString (pdi_doc one)) as [binary|]; [|by intros E Hk; eapply IH, Hi, Hk].
  destruct (Write _ _ _ _ _) as [[[[m r] raft] net1]|]; [|done]. simpl.
  case_match; intros E Hk; eapply IH; eauto.
Qed.

(** Nothing of the connection but the raft client changes. *)
Definition same_conn (c c' : PartitionConn) : Prop :=
  pt_db c' = pt_db c ∧ pt_space c' = pt_space c ∧ pt_opt c' = pt_opt c ∧ pt_idx c' = pt_idx c.

(** A run over [infos] from [errs]: errors are about these documents or were
    there before, and a document without an error was acknowledged. *)
Definition upsert_post (g cf : string) (c : PartitionConn) (infos : list PbDocInfo)
    (errs : Errs) (r : option (Errs * PartitionConn * Net)) : Prop :=
  ∃ errs' c' net', r = Some (errs', c', net') ∧ client_wf g cf (pt_raft c') ∧ same_conn c c' ∧
    (∀ k, is_Some (sm_lookup k errs') → is_Some (sm_lookup k errs) ∨ k ∈ pdi_key <$> infos) ∧
    ∀ info, info ∈ infos → sm_lookup (pdi_key info) errs' = None → acknowledged c info.

(** A document with an error, then the others. *)
Lemma upsert_post_fail g cf c c1 one rest errs v net1 :
  same_conn c c1 →
  upsert_post g cf c1 rest (sm_insert (pdi_key one) v errs)
    (upsert_loop rest (sm_insert (pdi_key one) v errs) c1 net1) →
  upsert_post g cf c (one :: rest) errs
    (upsert_loop rest (sm_insert (pdi_key one) v errs) c1 net1).
Proof.
  intros (Ed & Es & Eo & Ei) (e' & c' & n' & E & Hw & (? & ? & ? & ?) & Hk & Ha).
  exists e', c', n'. split; [done|]. split; [done|]. split; [split_and!; congruence|]. split.
  - intros k [Hl|Hin]%Hk; [|right; by right]. rewrite sm_lookup_insert_decide in Hl.
    case_decide; [subst; right; by left|by left].
  - intros info [->|Hin]%elem_of_cons Hn.
    + eapply (upsert_loop_mono _ _ _ _ _ _ _ (pdi_key one)) in E; [by rewrite Hn in E; destruct E|].
      rewrite sm_lookup_insert_eq. by eexists.
    + specialize (Ha info Hin Hn). unfold acknowledged, upsert_request in *.
      by rewrite Ed, Es in Ha.
Qed.

Lemma upsert_loop_spec g cf infos errs c net :
  client_wf g cf (pt_raft c) → upsert_post g cf c infos errs (upsert_loop infos errs c net).
Proof.
  revert errs c net. induction infos as [|one rest IH]; intros errs c net Hw; simpl.
  { do 3 eexists. split; [done|]. split_and!; try done; [by left|]. by intros ? ?%elem_of_nil. }
  destruct (SerializeToString (pdi_doc one)) as [binary|] eqn:Es;
    [|by apply upsert_post_fail; [|apply IH]].
  unfold Write. destruct (write_loop_wf g cf 3 "" empty_response (upsert_request c (pdi_key one))
    binary (pt_raft c) net Hw) as (m & r & raft & net1 & -> & Hw1 & Hs); [by left|].
  cbn [mbind option_bind].
  destruct (failed m || negb (resp_success r)) eqn:Ef;
    [by apply upsert_post_fail; [|apply IH]|].
  apply orb_false_iff in Ef as [_ Hr%negb_false_iff]. destruct (Hs Hr) as (_ & leader & netx & Hrpc).
  destruct (IH errs (set_raft raft c) net1 Hw1) as (e' & c' & n' & E & ? & ? & Hk & Ha).
  exists e', c', n'. split; [done|]. split_and!; try done.
  - intros k [Hl|Hin]%Hk; [by left|right; by right].
  - intros info [->|Hin]%elem_of_cons Hn; [|by apply Ha].
    by exists binary, leader, netx, r, net1.
Qed.

(** ** Opening *)

Lemma opt_init_loop_defined rs i msg l net :
  (i + length rs ≤ length l)%nat →
  ∃ msg' l' net', opt_init_loop rs i msg l net = Some (msg', l', net') ∧ length l' = length l.
Proof.
  revert i msg l net. induction rs as [|rep rs IH]; intros i msg l net Hl; simpl in *.
  { by do 3 eexists. }
  destruct (lookup_lt_is_Some_2 l i) as [cl ->]; [lia|]. simpl.
  destruct (PsRpcClient_Init _ cl net) as [[one_msg cl'] net1].
  destruct (IH (S i) (if failed one_msg then
      msg +:+ "replica_id:" +:+ to_string (Z.of_nat i) +:+ ", " +:+ one_msg +:+ "; " else msg)
      (<[i := cl']> l) net1) as (m' & l' & n' & -> & E).
  { rewrite length_insert. lia. }
  do 3 eexists. split; [done|]. by rewrite E, length_insert.
Qed.

Lemma open_opt_wf p net :
  replicas p ≠ [] → (length (replicas p) < 128)%nat →
  ∃ msg o net', open_opt p net = Some (msg, o, net') ∧ opt_wf o.
Proof.
  intros Hne Hlt. assert (0 < length (replicas p))%nat by (destruct (replicas p); simpl; [done|lia]).
  unfold open_opt, PartitionOpt_new. unfold int8. rewrite wrapS_id by lia.
  rewrite (proj2 (Z.ltb_ge _ 0)) by lia. cbn [mbind option_bind]. unfold PartitionOpt_Init.
  cbn [po_partition po_ps_list po_replicas_num]. rewrite Nat2Z.id.
  destruct (opt_init_loop_defined (replicas p) 0 ""
    (replicate (length (replicas p)) PsRpcClient_new) net) as (m & l & n & -> & E).
  { rewrite length_replicate. lia. }
  cbn [mbind option_bind]. do 3 eexists. split; [done|]. rewrite length_replicate in E.
  split; simpl; lia.
Qed.

(** A partition of at most 127 replicas opens, with usable buffers. *)
Lemma Partition_Init_wf p db space net :
  (length (replicas p) < 128)%nat →
  ∃ msg c net', Partition_Init p (PartitionConn_new db space) net = Some (msg, c, net') ∧
    conn_wf c.
Proof.
  intros Hlt. unfold Partition_Init. case_bool_decide as Hr.
  { do 3 eexists. split; [done|]. by exists None. }
  destruct (open_opt_wf p net Hr Hlt) as (m1 & o1 & net1 & -> & Ho1). cbn [mbind option_bind].
  destruct (open_opt_wf p net1 Hr Hlt) as (m2 & o2 & net2 & -> & Ho2). cbn [mbind option_bind].
  destruct (RaftClient_Init_defined (group_name p) (GetRaftConf p)
    (pt_raft (PartitionConn_new db space)) net2) as [[[m3 r] net3] ->].
  cbn [mbind option_bind]. do 3 eexists. split; [done|]. by exists (Some o1).
Qed.

End conn.

(** ** Properties *)

(** Reading through a partition accounts for every key: whatever the
    partition servers answer, whichever replica is drawn first and however many
    attempts fail, each requested key ends up in exactly one of the error map
    and the document map, no other key does, and a returned document has the
    requested id. *)
Theorem GetDocs_accounts_for_keys `{PsNet} `{WireCodec Document} (p : Partition)
    (db space : string) (raw : Z) (keys : list string) (net : Net) :
  (length (replicas p) < 128)%nat →
  ∃ msg c net1 errs docs net2,
    Partition_Init p (PartitionConn_new db space) net = Some (msg, c, net1) ∧
    Partition_GetDocs raw keys [] c net1 = Some (errs, docs, net2) ∧
    accounted keys errs docs.
Proof.
  intros Hlt. destruct (Partition_Init_wf p db space net Hlt) as (msg & c & net1 & -> & Hw).
  destruct (Partition_GetDocs_accounted raw keys c net1 Hw) as (errs & docs & net2 & E & Ha).
  by exists msg, c, net1, errs, docs, net2.
Qed.

(** A document that [UpsertDocs] does not report as failed was
    acknowledged: a replica answered the write of that document under its key
    with success.  The run never uses a connection that was not built and
    reports no key that was not sent. *)
Theorem UpsertDocs_acknowledged `{PsNet} `{WireCodec Document} (g cf : string)
    (grp : DocsGroup) (c : PartitionConn) (net : Net) :
  client_wf g cf (pt_raft c) →
  ∃ errs c' net', Partition_UpsertDocs grp c net = Some (errs, c', net') ∧
    client_wf g cf (pt_raft c') ∧
    (∀ k, is_Some (sm_lookup k errs) → k ∈ pdi_key <$> dg_infos grp) ∧
    (∀ info, info ∈ dg_infos grp → sm_lookup (pdi_key info) errs = None → acknowledged c info).
Proof.
  intros Hw. destruct (upsert_loop_spec g cf (dg_infos grp) [] c net Hw)
    as (errs & c' & net' & E & Hw' & _ & Hk & Ha).
  exists errs, c', net'. split_and!; try done. intros k Hs. destruct (Hk k Hs) as [[? ?]|?]; done.
Qed.

(** ** Instances of the properties *)

(** Partition servers that know no document. *)
Definition empty_ps (leader : option string) (answer : BlockResponse) :
    @PsNet (fixed_net leader answer) :=
  @Build_PsNet (fixed_net leader answer) (λ _ _, (0, ())) (λ _ _ _, (inr empty_get_response, ())).

Definition one_partition : Partition :=
  mkPartition 0 "g" [mkReplica 1 "10.0.0.1" 8000 None None None] None None.

Lemma GetDocs_accounts_for_keys_witness :
  ∃ c errs docs,
    @Partition_GetDocs _ (empty_ps (Some "a:1") answer_ok) 5 ["x"; "y"] [] c () =
      Some (errs, docs, ()) ∧ accounted ["x"; "y"] errs docs.
Proof.
  destruct (@GetDocs_accounts_for_keys _ (empty_ps (Some "a:1") answer_ok)
    (count_codec Document) one_partition "db" "s" 5 ["x"; "y"] ())
    as (msg & c & [] & errs & docs & [] & _ & E & Ha); [simpl; lia|].
  exists c, errs, docs. split; [exact E|exact Ha].
Defined.

Lemma UpsertDocs_acknowledged_witness :
  ∃ errs c', @Partition_UpsertDocs (fixed_net (Some "a:1") answer_ok) (count_codec Document)
    (mkDocsGroup 0 [mkPbDocInfo "k" empty_document])
    (mkPartitionConn [] 0 broken "db" "s") () = Some (errs, c', ()) ∧
    client_wf "g" "c" (pt_raft c').
Proof.
  destruct (@UpsertDocs_acknowledged _ (empty_ps (Some "a:1") answer_ok) (count_codec Document)
    "g" "c" (mkDocsGroup 0 [mkPbDocInfo "k" empty_document])
    (mkPartitionConn [] 0 broken "db" "s") () broken_wf) as (errs & c' & [] & E & Hw & _).
  exists errs, c'. split; [exact E|exact Hw].
Defined.
