(* ===== verification/LocalSpaces.v ===== *)
(** * LocalSpaces: src/service/router/local_spaces.{h,cc}

    The router's copy of the spaces in a JSON file, used when etcd has none. *)
From S2P Require Import Prelude Numeric Bytes Common Files Wire.
Local Open Scope Z_scope.

Record LocalSpaces := mkLocalSpaces {
  ls_filename : string;
  ls_path : string;
  ls_spaces : list Space
}.

Definition LocalSpaces_new : LocalSpaces := mkLocalSpaces "" "" [].

Definition ls_file (l : LocalSpaces) : string := ls_path l +:+ "/" +:+ ls_filename l.
Definition set_spaces (s : list Space) (l : LocalSpaces) : LocalSpaces :=
  mkLocalSpaces (ls_filename l) (ls_path l) s.

Section local.
Context `{FileUtil} `{JsonCodec (list Space)}.

(** The loop that looks for a free name; it copies [file_path], which is the
    directory. *)
Fixpoint copy_loop (n i : nat) (path base : string) (fs : Fs) : Fs :=
  match n with
  | O => fs
  | S n' =>
      let path_file := base +:+ to_string (Z.of_nat i) in
      if PathExists path_file fs && negb (DirectoryExists path_file fs) then
        copy_loop n' (S i) path base fs
      else let '(_, fs) := CopyFile path path_file fs in fs
  end.

Definition LocalSpaces_Init (path filename : string) (l : LocalSpaces) (fs : Fs) :
    bool * LocalSpaces * Fs :=
  let l := mkLocalSpaces filename path (ls_spaces l) in
  if negb (PathExists path fs) then
    let '(ok, fs) := CreateDirectory path fs in
    if negb ok then (false, l, fs) else (true, l, fs)
  else (true, l, copy_loop 100 0 path (ls_file l) fs).

Definition LocalSpaces_Load (l : LocalSpaces) (fs : Fs) : bool * LocalSpaces * Fs :=
  let l := set_spaces [] l in
  let '(json_content, fs) := ifstream_read (ls_file l) fs in
  match json_content with
  | None => (false, l, fs)
  | Some json_content =>
      match JsonToProtoMessage (str_of json_content) with
      | None => (false, l, fs)
      | Some s => (true, set_spaces s l, fs)
      end
  end.

(** The file is opened, and with that emptied, before the conversion. *)
Definition LocalSpaces_Save (l : LocalSpaces) (fs : Fs) : bool * Fs :=
  match ProtoMessageToJson (ls_spaces l) with
  | None => let '(_, fs) := ofstream_write (ls_file l) [] fs in (false, fs)
  | Some json_str => ofstream_write (ls_file l) (bytes_of json_str) fs
  end.

End local.

Definition LocalSpaces_AddSpace (space : Space) (l : LocalSpaces) : bool * LocalSpaces :=
  (true, set_spaces (ls_spaces l ++ [space]) l).

Definition SetSpaces (spaces : list Space) (l : LocalSpaces) : LocalSpaces :=
  fold_left (λ l s, (LocalSpaces_AddSpace s l).2) spaces (set_spaces [] l).

Definition is_space (db name : string) (s : Space) : bool :=
  bool_decide (db_name s = db) && bool_decide (space_name s = name).

(** The loop from the last index down, [n] elements to go. *)
Fixpoint delete_loop (n : nat) (db name : string) (spaces : list Space) (is_del : bool) :
    bool * list Space :=
  match n with
  | O => (is_del, spaces)
  | S i =>
      match spaces !! i with
      | Some s =>
          if is_space db name s then delete_loop i db name (delete i spaces) true
          else delete_loop i db name spaces is_del
      | None => (is_del, spaces)
      end
  end.

Definition LocalSpaces_DeleteSpace (db name : string) (l : LocalSpaces) : bool * LocalSpaces :=
  let '(is_del, spaces) := delete_loop (length (ls_spaces l)) db name (ls_spaces l) false in
  (is_del, set_spaces spaces l).

Definition GetSpaces (l : LocalSpaces) : list Space := ls_spaces l.

(** ** Lemmas *)

Lemma delete_middle_app {A} (l1 : list A) x l2 : delete (length l1) (l1 ++ x :: l2) = l1 ++ l2.
Proof. induction l1 as [|y l1 IH]; [done|]. simpl. f_equal. apply IH. Qed.

Lemma delete_loop_spec l1 l2 db name b :
  delete_loop (length l1) db name (l1 ++ l2) b =
    (b || existsb (is_space db name) l1, filter (λ s, negb (is_space db name s)) l1 ++ l2).
Proof.
  revert l2 b. induction l1 as [|x l1 IH] using rev_ind; intros l2 b.
  { by rewrite orb_false_r. }
  rewrite length_app, Nat.add_1_r, <-app_assoc. simpl.
  rewrite list_lookup_middle by done. rewrite existsb_app, filter_app. simpl.
  rewrite orb_false_r. destruct (is_space db name x) eqn:Ex.
  - rewrite delete_middle_app, IH. rewrite filter_cons_False by (rewrite Ex; simpl; tauto).
    by rewrite filter_nil, app_nil_r, !orb_true_r.
  - rewrite IH. rewrite filter_cons_True by (rewrite Ex; simpl; tauto).
    by rewrite filter_nil, orb_false_r, <-app_assoc.
Qed.

Lemma SetSpaces_spaces spaces l : ls_spaces (SetSpaces spaces l) = spaces.
Proof.
  unfold SetSpaces. assert (∀ l', ls_spaces (fold_left (λ l s, (LocalSpaces_AddSpace s l).2)
    spaces l') = ls_spaces l' ++ spaces) as HS; [|by rewrite HS].
  induction spaces as [|s spaces IH]; intros l'; simpl; [by rewrite app_nil_r|].
  rewrite IH. simpl. by rewrite <-app_assoc.
Qed.

(** ** Properties *)

(** What is saved is loaded: after a save that reports success a load, by
    the same or by a new process, gives the spaces that were saved; and the
    deletion of a space, with its loop over indices that change as elements
    are removed, keeps exactly the spaces of other names, in order, and says
    whether there was one. *)
Theorem local_spaces_roundtrip `{JsonCodecLaws (list Space)} (l l0 : LocalSpaces)
    (fs fs' : Fs) (db name : string) :
  LocalSpaces_Save l fs = (true, fs') → no_fail fs → names_inj fs →
  ls_filename l0 = ls_filename l → ls_path l0 = ls_path l →
  (∃ fs'', LocalSpaces_Load l0 fs' = (true, l, fs'')) ∧
  LocalSpaces_DeleteSpace db name l =
    (existsb (is_space db name) (ls_spaces l),
     set_spaces (filter (λ s, negb (is_space db name s)) (ls_spaces l)) l).
Proof.
  intros HS Hn Hi Hf Hp. split.
  - unfold LocalSpaces_Save in HS. destruct (ProtoMessageToJson (ls_spaces l)) as [s|] eqn:Es.
    + destruct (ofstream_write_ok _ _ _ _ HS Hn Hi) as (Hc & _ & Hn' & _).
      unfold LocalSpaces_Load. replace (ls_file (set_spaces [] l0)) with (ls_file l)
        by (unfold ls_file; simpl; congruence).
      destruct (ifstream_read_ok (ls_file l) fs' Hn') as (fs'' & -> & _). rewrite Hc.
      rewrite str_of_bytes_of, (json_roundtrip _ _ Es). exists fs''.
      destruct l, l0. simpl in *. by subst.
    + by destruct (ofstream_write _ _ fs).
  - unfold LocalSpaces_DeleteSpace. pose proof (delete_loop_spec (ls_spaces l) [] db name false) as E.
    rewrite app_nil_r in E. by rewrite E, app_nil_r.
Qed.

Definition sample_spaces : LocalSpaces :=
  mkLocalSpaces "f" "p" [mkSpace "d" "a" 1 1 1 [] [] None None None;
    mkSpace "d" "b" 2 1 1 [] [] None None None; mkSpace "d" "a" 3 1 1 [] [] None None None].

Lemma pair_eta {A B} (p : A * B) x : p.1 = x → p = (x, p.2).
Proof. by destruct p; intros <-. Qed.

Lemma local_spaces_roundtrip_witness :
  ∃ fs'', @LocalSpaces_Load (count_json (list Space)) (mkLocalSpaces "f" "p" [])
      (@LocalSpaces_Save (count_json (list Space)) sample_spaces (mkFs ∅ ∅ ∅ ∅ [])).2 =
      (true, sample_spaces, fs'') ∧
    LocalSpaces_DeleteSpace "d" "a" sample_spaces =
      (true, mkLocalSpaces "f" "p" [mkSpace "d" "b" 2 1 1 [] [] None None None]).
Proof.
  destruct (@local_spaces_roundtrip (count_json (list Space))
    (count_json_laws (list Space)) sample_spaces (mkLocalSpaces "f" "p" [])
    (mkFs ∅ ∅ ∅ ∅ []) (@LocalSpaces_Save (count_json (list Space)) sample_spaces
      (mkFs ∅ ∅ ∅ ∅ [])).2 "d" "a") as [[fs'' E] D].
  - apply pair_eta. vm_compute. reflexivity.
  - constructor.
  - intros p q ino. simpl. rewrite lookup_empty. discriminate.
  - reflexivity.
  - reflexivity.
  - exists fs''. split; [exact E|]. exact D.
Defined.
