(* ===== verification/EtcdMsg.v ===== *)
(** * EtcdMsg: src/idl/etcd_idl/{kv,rpc,http_api}.proto

    The messages of the etcd v3 API that the client sends and receives.  A
    message field has presence, hence an [option]; scalar fields have their
    proto3 defaults; [bytes] are strings of characters.  The messages of the
    parts of the API that no code of the repository calls (members, alarms,
    maintenance, authentication) are left out. *)
From S2P Require Import Prelude.
Local Open Scope Z_scope.

(** ** mvccpb *)

Record KeyValue := mkKeyValue {
  kv_key : string; kv_create_revision : Z; kv_mod_revision : Z; kv_version : Z;
  kv_value : string; kv_lease : Z
}.

Inductive EventType := EvPut | EvDelete.

Record Event := mkEvent {
  ev_type : EventType; ev_kv : option KeyValue; ev_prev_kv : option KeyValue
}.

(** ** Key-value requests *)

Record ResponseHeader := mkResponseHeader {
  rh_cluster_id : Z; rh_member_id : Z; rh_revision : Z; rh_raft_term : Z
}.

Inductive SortOrder := SortNone | SortAscend | SortDescend.
Inductive SortTarget := TargetKey | TargetVersion | TargetCreate | TargetMod | TargetValue.

Record RangeRequest := mkRangeRequest {
  rq_key : string; rq_range_end : string; rq_limit : Z; rq_revision : Z;
  rq_sort_order : SortOrder; rq_sort_target : SortTarget; rq_serializable : bool;
  rq_keys_only : bool; rq_count_only : bool;
  rq_min_mod_revision : Z; rq_max_mod_revision : Z;
  rq_min_create_revision : Z; rq_max_create_revision : Z
}.

Record RangeResponse := mkRangeResponse {
  rr_header : option ResponseHeader; rr_kvs : list KeyValue; rr_more : bool; rr_count : Z
}.

Record PutRequest := mkPutRequest {
  pq_key : string; pq_value : string; pq_lease : Z; pq_prev_kv : bool;
  pq_ignore_value : bool; pq_ignore_lease : bool
}.

Record PutResponse := mkPutResponse {
  pr_header : option ResponseHeader; pr_prev_kv : option KeyValue
}.

Record DeleteRangeRequest := mkDeleteRangeRequest {
  dq_key : string; dq_range_end : string; dq_prev_kv : bool
}.

Record DeleteRangeResponse := mkDeleteRangeResponse {
  dr_header : option ResponseHeader; dr_deleted : Z; dr_prev_kvs : list KeyValue
}.

Inductive CompareResult := CmpEqual | CmpGreater | CmpLess | CmpNotEqual.
Inductive CompareTarget := CtVersion | CtCreate | CtMod | CtValue | CtLease.

Inductive TargetUnion :=
  | TuVersion (v : Z) | TuCreateRevision (v : Z) | TuModRevision (v : Z)
  | TuValue (v : string) | TuLease (v : Z).

Record Compare := mkCompare {
  cp_result : CompareResult; cp_target : CompareTarget; cp_key : string;
  cp_target_union : option TargetUnion; cp_range_end : string
}.

(** A transaction can hold transactions: [TxnRequest] and [RequestOp] refer to
    each other. *)
Inductive TxnRequest :=
  mkTxnRequest (tx_compare : list Compare) (tx_success tx_failure : list (option RequestOp))
with RequestOp :=
  | RequestRange (r : RangeRequest) | RequestPut (r : PutRequest)
  | RequestDeleteRange (r : DeleteRangeRequest) | RequestTxn (r : TxnRequest).

Inductive TxnResponse :=
  mkTxnResponse (ts_header : option ResponseHeader) (ts_succeeded : bool)
    (ts_responses : list (option ResponseOp))
with ResponseOp :=
  | ResponseRange (r : RangeResponse) | ResponsePut (r : PutResponse)
  | ResponseDeleteRange (r : DeleteRangeResponse) | ResponseTxn (r : TxnResponse).

Record CompactionRequest := mkCompactionRequest { cq_revision : Z; cq_physical : bool }.
Record CompactionResponse := mkCompactionResponse { cr_header : option ResponseHeader }.

(** ** Watch *)

Inductive FilterType := NoPut | NoDelete.

Record WatchCreateRequest := mkWatchCreateRequest {
  wc_key : string; wc_range_end : string; wc_start_revision : Z; wc_progress_notify : bool;
  wc_filters : list FilterType; wc_prev_kv : bool; wc_watch_id : Z; wc_fragment : bool
}.

(** [request_union]: at most one of the requests. *)
Inductive WatchRequest :=
  | WatchNone | WatchCreate (r : WatchCreateRequest) | WatchCancel (watch_id : Z)
  | WatchProgress.

Record WatchResponse := mkWatchResponse {
  wr_header : option ResponseHeader; wr_watch_id : Z; wr_created : bool; wr_canceled : bool;
  wr_compact_revision : Z; wr_cancel_reason : string; wr_fragment : bool;
  wr_events : list Event
}.

Record WatchResponseEx := mkWatchResponseEx { wx_result : option WatchResponse }.

(** ** Leases *)

Record LeaseGrantRequest := mkLeaseGrantRequest { gq_TTL : Z; gq_ID : Z }.
Record LeaseGrantResponse := mkLeaseGrantResponse {
  gr_header : option ResponseHeader; gr_ID : Z; gr_TTL : Z; gr_error : string
}.
Record LeaseRevokeRequest := mkLeaseRevokeRequest { vq_ID : Z }.
Record LeaseRevokeResponse := mkLeaseRevokeResponse { vr_header : option ResponseHeader }.
Record LeaseKeepAliveRequest := mkLeaseKeepAliveRequest { aq_ID : Z }.
Record LeaseKeepAliveResponse := mkLeaseKeepAliveResponse {
  ar_header : option ResponseHeader; ar_ID : Z; ar_TTL : Z
}.
Record HttpLeaseKeepAliveResponse := mkHttpLeaseKeepAliveResponse {
  hr_result : option LeaseKeepAliveResponse
}.
Record LeaseTimeToLiveRequest := mkLeaseTimeToLiveRequest { tq_ID : Z; tq_keys : bool }.
Record LeaseTimeToLiveResponse := mkLeaseTimeToLiveResponse {
  tr_header : option ResponseHeader; tr_ID : Z; tr_TTL : Z; tr_grantedTTL : Z;
  tr_keys : list string
}.
Record LeaseLeasesRequest := mkLeaseLeasesRequest {}.
Record LeaseStatus := mkLeaseStatus { ls_ID : Z }.
Record LeaseLeasesResponse := mkLeaseLeasesResponse {
  lr_header : option ResponseHeader; lr_leases : list LeaseStatus
}.

(** ** Default messages, as the client declares them *)

Definition empty_RangeRequest : RangeRequest :=
  mkRangeRequest "" "" 0 0 SortNone TargetKey false false false 0 0 0 0.
Definition empty_RangeResponse : RangeResponse := mkRangeResponse None [] false 0.
Definition empty_PutResponse : PutResponse := mkPutResponse None None.
Definition empty_LeaseGrantResponse : LeaseGrantResponse := mkLeaseGrantResponse None 0 0 "".
Definition empty_LeaseKeepAliveResponse : LeaseKeepAliveResponse :=
  mkLeaseKeepAliveResponse None 0 0.
Definition empty_HttpLeaseKeepAliveResponse : HttpLeaseKeepAliveResponse :=
  mkHttpLeaseKeepAliveResponse None.
Definition empty_WatchResponse : WatchResponse :=
  mkWatchResponse None 0 false false 0 "" false [].
Definition empty_WatchResponseEx : WatchResponseEx := mkWatchResponseEx None.
