(* ===== verification/EtcdClient.v ===== *)
(** * EtcdClient: src/clients/etcd_client.{h,cc}

    The client of etcd's JSON gateway: one HTTP channel per etcd node, calls
    that try the channels in turn from a random one, prefix ranges, watches, and
    the background thread that keeps a node registered under a lease.  brpc's
    channels and json2pb are parameters; [EtcdServer] states what the thread
    relies on of etcd itself. *)
From Stdlib Require Import Ascii.
From S2P Require Import Prelude StdMap Numeric Bytes Common Wire EtcdMsg.
Local Open Scope Z_scope.

(** The channels: opening gives 0 on success; a call either fails or returns
    the body of the response.  Calls change the state [ENet] of the outside. *)
Class EtcdNet := {
  ENet : Type;
  etcd_channel_Init : string → string → ENet → Z * ENet;
  etcd_call : string → string → string → ENet → option string * ENet
}.

(** [json2pb::JsonToProtoMessage] into an existing message, which it may change
    also when it fails. *)
Class JsonInto (A : Type) := json_into : string → A → bool * A.

(** A channel is its url; [None] is the null pointer. *)
Record EtcdClient := mkEtcdClient {
  _chan_list : list (option string);
  _chan_size : Z;
  _keep_alive_bt_running : bool
}.

(** [_chan_size] is not initialised by the constructor. *)
Definition EtcdClient_new (chan_size : Z) : EtcdClient := mkEtcdClient [] chan_size false.

Inductive EtcdOps :=
  | RANGE | PUT | DELETE_RANGE | TXN | COMPACT
  | LEASE_GRANT | LEASE_REVOKE | LEASE_KEEPALIVE | LEASE_TTL | LEASE_LEASES.

Definition op_path (op : EtcdOps) : string :=
  match op with
  | RANGE => "/v3/kv/range"
  | PUT => "/v3/kv/put"
  | DELETE_RANGE => "/v3/kv/deleterange"
  | TXN => "/v3/kv/txn"
  | COMPACT => "/v3/kv/compaction"
  | LEASE_GRANT => "/v3/lease/grant"
  | LEASE_REVOKE => "/v3/lease/revoke"
  | LEASE_KEEPALIVE => "/v3/lease/keepalive"
  | LEASE_TTL => "/v3/lease/timetolive"
  | LEASE_LEASES => "/v3/lease/leases"
  end.

(** [range_end.back() += 1], on a [char]. *)
Fixpoint incr_back (s : string) : string :=
  match s with
  | EmptyString => EmptyString
  | String c EmptyString => String (byte_of (byte_val c + 1)) EmptyString
  | String c t => String c (incr_back t)
  end.

Definition GetRangeEnd (key : string) : string :=
  let range_end := key in
  if (0 <? String.length key)%nat then incr_back range_end else range_end.

Section client.
Context `{EtcdNet}.

(** The channels of [ip_ports] from index [i]; the entry of a channel that does
    not open is null, and the later ones stay as they are. *)
Fixpoint init_channels (i : nat) (ip_ports : list (string * Z)) (lb : string)
    (chans : list (option string)) (net : ENet) : bool * list (option string) * ENet :=
  match ip_ports with
  | [] => (true, chans, net)
  | ip_port :: rest =>
      let url := "http://" +:+ ip_port.1 +:+ ":" +:+ to_string ip_port.2 in
      let '(rc, net) := etcd_channel_Init url lb net in
      if negb (rc =? 0) then (false, <[i := None]> chans, net)
      else init_channels (S i) rest lb (<[i := Some url]> chans) net
  end.

(** [vector::resize] with null pointers. *)
Definition resize_null (n : nat) (chans : list (option string)) : list (option string) :=
  take n chans ++ replicate (n - length chans) None.

Definition EtcdClient_Init (ip_ports : list (string * Z)) (lb : string) (c : EtcdClient)
    (net : ENet) : bool * EtcdClient * ENet :=
  if (length ip_ports <=? 0)%nat then (false, c, net)
  else
    let size := length ip_ports in
    let '(ok, chans, net) :=
      init_channels 0 ip_ports lb (resize_null size (_chan_list c)) net in
    (ok, mkEtcdClient chans (Z.of_nat size) (_keep_alive_bt_running c), net).

(** The next channel and its index; [raw] is the random draw of the first
    call.  The outer [None] is the access outside of the list or the division
    by its size 0. *)
Definition GetChannel (raw pre_idx : Z) (chans : list (option string)) :
    option (Z * option string) :=
  let chan_size := Z.of_nat (length chans) in
  let pre_idx :=
    if 0 <=? pre_idx then (pre_idx + 1) `rem` chan_size
    else GenRandomInt raw 1 chan_size - 1 in
  if (pre_idx <? 0) then None
  else ch ← chans !! Z.to_nat pre_idx; Some (pre_idx, ch).

Section op.
Context {REQ RESP : Type} `{JsonCodec REQ} `{JsonInto RESP}.

(** The attempts, [n] of them to go. *)
Fixpoint op_loop (n : nat) (raw pre_idx : Z) (chans : list (option string)) (path : string)
    (request : REQ) (response : RESP) (net : ENet) : option (bool * RESP * ENet) :=
  match n with
  | O => Some (false, response, net)
  | S n' =>
      '(pre_idx, ch) ← GetChannel raw pre_idx chans;
      match ProtoMessageToJson request with
      | None => op_loop n' raw pre_idx chans path request response net
      | Some output =>
          url ← ch;
          let '(answer, net) := etcd_call url path output net in
          match answer with
          | None => op_loop n' raw pre_idx chans path request response net
          | Some body =>
              let '(ok, response) := json_into body response in
              if negb ok then op_loop n' raw pre_idx chans path request response net
              else Some (true, response, net)
          end
      end
  end.

Definition EtcdOp (raw : Z) (chans : list (option string)) (op : EtcdOps) (request : REQ)
    (response : RESP) (net : ENet) : option (bool * RESP * ENet) :=
  op_loop (length chans) raw (-1) chans (op_path op) request response net.

End op.

Context `{JsonCodec RangeRequest} `{JsonInto RangeResponse}.
Context `{JsonCodec PutRequest} `{JsonInto PutResponse}.
Context `{JsonCodec LeaseGrantRequest} `{JsonInto LeaseGrantResponse}.
Context `{JsonCodec LeaseKeepAliveRequest} `{JsonInto HttpLeaseKeepAliveResponse}.
Implicit Types (raw : Z) (cli : EtcdClient) (net : ENet).

Definition Range raw (request : RangeRequest) response cli net :
    option (bool * RangeResponse * ENet) :=
  EtcdOp raw (_chan_list cli) RANGE request response net.

Definition EtcdPut raw (request : PutRequest) response cli net :
    option (bool * PutResponse * ENet) :=
  EtcdOp raw (_chan_list cli) PUT request response net.

Definition LeaseGrant raw (request : LeaseGrantRequest) response cli net :
    option (bool * LeaseGrantResponse * ENet) :=
  EtcdOp raw (_chan_list cli) LEASE_GRANT request response net.

Definition LeaseKeepAlive raw (request : LeaseKeepAliveRequest) response cli net :
    option (bool * HttpLeaseKeepAliveResponse * ENet) :=
  EtcdOp raw (_chan_list cli) LEASE_KEEPALIVE request response net.

Definition DeleteRange `{JsonCodec DeleteRangeRequest} `{JsonInto DeleteRangeResponse} raw
    (request : DeleteRangeRequest) response cli net : option (bool * DeleteRangeResponse * ENet) :=
  EtcdOp raw (_chan_list cli) DELETE_RANGE request response net.

Definition Txn `{JsonCodec TxnRequest} `{JsonInto TxnResponse} raw
    (request : TxnRequest) response cli net : option (bool * TxnResponse * ENet) :=
  EtcdOp raw (_chan_list cli) TXN request response net.

Definition Compact `{JsonCodec CompactionRequest} `{JsonInto CompactionResponse} raw
    (request : CompactionRequest) response cli net : option (bool * CompactionResponse * ENet) :=
  EtcdOp raw (_chan_list cli) COMPACT request response net.

Definition LeaseRevoke `{JsonCodec LeaseRevokeRequest} `{JsonInto LeaseRevokeResponse} raw
    (request : LeaseRevokeRequest) response cli net : option (bool * LeaseRevokeResponse * ENet) :=
  EtcdOp raw (_chan_list cli) LEASE_REVOKE request response net.

Definition LeaseTimeToLive `{JsonCodec LeaseTimeToLiveRequest}
    `{JsonInto LeaseTimeToLiveResponse} raw (request : LeaseTimeToLiveRequest) response cli net :
    option (bool * LeaseTimeToLiveResponse * ENet) :=
  EtcdOp raw (_chan_list cli) LEASE_TTL request response net.

Definition LeaseLeases `{JsonCodec LeaseLeasesRequest} `{JsonInto LeaseLeasesResponse} raw
    (request : LeaseLeasesRequest) response cli net : option (bool * LeaseLeasesResponse * ENet) :=
  EtcdOp raw (_chan_list cli) LEASE_LEASES request response net.

(** ** Watch *)

(** What a part of the stream makes the watcher do. *)
Inductive WatcherCall := OnParseError | OnEventResponse (response : WatchResponse).

(** [ReadBody::OnReadOnePart] *)
Definition OnReadOnePart `{JsonInto WatchResponseEx} (data : string) : list WatcherCall :=
  if (0 <? String.length data)%nat then
    let '(ok, response) := json_into data empty_WatchResponseEx in
    if negb ok then [OnParseError]
    else [OnEventResponse (default empty_WatchResponse (wx_result response))]
  else [].

(** [Watch]: every branch of the first iteration returns.  The result [true]
    attaches a reader that calls the watcher for each part of the stream. *)
Definition Watch `{JsonCodec WatchRequest} raw (request : WatchRequest) (watcher : bool)
    cli net : option (bool * ENet) :=
  if 0 <? _chan_size cli then
    '(_, ch) ← GetChannel raw (-1) (_chan_list cli);
    if negb watcher then Some (false, net)
    else
      match ProtoMessageToJson request with
      | None => Some (false, net)
      | Some output =>
          url ← ch;
          let '(answer, net) := etcd_call url "/v3/watch" output net in
          match answer with None => Some (false, net) | Some _ => Some (true, net) end
      end
  else Some (false, net).

(** ** Registration under a lease *)

Record KeepAliveArgs := mkKeepAliveArgs {
  ka_etcd_cli : EtcdClient; ka_key : string; ka_val : string; ka_interval_sec : Z
}.

(** The lambda [register_func]; [raws] are the random draws of its calls. *)
Definition register_func (raws : nat → Z) (cli : EtcdClient) (key val : string) (ttl : Z)
    net : option (Z * ENet) :=
  if bool_decide (key = "") then Some (-1, net)
  else
    '(_, grant_resp, net) ←
      LeaseGrant (raws 0%nat) (mkLeaseGrantRequest ttl 0) empty_LeaseGrantResponse cli net;
    '(_, _, net) ← EtcdPut (raws 1%nat)
      (mkPutRequest key val (gr_ID grant_resp) false false false) empty_PutResponse cli net;
    Some (gr_ID grant_resp, net).

Definition register_node (raws : nat → Z) (ka : KeepAliveArgs) net : option (Z * ENet) :=
  register_func raws (ka_etcd_cli ka) (ka_key ka) (ka_val ka) (int32 (3 * ka_interval_sec ka)) net.

Definition alive_ttl (r : HttpLeaseKeepAliveResponse) : Z :=
  ar_TTL (default empty_LeaseKeepAliveResponse (hr_result r)).

(** One iteration of the thread's loop with the lease [grant_id]. *)
Definition keep_alive_tick (raws : nat → Z) (ka : KeepAliveArgs) (grant_id : Z) net :
    option (Z * ENet) :=
  '(ok, alive_resp, net) ← LeaseKeepAlive (raws 0%nat) (mkLeaseKeepAliveRequest grant_id)
    empty_HttpLeaseKeepAliveResponse (ka_etcd_cli ka) net;
  if negb ok || (alive_ttl alive_resp <=? 0) then
    register_node (λ n, raws (S n)) ka net
  else Some (grant_id, net).

(** [KeepNodeAliveThreadFunc] until the flag is cleared after [n] iterations. *)
Fixpoint keep_alive_loop (n : nat) (raws : nat → nat → Z) (ka : KeepAliveArgs) (grant_id : Z)
    net : option (Z * ENet) :=
  match n with
  | O => Some (grant_id, net)
  | S n' =>
      '(grant_id, net) ← keep_alive_tick (raws 0%nat) ka grant_id net;
      keep_alive_loop n' (λ i, raws (S i)) ka grant_id net
  end.

Definition KeepNodeAliveThreadFunc (n : nat) (raws : nat → nat → Z) (ka : KeepAliveArgs)
    net : option (Z * ENet) :=
  '(grant_id, net) ← register_node (raws 0%nat) ka net;
  keep_alive_loop n (λ i, raws (S i)) ka grant_id net.

(** The call that starts the thread; [ret] is the result of
    [bthread_start_background]. *)
Definition RegisterNodeWithKeepAlive (ret : Z) (node_key node_val : string)
    (interval_second : Z) (c : EtcdClient) : Z * EtcdClient * option KeepAliveArgs :=
  let c := mkEtcdClient (_chan_list c) (_chan_size c) true in
  if negb (ret =? 0) then (-1, c, None)
  else (0, c, Some (mkKeepAliveArgs c node_key node_val interval_second)).

(** The destructor stops the thread and waits for it. *)
Definition EtcdClient_destroy (c : EtcdClient) : EtcdClient :=
  if _keep_alive_bt_running c then mkEtcdClient (_chan_list c) (_chan_size c) false else c.

End client.

(** ** Specification *)

(** etcd's order of keys: by bytes. *)
Definition in_range (lo hi k : string) : Prop :=
  String.compare lo k ≠ Gt ∧ String.compare k hi = Lt.

Section spec.
Context `{EtcdNet} {REQ RESP : Type} `{JsonCodec REQ} `{JsonInto RESP}.

(** The reference for [EtcdOp]: the channels of a list one after the other, up
    to the first that answers with a message. *)
Fixpoint try_each (urls : list string) (path body : string) (response : RESP) (net : ENet) :
    bool * RESP * ENet :=
  match urls with
  | [] => (false, response, net)
  | url :: rest =>
      match etcd_call url path body net with
      | (None, net) => try_each rest path body response net
      | (Some answer, net) =>
          match json_into answer response with
          | (true, response) => (true, response, net)
          | (false, response) => try_each rest path body response net
          end
      end
  end.

(** ** Lemmas *)

Lemma GetChannel_at (raw pre : Z) (urls : list string) (s k : nat) url :
  (s < length urls)%nat → rotate s urls !! k = Some url →
  (k = 0%nat ∧ pre = -1 ∧ Z.of_nat s = GenRandomInt raw 1 (Z.of_nat (length urls)) - 1) ∨
  (∃ j, k = S j ∧ pre = (Z.of_nat s + Z.of_nat j) `mod` Z.of_nat (length urls)) →
  GetChannel raw pre (Some <$> urls) =
    Some ((Z.of_nat s + Z.of_nat k) `mod` Z.of_nat (length urls), Some url).
Proof.
  intros Hs [Hl Hk]%lookup_rotate_r_Some Hpre. unfold GetChannel. rewrite length_fmap.
  set (n := Z.of_nat (length urls)) in *.
  assert (0 ≤ (Z.of_nat s + Z.of_nat k) `mod` n < n) by (apply Z.mod_pos_bound; lia).
  assert ((if 0 <=? pre then (pre + 1) `rem` n else GenRandomInt raw 1 n - 1) =
    (Z.of_nat s + Z.of_nat k) `mod` n) as ->.
  { destruct Hpre as [(-> & -> & <-)|(j & -> & ->)].
    - simpl. rewrite Z.mod_small; lia.
    - assert (0 ≤ (Z.of_nat s + Z.of_nat j) `mod` n < n) by (apply Z.mod_pos_bound; lia).
      rewrite (proj2 (Z.leb_le 0 _)) by lia. rewrite Z.rem_mod_nonneg by lia.
      rewrite Zplus_mod_idemp_l. f_equal. lia. }
  rewrite (proj2 (Z.ltb_ge _ 0)) by lia.
  unfold rotate_nat_add in Hl. fold n in Hl. by rewrite list_lookup_fmap, Hl.
Qed.

Lemma op_loop_try_each (raw pre : Z) (urls : list string) (s k n : nat) path req body
    (resp : RESP) net :
  (s < length urls)%nat → (n + k = length urls)%nat →
  (k = 0%nat ∧ pre = -1 ∧ Z.of_nat s = GenRandomInt raw 1 (Z.of_nat (length urls)) - 1) ∨
  (∃ j, k = S j ∧ pre = (Z.of_nat s + Z.of_nat j) `mod` Z.of_nat (length urls)) →
  ProtoMessageToJson req = Some body →
  op_loop n raw pre (Some <$> urls) path req resp net =
    Some (try_each (drop k (rotate s urls)) path body resp net).
Proof.
  intros Hs Hn Hpre Hb. revert k pre resp net Hn Hpre.
  induction n as [|n IH]; intros k pre resp net Hn Hpre.
  { rewrite drop_ge by (rewrite length_rotate; lia). done. }
  destruct (lookup_lt_is_Some_2 (rotate s urls) k) as [url Hurl].
  { rewrite length_rotate. lia. }
  rewrite (drop_S _ url) by done. simpl.
  rewrite (GetChannel_at raw pre urls s k url) by done. simpl. rewrite Hb. simpl.
  assert (∀ resp net, op_loop n raw ((Z.of_nat s + Z.of_nat k) `mod` Z.of_nat (length urls))
    (Some <$> urls) path req resp net = Some (try_each (drop (S k) (rotate s urls)) path body
      resp net)) as IH'.
  { intros. apply IH; [lia|]. right. by exists k. }
  destruct (etcd_call url path body net) as [[answer|] net1]; [|apply IH'].
  destruct (json_into answer resp) as [[] resp1]; [done|apply IH'].
Qed.

Lemma op_loop_no_json (raw pre : Z) (urls : list string) (n : nat) path (req : REQ)
    (resp : RESP) net :
  urls ≠ [] → ProtoMessageToJson req = None →
  op_loop n raw pre (Some <$> urls) path req resp net = Some (false, resp, net).
Proof.
  intros Hne Hj. revert pre. induction n as [|n IH]; intros pre; [done|]. simpl.
  assert (∃ i ch, GetChannel raw pre (Some <$> urls) = Some (i, ch)) as (i & ch & ->).
  { unfold GetChannel. rewrite length_fmap. set (m := Z.of_nat (length urls)).
    assert (0 < m) by (destruct urls; [done|subst m; simpl; lia]).
    assert (∃ i, (if 0 <=? pre then (pre + 1) `rem` m else GenRandomInt raw 1 m - 1) = i ∧
      0 ≤ i < m) as (i & -> & Hi).
    { eexists. split; [done|]. case_match eqn:E.
      - apply Z.leb_le in E. rewrite Z.rem_mod_nonneg by lia. apply Z.mod_pos_bound. lia.
      - pose proof (GenRandomInt_range raw 1 m ltac:(lia)). lia. }
    rewrite (proj2 (Z.ltb_ge i 0)) by lia.
    destruct (lookup_lt_is_Some_2 (Some <$> urls) (Z.to_nat i)) as [ch ->].
    { rewrite length_fmap. subst m. lia. }
    simpl. eauto. }
  simpl. rewrite Hj. apply IH.
Qed.

Lemma EtcdOp_try_each (raw : Z) (urls : list string) (op : EtcdOps) req (resp : RESP) net :
  urls ≠ [] → ∃ s, (s < length urls)%nat ∧
  EtcdOp raw (Some <$> urls) op req resp net =
    Some (match ProtoMessageToJson req with
          | Some body => try_each (rotate s urls) (op_path op) body resp net
          | None => (false, resp, net)
          end).
Proof.
  intros Hne. assert (0 < length urls)%nat by (destruct urls; simpl; [done|lia]).
  pose proof (GenRandomInt_range raw 1 (Z.of_nat (length urls)) ltac:(lia)).
  exists (Z.to_nat (GenRandomInt raw 1 (Z.of_nat (length urls)) - 1)). split; [lia|].
  unfold EtcdOp. rewrite length_fmap. destruct (ProtoMessageToJson req) as [body|] eqn:E.
  - rewrite (op_loop_try_each raw (-1) urls (Z.to_nat (GenRandomInt raw 1
      (Z.of_nat (length urls)) - 1)) 0 _ _ _ body) by (done || lia || (left; lia)). done.
  - by apply op_loop_no_json.
Qed.

(** A channel that answers whatever came before it. *)
Definition answers (url path body : string) : Prop :=
  ∀ net resp, ∃ answer net' resp',
    etcd_call url path body net = (Some answer, net') ∧ json_into answer resp = (true, resp' : RESP).

Lemma try_each_answers urls url path body (resp : RESP) net :
  url ∈ urls → answers url path body →
  (try_each urls path body resp net).1.1 = true.
Proof.
  intros Hin Ha. revert resp net. induction Hin as [url urls|url url' urls Hin IH];
    intros resp net; simpl.
  - by destruct (Ha net resp) as (answer & net' & resp' & -> & ->).
  - destruct (etcd_call url' path body net) as [[answer|] net1]; [|by apply IH].
    destruct (json_into answer resp) as [[] resp1]; [done|by apply IH].
Qed.

End spec.

Lemma compare_nil_r s : String.compare s "" ≠ Lt.
Proof. by destruct s. Qed.

Lemma ascii_compare_lt c d : Ascii.compare c d = Lt ↔ byte_val c < byte_val d.
Proof. unfold Ascii.compare, byte_val. rewrite N.compare_lt_iff. lia. Qed.

Lemma incr_back_append p c :
  incr_back (p +:+ String c "") = p +:+ String (byte_of (byte_val c + 1)) "".
Proof.
  induction p as [|d p IH]; [done|]. rewrite !append_cons. simpl. rewrite IH.
  by destruct p.
Qed.

Lemma in_range_cons c lo hi k :
  in_range (String c lo) (String c hi) k ↔ ∃ k', k = String c k' ∧ in_range lo hi k'.
Proof.
  unfold in_range. destruct k as [|d k]; simpl; [naive_solver|].
  rewrite (Ascii.compare_antisym d c). destruct (Ascii.compare c d) eqn:E; simpl.
  - apply Ascii.compare_eq_iff in E as ->. naive_solver.
  - split; [naive_solver|]. intros (k' & [= -> ->] & _). by rewrite ascii_compare_refl in E.
  - split; [naive_solver|]. intros (k' & [= -> ->] & _). by rewrite ascii_compare_refl in E.
Qed.

Lemma in_range_char c k :
  byte_val c < 255 →
  in_range (String c "") (String (byte_of (byte_val c + 1)) "") k ↔ ∃ k', k = String c k'.
Proof.
  intros Hc. unfold in_range. destruct k as [|d k]; simpl; [naive_solver|].
  pose proof (byte_val_range c). pose proof (byte_val_range d).
  assert (byte_val (byte_of (byte_val c + 1)) = byte_val c + 1) as Hs.
  { rewrite byte_val_of, Z.mod_small; lia. }
  pose proof (ascii_compare_lt c d) as H1.
  pose proof (ascii_compare_lt d (byte_of (byte_val c + 1))) as H2. rewrite Hs in H2.
  destruct (Ascii.compare c d) eqn:E in |- *.
  - apply Ascii.compare_eq_iff in E as ->. rewrite (proj2 H2) by lia.
    split; [eauto|]. intros _. split; [by destruct k|done].
  - apply (proj1 H1) in E as E'.
    destruct (Ascii.compare d _); [|pose proof (proj1 H2 eq_refl); lia|].
    + split; [|intros (k' & [= -> ->]); by rewrite ascii_compare_refl in E].
      intros [_ Hk]. by destruct (compare_nil_r k).
    + split; [by intros [_ ?]|]. intros (k' & [= -> ->]). by rewrite ascii_compare_refl in E.
  - split; [naive_solver|]. intros (k' & [= -> ->]). by rewrite ascii_compare_refl in E.
Qed.

Lemma in_range_byte c k :
  in_range (String c "") (String (byte_of (byte_val c + 1)) "") k ↔
  (∃ k', k = String c k') ∧ byte_val c < 255.
Proof.
  destruct (decide (byte_val c < 255)) as [Hc|Hc]; [rewrite in_range_char by done; tauto|].
  split; [|tauto]. pose proof (byte_val_range c). replace (byte_val c + 1) with 256 by lia.
  intros [H1 H2]. destruct k as [|d k]; [done|]. simpl in H2.
  destruct (Ascii.compare d _) eqn:E; [by destruct (compare_nil_r k)| |done].
  apply ascii_compare_lt in E. change (byte_val (byte_of 256)) with 0 in E.
  pose proof (byte_val_range d). lia.
Qed.

Lemma in_range_append p c k :
  in_range (p +:+ String c "") (p +:+ String (byte_of (byte_val c + 1)) "") k ↔
  str_prefix (p +:+ String c "") k ∧ byte_val c < 255.
Proof.
  revert k. unfold str_prefix. induction p as [|d p IH]; intros k.
  - rewrite !append_nil_l, in_range_byte. done.
  - rewrite !append_cons, in_range_cons. setoid_rewrite IH. split.
    + intros (k' & -> & (r & ->) & Hc). eauto.
    + intros ((r & ->) & Hc). rewrite append_cons. eauto 8.
Qed.

Lemma rotate_perm {A} n (l : list A) : rotate n l ≡ₚ l.
Proof. unfold rotate. rewrite (comm (++)). by rewrite take_drop. Qed.

(** ** What the registration relies on of etcd *)

Section server.
Context `{EtcdNet}.
Context `{JsonCodec PutRequest} `{JsonInto PutResponse}.
Context `{JsonCodec LeaseGrantRequest} `{JsonInto LeaseGrantResponse}.
Context `{JsonCodec LeaseKeepAliveRequest} `{JsonInto HttpLeaseKeepAliveResponse}.

(** [held net k]: the value of [k] and the lease it is attached to.  The laws
    are those of etcd's API for calls that are answered: a granted lease has an
    id other than 0 and is alive; a put under a live lease attaches the key to
    it; a keep-alive answers with a positive time exactly for a live lease. *)
Class EtcdServer := {
  lease_live : ENet → Z → bool;
  held : ENet → string → option (string * Z);
  grant_law ttl url net : 0 < ttl → ∃ body answer net' resp,
    ProtoMessageToJson (mkLeaseGrantRequest ttl 0) = Some body ∧
    etcd_call url (op_path LEASE_GRANT) body net = (Some answer, net') ∧
    json_into answer empty_LeaseGrantResponse = (true, resp) ∧
    gr_ID resp ≠ 0 ∧ lease_live net' (gr_ID resp) = true;
  put_law k v l url net : lease_live net l = true → ∃ body answer net' resp,
    ProtoMessageToJson (mkPutRequest k v l false false false) = Some body ∧
    etcd_call url (op_path PUT) body net = (Some answer, net') ∧
    json_into answer empty_PutResponse = (true, resp) ∧
    held net' k = Some (v, l) ∧ lease_live net' l = true;
  alive_law l url net : ∃ body answer net' resp,
    ProtoMessageToJson (mkLeaseKeepAliveRequest l) = Some body ∧
    etcd_call url (op_path LEASE_KEEPALIVE) body net = (Some answer, net') ∧
    json_into answer empty_HttpLeaseKeepAliveResponse = (true, resp) ∧
    (0 < alive_ttl resp ↔ lease_live net l = true) ∧
    (∀ k, held net' k = held net k) ∧ (∀ i, lease_live net' i = lease_live net i)
}.

Context `{EtcdServer}.

(** What others do to the key of a node between two iterations: they leave it
    to the node while its lease lives, and a dead lease stays dead. *)
Definition others (ka : KeepAliveArgs) (id : Z) (net net' : ENet) : Prop :=
  lease_live net' id = true → lease_live net id = true ∧ held net' (ka_key ka) = held net (ka_key ka).

(** The states of the thread: after its start, after an iteration, and after
    steps of others. *)
Inductive ka_reach (ka : KeepAliveArgs) : Z → ENet → Prop :=
  | ka_start raws net id net' :
      register_node raws ka net = Some (id, net') → ka_reach ka id net'
  | ka_tick raws id net id' net' :
      ka_reach ka id net → keep_alive_tick raws ka id net = Some (id', net') →
      ka_reach ka id' net'
  | ka_others id net net' : ka_reach ka id net → others ka id net net' → ka_reach ka id net'.

Definition registered (ka : KeepAliveArgs) (id : Z) (net : ENet) : Prop :=
  held net (ka_key ka) = Some (ka_val ka, id) ∧ lease_live net id = true.

Definition ka_ok (ka : KeepAliveArgs) : Prop :=
  (∃ urls, _chan_list (ka_etcd_cli ka) = Some <$> urls ∧ urls ≠ []) ∧
  ka_key ka ≠ "" ∧ 0 < 3 * ka_interval_sec ka < 2 ^ 31.

Lemma EtcdOp_first_answer {REQ RESP} `{JsonCodec REQ} `{JsonInto RESP} raw urls op (req : REQ)
    (resp : RESP) net (P : RESP → ENet → Prop) :
  urls ≠ [] →
  (∀ url, ∃ body answer net' resp', ProtoMessageToJson req = Some body ∧
    etcd_call url (op_path op) body net = (Some answer, net') ∧
    json_into answer resp = (true, resp') ∧ P resp' net') →
  ∃ resp' net', EtcdOp raw (Some <$> urls) op req resp net = Some (true, resp', net') ∧ P resp' net'.
Proof.
  intros Hne Hc. destruct (EtcdOp_try_each raw urls op req resp net Hne) as (s & Hs & ->).
  destruct (rotate s urls) as [|url rest] eqn:E.
  { apply (f_equal length) in E. rewrite length_rotate in E. simpl in E. lia. }
  destruct (Hc url) as (body & answer & net' & resp' & -> & Hcall & Hj & HP).
  simpl. rewrite Hcall, Hj. eauto.
Qed.

Lemma register_node_registered raws ka net :
  ka_ok ka → ∃ id net', register_node raws ka net = Some (id, net') ∧ registered ka id net'.
Proof.
  intros ((urls & Hu & Hne) & Hk & Hi). unfold register_node, register_func.
  rewrite bool_decide_eq_false_2 by done.
  assert (int32 (3 * ka_interval_sec ka) = 3 * ka_interval_sec ka) as ->.
  { apply int32_id. unfold in_int32. lia. }
  unfold LeaseGrant, EtcdPut. rewrite Hu.
  destruct (EtcdOp_first_answer (raws 0%nat) urls LEASE_GRANT
    (mkLeaseGrantRequest (3 * ka_interval_sec ka) 0) empty_LeaseGrantResponse net
    (λ resp net', lease_live net' (gr_ID resp) = true)) as (g & net1 & -> & Hl); [done| |].
  { intros url. destruct (grant_law (3 * ka_interval_sec ka) url net)
      as (b & a & n & r & ? & ? & ? & ? & ?); [lia|]. eauto 10. }
  cbn [mbind option_bind].
  destruct (EtcdOp_first_answer (raws 1%nat) urls PUT
    (mkPutRequest (ka_key ka) (ka_val ka) (gr_ID g) false false false) empty_PutResponse net1
    (λ _ net', held net' (ka_key ka) = Some (ka_val ka, gr_ID g) ∧
      lease_live net' (gr_ID g) = true)) as (p & net2 & -> & Hh); [done| |].
  { intros url. destruct (put_law (ka_key ka) (ka_val ka) (gr_ID g) url net1 Hl)
      as (b & a & n & r & ? & ? & ? & ? & ?). eauto 10. }
  cbn [mbind option_bind]. eauto.
Qed.

Lemma keep_alive_tick_registered raws ka id net :
  ka_ok ka → (lease_live net id = true → registered ka id net) →
  ∃ id' net', keep_alive_tick raws ka id net = Some (id', net') ∧ registered ka id' net'.
Proof.
  intros Hok Hinv. pose proof Hok as ((urls & Hu & Hne) & _). unfold keep_alive_tick, LeaseKeepAlive.
  rewrite Hu. destruct (EtcdOp_first_answer (raws 0%nat) urls LEASE_KEEPALIVE
    (mkLeaseKeepAliveRequest id) empty_HttpLeaseKeepAliveResponse net
    (λ r net', (0 < alive_ttl r ↔ lease_live net id = true) ∧
      (∀ k, held net' k = held net k) ∧ (∀ i, lease_live net' i = lease_live net i)))
    as (r & net1 & -> & Ht & Hh & Hl); [done| |].
  { intros url. destruct (alive_law id url net) as (b & a & n & r & ? & ? & ? & ? & ? & ?).
    eauto 10. }
  cbn [mbind option_bind]. simpl. destruct (Z.leb_spec (alive_ttl r) 0) as [?|Hpos].
  - by apply register_node_registered.
  - exists id, net1. split; [done|]. apply Ht, Hinv in Hpos as [? ?].
    split; [by rewrite Hh|by rewrite Hl].
Qed.

Lemma ka_reach_inv ka id net :
  ka_ok ka → ka_reach ka id net → lease_live net id = true → registered ka id net.
Proof.
  intros Hok. induction 1 as [raws net id net' E|raws id net id' net' _ IH E|id net net' _ IH Ho].
  - destruct (register_node_registered raws ka net Hok) as (i & n & E' & ?). naive_solver.
  - destruct (keep_alive_tick_registered raws ka id net Hok IH) as (i & n & E' & ?). naive_solver.
  - intros Hl. destruct (Ho Hl) as [Hl0 Hh]. destruct (IH Hl0) as [? _]. split; [congruence|done].
Qed.

End server.

(** ** An etcd for the instances of the properties

    Leases live until they are removed. *)

Record ToyEtcd := mkToyEtcd {
  te_next : nat; te_leases : list Z; te_kv : list (string * (string * Z))
}.

Definition enc {A} `{Countable A} (x : A) : string := str_of (bits_of (encode x)).
Definition dec {A} `{Countable A} (s : string) : option A := decode (of_bits (bytes_of s)).

Definition toy_call (path body : string) (st : ToyEtcd) : option string * ToyEtcd :=
  if bool_decide (path = op_path LEASE_GRANT) then
    let id := Z.of_nat (te_next st) + 1 in
    (Some (enc id), mkToyEtcd (S (te_next st)) (id :: te_leases st) (te_kv st))
  else if bool_decide (path = op_path PUT) then
    match dec (A := string * (string * Z)) body with
    | Some (k, vl) => (Some "", mkToyEtcd (te_next st) (te_leases st) ((k, vl) :: te_kv st))
    | None => (Some "", st)
    end
  else
    (Some (enc (if bool_decide (default 0 (dec (A := Z) body) ∈ te_leases st) then 1 else 0)), st).

Definition toy_net : EtcdNet := {|
  ENet := ToyEtcd; etcd_channel_Init _ _ st := (0, st);
  etcd_call _ path body st := toy_call path body st
|}.

(** The same etcd behind a network that loses as many puts as the first
    component says. *)
Definition lossy_net : EtcdNet := {|
  ENet := nat * ToyEtcd; etcd_channel_Init _ _ st := (0, st);
  etcd_call _ path body '(n, st) :=
    match n, bool_decide (path = op_path PUT) with
    | S n', true => (None, (n', st))
    | _, _ => let '(r, st) := toy_call path body st in (r, (n, st))
    end
|}.

Definition toy_put_req : JsonCodec PutRequest := {|
  ProtoMessageToJson q := Some (enc (pq_key q, (pq_value q, pq_lease q)));
  JsonToProtoMessage _ := None
|}.
Definition toy_put_resp : JsonInto PutResponse := λ _ r, (true, r).
Definition toy_grant_req : JsonCodec LeaseGrantRequest := {|
  ProtoMessageToJson q := Some (enc (gq_TTL q)); JsonToProtoMessage _ := None
|}.
Definition toy_grant_resp : JsonInto LeaseGrantResponse := λ s r,
  (true, mkLeaseGrantResponse (gr_header r) (default 0 (dec s)) (gr_TTL r) (gr_error r)).
Definition toy_alive_req : JsonCodec LeaseKeepAliveRequest := {|
  ProtoMessageToJson q := Some (enc (aq_ID q)); JsonToProtoMessage _ := None
|}.
Definition toy_alive_resp : JsonInto HttpLeaseKeepAliveResponse := λ s r,
  (true, mkHttpLeaseKeepAliveResponse (Some (mkLeaseKeepAliveResponse None 0 (default 0 (dec s))))).

#[local] Arguments enc : simpl never.
#[local] Arguments dec : simpl never.

Lemma dec_enc {A} `{Countable A} (x : A) : dec (enc x) = Some x.
Proof. unfold dec, enc. rewrite bytes_of_str_of, of_bits_of. apply decode_encode. Qed.

#[local] Existing Instances toy_put_req toy_put_resp toy_grant_req toy_grant_resp
  toy_alive_req toy_alive_resp.

Definition toy_live (st : ToyEtcd) (i : Z) : bool := bool_decide (i ∈ te_leases st).
Definition toy_held (st : ToyEtcd) (k : string) : option (string * Z) :=
  snd <$> head (filter (λ p, p.1 = k) (te_kv st)).

Lemma toy_call_put k vl st :
  toy_call (op_path PUT) (enc (k, vl)) st =
    (Some "", mkToyEtcd (te_next st) (te_leases st) ((k, vl) :: te_kv st)).
Proof.
  unfold toy_call. rewrite bool_decide_eq_false_2, bool_decide_eq_true_2 by done.
  by rewrite dec_enc.
Qed.

Lemma toy_call_alive id st :
  toy_call (op_path LEASE_KEEPALIVE) (enc id) st =
    (Some (enc (if toy_live st id then 1 else 0)), st).
Proof.
  unfold toy_call. rewrite !bool_decide_eq_false_2 by done. by rewrite dec_enc.
Qed.

Definition toy_server : @EtcdServer toy_net _ _ _ _ _ _.
Proof.
  refine (@Build_EtcdServer toy_net _ _ _ _ _ _ toy_live toy_held _ _ _).
  - intros ttl url st _. set (id := Z.of_nat (te_next st) + 1).
    exists (enc ttl), (enc id), (mkToyEtcd (S (te_next st)) (id :: te_leases st) (te_kv st)),
      (mkLeaseGrantResponse None id 0 "").
    split_and!; [reflexivity..| | |].
    + unfold json_into, toy_grant_resp. by rewrite dec_enc.
    + simpl. unfold id. lia.
    + unfold toy_live. simpl. apply bool_decide_eq_true. left.
  - intros k v l url st Hl. do 4 eexists. split_and!; [reflexivity|..].
    + apply toy_call_put.
    + reflexivity.
    + unfold toy_held. simpl. rewrite filter_cons_True by done. done.
    + exact Hl.
  - intros l url st. set (t := if toy_live st l then 1 else 0).
    exists (enc l), (enc t), st, (mkHttpLeaseKeepAliveResponse
      (Some (mkLeaseKeepAliveResponse None 0 t))).
    split_and!; [reflexivity| | | |done|done].
    + apply toy_call_alive.
    + unfold json_into, toy_alive_resp. by rewrite dec_enc.
    + unfold alive_ttl, t. simpl. by destruct (toy_live st l).
Defined.

Lemma lossy_call_alive url id n st :
  @etcd_call lossy_net url (op_path LEASE_KEEPALIVE) (enc id) (n, st) =
    (Some (enc (if toy_live st id then 1 else 0)), (n, st)).
Proof.
  unfold etcd_call, lossy_net. rewrite bool_decide_eq_false_2, toy_call_alive by done.
  by destruct n.
Qed.

(** With a live lease an iteration only keeps it alive. *)
Lemma lossy_tick_live raws ka url id n st :
  _chan_list (ka_etcd_cli ka) = [Some url] → toy_live st id = true →
  @keep_alive_tick lossy_net _ _ _ _ _ _ raws ka id (n, st) = Some (id, (n, st)).
Proof.
  intros Hu Hl. unfold keep_alive_tick, LeaseKeepAlive. rewrite Hu.
  destruct (@EtcdOp_try_each lossy_net _ _ _ _ (raws 0%nat) [url] LEASE_KEEPALIVE
    (mkLeaseKeepAliveRequest id) empty_HttpLeaseKeepAliveResponse (n, st) ltac:(done))
    as (s & Hs & E).
  assert (s = 0%nat) as -> by (simpl in Hs; lia). change (Some <$> [url]) with [Some url] in E.
  rewrite E. change (rotate 0 [url]) with [url].
  change (ProtoMessageToJson (mkLeaseKeepAliveRequest id)) with (Some (enc id)). cbn [try_each].
  rewrite lossy_call_alive, Hl. unfold json_into, toy_alive_resp. rewrite dec_enc. done.
Qed.

(** With one channel the draws do not matter. *)
Lemma EtcdOp_single `{EtcdNet} {REQ RESP} `{JsonCodec REQ} `{JsonInto RESP} raw raw' url op
    (req : REQ) (resp : RESP) net :
  EtcdOp raw [Some url] op req resp net = EtcdOp raw' [Some url] op req resp net.
Proof.
  destruct (EtcdOp_try_each raw [url] op req resp net ltac:(done)) as (s & Hs & E).
  destruct (EtcdOp_try_each raw' [url] op req resp net ltac:(done)) as (s' & Hs' & E').
  change (Some <$> [url]) with [Some url] in *. rewrite E, E'.
  assert (s = 0%nat) as -> by (simpl in Hs; lia).
  by assert (s' = 0%nat) as -> by (simpl in Hs'; lia).
Qed.

Lemma register_node_single `{EtcdNet} `{JsonCodec PutRequest} `{JsonInto PutResponse}
    `{JsonCodec LeaseGrantRequest} `{JsonInto LeaseGrantResponse} raws raws' ka url net :
  _chan_list (ka_etcd_cli ka) = [Some url] →
  register_node raws ka net = register_node raws' ka net.
Proof.
  intros Hu. unfold register_node, register_func, LeaseGrant, EtcdPut. rewrite Hu.
  case_bool_decide; [done|]. rewrite (EtcdOp_single (raws 0%nat) (raws' 0%nat)).
  destruct (EtcdOp (raws' 0%nat) _ _ _ _ _) as [[[ok g] net1]|]; [|done].
  cbn [mbind option_bind]. by rewrite (EtcdOp_single (raws 1%nat) (raws' 1%nat)).
Qed.

Lemma lossy_loop_live n raws ka url id m st :
  _chan_list (ka_etcd_cli ka) = [Some url] → toy_live st id = true →
  @keep_alive_loop lossy_net _ _ _ _ _ _ n raws ka id (m, st) = Some (id, (m, st)).
Proof.
  intros Hu Hl. revert raws. induction n as [|n IH]; intros raws; [done|].
  cbn [keep_alive_loop]. rewrite (lossy_tick_live _ _ url) by done. apply IH.
Qed.

Definition sample_ka : KeepAliveArgs :=
  mkKeepAliveArgs (mkEtcdClient [Some "http://e:2379"] 1 true) "/nodes/ps/:h:1:7" "1" 3.

(** ** Properties *)

(** C35. A call tries every channel once: [EtcdOp] is the run over some order
    of all the channels up to the first that answers with a message, so that it
    succeeds when any one channel answers, and it fails without a call exactly
    when the request does not convert. *)
Theorem EtcdOp_tries_each_once `{EtcdNet} {REQ RESP : Type} `{JsonCodec REQ} `{JsonInto RESP}
    (raw : Z) (urls : list string) (op : EtcdOps) (req : REQ) (resp : RESP) (net : ENet) :
  urls ≠ [] →
  ∃ order, order ≡ₚ urls ∧
    match ProtoMessageToJson req with
    | None => EtcdOp raw (Some <$> urls) op req resp net = Some (false, resp, net)
    | Some body =>
        EtcdOp raw (Some <$> urls) op req resp net =
          Some (try_each order (op_path op) body resp net) ∧
        (∀ url, url ∈ urls → answers (RESP := RESP) url (op_path op) body →
          ∃ resp' net', EtcdOp raw (Some <$> urls) op req resp net = Some (true, resp', net'))
    end.
Proof.
  intros Hne. destruct (EtcdOp_try_each raw urls op req resp net Hne) as (s & _ & E).
  exists (rotate s urls). split; [apply rotate_perm|]. rewrite E.
  destruct (ProtoMessageToJson req) as [body|]; [|done]. split; [done|].
  intros url Hu Ha. assert (url ∈ rotate s urls) as Hr by (by apply elem_of_rotate).
  pose proof (try_each_answers _ url (op_path op) body resp net Hr Ha).
  destruct (try_each _ _ _ _ _) as [[ok resp'] net']. simpl in *. subst. eauto.
Qed.

Lemma EtcdOp_tries_each_once_witness :
  ∃ resp' net', @EtcdOp toy_net _ _ toy_alive_req toy_alive_resp 5 (Some <$> ["a"; "b"])
    LEASE_KEEPALIVE (mkLeaseKeepAliveRequest 1) empty_HttpLeaseKeepAliveResponse
    (mkToyEtcd 1 [1] []) = Some (true, resp', net').
Proof.
  destruct (@EtcdOp_tries_each_once toy_net _ _ toy_alive_req toy_alive_resp 5 ["a"; "b"]
    LEASE_KEEPALIVE (mkLeaseKeepAliveRequest 1) empty_HttpLeaseKeepAliveResponse
    (mkToyEtcd 1 [1] []) ltac:(discriminate)) as (order & _ & _ & Hl).
  apply (Hl "b"); [right; left|]. intros st resp. do 3 eexists.
  split; [apply toy_call_alive|]. reflexivity.
Defined.

(** The range [[key, GetRangeEnd(key))] of etcd, in its order of bytes,
    holds exactly the keys with the prefix [key], provided that the last byte
    of [key] is not 255; for a key that ends in 255 the range is empty, because
    the byte wraps around. *)
Theorem GetRangeEnd_prefix (p : string) (c : ascii) (k : string) :
  in_range (p +:+ String c "") (GetRangeEnd (p +:+ String c "")) k ↔
  str_prefix (p +:+ String c "") k ∧ byte_val c < 255.
Proof.
  unfold GetRangeEnd. rewrite (proj2 (Nat.ltb_lt 0 _)).
  - rewrite incr_back_append. apply in_range_append.
  - destruct p; [rewrite append_nil_l|rewrite append_cons]; simpl; lia.
Qed.

(** C20. A node stays registered: with an etcd that answers, if nobody else changes
    the node's key while its lease is alive, then at every state the thread can
    reach, also when its lease has expired and the key is gone or somebody
    else's, the next iteration ends with the node's key holding its value under a
    lease that is alive. *)
Theorem keep_alive_registered `{EtcdServer} (ka : KeepAliveArgs) (id : Z) (net : ENet)
    (raws : nat → Z) :
  ka_ok ka → ka_reach ka id net →
  ∃ id' net', keep_alive_tick raws ka id net = Some (id', net') ∧ registered ka id' net' ∧
    ka_reach ka id' net'.
Proof.
  intros Hok Hr. destruct (keep_alive_tick_registered raws ka id net Hok) as (id' & net' & E & HR).
  - by apply ka_reach_inv.
  - exists id', net'. split_and!; [done..|]. by eapply ka_tick.
Qed.

(** The lease expires after the start; the iteration registers anew. *)
Lemma keep_alive_registered_witness :
  ∃ id' (net' : ToyEtcd), @keep_alive_tick toy_net _ _ _ _ _ _ (λ _, 0) sample_ka 1
      (mkToyEtcd 1 [] []) = Some (id', net') ∧
    toy_held net' "/nodes/ps/:h:1:7" = Some ("1", id').
Proof.
  destruct (@keep_alive_registered toy_net _ _ _ _ _ _ toy_server sample_ka 1 (mkToyEtcd 1 [] [])
    (λ _, 0)) as (id' & net' & E & [Hh _] & _).
  - split_and!; [exists ["http://e:2379"]; split; [reflexivity|discriminate]|discriminate|
      reflexivity..].
  - apply (@ka_others toy_net _ _ _ _ _ _ toy_server _ _
      (mkToyEtcd 1 [1] [("/nodes/ps/:h:1:7", ("1", 1))])).
    + apply (@ka_start toy_net _ _ _ _ _ _ toy_server _ (λ _, 0) (mkToyEtcd 0 [] [])).
      vm_compute. reflexivity.
    + intros Hl. discriminate Hl.
  - exists id', net'. split; [exact E|exact Hh].
Defined.

(** A registration that is lost once is lost for as long as the lease
    lives: when the put after the grant gets no answer, the thread renews the
    lease in every later iteration and never puts the key again. *)
Theorem lost_put_is_not_repeated (n : nat) (raws : nat → nat → Z) :
  ∃ id st, @KeepNodeAliveThreadFunc lossy_net _ _ _ _ _ _ n raws sample_ka
      (1%nat, mkToyEtcd 0 [] []) = Some (id, (0%nat, st)) ∧
    toy_live st id = true ∧ toy_held st (ka_key sample_ka) = None.
Proof.
  unfold KeepNodeAliveThreadFunc.
  assert (@register_node lossy_net _ _ _ _ (raws 0%nat) sample_ka (1%nat, mkToyEtcd 0 [] []) =
    Some (1, (0%nat, mkToyEtcd 1 [1] []))) as ->.
  { rewrite (register_node_single _ (λ _, 0) sample_ka "http://e:2379") by done.
    vm_compute. done. }
  cbn [mbind option_bind]. rewrite (lossy_loop_live _ _ _ "http://e:2379") by done.
  by exists 1, (mkToyEtcd 1 [1] []).
Qed.
