(* ===== verification/Handles.v ===== *)
(** * Handles: objects that own something

    [ReadBody] of src/clients/etcd_client.cc, the reader that a watch attaches
    to the stream of its response, with the references to it; and [SharedFD] of
    src/raft_store/raft_store.h, which closes its file descriptor.  The counting
    of references itself is brpc's: here is only what the code does to the count
    and to the fields of the object, in order. *)
From S2P Require Import Prelude Numeric Common Wire EtcdMsg EtcdClient.
Local Open Scope Z_scope.

(** ** ReadBody *)

Record ReadBody := mkReadBody {
  rb_destroyed : bool; rb_destroying_st : Z; rb_watcher : bool
}.

(** What happens to the object: a reference is taken or given back, or a field
    is used. *)
Inductive RefEvent := AddRef | Release | UseField (field : string).

#[global] Instance RefEvent_eq_dec : EqDecision RefEvent.
Proof. solve_decision. Defined.

(** [ReadBody()]: a pointer to [this] that is detached, so that its reference is
    not given back. *)
Definition ReadBody_new : ReadBody * list RefEvent :=
  (mkReadBody false 0 false, [UseField "_destroyed"; AddRef]).

Definition set_watcher (b : ReadBody) : ReadBody * list RefEvent :=
  (mkReadBody (rb_destroyed b) (rb_destroying_st b) true, [UseField "_watcher"]).

(** [OnReadOnePart] uses the watcher when the part is not empty. *)
Definition read_one_part (length : Z) (b : ReadBody) : ReadBody * list RefEvent :=
  (b, if 0 <? length then [UseField "_watcher"] else []).

(** [OnEndOfMessage]: the pointer that takes over the reference is a temporary. *)
Definition OnEndOfMessage (st : Z) (b : ReadBody) : ReadBody * list RefEvent :=
  (mkReadBody true st (rb_watcher b),
   [Release; UseField "_destroyed"; UseField "_destroying_st"]).

(** The end of [Watch]: the reader is created, given the watcher and attached;
    the local pointer goes with the scope. *)
Definition Watch_attach : ReadBody * list RefEvent :=
  let '(b, e1) := ReadBody_new in
  let '(b, e2) := set_watcher b in
  (b, e1 ++ [AddRef] ++ e2 ++ [Release]).

(** A stream of parts of these lengths, then its end. *)
Fixpoint read_parts (lengths : list Z) (b : ReadBody) : ReadBody * list RefEvent :=
  match lengths with
  | [] => (b, [])
  | n :: rest =>
      let '(b, e1) := read_one_part n b in
      let '(b, e2) := read_parts rest b in (b, e1 ++ e2)
  end.

Definition watch_life (lengths : list Z) (st : Z) : ReadBody * list RefEvent :=
  let '(b, e1) := Watch_attach in
  let '(b, e2) := read_parts lengths b in
  let '(b, e3) := OnEndOfMessage st b in (b, e1 ++ e2 ++ e3).

(** The references that are held after some events. *)
Definition refs (es : list RefEvent) : Z :=
  Z.of_nat (length (filter (λ e, e = AddRef) es)) -
  Z.of_nat (length (filter (λ e, e = Release) es)).

(** ** SharedFD *)

(** The destructor calls [close] until it does not fail with [EINTR]; [close n]
    is the result and the error number of the [n]-th call, the result is the
    number of calls, [None] a loop that is not over after [fuel] of them. *)
Definition EINTR : Z := 4.
Fixpoint close_loop (fuel n : nat) (close : nat → Z * Z) : option nat :=
  match fuel with
  | O => None
  | S fuel' =>
      let '(rc, errno) := close n in
      if (rc =? 0) || negb (errno =? EINTR) then Some (S n) else close_loop fuel' (S n) close
  end.

Record SharedFD := mkSharedFD { sf_fd : Z }.

(** The number of calls of [close] and the descriptor that is left. *)
Definition SharedFD_destroy (fuel : nat) (close : nat → Z * Z) (f : SharedFD)
    : option (nat * SharedFD) :=
  if 0 <=? sf_fd f then n ← close_loop fuel 0 close; Some (n, mkSharedFD (-1))
  else Some (0%nat, f).

(** ** Lemmas *)

Lemma refs_app l1 l2 : refs (l1 ++ l2) = refs l1 + refs l2.
Proof. unfold refs. rewrite !filter_app, !length_app. lia. Qed.

Lemma refs_parts lengths b :
  refs (read_parts lengths b).2 = 0 ∧ (read_parts lengths b).1 = b.
Proof.
  induction lengths as [|n rest IH]; [done|]. cbn [read_parts read_one_part].
  destruct (read_parts rest b) as [b' e2]. destruct IH as [IH1 IH2]. simpl in *.
  split; [|done]. rewrite refs_app, IH1. by destruct (0 <? n).
Qed.

(** ** Properties *)

(** The reader of a watch is used after it is gone: however the stream goes,
    while parts arrive one reference is held, but at its end the reader gives
    the last reference back before it writes its fields. *)
Theorem watch_reader_outlived (lengths : list Z) (st : Z) :
  ∃ before after, (watch_life lengths st).2 = before ++ UseField "_destroyed" :: after ∧
    refs before = 0 ∧ refs (Watch_attach.2 ++ (read_parts lengths Watch_attach.1).2) = 1.
Proof.
  unfold watch_life. destruct Watch_attach as [b e1] eqn:E1. cbn [fst snd].
  assert (refs e1 = 1) as H1 by (by injection E1 as <- <-).
  destruct (refs_parts lengths b) as [H2 _].
  destruct (read_parts lengths b) as [b2 e2]. simpl in H2.
  exists (e1 ++ e2 ++ [Release]), [UseField "_destroying_st"]. split; [|split].
  - cbn [OnEndOfMessage snd]. by rewrite <-!app_assoc.
  - rewrite !refs_app, H1, H2. done.
  - cbn [snd]. rewrite refs_app. lia.
Qed.

(** The destructor returns as soon as [close] gives another answer than [EINTR],
    after exactly that many calls. *)
Theorem SharedFD_destroy_returns (close : nat → Z * Z) (fd : Z) (k fuel : nat) :
  0 ≤ fd → (∀ i, (i < k)%nat → close i = (-1, EINTR)) →
  (close k).1 = 0 ∨ (close k).2 ≠ EINTR → (k < fuel)%nat →
  SharedFD_destroy fuel close (mkSharedFD fd) = Some (S k, mkSharedFD (-1)).
Proof.
  intros Hfd Hi Hk Hf. unfold SharedFD_destroy. cbn [sf_fd]. rewrite (proj2 (Z.leb_le _ _)) by done.
  assert (∀ j n, (j + n = k)%nat → (j < fuel - n)%nat →
    close_loop (fuel - n) n close = Some (S k)) as HL.
  { induction j as [|j IH]; intros n Hn Hl; (destruct (fuel - n)%nat as [|m] eqn:Em; [lia|]);
      cbn [close_loop].
    - simpl in Hn. subst n. destruct (close k) as [rc errno]. simpl in Hk.
      destruct Hk as [->|Hk]; [done|]. rewrite (proj2 (Z.eqb_neq errno EINTR)) by done.
      by rewrite orb_true_r.
    - rewrite Hi by lia. cbn. replace m with (fuel - S n)%nat by lia. apply IH; lia. }
  specialize (HL k 0%nat ltac:(lia)). rewrite Nat.sub_0_r in HL. by rewrite HL.
Qed.
