(* ===== verification/SpaceManager.v ===== *)
(** * SpaceManager: src/service/router/space_manager.{h,cc}

    The router's table of spaces: a vector of connections, whose deleted entries
    are null pointers, and an index from the space key to the position in the
    vector.  The index is any implementation of the interface of OwmrMap, and
    the theorems of this file rely on the interface only. *)
From S2P Require Import Prelude StdMap Numeric Bytes OwmrMap Common Files Wire RaftClient Partition LocalSpaces EtcdMsg EtcdClient.
Local Open Scope Z_scope.

(** [google::protobuf::util::JsonStringToMessage] for a space: the text of the
    status, or the message. *)
Class SpaceJson := JsonStringToMessage : string → string + Space.

(** The manager; [sm_capacity] is the capacity of the vector. *)
Record SpaceManager (M : Type) := mkSpaceManager {
  _spaces_conn : list (option SpaceConn);
  sm_capacity : Z;
  _space_idx_mp : M
}.
Arguments mkSpaceManager {M} _ _ _.
Arguments _spaces_conn {M} _.
Arguments sm_capacity {M} _.
Arguments _space_idx_mp {M} _.

(** The router: the manager, the local copy of the spaces with the file system
    it is saved in, and the network. *)
Record Router (M N : Type) := mkRouter {
  rt_mgr : SpaceManager M; rt_local : LocalSpaces; rt_fs : Fs; rt_net : N
}.
Arguments mkRouter {M N} _ _ _ _.
Arguments rt_mgr {M N} _.
Arguments rt_local {M N} _.
Arguments rt_fs {M N} _.
Arguments rt_net {M N} _.

Definition SpaceManager_new {M} (idx : M) : SpaceManager M := mkSpaceManager [] 0 idx.

(** [SpaceManager::SpaceJsonToPb] *)
Definition SpaceJsonToPb `{SpaceJson} (space_json : string) : string * Space :=
  match JsonStringToMessage space_json with
  | inl status => ("Failed to parse space JSON: " +:+ status +:+ " space_json:" +:+ space_json,
                   empty_space)
  | inr pb_space => ("", pb_space)
  end.

(** [reserve] and the growth of [push_back]. *)
Definition reserve_capacity (n cap : Z) : Z := Z.max n cap.
Definition push_capacity (size cap : Z) : Z :=
  if size <? cap then cap else size + Z.max size 1.

(** The first null pointer. *)
Fixpoint first_null {A} (l : list (option A)) : option nat :=
  match l with
  | [] => None
  | None :: _ => Some 0%nat
  | Some _ :: l' => S <$> first_null l'
  end.

Section manager.
Context {M : Type} `{IndexMap M} `{PsNet} `{WireCodec Document} `{JsonCodec (list Space)}.
Implicit Types (m : SpaceManager M) (r : Router M Net) (space_key key : string).

Definition set_mgr m r : Router M Net := mkRouter m (rt_local r) (rt_fs r) (rt_net r).
Definition set_net (net : Net) r : Router M Net := mkRouter (rt_mgr r) (rt_local r) (rt_fs r) net.
Definition set_local (l : LocalSpaces) (fs : Fs) r : Router M Net :=
  mkRouter (rt_mgr r) l fs (rt_net r).

(** [LocalSpaces::GetInstance().Save()], whose result no caller looks at. *)
Definition save_local (l : LocalSpaces) r : Router M Net :=
  set_local l (LocalSpaces_Save l (rt_fs r)).2 r.

Definition push_conn (conn : SpaceConn) (i : Z) m : SpaceManager M :=
  mkSpaceManager (_spaces_conn m ++ [Some conn])
    (push_capacity (Z.of_nat (length (_spaces_conn m))) (sm_capacity m))
    (im_put (sc_space_key conn) (int16 i) (_space_idx_mp m)).2.

(** ** Init *)

Definition spaces_request : RangeRequest :=
  mkRangeRequest _etcd_space_prefix (GetRangeEnd _etcd_space_prefix) 0 0 SortAscend TargetKey
    false false false 0 0 0 0.

Fixpoint parse_spaces `{SpaceJson} (kvs : list KeyValue) : string + list Space :=
  match kvs with
  | [] => inr []
  | kv :: rest =>
      let '(msg, pb_space) := SpaceJsonToPb (kv_value kv) in
      if! msg then inl msg
      else match parse_spaces rest with inl e => inl e | inr l => inr (pb_space :: l) end
  end.

(** The loop over the spaces, from index [i]. *)
Fixpoint init_loop (i : Z) (spaces : list Space) r : option (Router M Net) :=
  match spaces with
  | [] => Some r
  | space :: rest =>
      '(_, conn, net) ← SpaceConn_Init space (rt_net r);
      init_loop (i + 1) rest (set_net net (set_mgr (push_conn conn i (rt_mgr r)) r))
  end.

(** [None] is the exception of [reserve] with a negative number, or of a
    connection. *)
Definition SpaceManager_Init `{EtcdNet} `{JsonCodec RangeRequest} `{JsonInto RangeResponse}
    `{SpaceJson} (raw max_space_num : Z) (etcd_client : EtcdClient) (enet : ENet) r :
    option (string * Router M Net * ENet) :=
  if max_space_num <? 0 then None
  else
    let m := rt_mgr r in
    let r := set_mgr (mkSpaceManager (_spaces_conn m)
      (reserve_capacity max_space_num (sm_capacity m)) (_space_idx_mp m)) r in
    '(ok, resp, enet) ← Range raw spaces_request empty_RangeResponse etcd_client enet;
    if negb ok then
      Some ("Init SpaceManager fail, get space info from etcd failed", r, enet)
    else
      match rr_kvs resp with
      | [] =>
          let '(_, l, fs) := LocalSpaces_Load (rt_local r) (rt_fs r) in
          r ← init_loop 0 (GetSpaces l) (set_local l fs r);
          Some ("", r, enet)
      | kvs =>
          match parse_spaces kvs with
          | inl msg => Some (msg, r, enet)
          | inr spaces_info =>
              r ← init_loop 0 spaces_info (save_local (SetSpaces spaces_info (rt_local r)) r);
              Some ("", r, enet)
          end
      end.

(** ** Adding, deleting and finding a space *)

Definition msg_exists key : string := "space_key:" +:+ key +:+ " is already exist, not add.".
Definition msg_full (cap : Z) : string :=
  "spaces num > max_space_num[" +:+ to_string cap +:+ "] create space failed".
Definition msg_not_exit space_key : string :=
  "space_key:" +:+ space_key +:+ " is not exit, not delete.".

Definition AddSpace (pb_space : Space) r : option (string * Router M Net) :=
  '(_, conn, net) ← SpaceConn_Init pb_space (rt_net r);
  let r := set_net net r in
  let m := rt_mgr r in
  let key := sc_space_key conn in
  if 0 <=? im_get key (_space_idx_mp m) then Some (msg_exists key, r)
  else
    match first_null (_spaces_conn m) with
    | Some i =>
        Some ("", set_mgr (mkSpaceManager (<[i := Some conn]> (_spaces_conn m)) (sm_capacity m)
          (im_put key (int16 (Z.of_nat i)) (_space_idx_mp m)).2) r)
    | None =>
        if sm_capacity m <=? Z.of_nat (length (_spaces_conn m)) then
          Some (msg_full (sm_capacity m), r)
        else
          let r := set_mgr (push_conn conn (Z.of_nat (length (_spaces_conn m))) m) r in
          Some ("", save_local (LocalSpaces_AddSpace pb_space (rt_local r)).2 r)
    end.

(** [None] is the access outside of the vector. *)
Definition DeleteSpace space_key m : option (string * SpaceManager M) :=
  let idx := im_get space_key (_space_idx_mp m) in
  if 0 <=? idx then
    let mp := (im_delete space_key (_space_idx_mp m)).2 in
    _ ← _spaces_conn m !! Z.to_nat idx;
    Some ("", mkSpaceManager (<[Z.to_nat idx := None]> (_spaces_conn m)) (sm_capacity m) mp)
  else Some (msg_not_exit space_key, m).

Definition msg_null_key : string := "db_name and space_name is null".
Definition msg_absent space_key : string :=
  "db_name and space_name [" +:+ space_key +:+ "] is not exist".
Definition msg_deleted space_key : string :=
  "db_name and space_name  [" +:+ space_key +:+ "] is deleted.".

(** The connection with its position in the vector, through which the calls on
    the shared connection change it. *)
Definition GetSpaceConn space_key m : option (option (nat * SpaceConn) * string) :=
  if (String.length space_key <=? 1)%nat then Some (None, msg_null_key)
  else
    let space_idx := im_get space_key (_space_idx_mp m) in
    if space_idx <? 0 then Some (None, msg_absent space_key)
    else
      space_conn ← _spaces_conn m !! Z.to_nat space_idx;
      match space_conn with
      | None => Some (None, msg_deleted space_key)
      | Some c => Some (Some (Z.to_nat space_idx, c), "")
      end.

(** A shared connection after a call on it. *)
Definition set_conn (i : nat) (c : SpaceConn) m : SpaceManager M :=
  mkSpaceManager (<[i := Some c]> (_spaces_conn m)) (sm_capacity m) (_space_idx_mp m).

(** ** Writing documents *)

Definition UpsertDocsToPs space_key (docs_groups : list (Z * DocsGroup)) r :
    option (Errs * string * Router M Net) :=
  '(conn, msg) ← GetSpaceConn space_key (rt_mgr r);
  match conn with
  | None =>
      let msg := "space_key:" +:+ space_key +:+ " is not exist" in
      Some (fold_left (λ res_mp g, add_err_msg (pdi_key <$> dg_infos g.2) msg res_mp)
        docs_groups [], msg, r)
  | Some (i, c) =>
      '(errs, c, net) ← Space_UpsertDocs docs_groups c (rt_net r);
      Some (errs, msg, set_net net (set_mgr (set_conn i c (rt_mgr r)) r))
  end.

End manager.

(** ** Distribution over the partitions *)

Section hash.
Context `{StdHash}.

(** The partition of a key as the [int] the maps are indexed by. *)
Definition partition_of (key : string) (partition_num : Z) : option Z :=
  int32 <$> GetPartitionId key partition_num.

(** The group of a partition, created when it is not there. *)
Definition ensure_group (id : Z) (m : list (Z * DocsGroup)) : list (Z * DocsGroup) :=
  if sm_count id m then m else sm_insert id (mkDocsGroup id []) m.

Definition push_doc (id : Z) (info : PbDocInfo) (m : list (Z * DocsGroup)) :
    list (Z * DocsGroup) :=
  let g := default (mkDocsGroup 0 []) (sm_lookup id m) in
  sm_insert id (mkDocsGroup (dg_partition_id g) (dg_infos g ++ [info])) m.

(** The first loop, over the keys: it reads [docs.Get(i)] for each of them. *)
Fixpoint groups_loop (i : nat) (doc_keys : list string) (docs : list Document)
    (partition_num : Z) (m : list (Z * DocsGroup)) : option (list (Z * DocsGroup)) :=
  match doc_keys with
  | [] => Some m
  | key :: rest =>
      _ ← docs !! i;
      id ← partition_of key partition_num;
      groups_loop (S i) rest docs partition_num (ensure_group id m)
  end.

(** The second loop, over the documents: it reads [doc_keys[i]]. *)
Fixpoint docs_loop (i : nat) (docs : list Document) (doc_keys : list string)
    (partition_num : Z) (m : list (Z * DocsGroup)) : option (list (Z * DocsGroup)) :=
  match docs with
  | [] => Some m
  | doc :: rest =>
      key ← doc_keys !! i;
      id ← partition_of key partition_num;
      docs_loop (S i) rest doc_keys partition_num
        (push_doc id (mkPbDocInfo key doc) (ensure_group id m))
  end.

Definition HashDocs (docs : list Document) (doc_keys : list string) (partition_num : Z) :
    option (list (Z * DocsGroup)) :=
  m ← groups_loop 0 doc_keys docs partition_num [];
  docs_loop 0 docs doc_keys partition_num m.

Fixpoint keys_loop (doc_keys : list string) (partition_num : Z) (m : list (Z * list string)) :
    option (list (Z * list string)) :=
  match doc_keys with
  | [] => Some m
  | doc_key :: rest =>
      id ← partition_of doc_key partition_num;
      let m := if sm_count id m then m else sm_insert id [] m in
      keys_loop rest partition_num
        (sm_insert id (default [] (sm_lookup id m) ++ [doc_key]) m)
  end.

Definition HashKeys (doc_keys : list string) (partition_num : Z) :
    option (list (Z * list string)) := keys_loop doc_keys partition_num [].

End hash.

(** ** Invariant and abstraction *)

Section spec.
Context {M : Type} `{IndexMapSpec M}.
Implicit Types (m : SpaceManager M) (key : string).

(** Every indexed position holds the connection of its key; positions fit the
    16 bits of the index. *)
Definition mgr_wf m : Prop :=
  im_wf (_space_idx_mp m) ∧
  Z.of_nat (length (_spaces_conn m)) ≤ sm_capacity m < 2 ^ 15 ∧
  ∀ key i, im_view (_space_idx_mp m) !! key = Some i →
    ∃ c, _spaces_conn m !! Z.to_nat i = Some (Some c) ∧ sc_space_key c = key.

(** The spaces that can be reached. *)
Definition mgr_view m : gmap string SpaceConn :=
  omap (λ i, mjoin (_spaces_conn m !! Z.to_nat i)) (im_view (_space_idx_mp m)).

(** ** Lemmas *)

Lemma mgr_view_lookup m key c :
  mgr_view m !! key = Some c ↔
  ∃ i, im_view (_space_idx_mp m) !! key = Some i ∧ _spaces_conn m !! Z.to_nat i = Some (Some c).
Proof.
  unfold mgr_view. rewrite lookup_omap. destruct (im_view _ !! key) as [i|]; simpl.
  - split.
    + intros E. exists i. by destruct (_spaces_conn m !! Z.to_nat i) as [[c'|]|]; simplify_eq/=.
    + intros (j & [= <-] & ->). done.
  - split; [done|]. by intros (j & ? & _).
Qed.

Lemma mgr_view_None m key :
  mgr_wf m → mgr_view m !! key = None ↔ im_view (_space_idx_mp m) !! key = None.
Proof.
  intros (_ & _ & Hc). split; intros E.
  - destruct (im_view _ !! key) as [i|] eqn:Ei; [|done]. exfalso.
    destruct (Hc key i Ei) as (c & Hl & _).
    assert (mgr_view m !! key = Some c) by (apply mgr_view_lookup; eauto). congruence.
  - destruct (mgr_view m !! key) as [c|] eqn:Ec; [|done].
    apply mgr_view_lookup in Ec as (i & ? & _). congruence.
Qed.

Lemma im_get_absent m key :
  mgr_wf m → (0 <=? im_get key (_space_idx_mp m)) = false ↔ mgr_view m !! key = None.
Proof.
  intros Hw. rewrite mgr_view_None by done. destruct Hw as (Hi & _).
  rewrite im_get_view by done. destruct (im_view _ !! key) as [i|] eqn:E; simpl; [|done].
  pose proof (im_view_nonneg _ _ _ Hi E). rewrite Z.leb_gt. naive_solver lia.
Qed.

(** The index refers to no null position, and to each position for at most
    one key. *)
Lemma mgr_wf_slot m i :
  mgr_wf m → mjoin (_spaces_conn m !! i) = None →
  ∀ key j, im_view (_space_idx_mp m) !! key = Some j → Z.to_nat j ≠ i.
Proof.
  intros (_ & _ & Hc) Hn key j E <-. destruct (Hc key j E) as (c & Hl & _). by rewrite Hl in Hn.
Qed.

(** A connection at a position no key refers to, whether the index takes the
    key or not. *)
Lemma mgr_store (conns conns' : list (option SpaceConn)) cap idx key c (i : nat) :
  mgr_wf (mkSpaceManager conns cap idx) →
  mgr_view (mkSpaceManager conns cap idx) !! key = None →
  mjoin (conns !! i) = None → sc_space_key c = key →
  conns' !! i = Some (Some c) → (∀ j, j ≠ i → conns' !! j = conns !! j) →
  Z.of_nat (length conns') ≤ cap →
  let m' := mkSpaceManager conns' cap (im_put key (int16 (Z.of_nat i)) idx).2 in
  mgr_wf m' ∧ mgr_view m' =
    if im_room idx key then <[key := c]> (mgr_view (mkSpaceManager conns cap idx))
    else mgr_view (mkSpaceManager conns cap idx).
Proof.
  intros Hw Hk Hn Hkey Hi Hj Hlen m'. pose proof Hw as (Hidx & Hcap & Hc). simpl in *.
  assert (∀ k j, im_view idx !! k = Some j → conns' !! Z.to_nat j = conns !! Z.to_nat j) as Heq.
  { intros k j E. apply Hj. by eapply (mgr_wf_slot _ i Hw). }
  assert (int16 (Z.of_nat i) = Z.of_nat i) as Hi16.
  { apply lookup_lt_Some in Hi. apply int16_id. unfold in_int16. lia. }
  unfold m'. rewrite Hi16. destruct (im_room idx key) eqn:Er.
  - destruct (im_put_room idx key (Z.of_nat i) Hidx ltac:(lia) Er) as (_ & Hw' & Hv).
    split.
    + split_and!; simpl; [done|lia|lia|]. rewrite Hv. intros k j [[-> <-]|[Hne E]]%lookup_insert_Some.
      * exists c. by rewrite Nat2Z.id.
      * rewrite (Heq k j E). eauto.
    + apply map_eq. intros k. unfold mgr_view. simpl. rewrite lookup_omap, Hv.
      destruct (decide (k = key)) as [->|Hne].
      * rewrite !lookup_insert_eq. simpl. by rewrite Nat2Z.id, Hi.
      * rewrite !lookup_insert_ne, lookup_omap by done.
        destruct (im_view idx !! k) as [j|] eqn:E; [|done]. simpl. by rewrite (Heq k j E).
  - rewrite im_put_full by done. simpl. split.
    + split_and!; simpl; [done|lia|lia|]. intros k j E. rewrite (Heq k j E). eauto.
    + apply map_eq. intros k. unfold mgr_view. simpl. rewrite !lookup_omap.
      destruct (im_view idx !! k) as [j|] eqn:E; [|done]. simpl. by rewrite (Heq k j E).
Qed.

Lemma first_null_Some {A} (l : list (option A)) i : first_null l = Some i → l !! i = Some None.
Proof.
  revert i. induction l as [|[x|] l IH]; intros i; simpl; [done| |by intros [= <-]].
  intros (j & ? & ->)%fmap_Some. eauto.
Qed.

(** The two places of a new connection: a freed slot, and the end. *)
Lemma mgr_store_slot conns cap idx key c (i : nat) :
  mgr_wf (mkSpaceManager conns cap idx) →
  mgr_view (mkSpaceManager conns cap idx) !! key = None →
  sc_space_key c = key → first_null conns = Some i →
  let m' := mkSpaceManager (<[i := Some c]> conns) cap
    (im_put key (int16 (Z.of_nat i)) idx).2 in
  mgr_wf m' ∧ mgr_view m' =
    if im_room idx key then <[key := c]> (mgr_view (mkSpaceManager conns cap idx))
    else mgr_view (mkSpaceManager conns cap idx).
Proof.
  intros Hw Hv Hk En%first_null_Some. pose proof Hw as (_ & [Hlen _] & _).
  apply mgr_store; try done.
  - by rewrite En.
  - rewrite list_lookup_insert_eq; [done|]. by eapply lookup_lt_Some.
  - intros j Hj. by rewrite list_lookup_insert_ne.
  - by rewrite length_insert.
Qed.

Lemma mgr_store_push conns cap idx key c :
  mgr_wf (mkSpaceManager conns cap idx) →
  mgr_view (mkSpaceManager conns cap idx) !! key = None →
  sc_space_key c = key → Z.of_nat (length conns) < cap →
  let m' := push_conn c (Z.of_nat (length conns)) (mkSpaceManager conns cap idx) in
  mgr_wf m' ∧ mgr_view m' =
    if im_room idx key then <[key := c]> (mgr_view (mkSpaceManager conns cap idx))
    else mgr_view (mkSpaceManager conns cap idx).
Proof.
  intros Hw Hv Hk Hlt. unfold push_conn, push_capacity. simpl.
  rewrite Hk, (proj2 (Z.ltb_lt _ cap)) by done. apply mgr_store; try done.
  - by rewrite lookup_ge_None_2 by lia.
  - by rewrite list_lookup_middle.
  - intros j Hj. destruct (decide (j < length conns)%nat).
    + by rewrite lookup_app_l.
    + rewrite !lookup_ge_None_2; [done|lia|]. rewrite length_app. simpl. lia.
  - rewrite length_app. simpl. lia.
Qed.

Lemma DeleteSpace_spec m key :
  mgr_wf m → ∃ msg m', DeleteSpace key m = Some (msg, m') ∧ mgr_wf m' ∧
    mgr_view m' = delete key (mgr_view m) ∧ (msg = "" ↔ is_Some (mgr_view m !! key)).
Proof.
  intros Hw. pose proof Hw as (Hidx & Hcap & Hc). unfold DeleteSpace.
  destruct (0 <=? im_get key (_space_idx_mp m)) eqn:E.
  - rewrite im_get_view in E |- * by done.
    destruct (im_view (_space_idx_mp m) !! key) as [i|] eqn:Ei; [|done]. simpl.
    destruct (Hc key i Ei) as (c & Hl & Hk). rewrite Hl. simpl. do 2 eexists. split; [done|].
    destruct (im_delete_view (_space_idx_mp m) key Hidx) as (_ & Hw' & Hv).
    assert (∀ k j, delete key (im_view (_space_idx_mp m)) !! k = Some j →
      k ≠ key ∧ im_view (_space_idx_mp m) !! k = Some j ∧ Z.to_nat j ≠ Z.to_nat i) as Hd.
    { intros k j [Hne Ej]%lookup_delete_Some. split_and!; [done|done|]. intros Eq.
      destruct (Hc k j Ej) as (c' & Hl' & Hk'). rewrite Eq, Hl in Hl'. congruence. }
    split; [|split].
    + split_and!; simpl; [done|rewrite length_insert; lia|lia|]. rewrite Hv.
      intros k j (_ & Ej & Hne)%Hd. rewrite list_lookup_insert_ne by done. eauto.
    + apply map_eq. intros k. unfold mgr_view. simpl. rewrite lookup_omap, Hv.
      destruct (delete key _ !! k) as [j|] eqn:Ej.
      * apply Hd in Ej as (Hnk & Ej & Hne). simpl.
        by rewrite list_lookup_insert_ne, lookup_delete_ne, lookup_omap, Ej by done.
      * simpl. symmetry. apply lookup_delete_None. apply lookup_delete_None in Ej as [?|Ej]; [by left|].
        right. by rewrite lookup_omap, Ej.
    + split; [|done]. intros _. exists c. apply mgr_view_lookup. eauto.
  - exists (msg_not_exit key), m. split; [done|]. apply im_get_absent in E; [|done].
    rewrite delete_id, E by done. split_and!; [done..|]. split; [done|]. by intros [? ?].
Qed.

Lemma GetSpaceConn_spec m key :
  mgr_wf m → (1 < String.length key)%nat →
  (∀ c, mgr_view m !! key = Some c → ∃ i, GetSpaceConn key m = Some (Some (i, c), "")) ∧
  (mgr_view m !! key = None → GetSpaceConn key m = Some (None, msg_absent key)).
Proof.
  intros Hw Hl. unfold GetSpaceConn. rewrite (proj2 (Nat.leb_gt _ 1)) by done.
  pose proof (im_get_absent m key Hw) as Ha. rewrite Z.leb_gt in Ha. split.
  - intros c (i & Hi & Hc)%mgr_view_lookup. destruct Hw as (Hidx & _).
    rewrite im_get_view, Hi by done. simpl. pose proof (im_view_nonneg _ _ _ Hidx Hi).
    rewrite (proj2 (Z.ltb_ge i 0)) by done. rewrite Hc. simpl. eauto.
  - intros ?%Ha. by rewrite (proj2 (Z.ltb_lt _ 0)).
Qed.

End spec.

Section hashing.
Context `{StdHash}.

(** The partition of a key: its hash modulo the number of partitions. *)
Definition pid (partition_num : Z) (key : string) : Z := StrHashUint64 key `mod` partition_num.

Lemma pid_range pn key : 0 < pn → 0 ≤ pid pn key < pn.
Proof. intros Hp. by apply Z.mod_pos_bound. Qed.

Lemma partition_of_pid pn key : 0 < pn < 2 ^ 31 → partition_of key pn = Some (pid pn key).
Proof.
  intros Hp. unfold partition_of, GetPartitionId. pose proof (pid_range pn key ltac:(lia)).
  assert (uint64 pn = pn) as -> by (unfold uint64, wrapU; apply Z.mod_small; lia).
  rewrite (proj2 (Z.eqb_neq pn 0)) by lia. simpl. f_equal. fold (pid pn key).
  assert (uint32 (pid pn key) = pid pn key) as -> by (unfold uint32, wrapU; apply Z.mod_small; lia).
  apply int32_id. unfold in_int32. lia.
Qed.

(** What a group gains from a list. *)
Definition grown {A} (o : option (list A)) (l : list A) : option (list A) :=
  match o, l with None, [] => None | _, _ => Some (default [] o ++ l) end.

Lemma grown_nil {A} (o : option (list A)) : grown o [] = o.
Proof. destruct o; simpl; [by rewrite app_nil_r|done]. Qed.

Lemma grown_cons {A} (o : option (list A)) x l :
  grown o (x :: l) = grown (Some (default [] o ++ [x])) l.
Proof. destruct o; simpl; [by rewrite <-app_assoc|done]. Qed.

Lemma keys_loop_spec pn ks m :
  0 < pn < 2 ^ 31 → sm_sorted m →
  ∃ m', keys_loop ks pn m = Some m' ∧ sm_sorted m' ∧
    ∀ i, sm_lookup i m' = grown (sm_lookup i m) (filter (λ k, pid pn k = i) ks).
Proof.
  intros Hp. revert m. induction ks as [|k ks IH]; intros m Hm.
  { exists m. split_and!; [done..|]. intros i. by rewrite filter_nil, grown_nil. }
  cbn [keys_loop]. rewrite partition_of_pid by done. cbn [mbind option_bind].
  set (p := pid pn k). set (m1 := if sm_count p m then m else sm_insert p [] m).
  assert (sm_sorted m1) as H1 by (subst m1; case_match; [done|by apply sm_insert_sorted]).
  assert (default [] (sm_lookup p m1) = default [] (sm_lookup p m)) as Hd.
  { subst m1. destruct (sm_count p m) eqn:E; [done|]. rewrite sm_lookup_insert_eq.
    by apply sm_count_false in E as ->. }
  assert (∀ i, i ≠ p → sm_lookup i m1 = sm_lookup i m) as Hne.
  { intros i Hi. subst m1. destruct (sm_count p m); [done|]. by rewrite sm_lookup_insert_ne. }
  destruct (IH (sm_insert p (default [] (sm_lookup p m1) ++ [k]) m1)) as (m' & E & Hs & Hl);
    [by apply sm_insert_sorted|].
  exists m'. split_and!; [done..|]. intros i. rewrite Hl, filter_cons. fold p.
  destruct (decide (p = i)) as [<-|Hi].
  - by rewrite sm_lookup_insert_eq, Hd, <-grown_cons.
  - by rewrite sm_lookup_insert_ne, Hne.
Qed.

(** The groups of [HashKeys]: by lookup, by entry, and their range. *)
Lemma HashKeys_spec keys pn :
  0 < pn < 2 ^ 31 →
  ∃ m, HashKeys keys pn = Some m ∧ sm_sorted m ∧
    (∀ i ks, sm_lookup i m = Some ks ↔ ks = filter (λ k, pid pn k = i) keys ∧ ks ≠ []) ∧
    (∀ i, i ∈ m.*1 → 0 ≤ i < pn).
Proof.
  intros Hp. destruct (keys_loop_spec pn keys [] Hp sm_empty_sorted) as (m & E & Hs & Hl).
  assert (∀ i ks, sm_lookup i m = Some ks ↔ ks = filter (λ k, pid pn k = i) keys ∧ ks ≠ []) as HL.
  { intros i ks. rewrite Hl. simpl. destruct (filter _ keys); simpl; naive_solver. }
  exists m. split_and!; [done..|]. intros i Hi.
  destruct (sm_lookup i m) as [ks|] eqn:Ei; [|by apply sm_lookup_None_elem in Ei].
  apply HL in Ei as [-> Hne]. destruct (filter _ keys) as [|k ks] eqn:Ef; [done|].
  assert (k ∈ filter (λ k, pid pn k = i) keys) as [<- _]%list_elem_of_filter by (rewrite Ef; left).
  apply pid_range. lia.
Qed.

(** The documents of the group of a partition. *)
Definition infos_at (i : Z) (m : list (Z * DocsGroup)) : option (list PbDocInfo) :=
  dg_infos <$> sm_lookup i m.

(** Each group carries the number of its partition. *)
Definition groups_ok (m : list (Z * DocsGroup)) : Prop :=
  sm_sorted m ∧ ∀ i g, sm_lookup i m = Some g → dg_partition_id g = i.

Lemma ensure_group_spec p m :
  groups_ok m → groups_ok (ensure_group p m) ∧ sm_count p (ensure_group p m) = true ∧
    ∀ i, infos_at i (ensure_group p m) =
      if decide (i = p) then Some (default [] (infos_at p m)) else infos_at i m.
Proof.
  intros [Hs Hg]. unfold ensure_group. destruct (sm_count p m) eqn:E.
  - split_and!; [done|done|]. intros i. case_decide; [subst i|done].
    unfold infos_at. apply sm_count_true in E as [g ->]. done.
  - apply sm_count_false in E. split; [split|split].
    + by apply sm_insert_sorted.
    + intros i g. rewrite sm_lookup_insert_decide. case_decide; naive_solver.
    + apply sm_count_true. rewrite sm_lookup_insert_eq. eauto.
    + intros i. unfold infos_at. rewrite sm_lookup_insert_decide.
      case_decide; [|done]. by rewrite E.
Qed.

Lemma push_doc_spec p info m :
  groups_ok m → sm_count p m = true →
  groups_ok (push_doc p info m) ∧
    ∀ i, infos_at i (push_doc p info m) =
      if decide (i = p) then Some (default [] (infos_at p m) ++ [info]) else infos_at i m.
Proof.
  intros [Hs Hg] [g Hp]%sm_count_true. unfold push_doc. rewrite Hp. split; [split|].
  - by apply sm_insert_sorted.
  - intros i g'. rewrite sm_lookup_insert_decide. case_decide; [|by apply Hg]. subst i.
    intros [= <-]. simpl. by apply Hg.
  - intros i. unfold infos_at. rewrite sm_lookup_insert_decide.
    case_decide; [|done]. by rewrite Hp.
Qed.

Lemma groups_loop_spec pn i ks docs m :
  0 < pn < 2 ^ 31 → (i + length ks ≤ length docs)%nat → groups_ok m →
  ∃ m', groups_loop i ks docs pn m = Some m' ∧ groups_ok m' ∧
    ∀ p, infos_at p m' = if decide (p ∈ pid pn <$> ks) then Some (default [] (infos_at p m))
                         else infos_at p m.
Proof.
  intros Hp. revert i m. induction ks as [|k ks IH]; intros i m Hi Hm.
  { exists m. split_and!; [done..|]. intros p. by rewrite decide_False by set_solver. }
  simpl in Hi. cbn [groups_loop]. destruct (lookup_lt_is_Some_2 docs i) as [d ->]; [lia|].
  cbn [mbind option_bind]. rewrite partition_of_pid by done. cbn [mbind option_bind].
  destruct (ensure_group_spec (pid pn k) m Hm) as (Hm1 & _ & Hl1).
  destruct (IH (S i) (ensure_group (pid pn k) m)) as (m' & E & Hg & Hl); [lia|done|].
  exists m'. split_and!; [done..|]. intros p. rewrite Hl, !Hl1. csimpl.
  repeat case_decide; set_solver.
Qed.

Lemma docs_loop_spec pn docs pre ks m :
  0 < pn < 2 ^ 31 → length ks = length docs → groups_ok m →
  ∃ m', docs_loop (length pre) docs (pre ++ ks) pn m = Some m' ∧ groups_ok m' ∧
    ∀ p, infos_at p m' = grown (infos_at p m)
      (filter (λ info, pid pn (pdi_key info) = p) (zip_with mkPbDocInfo ks docs)).
Proof.
  intros Hp. revert pre ks m. induction docs as [|d docs IH]; intros pre [|k ks] m Hl Hm; try done.
  { exists m. split_and!; [done..|]. intros p. simpl. by rewrite filter_nil, grown_nil. }
  cbn [docs_loop]. rewrite list_lookup_middle by done. cbn [mbind option_bind].
  rewrite partition_of_pid by done. cbn [mbind option_bind].
  destruct (ensure_group_spec (pid pn k) m Hm) as (Hm1 & Hc1 & Hl1).
  destruct (push_doc_spec (pid pn k) (mkPbDocInfo k d) _ Hm1 Hc1) as (Hm2 & Hl2).
  destruct (IH (pre ++ [k]) ks _ ltac:(simpl in Hl; lia) Hm2) as (m' & E & Hg & Hl').
  rewrite length_app, Nat.add_1_r, <-app_assoc in E. exists m'. split_and!; [done..|].
  intros p. rewrite Hl', Hl2, !Hl1, (decide_True (P := pid pn k = pid pn k)) by done.
  cbn [zip_with]. rewrite filter_cons. simpl.
  destruct (decide (pid pn k = p)) as [<-|Hne].
  - rewrite decide_True by done. by rewrite grown_cons.
  - by rewrite !decide_False by congruence.
Qed.

End hashing.

Lemma SpaceConn_Init_key `{PsNet} space net msg c net' :
  SpaceConn_Init space net = Some (msg, c, net') →
  sc_space_key c = GenSpaceKey (db_name space) (space_name space) ∧ sc_pb_space c = space.
Proof.
  unfold SpaceConn_Init. intros ([ps net1] & _ & E)%bind_Some.
  destruct (scan_id_type _ _). by simplify_eq/=.
Qed.

Definition has_slot {M} (m : SpaceManager M) : bool :=
  match first_null (_spaces_conn m) with
  | Some _ => true
  | None => Z.of_nat (length (_spaces_conn m)) <? sm_capacity m
  end.

Lemma AddSpace_spec {M} `{IndexMapSpec M} `{PsNet} `{WireCodec Document}
    `{JsonCodec (list Space)} (r : Router M Net) (space : Space) (imsg : string)
    (conn : SpaceConn) (net : Net) :
  mgr_wf (rt_mgr r) → SpaceConn_Init space (rt_net r) = Some (imsg, conn, net) →
  let key := GenSpaceKey (db_name space) (space_name space) in
  let view := mgr_view (rt_mgr r) in
  ∃ msg r', AddSpace space r = Some (msg, r') ∧ rt_net r' = net ∧ mgr_wf (rt_mgr r') ∧
    if bool_decide (is_Some (view !! key)) then msg = msg_exists key ∧ rt_mgr r' = rt_mgr r
    else if negb (has_slot (rt_mgr r)) then
      msg = msg_full (sm_capacity (rt_mgr r)) ∧ rt_mgr r' = rt_mgr r
    else msg = "" ∧ mgr_view (rt_mgr r') =
      if im_room (_space_idx_mp (rt_mgr r)) key then <[key := conn]> view else view.
Proof.
  intros Hw HI key view. pose proof (SpaceConn_Init_key _ _ _ _ _ HI) as [Hk _]. fold key in Hk.
  unfold AddSpace. rewrite HI. cbn [mbind option_bind]. destruct r as [[conns cap idx] l fs n].
  simpl in *. pose proof (im_get_absent _ key Hw) as Ha. simpl in Ha. rewrite Hk.
  destruct (0 <=? im_get key idx) eqn:Eg.
  { do 2 eexists. split_and!; [done..|]. rewrite bool_decide_eq_true_2; [done|].
    apply not_eq_None_Some. intros E. apply Ha in E. done. }
  pose proof (proj1 Ha eq_refl) as Ev. fold view in Ev. rewrite Ev, bool_decide_eq_false_2 by (by intros []).
  unfold has_slot. simpl. destruct (first_null conns) as [i|] eqn:En; simpl.
  - destruct (mgr_store_slot conns cap idx key conn i) as [? ?]; try done. by do 2 eexists.
  - rewrite Z.ltb_antisym. destruct (cap <=? Z.of_nat (length conns)) eqn:Ec; simpl.
    + by do 2 eexists.
    + apply Z.leb_gt in Ec. destruct (mgr_store_push conns cap idx key conn) as [? ?]; try done.
      by do 2 eexists.
Qed.

(** ** Properties *)

(** C21. Adding a space refines the insertion into the map of reachable
    spaces: a key that is there is refused, and so is a space for which there
    is no slot; otherwise the call succeeds, keeps the invariant, and adds
    exactly the new connection, in a freed slot or at the end, if the index
    has room for the key.  If it has not, the call reports success all the
    same, and the set of reachable spaces does not change. *)
Theorem AddSpace_refines {M} `{IndexMapSpec M} `{PsNet} `{WireCodec Document}
    `{JsonCodec (list Space)} (r : Router M Net) (space : Space) (imsg : string)
    (conn : SpaceConn) (net : Net) :
  mgr_wf (rt_mgr r) → SpaceConn_Init space (rt_net r) = Some (imsg, conn, net) →
  let key := GenSpaceKey (db_name space) (space_name space) in
  let view := mgr_view (rt_mgr r) in
  ∃ msg r', AddSpace space r = Some (msg, r') ∧ rt_net r' = net ∧ mgr_wf (rt_mgr r') ∧
    if bool_decide (is_Some (view !! key)) then msg = msg_exists key ∧ rt_mgr r' = rt_mgr r
    else if negb (has_slot (rt_mgr r)) then
      msg = msg_full (sm_capacity (rt_mgr r)) ∧ rt_mgr r' = rt_mgr r
    else msg = "" ∧ mgr_view (rt_mgr r') =
      if im_room (_space_idx_mp (rt_mgr r)) key then <[key := conn]> view else view.
Proof. by apply AddSpace_spec. Qed.

Lemma empty_mgr_wf `{StdHash} (n : nat) (cap : Z) :
  (0 < n)%nat → 0 ≤ cap < 2 ^ 15 → mgr_wf (mkSpaceManager [] cap (owmr_new n)).
Proof.
  intros Hn Hc. split_and!; simpl; [by apply owmr_new_wf|lia|lia|].
  intros key i. by rewrite owmr_new_view.
Qed.

Lemma empty_mgr_view `{StdHash} (n : nat) (cap : Z) :
  mgr_view (mkSpaceManager [] cap (owmr_new n)) = ∅.
Proof. unfold mgr_view. simpl. rewrite owmr_new_view. apply omap_empty. Qed.

Definition bare_space (db name : string) : Space :=
  mkSpace db name 1 1 1 [mkField _ID LONG_SDTYPE None None] [] None None None.

Definition bare_conn (db name : string) : SpaceConn :=
  mkSpaceConn (bare_space db name) (GenSpaceKey db name) [] db name DType.LONG.

Definition bare_router : Router OneWriterMultiReaderMap () :=
  mkRouter (mkSpaceManager [] 1000 (owmr_new 500)) LocalSpaces_new (mkFs ∅ ∅ ∅ ∅ []) ().

(** A manager with one space. *)
Definition one_space (c : SpaceConn) : SpaceManager OneWriterMultiReaderMap :=
  mkSpaceManager [Some c] 1000 (snd (@Put length_hash "d-s" 0 (owmr_new 2))).

Lemma one_space_idx :
  @owmr_view (snd (@Put length_hash "d-s" 0 (owmr_new 2))) = {["d-s" := 0]}.
Proof. reflexivity. Qed.

Lemma one_space_wf c :
  sc_space_key c = "d-s" → @mgr_wf _ _ (@owmr_index_map_spec length_hash) (one_space c).
Proof.
  intros Hc. pose proof (@im_put_room _ _ (@owmr_index_map_spec length_hash) (owmr_new 2) "d-s" 0
    (@owmr_new_wf length_hash 2 ltac:(lia)) ltac:(lia) eq_refl) as (_ & Hw & _).
  split_and!; [exact Hw|simpl; lia|done|]. intros key i E.
  change (owmr_view (snd (@Put length_hash "d-s" 0 (owmr_new 2))) !! key = Some i) in E.
  rewrite one_space_idx in E. apply lookup_singleton_Some in E as [<- <-]. by exists c.
Qed.

Lemma one_space_view c :
  @mgr_view _ _ (@owmr_index_map_spec length_hash) (one_space c) !! "d-s" = Some c.
Proof. reflexivity. Qed.

Lemma AddSpace_refines_witness :
  ∃ r', @AddSpace _ (@owmr_index_map length_hash) _ (empty_ps None empty_response)
      (count_json (list Space)) (bare_space "d" "s") bare_router = Some ("", r') ∧
    @mgr_view _ _ (@owmr_index_map_spec length_hash) (rt_mgr r') =
      {["d-s" := bare_conn "d" "s"]}.
Proof.
  destruct (@AddSpace_refines OneWriterMultiReaderMap (@owmr_index_map length_hash)
    (@owmr_index_map_spec length_hash) _ (empty_ps None empty_response) (count_codec Document)
    (count_json (list Space)) bare_router (bare_space "d" "s") "" (bare_conn "d" "s") ())
    as (msg & r' & E & _ & _ & HR).
  - apply (@empty_mgr_wf length_hash 500 1000); lia.
  - reflexivity.
  - unfold bare_router in HR. cbn [rt_mgr] in HR. rewrite (@empty_mgr_view length_hash) in HR.
    rewrite lookup_empty in HR. destruct HR as [-> HR].
    exists r'. split; [exact E|]. rewrite HR. reflexivity.
Defined.

(** Deleting a space refines the deletion from the map of reachable
    spaces: it never leaves the vector, reports success exactly when the space
    was there, keeps the invariant and every other space; and a lookup finds
    exactly the spaces of the map. *)
Theorem DeleteSpace_refines {M} `{IndexMapSpec M} (m : SpaceManager M) (key : string) :
  mgr_wf m →
  (∃ msg m', DeleteSpace key m = Some (msg, m') ∧ mgr_wf m' ∧
    mgr_view m' = delete key (mgr_view m) ∧ (msg = "" ↔ is_Some (mgr_view m !! key))) ∧
  ((1 < String.length key)%nat →
    ∃ res msg, GetSpaceConn key m = Some (res, msg) ∧ snd <$> res = mgr_view m !! key ∧
      (msg = "" ↔ is_Some res)).
Proof.
  intros Hw. split; [by apply DeleteSpace_spec|]. intros Hl.
  destruct (GetSpaceConn_spec m key Hw Hl) as [HS HN].
  destruct (mgr_view m !! key) as [c|].
  - destruct (HS c eq_refl) as [i ->]. do 2 eexists. split_and!; [done|done|]. split; eauto.
  - rewrite HN by done. do 2 eexists. split_and!; [done|done|]. split; [done|by intros []].
Qed.

Lemma DeleteSpace_refines_witness :
  ∃ m', @DeleteSpace _ (@owmr_index_map length_hash) "d-s" (one_space (bare_conn "d" "s")) =
    Some ("", m').
Proof.
  destruct (@DeleteSpace_refines OneWriterMultiReaderMap (@owmr_index_map length_hash)
    (@owmr_index_map_spec length_hash) (one_space (bare_conn "d" "s")) "d-s")
    as [(msg & m' & E & _ & _ & Hm) _].
  - apply one_space_wf. reflexivity.
  - pose proof (f_equal (fmap fst) E) as E1. vm_compute in E1. injection E1 as <-.
    exists m'. exact E.
Defined.

(** The keys of a request are distributed over the partitions without
    loss: the group of a partition holds, in the order of the request, exactly
    the keys whose hash falls to it, and there are groups only for partitions
    that have a key, all below the number of partitions. *)
Theorem HashKeys_partitions `{StdHash} (keys : list string) (pn : Z) :
  0 < pn < 2 ^ 31 →
  ∃ m, HashKeys keys pn = Some m ∧ sm_sorted m ∧
    (∀ i ks, sm_lookup i m = Some ks ↔
      ks = filter (λ k, pid pn k = i) keys ∧ ks ≠ []) ∧
    (∀ i, i ∈ m.*1 → 0 ≤ i < pn).
Proof. apply HashKeys_spec. Qed.

Lemma HashKeys_partitions_witness :
  ∃ m, @HashKeys length_hash ["a"; "bb"; "ccc"] 2 = Some m ∧ sm_lookup 1 m = Some ["a"; "ccc"].
Proof.
  destruct (@HashKeys_partitions length_hash ["a"; "bb"; "ccc"] 2 ltac:(lia)) as (m & E & _ & HL & _).
  exists m. split; [exact E|]. apply HL. split; [reflexivity|discriminate].
Defined.
