(* ===== verification/RouterRpc.v ===== *)
(** * RouterRpc: src/service/router/router_rpc.{h,cc}

    The router's handlers.  A handler gets the request and the router and
    gives the response, whether it ran the closure that sends the response,
    and the router after it; [None] is an access outside of a container. *)
From S2P Require Import Prelude StdMap Numeric Bytes OwmrMap Common Dto Files Wire RaftClient Partition LocalSpaces EtcdMsg EtcdClient SpaceManager.
Local Open Scope Z_scope.

(** ** Messages *)

Record UpsertRequest := mkUpsertRequest {
  uq_db_name : string; uq_space_name : string; uq_trace_id : option string;
  uq_documents : list Document
}.
Record UpsertResponse := mkUpsertResponse {
  us_code : Z; us_msg : string; us_failed_docs : list DocStatus
}.
Record DeleteRequest := mkDeleteRequest {
  xq_db_name : string; xq_space_name : string; xq_trace_id : option string; xq_ids : list string
}.
Record DeleteResponse := mkDeleteResponse {
  xs_code : Z; xs_msg : string; xs_failed_docs : list DocStatus
}.
Record MockDoc := mkMockDoc { md_key : option string; md_val : option string; md_msg : string }.
Record MockResponse := mkMockResponse {
  mr_code : option Z; mr_msg : option string; mr_docs : list MockDoc
}.

(** A response and whether [done->Run()] was called. *)
Record Reply (A : Type) := mkReply { rep_resp : A; rep_sent : bool }.
Arguments mkReply {A} _ _.
Arguments rep_resp {A} _.
Arguments rep_sent {A} _.

Section handlers.
Context {M : Type} `{IndexMap M} `{PsNet} `{WireCodec Document} `{JsonCodec (list Space)}.
Context `{StdHash}.
Implicit Types r : Router M Net.

(** ** Spaces *)

(** [req->space()]: the default message when it is absent. *)
Definition RouterRpc_AddSpace (space : option Space) r :
    option (Reply RespStatus * Router M Net) :=
  '(msg, r) ← AddSpace (default empty_space space) r;
  if! msg then Some (mkReply (mkRespStatus (Some 101) (Some msg)) true, r)
  else Some (mkReply (mkRespStatus (Some 0) (Some "")) true, r).

Definition RouterRpc_DeleteSpace (db_name space_name : option string) r :
    option (Reply RespStatus * Router M Net) :=
  let db := default "" db_name in
  let name := default "" space_name in
  let space_key := GenSpaceKey db name in
  let r := save_local (LocalSpaces_DeleteSpace db name (rt_local r)).2 r in
  '(msg, m) ← DeleteSpace space_key (rt_mgr r);
  let r := set_mgr m r in
  if! msg then Some (mkReply (mkRespStatus (Some 101) (Some msg)) true, r)
  else Some (mkReply (mkRespStatus (Some 0) (Some "success")) true, r).

(** The response stays empty. *)
Definition RouterRpc_SpaceList r : Reply (list Space) * Router M Net := (mkReply [] true, r).

(** ** Documents *)

(** The lambda [add_same_msg]. *)
Definition same_msg (ids : list string) (msg : string) : list DocStatus :=
  (λ id, mkDocStatus id 0 msg) <$> ids.

Definition msg_no_result : string := "get doc fail, engine not has result.".

(** The loop over the ids of [Get]; [moved d] is what [std::move] leaves in
    place of the document [d]. *)
Fixpoint answer_loop (moved : Document → Document) (ids : list string) (err_ids : Errs)
    (docs_res : Docs) (documents : list Document) (failed_docs : list DocStatus) :
    list Document * list DocStatus :=
  match ids with
  | [] => (documents, failed_docs)
  | key :: rest =>
      match sm_lookup key err_ids with
      | Some e =>
          answer_loop moved rest err_ids docs_res documents (failed_docs ++ [mkDocStatus key 0 e])
      | None =>
          match sm_lookup key docs_res with
          | Some d =>
              answer_loop moved rest err_ids (sm_insert key (moved d) docs_res)
                (documents ++ [d]) failed_docs
          | None =>
              answer_loop moved rest err_ids docs_res documents
                (failed_docs ++ [mkDocStatus key 0 msg_no_result])
          end
      end
  end.

Definition msg_get_failed : string := "There is some id that failed to get. failed ids :".

(** [Get]; [raws] are the draws of the replicas. *)
Definition RouterRpc_Get (moved : Document → Document) (raws : nat → Z) (req : GetRequest) r :
    option (Reply GetResponse * Router M Net) :=
  let space_key := GenSpaceKey (gq_db_name req) (gq_space_name req) in
  '(conn, msg) ← GetSpaceConn space_key (rt_mgr r);
  match conn with
  | None => Some (mkReply (mkGetResponse 101 msg [] (same_msg (gq_ids req) msg)) true, r)
  | Some (_, c) =>
      let msg := CheckPbIds (gq_ids req) (sc_pb_space c) in
      if! msg then
        Some (mkReply (mkGetResponse 102 msg [] (same_msg (gq_ids req) msg)) true, r)
      else
        idx_keys_mp ← HashKeys (gq_ids req) (PartitionNum c);
        '(err_ids, docs_res, net) ← Space_GetDocs raws idx_keys_mp [] c (rt_net r);
        let '(documents, failed_docs) := answer_loop moved (gq_ids req) err_ids docs_res [] [] in
        let r := set_net net r in
        if bool_decide (err_ids = []) then
          Some (mkReply (mkGetResponse 0 "" documents failed_docs) true, r)
        else Some (mkReply (mkGetResponse 103 msg_get_failed documents failed_docs) true, r)
  end.

(** [Search] answers with an empty response. *)
Definition RouterRpc_Search r : Reply SearchResponse * Router M Net :=
  (mkReply (mkSearchResponse 0 "" []) true, r).

(** The loop that checks the documents: the message of the first bad one. *)
Fixpoint check_docs (docs : list Document) (space : Space) : string :=
  match docs with
  | [] => ""
  | d :: rest =>
      let msg := CheckPbDoc d space in
      if! msg then msg else check_docs rest space
  end.

Definition failed_of (keys : list string) (err_mp : Errs) : list DocStatus :=
  omap (λ k, mkDocStatus k 0 <$> sm_lookup k err_mp) keys.

Definition msg_format_error : string := "has doc format error".
Definition msg_upsert_failed : string := "upsert exist fail, failed id:".

(** [Upsert]: the vector [doc_keys] is created with the size of the request and
    not filled. *)
Definition RouterRpc_Upsert (req : UpsertRequest) r :
    option (Reply UpsertResponse * Router M Net) :=
  let space_key := GenSpaceKey (uq_db_name req) (uq_space_name req) in
  let docs := uq_documents req in
  '(conn, msg) ← GetSpaceConn space_key (rt_mgr r);
  match conn with
  | None => Some (mkReply (mkUpsertResponse 101 msg (same_msg (doc_id <$> docs) msg)) true, r)
  | Some (i, c) =>
      let doc_keys := replicate (length docs) "" in
      let msg := check_docs docs (sc_pb_space c) in
      if! msg then
        Some (mkReply (mkUpsertResponse 102 msg (same_msg (doc_id <$> docs) msg_format_error))
          true, r)
      else
        docs_grps ← HashDocs docs doc_keys (PartitionNum c);
        '(err_mp, c, net) ← Space_UpsertDocs docs_grps c (rt_net r);
        let r := set_net net (set_mgr (set_conn i c (rt_mgr r)) r) in
        let failed_docs := failed_of doc_keys err_mp in
        if bool_decide (doc_keys = []) then
          Some (mkReply (mkUpsertResponse 0 "" failed_docs) true, r)
        else Some (mkReply (mkUpsertResponse 103 msg_upsert_failed failed_docs) true, r)
  end.

Definition msg_delete_failed : string :=
  "There is some id that failed to be deleted. failed ids :".

Definition RouterRpc_Delete (req : DeleteRequest) r :
    option (Reply DeleteResponse * Router M Net) :=
  let space_key := GenSpaceKey (xq_db_name req) (xq_space_name req) in
  '(conn, msg) ← GetSpaceConn space_key (rt_mgr r);
  match conn with
  | None => Some (mkReply (mkDeleteResponse 101 msg (same_msg (xq_ids req) msg)) true, r)
  | Some (_, c) =>
      let msg := CheckPbIds (xq_ids req) (sc_pb_space c) in
      if! msg then
        Some (mkReply (mkDeleteResponse 102 msg (same_msg (xq_ids req) msg)) true, r)
      else
        idx_keys_mp ← HashKeys (xq_ids req) (PartitionNum c);
        err_ids ← Space_DeleteDocs idx_keys_mp c;
        let failed_docs := failed_of (xq_ids req) err_ids in
        if bool_decide (err_ids = []) then
          Some (mkReply (mkDeleteResponse 0 "" failed_docs) true, r)
        else Some (mkReply (mkDeleteResponse 103 msg_delete_failed failed_docs) true, r)
  end.

(** The bodies of [MockUpsert] and [MockGet] are commented out, the call of the
    closure with them. *)
Definition RouterRpc_MockUpsert r : Reply MockResponse * Router M Net :=
  (mkReply (mkMockResponse None None []) false, r).
Definition RouterRpc_MockGet r : Reply MockResponse * Router M Net :=
  (mkReply (mkMockResponse None None []) false, r).

End handlers.

(** ** Specification *)

(** A connection whose partitions cover the number of partitions. *)
Definition space_conn_ok (c : SpaceConn) : Prop :=
  0 < PartitionNum c < 2 ^ 31 ∧ PartitionNum c ≤ Z.of_nat (length (sc_partition_list c)) ∧
  Forall conn_wf (sc_partition_list c).

(** ** Lemmas *)

Lemma accounted_merge ks1 ks2 e1 e2 d1 d2 :
  accounted ks1 e1 d1 → accounted ks2 e2 d2 → (∀ k, k ∈ ks1 → k ∉ ks2) →
  accounted (ks1 ++ ks2) (sm_merge e1 e2) (sm_merge d1 d2).
Proof.
  intros (Hse1 & Hsd1 & Hin1 & Hout1 & Hid1) (Hse2 & Hsd2 & Hin2 & Hout2 & Hid2) Hdj.
  split_and!; [by apply sm_merge_sorted..| | |].
  - intros k. rewrite !sm_lookup_merge, elem_of_app by done. intros [Hk|Hk].
    + destruct (Hout2 k (Hdj k Hk)) as [-> ->]. by apply Hin1.
    + assert (k ∉ ks1) as Hn by (intros ?; by eapply Hdj).
      destruct (Hout1 k Hn) as [-> ->]. pose proof (Hin2 k Hk).
      by destruct (sm_lookup k d2), (sm_lookup k e2).
  - intros k. rewrite !sm_lookup_merge, not_elem_of_app by done. intros [Hk1 Hk2].
    destruct (Hout1 k Hk1) as [-> ->]. by destruct (Hout2 k Hk2) as [-> ->].
  - intros k d. rewrite sm_lookup_merge by done. destruct (sm_lookup k d2) eqn:E; naive_solver.
Qed.

Section get.
Context `{PsNet} `{StdHash}.

Lemma space_get_accounted raws pn (groups : list (Z * list string)) seen errs docs c net :
  Forall conn_wf (sc_partition_list c) →
  Forall (λ g, 0 ≤ g.1 < Z.of_nat (length (sc_partition_list c)) ∧
    Forall (λ k, pid pn k = g.1) g.2) groups →
  NoDup groups.*1 → (∀ k, k ∈ seen → pid pn k ∉ groups.*1) → accounted seen errs docs →
  ∃ errs' docs' net', space_get raws groups errs docs c net = Some (errs', docs', net') ∧
    accounted (seen ++ mjoin groups.*2) errs' docs'.
Proof.
  intros Hc. revert raws seen errs docs net.
  induction groups as [|[i ks] groups IH]; intros raws seen errs docs net Hg Hnd Hs Ha.
  { exists errs, docs, net. csimpl. by rewrite app_nil_r. }
  apply Forall_cons in Hg as [[Hi Hks] Hg]. csimpl in *. apply NoDup_cons in Hnd as [Hni Hnd].
  unfold partition_at. rewrite (proj2 (Z.ltb_ge i 0)) by lia.
  destruct (lookup_lt_is_Some_2 (sc_partition_list c) (Z.to_nat i)) as [p Hp]; [lia|].
  rewrite Hp. cbn [mbind option_bind].
  pose proof (proj1 (Forall_lookup _ _) Hc _ _ Hp) as Hpw.
  destruct (Partition_GetDocs_accounted (raws 0%nat) ks p net Hpw) as (e & d & net1 & -> & Hae).
  cbn [mbind option_bind]. rewrite Forall_forall in Hks.
  destruct (IH (λ n, raws (S n)) (seen ++ ks) (sm_merge errs e) (sm_merge docs d) net1)
    as (errs' & docs' & net' & E & Ha'); [done|done| | |].
  - intros k [Hk|Hk]%elem_of_app; [set_solver|]. by rewrite (Hks k Hk).
  - apply accounted_merge; [done..|]. intros k Hk Hk'. apply (Hs k Hk). rewrite (Hks k Hk'). left.
  - exists errs', docs', net'. split; [done|]. by rewrite <-app_assoc in Ha'.
Qed.

Lemma accounted_ext ks ks' errs docs :
  (∀ k, k ∈ ks ↔ k ∈ ks') → accounted ks errs docs → accounted ks' errs docs.
Proof.
  intros He (? & ? & Hin & Hout & ?). split_and!; [done..| | |done].
  - intros k ?%He. by apply Hin.
  - intros k Hk. apply Hout. by rewrite He.
Qed.

(** Reading through a space accounts for the keys of the request. *)
Lemma Space_GetDocs_accounted raws keys c net :
  space_conn_ok c →
  ∃ m errs docs net', HashKeys keys (PartitionNum c) = Some m ∧
    Space_GetDocs raws m [] c net = Some (errs, docs, net') ∧ accounted keys errs docs.
Proof.
  intros (Hpn & Hlen & Hc).
  destruct (HashKeys_spec keys (PartitionNum c) Hpn) as (m & E & Hs & Hl & Hr).
  assert (∀ i ks, (i, ks) ∈ m → ks = filter (λ k, pid (PartitionNum c) k = i) keys) as Hm.
  { intros i ks Hin. apply sm_elem_lookup in Hin; [|done]. by apply Hl in Hin as [? _]. }
  destruct (space_get_accounted raws (PartitionNum c) m [] [] [] c net Hc) as
    (errs & docs & net' & EG & Ha).
  - apply Forall_forall. intros [i ks] Hin. simpl. split.
    + assert (i ∈ m.*1) as ?%Hr by (apply list_elem_of_fmap; by exists (i, ks)). lia.
    + rewrite (Hm _ _ Hin). apply Forall_forall. by intros k [? _]%list_elem_of_filter.
  - by apply sm_sorted_NoDup.
  - set_solver.
  - split_and!; try apply sm_empty_sorted; simpl; set_solver.
  - exists m, errs, docs, net'. split_and!; [done..|]. eapply accounted_ext, Ha.
    intros k. simpl. rewrite list_elem_of_join. split.
    + intros (ks & Hk & ([i ks'] & -> & Hin)%list_elem_of_fmap). apply Hm in Hin as ->.
      by apply list_elem_of_filter in Hk as [_ ?].
    + intros Hk. set (l := filter (λ k', pid (PartitionNum c) k' = pid (PartitionNum c) k) keys).
      assert (k ∈ l) as Hkl by (by apply list_elem_of_filter).
      exists l. split; [done|]. apply list_elem_of_fmap.
      exists (pid (PartitionNum c) k, l). split; [done|]. apply sm_lookup_Some_elem.
      apply Hl. split; [done|]. intros En. rewrite En in Hkl. by apply elem_of_nil in Hkl.
Qed.

End get.

(** The answer lists each id once. *)
Lemma answer_loop_spec moved ids errs docs documents failed_docs :
  NoDup ids →
  (∀ k, k ∈ ids → sm_lookup k docs = None ↔ is_Some (sm_lookup k errs)) →
  (∀ k d, k ∈ ids → sm_lookup k docs = Some d → doc_id d = k) →
  let '(ds, fs) := answer_loop moved ids errs docs documents failed_docs in
  (doc_id <$> ds) ++ (ds_id <$> fs) ≡ₚ
    (doc_id <$> documents) ++ (ds_id <$> failed_docs) ++ ids ∧
  (fs = [] ↔ failed_docs = [] ∧ Forall (λ k, sm_lookup k errs = None) ids).
Proof.
  revert docs documents failed_docs.
  induction ids as [|k ids IH]; intros docs documents failed_docs Hnd Hin Hid.
  { simpl. rewrite app_nil_r. split; [done|]. rewrite Forall_nil. tauto. }
  apply NoDup_cons in Hnd as [Hk Hnd]. cbn [answer_loop].
  pose proof (Hin k ltac:(left)) as Hk0. destruct (sm_lookup k errs) as [e|] eqn:Ee.
  - specialize (IH docs documents (failed_docs ++ [mkDocStatus k 0 e]) Hnd).
    destruct (answer_loop _ _ _ _ _ _) as [ds fs]. destruct IH as [HP HF]; [set_solver..|].
    split.
    + rewrite HP. rewrite fmap_app, <-!app_assoc. done.
    + rewrite HF, Forall_cons, Ee. split; [|naive_solver]. intros [Hc _]. by destruct failed_docs.
  - destruct (sm_lookup k docs) as [d|] eqn:Ed; [|naive_solver].
    specialize (IH (sm_insert k (moved d) docs) (documents ++ [d]) failed_docs Hnd).
    destruct (answer_loop _ _ _ _ _ _) as [ds fs]. destruct IH as [HP HF].
    + intros k' Hk'. rewrite sm_lookup_insert_ne by (by intros ->). apply Hin. by right.
    + intros k' d' Hk'. rewrite sm_lookup_insert_ne by (by intros ->). apply Hid. by right.
    + split; [|rewrite HF, Forall_cons, Ee; tauto].
      rewrite HP, fmap_app. csimpl. rewrite (Hid k d ltac:(left) Ed). rewrite <-!app_assoc. simpl.
      f_equiv. by rewrite Permutation_middle.
Qed.

Lemma init_partitions_wf `{PsNet} db space ps net :
  Forall (λ p, (length (replicas p) < 128)%nat) ps →
  ∃ cs net', init_partitions db space ps net = Some (cs, net') ∧
    length cs = length ps ∧ Forall conn_wf cs.
Proof.
  revert net. induction ps as [|p ps IH]; intros net HF.
  { exists [], net. split_and!; [done..|]. constructor. }
  apply Forall_cons in HF as [Hp HF]. cbn [init_partitions].
  destruct (Partition_Init_wf p db space net Hp) as (msg & c & net1 & -> & Hc).
  cbn [mbind option_bind]. destruct (IH net1 HF) as (cs & net2 & -> & Hl & Hw).
  exists (c :: cs), net2. split_and!; [done|simpl; by rewrite Hl|by constructor].
Qed.

(** The connection of a space with a partition for each of its numbers. *)
Lemma SpaceConn_Init_ok `{PsNet} space net :
  0 < partition_num space < 2 ^ 31 →
  partition_num space ≤ Z.of_nat (length (partitions space)) →
  Forall (λ p, (length (replicas p) < 128)%nat) (partitions space) →
  ∃ msg c net', SpaceConn_Init space net = Some (msg, c, net') ∧ space_conn_ok c.
Proof.
  intros Hpn Hle HF. unfold SpaceConn_Init.
  destruct (init_partitions_wf (db_name space) (space_name space) _ net HF) as (cs & net' & -> & Hl & Hw).
  cbn [mbind option_bind]. destruct (scan_id_type _ _) as [msg t]. do 3 eexists. split; [done|].
  unfold space_conn_ok, PartitionNum. simpl. rewrite int32_id by (unfold in_int32; lia).
  split_and!; [lia|lia|lia|done].
Qed.

Lemma space_delete_nothing m errs c :
  (∀ i, i ∈ m.*1 → 0 ≤ i < Z.of_nat (length (sc_partition_list c))) →
  space_delete m errs c = Some errs.
Proof.
  induction m as [|[j ks] m IH]; [done|]. csimpl. intros Hb. cbn [space_delete].
  pose proof (Hb j ltac:(left)). unfold partition_at. rewrite (proj2 (Z.ltb_ge j 0)) by lia.
  destruct (lookup_lt_is_Some_2 (sc_partition_list c) (Z.to_nat j)) as [p ->]; [lia|].
  cbn [mbind option_bind]. unfold Partition_DeleteDocs.
  replace (fold_left _ ks []) with (@nil (string * string)) by (clear; by induction ks).
  apply IH. intros j' Hj'. apply Hb. by right.
Qed.

Lemma same_msg_ids ids msg : ds_id <$> same_msg ids msg = ids.
Proof.
  unfold same_msg. rewrite <-list_fmap_compose. apply list_fmap_id.
Qed.

Lemma errs_nil ids errs docs :
  accounted ids errs docs → errs = [] ↔ Forall (λ k, sm_lookup k errs = None) ids.
Proof.
  intros (Hs & _ & _ & Hout & _). split; [intros ->; by apply Forall_forall|].
  intros HF. destruct errs as [|[k e] errs]; [done|]. exfalso. rewrite Forall_forall in HF.
  assert (sm_lookup k ((k, e) :: errs) = Some e) as E by (apply sm_elem_lookup; [done|left]).
  destruct (decide (k ∈ ids)) as [Hk|Hk]; [rewrite HF in E by done|destruct (Hout k Hk)]; congruence.
Qed.

Lemma RouterRpc_Get_spec {M} `{IndexMapSpec M} `{PsNet} `{StdHash}
    (moved : Document → Document) (raws : nat → Z) (req : GetRequest) (r : Router M Net) :
  let key := GenSpaceKey (gq_db_name req) (gq_space_name req) in
  mgr_wf (rt_mgr r) → (1 < String.length key)%nat →
  (∀ c, mgr_view (rt_mgr r) !! key = Some c → space_conn_ok c) →
  ∃ resp r', RouterRpc_Get moved raws req r = Some (mkReply resp true, r') ∧
    rt_mgr r' = rt_mgr r ∧
    (doc_id <$> gs_documents resp) ++ (ds_id <$> gs_failed_docs resp) ≡ₚ gq_ids req ∧
    (gs_code resp = 0 ↔ gs_failed_docs resp = [] ∧
      ∃ c, mgr_view (rt_mgr r) !! key = Some c ∧ CheckPbIds (gq_ids req) (sc_pb_space c) = "").
Proof.
  intros key Hw Hlen Hok. destruct (GetSpaceConn_spec _ _ Hw Hlen) as [HS HN].
  unfold RouterRpc_Get. fold key. destruct (mgr_view (rt_mgr r) !! key) as [c|].
  - destruct (HS c eq_refl) as [i ->]. cbn [mbind option_bind].
    destruct (failed (CheckPbIds (gq_ids req) (sc_pb_space c))) eqn:Ef.
    { do 2 eexists. split_and!; [done|done|simpl; by rewrite same_msg_ids|].
      split; [done|]. intros (_ & c' & [= <-] & E). by rewrite E in Ef. }
    assert (CheckPbIds (gq_ids req) (sc_pb_space c) = "") as Ec.
    { by destruct (CheckPbIds (gq_ids req) (sc_pb_space c)). }
    destruct (Space_GetDocs_accounted raws (gq_ids req) c (rt_net r) (Hok c eq_refl))
      as (m & errs & docs & net & -> & Hg & Ha).
    cbn [mbind option_bind]. rewrite Hg. cbn [mbind option_bind].
    pose proof Ha as (_ & _ & Hin & _ & Hid).
    pose proof (answer_loop_spec moved (gq_ids req) errs docs [] []
      (CheckPbIds_NoDup _ _ Ec) Hin (λ k d _, Hid k d)) as HA.
    destruct (answer_loop _ _ _ _ _ _) as [ds fs]. destruct HA as [HP HF].
    pose proof (errs_nil _ _ _ Ha) as He.
    case_bool_decide as Hb; do 2 eexists; split_and!; try done; simpl; naive_solver.
  - rewrite HN by done. cbn [mbind option_bind]. do 2 eexists.
    split_and!; [done|done|simpl; by rewrite same_msg_ids|]. split; [done|]. by intros (_ & ? & ? & _).
Qed.

Lemma RouterRpc_Delete_spec {M} `{IndexMapSpec M} `{PsNet} `{StdHash}
    (req : DeleteRequest) (r : Router M Net) (c : SpaceConn) :
  let key := GenSpaceKey (xq_db_name req) (xq_space_name req) in
  mgr_wf (rt_mgr r) → (1 < String.length key)%nat → mgr_view (rt_mgr r) !! key = Some c →
  space_conn_ok c → CheckPbIds (xq_ids req) (sc_pb_space c) = "" →
  RouterRpc_Delete req r = Some (mkReply (mkDeleteResponse 0 "" []) true, r).
Proof.
  intros key Hw Hlen Hv (Hpn & Hle & _) Hck.
  destruct (GetSpaceConn_spec _ _ Hw Hlen) as [HS _]. destruct (HS c Hv) as [i Ei].
  unfold RouterRpc_Delete. fold key. rewrite Ei. cbn [mbind option_bind]. rewrite Hck. simpl.
  destruct (HashKeys_spec (xq_ids req) _ Hpn) as (m & -> & _ & _ & Hr). cbn [mbind option_bind].
  unfold Space_DeleteDocs. rewrite space_delete_nothing by (intros j Hj; specialize (Hr j Hj); lia).
  cbn [mbind option_bind]. rewrite bool_decide_eq_true_2 by done. do 4 f_equal.
  unfold failed_of. clear. induction (xq_ids req) as [|k ks IH]; csimpl; [done|]. exact IH.
Qed.

(** ** Properties *)

(** C18. A read through the router accounts for every id: whatever the
    partition servers answer, each id of the request is answered exactly once,
    by the document with that id or by an entry of the failed documents, and
    the code is 0 exactly when the space exists, the ids pass the check and no
    document failed.  The table of spaces does not change. *)
Theorem RouterRpc_Get_accounts {M} `{IndexMapSpec M} `{PsNet} `{StdHash}
    (moved : Document → Document) (raws : nat → Z) (req : GetRequest) (r : Router M Net) :
  let key := GenSpaceKey (gq_db_name req) (gq_space_name req) in
  mgr_wf (rt_mgr r) → (1 < String.length key)%nat →
  (∀ c, mgr_view (rt_mgr r) !! key = Some c → space_conn_ok c) →
  ∃ resp r', RouterRpc_Get moved raws req r = Some (mkReply resp true, r') ∧
    rt_mgr r' = rt_mgr r ∧
    (doc_id <$> gs_documents resp) ++ (ds_id <$> gs_failed_docs resp) ≡ₚ gq_ids req ∧
    (gs_code resp = 0 ↔ gs_failed_docs resp = [] ∧
      ∃ c, mgr_view (rt_mgr r) !! key = Some c ∧ CheckPbIds (gq_ids req) (sc_pb_space c) = "").
Proof. apply RouterRpc_Get_spec. Qed.

Lemma zip_replicate {A B C} (f : A → B → C) x (l : list B) :
  zip_with f (replicate (length l) x) l = f x <$> l.
Proof. induction l as [|y l IH]; simpl; [done|]. by rewrite IH. Qed.

Lemma filter_no_keys `{StdHash} pn i docs :
  filter (λ info, pid pn (pdi_key info) = i) (mkPbDocInfo "" <$> docs) =
    if decide (i = pid pn "") then mkPbDocInfo "" <$> docs else [].
Proof.
  induction docs as [|d docs IH]; csimpl; [by case_decide|]. rewrite filter_cons, IH. simpl.
  repeat case_decide; congruence.
Qed.

(** Without keys all documents are one group. *)
Lemma HashDocs_no_keys `{StdHash} docs pn :
  0 < pn < 2 ^ 31 → docs ≠ [] →
  HashDocs docs (replicate (length docs) "") pn =
    Some [(pid pn "", mkDocsGroup (pid pn "") (mkPbDocInfo "" <$> docs))].
Proof.
  intros Hp Hne. unfold HashDocs.
  destruct (groups_loop_spec pn 0 (replicate (length docs) "") docs []) as (m & -> & Hm & Hl).
  { done. } { rewrite length_replicate. lia. } { split; [apply sm_empty_sorted|done]. }
  cbn [mbind option_bind].
  destruct (docs_loop_spec pn docs [] (replicate (length docs) "") m Hp) as (m' & E & [Hs Hg] & Hl').
  { by rewrite length_replicate. } { done. }
  simpl in E. rewrite E. f_equal. apply sm_ext; [done|repeat constructor|]. intros i.
  assert (infos_at i m' = if decide (i = pid pn "") then Some (mkPbDocInfo "" <$> docs) else None) as HI.
  { rewrite Hl', Hl, zip_replicate, filter_no_keys.
    change (infos_at i []) with (@None (list PbDocInfo)).
    assert ((i ∈ pid pn <$> replicate (length docs) "") ↔ i = pid pn "") as Hi.
    { rewrite list_elem_of_fmap. setoid_rewrite elem_of_replicate.
      destruct docs; [done|naive_solver lia]. }
    repeat case_decide; try tauto; by destruct docs. }
  unfold infos_at in HI. simpl. specialize (Hg i). destruct (sm_lookup i m') as [[j infos]|].
  - simpl in HI. case_decide as Hi; simplify_eq/=. rewrite kcompare_refl.
    specialize (Hg _ eq_refl). simpl in Hg. by subst j.
  - simpl in HI. case_decide as Hi; [done|].
    by destruct (kcompare i (pid pn "")) eqn:Ek; [apply kcompare_eq in Ek|..].
Qed.

(** A write through the router loses the ids of its documents: when the
    space exists and all documents pass the check, the whole request is sent,
    as one group under the empty key, to the one partition of the empty key,
    and the answer is 103 whether the partition reports an error or not; the
    failed documents it lists carry no id. *)
Theorem RouterRpc_Upsert_one_partition {M} `{IndexMapSpec M} `{PsNet} `{WireCodec Document}
    `{StdHash} (req : UpsertRequest) (r : Router M Net) (c : SpaceConn) :
  let key := GenSpaceKey (uq_db_name req) (uq_space_name req) in
  let docs := uq_documents req in
  let p := pid (PartitionNum c) "" in
  mgr_wf (rt_mgr r) → (1 < String.length key)%nat → mgr_view (rt_mgr r) !! key = Some c →
  0 < PartitionNum c < 2 ^ 31 → docs ≠ [] → check_docs docs (sc_pb_space c) = "" →
  ∃ i, RouterRpc_Upsert req r =
    ('(errs, c', net) ← Space_UpsertDocs [(p, mkDocsGroup p (mkPbDocInfo "" <$> docs))] c (rt_net r);
     Some (mkReply (mkUpsertResponse 103 msg_upsert_failed
             (match sm_lookup "" errs with
              | Some e => replicate (length docs) (mkDocStatus "" 0 e)
              | None => []
              end)) true,
           set_net net (set_mgr (set_conn i c' (rt_mgr r)) r))).
Proof.
  intros key docs p Hw Hlen Hv Hpn Hne Hck.
  destruct (GetSpaceConn_spec _ _ Hw Hlen) as [HS _]. destruct (HS c Hv) as [i Ei]. exists i.
  unfold RouterRpc_Upsert. fold key docs. rewrite Ei. cbn [mbind option_bind]. rewrite Hck. simpl.
  rewrite (HashDocs_no_keys docs _ Hpn Hne). cbn [mbind option_bind].
  destruct (Space_UpsertDocs _ _ _) as [[[errs c'] net]|]; [|done]. cbn [mbind option_bind].
  rewrite bool_decide_eq_false_2 by (by destruct docs).
  do 4 f_equal. unfold failed_of. clear. destruct (sm_lookup "" errs) as [e|] eqn:E;
    induction (length docs) as [|n IH]; csimpl; rewrite ?E; csimpl; congruence.
Qed.

(** A delete through the router does nothing and reports success: for an
    existing space and ids that pass the check the answer is 0 without failed
    documents, no partition is called and the router is unchanged. *)
Theorem RouterRpc_Delete_does_nothing {M} `{IndexMapSpec M} `{PsNet} `{StdHash}
    (req : DeleteRequest) (r : Router M Net) (c : SpaceConn) :
  let key := GenSpaceKey (xq_db_name req) (xq_space_name req) in
  mgr_wf (rt_mgr r) → (1 < String.length key)%nat → mgr_view (rt_mgr r) !! key = Some c →
  space_conn_ok c → CheckPbIds (xq_ids req) (sc_pb_space c) = "" →
  RouterRpc_Delete req r = Some (mkReply (mkDeleteResponse 0 "" []) true, r).
Proof. apply RouterRpc_Delete_spec. Qed.

(** ** Instances of the properties *)

Definition sample_net : @PsNet (fixed_net None empty_response) := empty_ps None empty_response.

Definition served_space : Space :=
  mkSpace "d" "s" 1 1 1 [mkField _ID LONG_SDTYPE None None] [one_partition] (Some LONG_SDTYPE)
    None None.

Definition served_conn : SpaceConn :=
  match @SpaceConn_Init _ sample_net served_space () with
  | Some (_, c, _) => c
  | None => SpaceConn_new
  end.

Lemma served_conn_ok : space_conn_ok served_conn.
Proof.
  destruct (@SpaceConn_Init_ok _ sample_net served_space ()) as (msg & c & net & E & Hc).
  - done.
  - done.
  - repeat constructor.
  - unfold served_conn. by rewrite E.
Qed.

Definition served_router : Router OneWriterMultiReaderMap (@Net (fixed_net None empty_response)) :=
  mkRouter (one_space served_conn) LocalSpaces_new (mkFs ∅ ∅ ∅ ∅ []) ().

Lemma RouterRpc_Get_accounts_witness :
  ∃ resp r', @RouterRpc_Get _ (@owmr_index_map length_hash) _ sample_net length_hash id (λ _, 0)
      (mkGetRequest "d" "s" None ["1"; "2"]) served_router = Some (mkReply resp true, r') ∧
    (doc_id <$> gs_documents resp) ++ (ds_id <$> gs_failed_docs resp) ≡ₚ ["1"; "2"].
Proof.
  destruct (@RouterRpc_Get_accounts _ (@owmr_index_map length_hash)
    (@owmr_index_map_spec length_hash) _ sample_net length_hash id (λ _, 0)
    (mkGetRequest "d" "s" None ["1"; "2"]) served_router) as (resp & r' & E & _ & HP & _).
  - apply one_space_wf. reflexivity.
  - simpl. lia.
  - intros c E. pose proof (eq_trans (eq_sym (one_space_view served_conn)) E) as Ec.
    assert (served_conn = c) as <- by congruence. apply served_conn_ok.
  - exists resp, r'. split; [exact E|exact HP].
Defined.

Definition served_doc : Document := mkDocument (Some "7") [] [(_ID, 7)] [] [] [] [] [].

Lemma RouterRpc_Upsert_one_partition_witness :
  @check_docs [served_doc; served_doc] served_space = "" ∧
  ∃ i, @RouterRpc_Upsert _ (@owmr_index_map length_hash) (fixed_net None empty_response)
      (count_codec Document) length_hash (mkUpsertRequest "d" "s" None [served_doc; served_doc]) served_router =
    ('(errs, c', net) ← @Space_UpsertDocs (fixed_net None empty_response)
       (count_codec Document) [(0, mkDocsGroup 0 [mkPbDocInfo "" served_doc; mkPbDocInfo "" served_doc])] served_conn ();
     Some (mkReply (mkUpsertResponse 103 msg_upsert_failed
             (match sm_lookup "" errs with
              | Some e => replicate 2 (mkDocStatus "" 0 e)
              | None => []
              end)) true,
           set_net net (set_mgr (set_conn i c' (rt_mgr served_router)) served_router))).
Proof.
  split; [vm_compute; reflexivity|].
  apply (@RouterRpc_Upsert_one_partition _ (@owmr_index_map length_hash)
    (@owmr_index_map_spec length_hash) _ sample_net (count_codec Document) length_hash
    (mkUpsertRequest "d" "s" None [served_doc; served_doc]) served_router served_conn).
  - apply one_space_wf. reflexivity.
  - simpl. lia.
  - apply (one_space_view served_conn).
  - vm_compute. split; reflexivity.
  - discriminate.
  - vm_compute. reflexivity.
Defined.

Lemma RouterRpc_Delete_does_nothing_witness :
  @RouterRpc_Delete _ (@owmr_index_map length_hash) _ length_hash
    (mkDeleteRequest "d" "s" None ["1"; "2"]) served_router =
    Some (mkReply (mkDeleteResponse 0 "" []) true, served_router).
Proof.
  apply (@RouterRpc_Delete_does_nothing _ (@owmr_index_map length_hash)
    (@owmr_index_map_spec length_hash) _ sample_net length_hash
    (mkDeleteRequest "d" "s" None ["1"; "2"]) served_router served_conn).
  - apply one_space_wf. reflexivity.
  - simpl. lia.
  - apply (one_space_view served_conn).
  - apply served_conn_ok.
  - vm_compute. reflexivity.
Defined.
