(* ===== verification/RouterService.v ===== *)
(** * RouterService: src/service/router/router_rpc.h

    The two services of the router as one server: a call is one of the methods
    of [RouterSpaceRpcImpl] and [RouterDocRpcImpl] with its request, a history
    is a sequence of calls on the shared router.  The main result is that the
    router survives every history of calls, whatever the network does, as long
    as the spaces it is given are complete. *)
From S2P Require Import Prelude StdMap Numeric Bytes OwmrMap Common Dto Files Wire RaftClient Partition LocalSpaces EtcdMsg EtcdClient SpaceManager RouterRpc.
Local Open Scope Z_scope.

(** ** Calls and replies *)

(** [class RouterSpaceRpcImpl] *)
Inductive SpaceCall :=
  | CallAddSpace (space : option Space)
  | CallDeleteSpace (db_name space_name : option string)
  | CallSpaceList.

(** [class RouterDocRpcImpl]; [raws] are the random draws of a [Get]. *)
Inductive DocCall :=
  | CallGet (raws : nat → Z) (req : GetRequest)
  | CallSearch
  | CallUpsert (req : UpsertRequest)
  | CallDelete (req : DeleteRequest)
  | CallMockUpsert
  | CallMockGet.

Inductive RouterReply :=
  | ReplyStatus (r : Reply RespStatus)
  | ReplySpaces (r : Reply (list Space))
  | ReplyGet (r : Reply GetResponse)
  | ReplySearch (r : Reply SearchResponse)
  | ReplyUpsert (r : Reply UpsertResponse)
  | ReplyDelete (r : Reply DeleteResponse)
  | ReplyMock (r : Reply MockResponse).

(** Whether the closure of the call was run. *)
Definition answered (r : RouterReply) : bool :=
  match r with
  | ReplyStatus r => rep_sent r
  | ReplySpaces r => rep_sent r
  | ReplyGet r => rep_sent r
  | ReplySearch r => rep_sent r
  | ReplyUpsert r => rep_sent r
  | ReplyDelete r => rep_sent r
  | ReplyMock r => rep_sent r
  end.

Section serve.
Context {M : Type} `{IndexMap M} `{PsNet} `{WireCodec Document} `{JsonCodec (list Space)}.
Context `{StdHash} (moved : Document → Document).
Implicit Types r : Router M Net.

Definition serve_space (call : SpaceCall) r : option (RouterReply * Router M Net) :=
  match call with
  | CallAddSpace space => '(x, r) ← RouterRpc_AddSpace space r; Some (ReplyStatus x, r)
  | CallDeleteSpace db name => '(x, r) ← RouterRpc_DeleteSpace db name r; Some (ReplyStatus x, r)
  | CallSpaceList => let '(x, r) := RouterRpc_SpaceList r in Some (ReplySpaces x, r)
  end.

Definition serve_doc (call : DocCall) r : option (RouterReply * Router M Net) :=
  match call with
  | CallGet raws req => '(x, r) ← RouterRpc_Get moved raws req r; Some (ReplyGet x, r)
  | CallSearch => let '(x, r) := RouterRpc_Search r in Some (ReplySearch x, r)
  | CallUpsert req => '(x, r) ← RouterRpc_Upsert req r; Some (ReplyUpsert x, r)
  | CallDelete req => '(x, r) ← RouterRpc_Delete req r; Some (ReplyDelete x, r)
  | CallMockUpsert => let '(x, r) := RouterRpc_MockUpsert r in Some (ReplyMock x, r)
  | CallMockGet => let '(x, r) := RouterRpc_MockGet r in Some (ReplyMock x, r)
  end.

Definition serve (call : SpaceCall + DocCall) r : option (RouterReply * Router M Net) :=
  match call with inl c => serve_space c r | inr c => serve_doc c r end.

(** A history of calls; [None] is undefined behaviour in one of them. *)
Fixpoint serve_all (calls : list (SpaceCall + DocCall)) r
    : option (list RouterReply * Router M Net) :=
  match calls with
  | [] => Some ([], r)
  | call :: rest =>
      '(x, r) ← serve call r; '(xs, r) ← serve_all rest r; Some (x :: xs, r)
  end.
End serve.

(** ** Specification *)

(** A complete space: as many partitions as it says, each with replicas, at most
    127 of them. *)
Definition space_complete (s : Space) : Prop :=
  0 < partition_num s < 2 ^ 31 ∧ partition_num s ≤ Z.of_nat (length (partitions s)) ∧
  Forall (λ p, replicas p ≠ [] ∧ (length (replicas p) < 128)%nat) (partitions s).

(** Only complete spaces are added; the other calls are arbitrary. *)
Definition call_ok (call : SpaceCall + DocCall) : Prop :=
  match call with
  | inl (CallAddSpace space) => space_complete (default empty_space space)
  | _ => True
  end.

(** The methods whose bodies are commented out. *)
Definition is_mock (call : SpaceCall + DocCall) : bool :=
  match call with inr CallMockUpsert | inr CallMockGet => true | _ => false end.

Definition raft_ok (p : PartitionConn) : Prop := ∃ g cf, client_wf g cf (pt_raft p).
Definition conn_live (c : SpaceConn) : Prop :=
  space_conn_ok c ∧ Forall raft_ok (sc_partition_list c).

Definition router_ok {M} `{IndexMapSpec M} {N} (r : Router M N) : Prop :=
  mgr_wf (rt_mgr r) ∧ map_Forall (λ _, conn_live) (mgr_view (rt_mgr r)).

(** ** Opening a space *)

(** The client without what it is connected to. *)
Definition client_safe (c : RaftClient) : Prop :=
  length (_raft_options c) = 2%nat ∧ (_idx c < 2)%nat ∧
  ∀ i o, _raft_options c !! i = Some o → ro_ok o = true → ro_stub o = Some (ro_leader o).

Lemma client_safe_wf c : client_safe c → ∃ g cf, client_wf g cf c.
Proof.
  intros (H2 & Hi & Ho). destruct (lookup_lt_is_Some_2 (_raft_options c) (_idx c)) as [o E]; [lia|].
  exists (ro_group o), (ro_conf o). constructor; try done. intros o' E'. by simplify_eq.
Qed.

Section opening.
Context `{PsNet}.

Lemma set_option_safe c i o : client_safe c → ro_ok o = false → client_safe (set_option i o c).
Proof.
  intros (H2 & Hi & Ho) Hok. split_and!; simpl; [by rewrite length_insert|done|].
  intros j o' [(_ & <- & _)|[_ Hj]]%list_lookup_insert_Some; [congruence|by eapply Ho].
Qed.

Lemma CreateRaftConnection_safe g cf i c net :
  client_safe c → (i < 2)%nat →
  ∃ msg c' net', CreateRaftConnection g cf i c net = Some (msg, c', net') ∧ client_safe c'.
Proof.
  intros Hs Hi. pose proof Hs as (H2 & _ & Ho). unfold CreateRaftConnection.
  destruct (lookup_lt_is_Some_2 (_raft_options c) i) as [o ->]; [lia|]. cbn [mbind option_bind].
  destruct (IsAskedToQuit net) as [[|] net1]; [do 3 eexists; split; [done|by apply set_option_safe]|].
  destruct (GetLeader _ _ _ _ _) as [[m leader] net2].
  destruct (failed m); [do 3 eexists; split; [done|by apply set_option_safe]|].
  unfold Build. simpl. destruct (channel_Init leader net2) as [rc net3].
  destruct (rc =? 0); simpl; [|do 3 eexists; split; [done|by apply set_option_safe]].
  do 3 eexists. split; [done|]. split_and!; simpl; [by rewrite length_insert|done|].
  intros j o' [(_ & <- & _)|[_ Hj]]%list_lookup_insert_Some; [done|by eapply Ho].
Qed.

Lemma RaftClient_Init_safe g cf net :
  ∃ msg c net', RaftClient_Init g cf RaftClient_new net = Some (msg, c, net') ∧ client_safe c.
Proof.
  unfold RaftClient_Init. simpl. set (c0 := mkRaftClient _ 0).
  assert (client_safe c0) as Hc0.
  { split_and!; [done|simpl; lia|]. by intros [|[|j]] o; simpl; intros [= <-]. }
  destruct (update_configuration g cf net) as [rc net1].
  destruct (rc =? 0); simpl; [|by do 3 eexists].
  destruct (CreateRaftConnection_safe g cf 0 c0 net1 Hc0) as (m1 & c1 & net2 & -> & Hc1); [lia|].
  cbn [mbind option_bind]. destruct (failed m1); [by do 3 eexists|].
  destruct (CreateRaftConnection_safe g cf 1 c1 net2 Hc1) as (m2 & c2 & net3 & -> & Hc2); [lia|].
  cbn [mbind option_bind]. destruct (failed m2); by do 3 eexists.
Qed.

Lemma Partition_Init_raft p db space net msg c net' :
  replicas p ≠ [] → Partition_Init p (PartitionConn_new db space) net = Some (msg, c, net') →
  raft_ok c.
Proof.
  intros Hr. unfold Partition_Init. rewrite bool_decide_eq_false_2 by done.
  intros ([[m1 o1] n1] & _ & E)%bind_Some. apply bind_Some in E as ([[m2 o2] n2] & _ & E).
  simpl pt_raft in E.
  destruct (RaftClient_Init_safe (group_name p) (GetRaftConf p) n2) as (m3 & rc & n3 & E3 & Hs).
  rewrite E3 in E. cbn [mbind option_bind] in E. simplify_eq. by apply client_safe_wf.
Qed.

Lemma init_partitions_raft db space ps net cs net' :
  Forall (λ p, replicas p ≠ [] ∧ (length (replicas p) < 128)%nat) ps →
  init_partitions db space ps net = Some (cs, net') → Forall raft_ok cs.
Proof.
  intros Hp. revert net cs net'. induction Hp as [|p ps [Hr _] _ IH]; intros net cs net'; simpl.
  { intros [= <- <-]. constructor. }
  intros ([[m c] n1] & Ec & E)%bind_Some. apply bind_Some in E as ([cs' n2] & Ecs & E).
  simplify_eq. constructor; [by eapply Partition_Init_raft|by eapply IH].
Qed.

Lemma SpaceConn_Init_live space net :
  space_complete space →
  ∃ msg c net', SpaceConn_Init space net = Some (msg, c, net') ∧ conn_live c.
Proof.
  intros (Hpn & Hle & HF).
  destruct (SpaceConn_Init_ok space net Hpn Hle) as (msg & c & net' & E & Hc).
  { eapply Forall_impl; [exact HF|]. by intros p [_ ?]. }
  exists msg, c, net'. split; [done|]. split; [done|]. unfold SpaceConn_Init in E.
  apply bind_Some in E as ([ps n1] & Ep & E). destruct (scan_id_type _ _). simplify_eq. simpl.
  by eapply init_partitions_raft.
Qed.
End opening.

(** ** The calls keep the invariant *)

Section serving.
Context {M : Type} `{IndexMapSpec M} `{PsNet} `{WireCodec Document} `{JsonCodec (list Space)}.
Context `{StdHash} (moved : Document → Document).
Implicit Types r : Router M Net.

Lemma save_local_mgr l r : rt_mgr (save_local l r) = rt_mgr r.
Proof. done. Qed.

(** A call returns, keeps the invariant and is answered. *)
Definition served (mock : bool) (x : option (RouterReply * Router M Net)) : Prop :=
  ∃ y r', x = Some (y, r') ∧ router_ok r' ∧ answered y = negb mock.

Lemma serve_AddSpace space r :
  router_ok r → space_complete (default empty_space space) →
  served false (serve_space (CallAddSpace space) r).
Proof.
  intros [Hw Hl] Hs. destruct (SpaceConn_Init_live _ (rt_net r) Hs) as (im & c & net & E & Hc).
  destruct (AddSpace_spec r _ im c net Hw E) as (msg & r' & EA & _ & Hw' & Hv).
  unfold served. cbn [serve_space]. unfold RouterRpc_AddSpace. rewrite EA. cbn [mbind option_bind].
  assert (router_ok r') as Hr'.
  { split; [done|]. repeat case_match; destruct Hv as [_ Hv].
    - by rewrite Hv.
    - by rewrite Hv.
    - rewrite Hv. by apply map_Forall_insert_2.
    - by rewrite Hv. }
  destruct (failed msg); by do 2 eexists.
Qed.

Lemma serve_DeleteSpace db name r :
  router_ok r → served false (serve_space (CallDeleteSpace db name) r).
Proof.
  intros [Hw Hl]. unfold served. cbn [serve_space]. unfold RouterRpc_DeleteSpace.
  rewrite save_local_mgr.
  destruct (DeleteSpace_spec _ (GenSpaceKey (default "" db) (default "" name)) Hw)
    as (msg & m & -> & Hw' & Hv & _). cbn [mbind option_bind].
  assert (∀ x, router_ok (set_mgr m x)) as Hr'.
  { intros x. split; [done|]. cbn [set_mgr rt_mgr]. rewrite Hv. by apply map_Forall_delete. }
  destruct (failed msg); do 2 eexists; (split; [done|]); (split; [apply Hr'|done]).
Qed.

Lemma short_key key (m : SpaceManager M) :
  (String.length key ≤ 1)%nat → GetSpaceConn key m = Some (None, msg_null_key).
Proof. intros Hk. unfold GetSpaceConn. by rewrite (proj2 (Nat.leb_le _ 1)). Qed.

Lemma serve_Get raws req r : router_ok r → served false (serve_doc moved (CallGet raws req) r).
Proof.
  intros Hr. pose proof Hr as [Hw Hl]. unfold served. cbn [serve_doc].
  destruct (decide (1 < String.length (GenSpaceKey (gq_db_name req) (gq_space_name req)))%nat) as [Hk|Hk].
  - destruct (RouterRpc_Get_spec moved raws req r Hw Hk) as (resp & r' & -> & Em & _).
    { intros c Hc. by apply (Hl _ _ Hc). }
    cbn [mbind option_bind]. do 2 eexists. split; [done|]. split; [|done].
    unfold router_ok. by rewrite Em.
  - unfold RouterRpc_Get. rewrite short_key by lia. cbn [mbind option_bind]. by do 2 eexists.
Qed.

Lemma serve_Delete req r : router_ok r → served false (serve_doc moved (CallDelete req) r).
Proof.
  intros Hr. pose proof Hr as [Hw Hl]. unfold served. cbn [serve_doc].
  set (key := GenSpaceKey (xq_db_name req) (xq_space_name req)).
  destruct (decide (1 < String.length key)%nat) as [Hk|Hk].
  - destruct (GetSpaceConn_spec _ _ Hw Hk) as [HS HN].
    destruct (mgr_view (rt_mgr r) !! key) as [c|] eqn:Ec.
    + destruct (failed (CheckPbIds (xq_ids req) (sc_pb_space c))) eqn:Ef.
      * unfold RouterRpc_Delete. fold key. destruct (HS c eq_refl) as [i ->].
        cbn [mbind option_bind]. rewrite Ef. by do 2 eexists.
      * apply failed_false in Ef.
        rewrite (RouterRpc_Delete_spec req r c Hw Hk Ec (proj1 (Hl _ _ Ec)) Ef). by do 2 eexists.
    + unfold RouterRpc_Delete. fold key. rewrite HN by done. by do 2 eexists.
  - unfold RouterRpc_Delete. fold key. rewrite short_key by lia. by do 2 eexists.
Qed.

(** A connection after the upsert of one group. *)
Lemma upsert_live i grp c net :
  conn_live c → 0 ≤ i < PartitionNum c →
  ∃ errs c' net', Space_UpsertDocs [(i, grp)] c net = Some (errs, c', net') ∧ conn_live c' ∧
    sc_space_key c' = sc_space_key c.
Proof.
  intros [(Hpn & Hle & Hcw) Hraft] Hi. unfold Space_UpsertDocs. cbn [space_upsert].
  unfold partition_at. rewrite (proj2 (Z.ltb_ge i 0)) by lia.
  destruct (lookup_lt_is_Some_2 (sc_partition_list c) (Z.to_nat i)) as [p Ep]; [lia|].
  rewrite Ep. cbn [mbind option_bind].
  rewrite Forall_lookup in Hraft, Hcw. destruct (Hraft _ _ Ep) as (g & cf & Hg).
  destruct (upsert_loop_spec g cf (dg_infos grp) [] p net Hg)
    as (errs & p' & net' & E & Hg' & (_ & _ & Eo & Ex) & _).
  unfold Partition_UpsertDocs. rewrite E. cbn [mbind option_bind]. do 3 eexists. split; [done|].
  split; [|done]. assert (conn_wf p') as Hp' by (unfold conn_wf; rewrite Eo, Ex; by eapply Hcw).
  split; [split_and!|]; cbn [set_partitions sc_partition_list sc_pb_space PartitionNum];
    try (by destruct Hpn); rewrite ?length_insert; try done.
  - apply Forall_insert; [by apply Forall_lookup|done].
  - apply Forall_insert; [by apply Forall_lookup|by exists g, cf].
Qed.

(** The manager after a call on the connection of a key. *)
Lemma set_conn_ok key i c c' (m : SpaceManager M) :
  mgr_wf m → GetSpaceConn key m = Some (Some (i, c), "") → sc_space_key c' = sc_space_key c →
  mgr_wf (set_conn i c' m) ∧
  ∀ k x, mgr_view (set_conn i c' m) !! k = Some x → x = c' ∨ mgr_view m !! k = Some x.
Proof.
  intros (Hi & Hcap & Hc) HG Hk. unfold GetSpaceConn in HG.
  destruct (_ <=? _)%nat; [done|]. destruct (_ <? 0); [done|].
  destruct (_spaces_conn m !! Z.to_nat _) as [[c0|]|] eqn:El; [|done..].
  cbn [mbind option_bind] in HG. injection HG as <- ->.
  set (j := Z.to_nat (im_get key (_space_idx_mp m))) in *.
  assert (j < length (_spaces_conn m))%nat by (by eapply lookup_lt_Some).
  split; [split_and!; simpl; [done|rewrite length_insert; lia|lia|]|].
  - intros k z Hz. destruct (Hc k z Hz) as (x & Hx & Ex).
    destruct (decide (Z.to_nat z = j)) as [Ej|Ej].
    + exists c'. rewrite Ej, list_lookup_insert_eq by done. split; [done|].
      rewrite Ej, El in Hx. congruence.
    + exists x. by rewrite list_lookup_insert_ne.
  - intros k x (z & Hz & Hx)%mgr_view_lookup. cbn [set_conn _spaces_conn _space_idx_mp] in *.
    destruct (decide (Z.to_nat z = j)) as [Ej|Ej].
    + rewrite Ej, list_lookup_insert_eq in Hx by done. left. congruence.
    + rewrite list_lookup_insert_ne in Hx by done. right. apply mgr_view_lookup. by exists z.
Qed.

Lemma serve_Upsert req r : router_ok r → served false (serve_doc moved (CallUpsert req) r).
Proof.
  intros Hr. pose proof Hr as [Hw Hl]. unfold served. cbn [serve_doc].
  set (key := GenSpaceKey (uq_db_name req) (uq_space_name req)).
  unfold RouterRpc_Upsert. fold key. set (docs := uq_documents req).
  destruct (decide (1 < String.length key)%nat) as [Hk|Hk];
    [|rewrite short_key by lia; by do 2 eexists].
  destruct (GetSpaceConn_spec _ _ Hw Hk) as [HS HN].
  destruct (mgr_view (rt_mgr r) !! key) as [c|] eqn:Ec; [|rewrite HN by done; by do 2 eexists].
  destruct (HS c eq_refl) as [i Ei]. rewrite Ei. cbn [mbind option_bind].
  destruct (failed (check_docs docs (sc_pb_space c))); [by do 2 eexists|].
  pose proof (Hl _ _ Ec) as Hc. pose proof (proj1 (proj1 Hc)) as Hpn.
  assert (∀ c' net, conn_live c' → sc_space_key c' = sc_space_key c →
    router_ok (set_net net (set_mgr (set_conn i c' (rt_mgr r)) r))) as Hset.
  { intros c' net Hc' Ekey. destruct (set_conn_ok key i c c' _ Hw Ei Ekey) as [Hw' Hv].
    split; [done|]. intros k x [->|Hx]%Hv; [done|by eapply Hl]. }
  destruct docs as [|d docs'] eqn:Ed.
  - cbn. do 2 eexists. split; [done|]. split; [|done]. by apply Hset.
  - rewrite (HashDocs_no_keys (d :: docs') _ Hpn) by done. cbn [mbind option_bind].
    destruct (upsert_live (pid (PartitionNum c) "") (mkDocsGroup (pid (PartitionNum c) "")
      (mkPbDocInfo "" <$> (d :: docs'))) c (rt_net r) Hc) as (errs & c' & net & -> & Hc' & Ek).
    { apply pid_range. lia. }
    cbn [mbind option_bind]. destruct (bool_decide _); do 2 eexists;
      (split; [done|]); (split; [by apply Hset|done]).
Qed.

Lemma serve_ok call r : router_ok r → call_ok call → served (is_mock call) (serve moved call r).
Proof.
  intros Hr Hc. destruct call as [[space|db name|]|[raws req| |req|req| |]]; cbn [serve is_mock].
  - by apply serve_AddSpace.
  - by apply serve_DeleteSpace.
  - by do 2 eexists.
  - by apply serve_Get.
  - by do 2 eexists.
  - by apply serve_Upsert.
  - by apply serve_Delete.
  - by do 2 eexists.
  - by do 2 eexists.
Qed.

Lemma serve_all_ok calls r :
  router_ok r → Forall call_ok calls →
  ∃ xs r', serve_all moved calls r = Some (xs, r') ∧ router_ok r' ∧
    answered <$> xs = (λ c, negb (is_mock c)) <$> calls.
Proof.
  intros Hr Hc. revert r Hr. induction Hc as [|call calls Hcall _ IH]; intros r Hr; cbn [serve_all].
  { by do 2 eexists. }
  destruct (serve_ok call r Hr Hcall) as (y & r1 & -> & Hr1 & Hy). cbn [mbind option_bind].
  destruct (IH r1 Hr1) as (xs & r2 & -> & Hr2 & Hxs). cbn [mbind option_bind].
  do 2 eexists. split; [done|]. split; [done|]. csimpl. by rewrite Hy, Hxs.
Qed.
End serving.

(** ** Properties *)

(** C14. The router survives every history: whatever calls arrive in whatever order,
    and whatever the network and the partition servers answer, no call runs into
    undefined behaviour and the invariant of the router is kept, if the spaces
    that are added are complete; every call is answered except for those of the
    two mock methods, which never are. *)
Theorem router_serves_every_history {M} `{IndexMapSpec M} `{PsNet} `{WireCodec Document}
    `{JsonCodec (list Space)} `{StdHash} (moved : Document → Document)
    (calls : list (SpaceCall + DocCall)) (r : Router M Net) :
  router_ok r → Forall call_ok calls →
  ∃ replies r', serve_all moved calls r = Some (replies, r') ∧ router_ok r' ∧
    answered <$> replies = (λ c, negb (is_mock c)) <$> calls.
Proof. apply serve_all_ok. Qed.

Definition some_calls : list (SpaceCall + DocCall) :=
  [inl (CallAddSpace (Some served_space));
   inr (CallUpsert (mkUpsertRequest "d" "s" None [served_doc]));
   inr (CallGet (λ _, 0) (mkGetRequest "d" "s" None ["7"]));
   inr CallMockGet;
   inl (CallDeleteSpace (Some "d") (Some "s"));
   inr (CallDelete (mkDeleteRequest "d" "s" None ["7"]))].

Definition empty_router : Router OneWriterMultiReaderMap (@Net (fixed_net None empty_response)) :=
  mkRouter (mkSpaceManager [] 4 (owmr_new 2)) LocalSpaces_new (mkFs ∅ ∅ ∅ ∅ []) ().

Lemma empty_router_ok :
  @router_ok _ (@owmr_index_map length_hash) (@owmr_index_map_spec length_hash) _ empty_router.
Proof.
  split; [apply (@empty_mgr_wf length_hash); lia|]. cbn [empty_router rt_mgr].
  rewrite (@empty_mgr_view length_hash). apply map_Forall_empty.
Qed.

Lemma router_serves_every_history_witness :
  ∃ replies r', @serve_all _ (@owmr_index_map length_hash) _ sample_net (count_codec Document)
      (count_json (list Space)) length_hash id some_calls empty_router = Some (replies, r') ∧
    answered <$> replies = [true; true; true; false; true; true].
Proof.
  destruct (@router_serves_every_history _ (@owmr_index_map length_hash)
    (@owmr_index_map_spec length_hash) _ sample_net (count_codec Document)
    (count_json (list Space)) length_hash id some_calls empty_router empty_router_ok)
    as (replies & r' & E & _ & Ha).
  - repeat (apply Forall_cons; split; [try exact I|]); [|apply Forall_nil; exact I].
    split_and!; [simpl; lia..|]. apply Forall_cons. split; [split; [discriminate|simpl; lia]|].
    apply Forall_nil. exact I.
  - exists replies, r'. split; [exact E|exact Ha].
Defined.

(** An incomplete space stops the router: nothing checks the number of
    partitions of a space that is added, and a read of documents of a space with
    none is a division by zero. *)
Theorem space_without_partitions_crashes {M} `{IndexMapSpec M} `{PsNet} `{StdHash}
    (moved : Document → Document) (raws : nat → Z) (req : GetRequest) (r : Router M Net)
    (c : SpaceConn) :
  let key := GenSpaceKey (gq_db_name req) (gq_space_name req) in
  mgr_wf (rt_mgr r) → (1 < String.length key)%nat → mgr_view (rt_mgr r) !! key = Some c →
  partition_num (sc_pb_space c) = 0 → gq_ids req ≠ [] →
  CheckPbIds (gq_ids req) (sc_pb_space c) = "" →
  RouterRpc_Get moved raws req r = None.
Proof.
  intros key Hw Hk Hv Hp Hids Hck. destruct (GetSpaceConn_spec _ _ Hw Hk) as [HS _].
  destruct (HS c Hv) as [i Ei]. unfold RouterRpc_Get. fold key. rewrite Ei.
  cbn [mbind option_bind]. rewrite Hck. cbn [failed]. unfold PartitionNum. rewrite Hp.
  unfold HashKeys. destruct (gq_ids req) as [|k ks]; [done|]. reflexivity.
Qed.

Definition hollow_conn : SpaceConn :=
  mkSpaceConn (mkSpace "d" "s" 1 0 1 (fields served_space) [] (Some LONG_SDTYPE) None None)
    "d-s" [] "d" "s" DType.LONG.

Lemma space_without_partitions_crashes_witness :
  @RouterRpc_Get _ (@owmr_index_map length_hash) _ sample_net length_hash id (λ _, 0)
    (mkGetRequest "d" "s" None ["7"])
    (mkRouter (one_space hollow_conn) LocalSpaces_new (mkFs ∅ ∅ ∅ ∅ []) ()) = None.
Proof.
  apply (@space_without_partitions_crashes _ (@owmr_index_map length_hash)
    (@owmr_index_map_spec length_hash) _ sample_net length_hash id (λ _, 0)
    (mkGetRequest "d" "s" None ["7"])
    (mkRouter (one_space hollow_conn) LocalSpaces_new (mkFs ∅ ∅ ∅ ∅ []) ()) hollow_conn).
  - apply one_space_wf. reflexivity.
  - simpl. lia.
  - exact (one_space_view hollow_conn).
  - reflexivity.
  - discriminate.
  - reflexivity.
Defined.
