(* ===== verification/RouterCluster.v ===== *)
(** * RouterCluster: a router in front of raft groups

    The composition of the router (RouterService) with the partition servers
    (ReplicaGroup).  The network of the router is any network whose RPCs are
    answered by the servers of the raft groups; what is assumed of it is the
    class [ClusterNetLaws].  The result is that what the router reports as
    written is in the log of a raft group of the space, and read there. *)
From S2P Require Import Prelude StdMap Numeric Bytes OwmrMap Common Dto Files Wire RaftStore ReplicaGroup PsMeta PsRpc RaftClient Partition LocalSpaces EtcdMsg EtcdClient SpaceManager RouterRpc RouterService.
Local Open Scope Z_scope.

(** ** The network *)

(** The raft groups by name, with the answers their nodes have given so far;
    [member g addr] says that a node of [g] listens at [addr], and [net_ok] which
    states of the network occur. *)
Class ClusterNet `{RaftNet} `{GammaEngine} `{WireCodec BlockRequest} `{WireCodec Document} := {
  net_ok : Net → Prop;
  net_group : string → Net → Group;
  net_answers : string → Net → list Replied;
  member : string → string → Prop
}.

(** An operation of the network leaves it in order and forgets no answer. *)
Definition advances `{ClusterNet} (net net' : Net) : Prop :=
  net_ok net → net_ok net' ∧ ∀ g ev, ev ∈ net_answers g net → ev ∈ net_answers g net'.

Class ClusterNetLaws `{PsNet} `{GammaEngine} `{WireCodec BlockRequest} `{WireCodec Document}
    `{!ClusterNet} : Prop := {
  (** The groups run by the rules of raft. *)
  net_reachable g net : net_ok net → reachable false (net_answers g net) (net_group g net);
  (** The route table knows leaders of the groups only, and no group without a name. *)
  select_member g net l net' : select_leader g net = (Some l, net') → member g l ∧ g ≠ "";
  (** An answer to a write is one that the node gave. *)
  write_answered g addr req data net resp net' :
    net_ok net → member g addr → rpc_write addr req data net = (inr resp, net') →
    mkReplied addr req data resp ∈ net_answers g net';
  select_leader_advances g net : advances net (select_leader g net).2;
  refresh_leader_advances g net : advances net (refresh_leader g net).2;
  update_leader_advances g l net : advances net (update_leader g l net);
  update_configuration_advances g cf net : advances net (update_configuration g cf net).2;
  IsAskedToQuit_advances net : advances net (IsAskedToQuit net).2;
  channel_Init_advances a net : advances net (channel_Init a net).2;
  rpc_write_advances a req data net : advances net (rpc_write a req data net).2;
  ps_channel_Init_advances a net : advances net (ps_channel_Init a net).2;
  rpc_get_advances a keys net : advances net (rpc_get a keys net).2
}.

#[export] Hint Resolve select_leader_advances refresh_leader_advances update_leader_advances
  update_configuration_advances IsAskedToQuit_advances channel_Init_advances
  rpc_write_advances ps_channel_Init_advances rpc_get_advances : simsearch.

(** The client of a group: the connection in use is to the group, or to none, and
    the connections that are open are to its nodes. *)
Definition client_of `{ClusterNet} (g : string) (c : RaftClient) : Prop :=
  (∀ o, _raft_options c !! _idx c = Some o → ro_group o = g ∨ ro_group o = "") ∧
  ∀ i o l, _raft_options c !! i = Some o → ro_ok o = true → ro_stub o = Some l → member g l.

Section advancing.
Context `{ClusterNetLaws}.

#[global] Instance advances_refl : Reflexive advances.
Proof. by intros net. Qed.
#[global] Instance advances_trans : Transitive advances.
Proof. intros n1 n2 n3 A1 A2 Hn. destruct (A1 Hn) as [H1' A1']. destruct (A2 H1'). auto. Qed.

(** The state after an operation, with its equation. *)
Lemma advances_eq {A} (op : Net → A * Net) x net net' :
  (∀ n, advances n (op n).2) → op net = (x, net') → advances net net'.
Proof. intros Ha E. specialize (Ha net). by rewrite E in Ha. Qed.

Lemma GetLeader_S leader g cf n net :
  GetLeader leader g cf (S n) net =
    let '(r, net) := select_leader g net in
    match r with
    | None => let '(_, net) := refresh_leader g net in GetLeader leader g cf n net
    | Some l => ("", l, net)
    end.
Proof. done. Qed.

Lemma GetLeader_advances leader g cf n net msg l net' :
  GetLeader leader g cf n net = (msg, l, net') →
  advances net net' ∧ (msg = "" → member g l ∧ g ≠ "").
Proof.
  revert net. induction n as [|n IH]; intros net; [|rewrite GetLeader_S].
  { intros [= <- <- <-]. split; [done|]. by intros [? _]%append_eq_nil. }
  destruct (select_leader g net) as [[l'|] net1] eqn:Es.
  - intros [= <- <- <-]. split; [eapply (advances_eq (select_leader g)); eauto with simsearch|].
    intros _. by eapply select_member.
  - destruct (refresh_leader g net1) as [? net2] eqn:Er. intros [Ha Hm]%IH. split; [|done].
    trans net1; [eapply (advances_eq (select_leader g)); eauto with simsearch|].
    trans net2; [eapply (advances_eq (refresh_leader g)); eauto with simsearch|]. done.
Qed.

(** A new connection of a client of [g]. *)
Lemma CreateRaftConnection_of g g' cf i c net msg c' net' :
  client_of g c → g' = g ∨ g' = "" → CreateRaftConnection g' cf i c net = Some (msg, c', net') →
  client_of g c' ∧ advances net net'.
Proof.
  intros [Hcur Hok] Hg E. unfold CreateRaftConnection in E.
  apply bind_Some in E as (o & Ho & E).
  assert (∀ o', ro_group o' = g' → ro_ok o' = false → client_of g (set_option i o' c)) as Hset.
  { intros o' Eg Ef. split; simpl.
    - intros x [(-> & <- & _)|[_ Hx]]%list_lookup_insert_Some; [by rewrite Eg|by apply Hcur].
    - intros j x l [(-> & <- & _)|[_ Hx]]%list_lookup_insert_Some; [congruence|by eapply Hok]. }
  destruct (IsAskedToQuit net) as [quit net1] eqn:Eq.
  apply (advances_eq IsAskedToQuit) in Eq; [|eauto with simsearch].
  destruct quit; [simplify_eq; split; [by apply Hset|done]|].
  destruct (GetLeader _ _ _ _ _) as [[m leader] net2] eqn:El.
  apply GetLeader_advances in El as [Al Hm].
  destruct (failed m) eqn:Ef; [simplify_eq; split; [by apply Hset|by trans net1]|].
  apply failed_false in Ef as ->. destruct (Hm eq_refl) as [Hmem Hne].
  assert (g' = g) as -> by tauto. unfold Build in E. simpl in E.
  destruct (channel_Init leader net2) as [rc net3] eqn:Ec.
  apply (advances_eq (channel_Init leader)) in Ec; [|eauto with simsearch].
  assert (advances net net3) by (trans net1; [done|]; by trans net2).
  destruct (rc =? 0); simpl in E; simplify_eq; (split; [|done]); [|by apply Hset].
  split; simpl.
  - intros x [(_ & <- & _)|[? _]]%list_lookup_insert_Some; [by left|done].
  - intros j x l [(-> & <- & _)|[_ Hx]]%list_lookup_insert_Some;
      [by intros _ [= <-]|by eapply Hok].
Qed.

Lemma reconnect_of g o c net c' net' :
  client_of g c → _raft_options c !! _idx c = Some o → reconnect o c net = Some (c', net') →
  client_of g c' ∧ advances net net'.
Proof.
  intros Hc Ho E. unfold reconnect in E. apply bind_Some in E as ([[m c1] n1] & E & [= <- <-]).
  eapply CreateRaftConnection_of; [done| |done]. by apply Hc.
Qed.

(** A write that is reported as successful was answered by a node of the group. *)
Lemma write_loop_of g n msg resp req data c net msg' resp' c' net' :
  client_of g c → net_ok net → (n ≠ 0%nat ∨ resp_success resp = false) →
  write_loop n msg resp req data c net = Some (msg', resp', c', net') →
  client_of g c' ∧ advances net net' ∧
  (resp_success resp' = true → ∃ addr, mkReplied addr req data resp' ∈ net_answers g net').
Proof.
  revert msg resp c net. induction n as [|n IH]; intros msg resp c net Hc Hn Hr E; simpl in E.
  { simplify_eq. split_and!; [done..|]. destruct Hr; congruence. }
  apply bind_Some in E as (o & Ho & E). destruct (ro_ok o) eqn:Eok; simpl in E; cycle 1.
  { apply bind_Some in E as ([c1 n1] & Er & E). destruct (reconnect_of _ _ _ _ _ _ Hc Ho Er) as [Hc1 A1].
    apply IH in E as (? & ? & ?); [|done|by apply A1|by right].
    split_and!; [done|by trans n1|done]. }
  apply bind_Some in E as (stub & Es & E).
  destruct (rpc_write stub req data net) as [[text|r] net1] eqn:Ew;
    pose proof (advances_eq (rpc_write stub req data) _ _ _ ltac:(eauto with simsearch) Ew) as Aw.
  - apply bind_Some in E as ([c1 n1] & Er & E).
    destruct (reconnect_of _ _ _ _ _ _ Hc Ho Er) as [Hc1 A1].
    assert (advances net n1) as An.
    { trans net1; [done|]. trans (update_leader (ro_group o) "" net1); eauto with simsearch. }
    apply IH in E as (? & ? & ?); [|done|by apply An|by right].
    split_and!; [done|by trans n1|done].
  - destruct (resp_success r) eqn:Esr; simpl in E.
    + simplify_eq. split_and!; [done..|]. intros _. exists stub.
      eapply write_answered; [done| |done]. by eapply (proj2 Hc).
    + apply bind_Some in E as ([c1 n1] & Er & E).
      destruct (reconnect_of _ _ _ _ _ _ Hc Ho Er) as [Hc1 A1].
      assert (advances net n1) as An.
      { trans net1; [done|].
        trans (update_leader (ro_group o) (bs_redirect r) net1); eauto with simsearch. }
      apply IH in E as (? & ? & ?); [|done|by apply An|by right].
      split_and!; [done|by trans n1|done].
Qed.

(** ** Opening the connections of a space *)

Lemma RaftClient_Init_of g cf net msg c net' :
  RaftClient_Init g cf RaftClient_new net = Some (msg, c, net') →
  client_of g c ∧ advances net net'.
Proof.
  unfold RaftClient_Init. simpl. set (c0 := mkRaftClient _ 0). intros E.
  assert (client_of g c0) as Hc0.
  { split; [intros o [= <-]; by right|]. by intros [|[|j]] o l; simpl; intros [= <-]. }
  destruct (update_configuration g cf net) as [rc net1] eqn:Eu.
  apply (advances_eq (update_configuration g cf)) in Eu; [|eauto with simsearch].
  destruct (rc =? 0); simpl in E; [|by simplify_eq].
  apply bind_Some in E as ([[m1 c1] n1] & E1 & E).
  apply (CreateRaftConnection_of g) in E1 as [Hc1 A1]; [|done|by left].
  destruct (failed m1); [simplify_eq; split; [done|by trans net1]|].
  apply bind_Some in E as ([[m2 c2] n2] & E2 & E).
  apply (CreateRaftConnection_of g) in E2 as [Hc2 A2]; [|done|by left].
  destruct (failed m2); simplify_eq; (split; [done|]; trans net1; [done|]; by trans n1).
Qed.

Lemma opt_init_loop_advances rs i msg l net msg' l' net' :
  opt_init_loop rs i msg l net = Some (msg', l', net') → advances net net'.
Proof.
  revert i msg l net. induction rs as [|rep rs IH]; intros i msg l net E; simpl in E;
    [by simplify_eq|].
  apply bind_Some in E as (cl & _ & E). unfold PsRpcClient_Init in E.
  destruct (ps_channel_Init _ net) as [rc net1] eqn:Ec.
  apply (advances_eq (ps_channel_Init _)) in Ec; [|eauto with simsearch].
  trans net1; [done|]. destruct (negb (rc =? 0)); by eapply IH.
Qed.

Lemma open_opt_advances p net msg o net' :
  open_opt p net = Some (msg, o, net') → advances net net'.
Proof.
  intros (o0 & _ & E)%bind_Some. unfold PartitionOpt_Init in E.
  apply bind_Some in E as ([[m l] n] & E & [= <- <- <-]). by eapply opt_init_loop_advances.
Qed.

Lemma Partition_Init_of p db space net msg c net' :
  Partition_Init p (PartitionConn_new db space) net = Some (msg, c, net') →
  client_of (group_name p) (pt_raft c) ∧ advances net net'.
Proof.
  unfold Partition_Init. case_bool_decide; intros E.
  { simplify_eq. simpl. split; [|done]. by split. }
  apply bind_Some in E as ([[m1 o1] n1] & E1 & E). apply bind_Some in E as ([[m2 o2] n2] & E2 & E).
  apply bind_Some in E as ([[m3 raft] n3] & E3 & [= <- <- <-]). simpl in E3 |- *.
  apply RaftClient_Init_of in E3 as [Hc A3]. split; [done|].
  trans n1; [by eapply open_opt_advances|]. trans n2; [by eapply open_opt_advances|done].
Qed.

(** The partitions of a connection are connected to groups in [gs]. *)
Definition conn_to (gs : list string) (ps : list PartitionConn) : Prop :=
  Forall (λ p, ∃ g, g ∈ gs ∧ client_of g (pt_raft p)) ps.

Lemma init_partitions_to gs db space ps net cs net' :
  init_partitions db space ps net = Some (cs, net') → (∀ p, p ∈ ps → group_name p ∈ gs) →
  conn_to gs cs ∧ advances net net'.
Proof.
  revert net cs. induction ps as [|p ps IH]; intros net cs E Hgs; simpl in E.
  { simplify_eq. split; [constructor|done]. }
  apply bind_Some in E as ([[m c] n1] & E1 & E). apply bind_Some in E as ([cs1 n2] & E2 & E).
  simplify_eq. apply Partition_Init_of in E1 as [Hc A1].
  apply IH in E2 as [Hcs A2]; [|intros q Hq; apply Hgs; by right].
  split; [|by trans n1]. constructor; [|done]. exists (group_name p). split; [|done].
  apply Hgs. left.
Qed.

Lemma SpaceConn_Init_to space net msg c net' :
  SpaceConn_Init space net = Some (msg, c, net') →
  conn_to (group_name <$> partitions space) (sc_partition_list c) ∧ advances net net' ∧
  sc_space_key c = GenSpaceKey (db_name space) (space_name space).
Proof.
  intros ([ps n] & E & E')%bind_Some. destruct (scan_id_type _ _). simplify_eq. simpl.
  apply (init_partitions_to (group_name <$> partitions space)) in E as [? ?]; [done|].
  intros p Hp. by apply list_elem_of_fmap_2.
Qed.

(** ** Reading and writing *)

Lemma get_loop_advances n first idx msg keys o docs net errs docs' net' :
  get_loop n first idx msg keys o docs net = Some (errs, docs', net') → advances net net'.
Proof.
  revert first idx msg net. induction n as [|n IH]; intros first idx msg net E; simpl in E;
    [by simplify_eq|].
  set (i := if first then idx else _) in E. destruct (i <? 0); [done|].
  apply bind_Some in E as (cl & _ & E).
  destruct (PsRpcClient_Get keys cl net) as [[m r] net1] eqn:Eg.
  assert (advances net net1) as A1.
  { unfold PsRpcClient_Get, QueryPsRpcImp in Eg. destruct (negb (pc_stub cl)); [by simplify_eq|].
    destruct (rpc_get _ keys net) as [x n1] eqn:Er.
    apply (advances_eq (rpc_get _ keys)) in Er; [|eauto with simsearch].
    by destruct x; simplify_eq. }
  destruct (failed m); [by trans net1; [|eapply IH]|].
  by apply bind_Some in E as ([? ?] & _ & [= <- <- <-]).
Qed.

Lemma space_get_advances raws grps errs docs c net errs' docs' net' :
  space_get raws grps errs docs c net = Some (errs', docs', net') → advances net net'.
Proof.
  revert raws errs docs net. induction grps as [|[i ks] grps IH]; intros raws errs docs net E;
    simpl in E; [by simplify_eq|].
  apply bind_Some in E as ([j p] & _ & E). apply bind_Some in E as ([[e d] n1] & E1 & E).
  trans n1; [|by eapply IH]. unfold Partition_GetDocs in E1.
  apply bind_Some in E1 as ([o|] & _ & E1); [by eapply get_loop_advances|by simplify_eq].
Qed.

(** A document of a group of documents was answered with success by a node of [g]. *)
Definition doc_answered (g : string) (net : Net) (d : Document) : Prop :=
  ∃ data ev, SerializeToString d = Some data ∧ ev ∈ net_answers g net ∧ ev_data ev = data ∧
    resp_success (ev_response ev) = true.

Lemma doc_answered_advances g net net' d :
  net_ok net → advances net net' → doc_answered g net d → doc_answered g net' d.
Proof.
  intros Hn Ha (data & ev & ? & ? & ? & ?). exists data, ev. split_and!; try done. by apply Ha.
Qed.

Lemma upsert_loop_of g infos errs c net errs' c' net' :
  client_of g (pt_raft c) → net_ok net →
  upsert_loop infos errs c net = Some (errs', c', net') →
  client_of g (pt_raft c') ∧ advances net net' ∧
  (∀ k, is_Some (sm_lookup k errs) → is_Some (sm_lookup k errs')) ∧
  ∀ info, info ∈ infos → sm_lookup (pdi_key info) errs' = None →
    doc_answered g net' (pdi_doc info).
Proof.
  revert errs c net. induction infos as [|one rest IH]; intros errs c net Hc Hn E; simpl in E.
  { simplify_eq. split_and!; try done. by intros ? ?%elem_of_nil. }
  assert (∀ k m, is_Some (sm_lookup k errs) → is_Some (sm_lookup k (sm_insert (pdi_key one) m errs)))
    as Hins by (intros k m; rewrite sm_lookup_insert_decide; by case_decide).
  assert (∀ m, is_Some (sm_lookup (pdi_key one) (sm_insert (pdi_key one) m errs))) as Hone.
  { intros m. rewrite sm_lookup_insert_decide. by case_decide. }
  destruct (SerializeToString (pdi_doc one)) as [binary|] eqn:Es; cycle 1.
  { apply IH in E as (? & ? & Hk & Ha); [|done..]. split_and!; try done; [by eauto|].
    intros info [-> |Hin]%elem_of_cons Hnone; [|by apply Ha].
    destruct (Hk _ (Hone msg_serialize_doc)). congruence. }
  apply bind_Some in E as ([[[m r] raft] n1] & Ew & E).
  apply (write_loop_of g) in Ew as (Hc1 & A1 & Hs); [|done..|by left].
  destruct (failed m || negb (resp_success r)) eqn:Ef.
  - apply IH in E as (? & ? & Hk & Ha); [|done|by apply A1].
    split_and!; try done; [by trans n1|by eauto|].
    intros info [-> |Hin]%elem_of_cons Hnone; [|by apply Ha].
    destruct (Hk _ (Hone (m +:+ ", ret_msg:" +:+ bs_msg r))). congruence.
  - apply orb_false_iff in Ef as [_ Hr%negb_false_iff].
    apply IH in E as (? & A2 & Hk & Ha); [|done|by apply A1].
    split_and!; try done; [by trans n1|].
    intros info [-> |Hin]%elem_of_cons Hnone; [|by apply Ha].
    destruct (Hs Hr) as [addr Hev]. apply (doc_answered_advances g n1); [by apply A1|done|].
    by exists binary, (mkReplied addr (upsert_request c (pdi_key one)) binary r).
Qed.

End advancing.

(** ** The calls *)

Section calls.
Context {M : Type} `{IndexMapSpec M} `{ClusterNetLaws} `{JsonCodec (list Space)}.
Context `{StdHash} (moved : Document → Document).
Implicit Types r : Router M Net.

Definition space_key (sp : Space) : string := GenSpaceKey (db_name sp) (space_name sp).

(** The connections of the router are to raft groups of spaces that were added. *)
Definition router_to (added : list Space) r : Prop :=
  ∀ k c, mgr_view (rt_mgr r) !! k = Some c →
    ∃ sp, sp ∈ added ∧ space_key sp = k ∧
      conn_to (group_name <$> partitions sp) (sc_partition_list c).

(** The space that a call adds. *)
Definition added_by (call : SpaceCall + DocCall) : list Space :=
  match call with inl (CallAddSpace space) => [default empty_space space] | _ => [] end.

(** All documents of the request were answered with success by nodes of a raft
    group of a space with the request's key. *)
Definition request_answered (added : list Space) (req : UpsertRequest) (net : Net) : Prop :=
  ∀ d, d ∈ uq_documents req → ∃ sp g, sp ∈ added ∧
    space_key sp = GenSpaceKey (uq_db_name req) (uq_space_name req) ∧
    g ∈ group_name <$> partitions sp ∧ doc_answered g net d.

(** The answer to a request that was sent on and of which nothing failed. *)
Definition reported_written (y : RouterReply) : Prop :=
  match y with
  | ReplyUpsert rep => us_code (rep_resp rep) = 103 ∧ us_failed_docs (rep_resp rep) = []
  | _ => False
  end.

Definition call_effect (added : list Space) (call : SpaceCall + DocCall) r (y : RouterReply)
    r' : Prop :=
  router_to (added ++ added_by call) r' ∧ advances (rt_net r) (rt_net r') ∧
  ∀ req, call = inr (CallUpsert req) → reported_written y →
    request_answered added req (rt_net r').

Lemma router_to_more added added' r : router_to added r → router_to (added ++ added') r.
Proof. intros Hr k c (sp & ? & ? & ?)%Hr. exists sp. split_and!; [set_solver|done..]. Qed.

Lemma effect_same added call r y :
  router_to added r → added_by call = [] → (∀ req, call ≠ inr (CallUpsert req)) →
  call_effect added call r y r.
Proof.
  intros Hr Ha Hc. unfold call_effect. rewrite Ha, app_nil_r. split_and!; [done..|].
  intros req ->. by destruct (Hc req).
Qed.

Lemma AddSpace_effect added space r y r' :
  mgr_wf (rt_mgr r) → router_to added r →
  serve_space (CallAddSpace space) r = Some (y, r') →
  call_effect added (inl (CallAddSpace space)) r y r'.
Proof.
  intros Hw Hr E. cbn [serve_space] in E. apply bind_Some in E as ([x r1] & E & [= <- <-]).
  unfold RouterRpc_AddSpace in E. apply bind_Some in E as ([msg r2] & E & E').
  assert (r2 = r1) as -> by (destruct (failed msg); congruence). clear E'.
  destruct (SpaceConn_Init (default empty_space space) (rt_net r)) as [[[im c] net]|] eqn:EI;
    [|unfold AddSpace in E; by rewrite EI in E].
  destruct (AddSpace_spec r _ im c net Hw EI) as (msg' & r' & E' & En & _ & Hv).
  rewrite E in E'. injection E' as <- <-.
  destruct (SpaceConn_Init_to _ _ _ _ _ EI) as (Hc & Ha & Hk).
  split_and!; [|by rewrite En|done]. intros k c' Hk'.
  assert (mgr_view (rt_mgr r) !! k = Some c' ∨ (k = space_key (default empty_space space) ∧ c' = c))
    as [Hold|[-> ->]].
  { repeat case_match; destruct Hv as [_ Hv]; rewrite Hv in Hk'; auto.
    apply lookup_insert_Some in Hk' as [[<- <-]|[_ ?]]; auto. }
  - destruct (Hr _ _ Hold) as (sp & ? & ? & ?). exists sp. split_and!; [set_solver|done..].
  - exists (default empty_space space). split_and!; [|done|done]. simpl. set_solver.
Qed.

Lemma DeleteSpace_effect added db name r y r' :
  mgr_wf (rt_mgr r) → router_to added r →
  serve_space (CallDeleteSpace db name) r = Some (y, r') →
  call_effect added (inl (CallDeleteSpace db name)) r y r'.
Proof.
  intros Hw Hr E. cbn [serve_space] in E. apply bind_Some in E as ([x r1] & E & [= <- <-]).
  unfold RouterRpc_DeleteSpace in E. rewrite save_local_mgr in E.
  destruct (DeleteSpace_spec _ (GenSpaceKey (default "" db) (default "" name)) Hw)
    as (msg & m & Em & _ & Hv & _). rewrite Em in E. cbn [mbind option_bind] in E.
  assert (rt_mgr r1 = m ∧ rt_net r1 = rt_net r) as [Er En]
    by (destruct (failed msg); by simplify_eq).
  split_and!; [|by rewrite En|done]. simpl. rewrite app_nil_r.
  intros k c. rewrite Er, Hv, lookup_delete_Some. intros [_ Hk]. by apply Hr.
Qed.

Lemma Get_effect added raws req r y r' :
  router_to added r → serve_doc moved (CallGet raws req) r = Some (y, r') →
  call_effect added (inr (CallGet raws req)) r y r'.
Proof.
  intros Hr E. cbn [serve_doc] in E. apply bind_Some in E as ([x r1] & E & [= <- <-]).
  unfold RouterRpc_Get in E. apply bind_Some in E as ([[[i c]|] msg] & _ & E);
    [|simplify_eq; by apply effect_same].
  destruct (failed _); [simplify_eq; by apply effect_same|].
  apply bind_Some in E as (m & _ & E). apply bind_Some in E as ([[errs docs] net] & Eg & E).
  destruct (answer_loop _ _ _ _ _ _) as [ds fs].
  assert (rt_mgr r1 = rt_mgr r ∧ rt_net r1 = net) as [Em En] by (case_bool_decide; by simplify_eq).
  split_and!; [|rewrite En; by eapply space_get_advances|done].
  simpl. rewrite app_nil_r. intros k c'. rewrite Em. apply Hr.
Qed.

Lemma Delete_effect added req r y r' :
  router_to added r → serve_doc moved (CallDelete req) r = Some (y, r') →
  call_effect added (inr (CallDelete req)) r y r'.
Proof.
  intros Hr E. cbn [serve_doc] in E. apply bind_Some in E as ([x r1] & E & [= <- <-]).
  assert (r1 = r) as ->; [|by apply effect_same]. unfold RouterRpc_Delete in E.
  apply bind_Some in E as ([[[i c]|] msg] & _ & E); [|by simplify_eq].
  destruct (failed _); [by simplify_eq|]. apply bind_Some in E as (m & _ & E).
  apply bind_Some in E as (errs & _ & E). case_bool_decide; by simplify_eq.
Qed.

Lemma failed_of_nil n errs :
  n ≠ 0%nat → failed_of (replicate n "") errs = [] → sm_lookup "" errs = None.
Proof.
  destruct n as [|n]; [done|]. intros _. unfold failed_of. simpl.
  by destruct (sm_lookup "" errs).
Qed.

Lemma upsert_loop_sorted infos errs c net errs' c' net' :
  sm_sorted errs → upsert_loop infos errs c net = Some (errs', c', net') → sm_sorted errs'.
Proof.
  revert errs c net. induction infos as [|one rest IH]; intros errs c net Hs E; simpl in E;
    [by simplify_eq|].
  destruct (SerializeToString (pdi_doc one)) as [binary|];
    [|by eapply IH; [by apply sm_insert_sorted|done]].
  apply bind_Some in E as ([[[m rs] raft] n1] & _ & E).
  destruct (failed m || negb (resp_success rs));
    (eapply IH; [|exact E]); [by apply sm_insert_sorted|done].
Qed.

(** A reachable connection has its key. *)
Lemma mgr_view_key (m : SpaceManager M) k c :
  mgr_wf m → mgr_view m !! k = Some c → sc_space_key c = k.
Proof.
  intros (_ & _ & Hc) (i & Hi & Hl)%mgr_view_lookup. destruct (Hc _ _ Hi) as (c' & Hl' & <-).
  congruence.
Qed.

(** The documents of a request in one group of the partition list of [c]. *)
Lemma Space_UpsertDocs_of gs i grp c net errs c' net' :
  conn_to gs (sc_partition_list c) → net_ok net →
  Space_UpsertDocs [(i, grp)] c net = Some (errs, c', net') →
  conn_to gs (sc_partition_list c') ∧ advances net net' ∧ sc_space_key c' = sc_space_key c ∧
  ∀ info, info ∈ dg_infos grp → sm_lookup (pdi_key info) errs = None →
    ∃ g, g ∈ gs ∧ doc_answered g net' (pdi_doc info).
Proof.
  intros Hc Hn E. unfold Space_UpsertDocs in E. cbn [space_upsert] in E.
  apply bind_Some in E as ([j p] & Ep & E). apply bind_Some in E as ([[e p'] n1] & Eu & E).
  simplify_eq. simpl. unfold partition_at in Ep. destruct (i <? 0); [done|].
  apply bind_Some in Ep as (p0 & Hp & [= <- <-]).
  destruct (Forall_lookup_1 _ _ _ _ Hc Hp) as (g & Hg & Hcl).
  destruct (upsert_loop_of g _ _ _ _ _ _ _ Hcl Hn Eu) as (Hcl' & Ha & _ & Hd).
  split_and!; [|done|done|].
  - apply Forall_insert; [done|]. by exists g.
  - intros info Hin Hnone. exists g. split; [done|]. apply Hd; [done|].
    rewrite sm_lookup_merge in Hnone by (by eapply upsert_loop_sorted, Eu; apply sm_empty_sorted).
    by destruct (sm_lookup (pdi_key info) e).
Qed.

Lemma Upsert_effect added req r y r' :
  router_ok r → router_to added r → net_ok (rt_net r) →
  serve_doc moved (CallUpsert req) r = Some (y, r') →
  call_effect added (inr (CallUpsert req)) r y r'.
Proof.
  intros [Hw Hl] Hr Hn E. cbn [serve_doc] in E. apply bind_Some in E as ([x r1] & E & [= <- <-]).
  set (key := GenSpaceKey (uq_db_name req) (uq_space_name req)).
  unfold RouterRpc_Upsert in E. fold key in E. set (docs := uq_documents req) in *.
  assert (∀ code m fd, code ≠ 103 → call_effect added (inr (CallUpsert req)) r
    (ReplyUpsert (mkReply (mkUpsertResponse code m fd) true)) r) as Hbad.
  { intros code m fd Hc. unfold call_effect. simpl. rewrite app_nil_r.
    split_and!; [done..|]. by intros req' _ [? _]. }
  destruct (decide (1 < String.length key)%nat) as [Hk|Hk];
    [|rewrite short_key in E by lia; simplify_eq/=; by apply Hbad].
  destruct (GetSpaceConn_spec _ _ Hw Hk) as [HS HN].
  destruct (mgr_view (rt_mgr r) !! key) as [c|] eqn:Ec;
    [|rewrite HN in E by done; simplify_eq/=; by apply Hbad].
  destruct (HS c eq_refl) as [i Ei]. rewrite Ei in E. cbn [mbind option_bind] in E.
  destruct (failed (check_docs docs (sc_pb_space c))); [simplify_eq; by apply Hbad|].
  destruct (Hr _ _ Ec) as (sp & Hsp & Hkey & Hto). pose proof (proj1 (proj1 (Hl _ _ Ec))) as Hpn.
  assert (∀ c', conn_to (group_name <$> partitions sp) (sc_partition_list c') →
    sc_space_key c' = sc_space_key c → ∀ net, router_to (added ++ [])
      (set_net net (set_mgr (set_conn i c' (rt_mgr r)) r))) as Hset.
  { intros c' Hc' Ekey net. rewrite app_nil_r. intros k z Hz.
    destruct (set_conn_ok key i c c' _ Hw Ei Ekey) as [Hw' Hv].
    destruct (Hv _ _ Hz) as [->|Hz']; [|by eapply Hr]. exists sp. split_and!; [done| |done].
    rewrite <-(mgr_view_key _ _ _ Hw' Hz), Ekey, (mgr_view_key _ _ _ Hw Ec). done. }
  destruct docs as [|d docs'] eqn:Ed.
  { cbn in E. simplify_eq. split_and!; [by apply Hset|done|]. by intros req' _ [? _]. }
  rewrite (HashDocs_no_keys (d :: docs') _ Hpn) in E by done. cbn [mbind option_bind] in E.
  apply bind_Some in E as ([[errs c'] net] & Eu & E).
  destruct (Space_UpsertDocs_of _ _ _ _ _ _ _ _ Hto Hn Eu) as (Hto' & Ha & Hkc & Hd).
  rewrite bool_decide_eq_false_2 in E by done. simplify_eq.
  split_and!; [by apply Hset|done|]. intros req' [= <-] [_ Hf].
  apply failed_of_nil in Hf; [|done]. intros d0 Hd0.
  destruct (Hd (mkPbDocInfo "" d0)) as (g & Hg & Hans).
  { apply list_elem_of_fmap. exists d0. by rewrite <-Ed. }
  { done. }
  by exists sp, g.
Qed.

Lemma serve_effect added call r y r' :
  router_ok r → router_to added r → net_ok (rt_net r) → serve moved call r = Some (y, r') →
  call_effect added call r y r'.
Proof.
  intros Hok Hr Hn E. pose proof Hok as [Hw _].
  destruct call as [[space|db name|]|[raws req| |req|req| |]]; cbn [serve] in E.
  - by apply AddSpace_effect.
  - by apply DeleteSpace_effect.
  - simpl in E. simplify_eq. by apply effect_same.
  - by apply Get_effect.
  - simpl in E. simplify_eq. by apply effect_same.
  - by apply Upsert_effect.
  - by apply Delete_effect.
  - simpl in E. simplify_eq. by apply effect_same.
  - simpl in E. simplify_eq. by apply effect_same.
Qed.

Lemma request_answered_later added added' req net net' :
  net_ok net → advances net net' → request_answered added req net →
  request_answered (added ++ added') req net'.
Proof.
  intros Hn Ha Hq d (sp & g & ? & ? & ? & ?)%Hq. exists sp, g.
  split_and!; [set_solver|done|done|by eapply doc_answered_advances].
Qed.

(** Over a history: the requests whose answer reports them as written were
    answered by nodes of their groups. *)
Lemma serve_all_effect calls added r replies r' :
  router_ok r → router_to added r → net_ok (rt_net r) → Forall call_ok calls →
  serve_all moved calls r = Some (replies, r') →
  advances (rt_net r) (rt_net r') ∧ ∀ i req y, calls !! i = Some (inr (CallUpsert req)) →
    replies !! i = Some y → reported_written y →
    request_answered (added ++ (calls ≫= added_by)) req (rt_net r').
Proof.
  intros Hok Hr Hn Hc. revert added r replies Hok Hr Hn. induction Hc as [|call calls Hcall Hc IH];
    intros added r replies Hok Hr Hn E; cbn [serve_all] in E.
  { simplify_eq. split; [done|]. by intros []. }
  apply bind_Some in E as ([y r1] & E1 & E). apply bind_Some in E as ([ys r2] & E2 & E).
  simplify_eq. destruct (serve_effect _ _ _ _ _ Hok Hr Hn E1) as (Hr1 & Ha & Hup).
  destruct (serve_ok moved call r Hok Hcall) as (y' & r1' & E1' & Hok1 & _).
  assert (r1' = r1) as -> by congruence. destruct (Ha Hn) as [Hn1 _].
  destruct (IH _ _ _ Hok1 Hr1 Hn1 E2) as [Ha2 Hrest]. split; [by trans (rt_net r1)|].
  intros [|i] req z Hi Hz Hw; simpl in Hi, Hz.
  - simplify_eq. simpl. eapply request_answered_later; [exact Hn1|done|by apply Hup].
  - rewrite bind_cons, app_assoc. by eapply Hrest.
Qed.

End calls.

(** ** Property *)

(** C11. What the router reports as written is committed: in every history of calls
    on a router that starts without spaces, in front of raft groups, every
    request to write documents that is answered with no failed document has each
    of its documents in the log of a raft group of an added space with the
    request's key.  If the space of this group has long ids and all documents of
    its log can be stored, leaders of the group that have applied the document
    answer a read, by any text the engine takes for its id, with the last
    document with the id.  Every document is assumed to serialize, restarted
    engines to have the writes they had at their last snapshot, and no node to be
    caught up by the snapshot of another node. *)
Theorem router_writes_are_committed {M} `{IndexMapSpec M} `{PsNet} `{GammaDocLaws}
    `{!GammaEngine} `{GammaKeys} `{!GammaEngineLaws} `{WireCodecLaws BlockRequest}
    `{WireCodecLaws Document} `{!ClusterNet} `{!ClusterNetLaws} `{JsonCodec (list Space)} `{StdHash}
    (moved : Document → Document) (calls : list (SpaceCall + DocCall)) (r : Router M Net) :
  router_ok r → mgr_view (rt_mgr r) = ∅ → net_ok (rt_net r) → Forall call_ok calls →
  (∀ d, is_Some (SerializeToString (A := Document) d)) →
  ∃ replies r', serve_all moved calls r = Some (replies, r') ∧
    ∀ i req y d, calls !! i = Some (inr (CallUpsert req)) → replies !! i = Some y →
      reported_written y → d ∈ uq_documents req →
      ∃ sp g j, sp ∈ calls ≫= added_by ∧
        space_key sp = GenSpaceKey (uq_db_name req) (uq_space_name req) ∧
        g ∈ group_name <$> partitions sp ∧
        let grp := net_group g (rt_net r') in
        doc_at (g_log grp) j = Some d ∧
        (space_id_type (g_space grp) = LONG_SDTYPE → log_storable grp →
          ∃ idv, doc_key d = Some idv ∧ read_by_leaders grp j idv).
Proof.
  intros Hok Hv Hn Hc Hall.
  destruct (serve_all_ok moved calls r Hok Hc) as (replies & r' & E & _).
  exists replies, r'. split; [done|]. intros i req y d Hi Hy Hw Hd.
  destruct (serve_all_effect moved calls [] r replies r') as [Ha Hans]; try done.
  { intros k c. by rewrite Hv. }
  destruct (Hans i req y Hi Hy Hw d Hd) as (sp & g & Hsp & Hk & Hg & data & ev & Es & Hev & <- & Hs).
  destruct (Ha Hn) as [Hn' _]. pose proof (net_reachable g (rt_net r') Hn') as HR.
  destruct (ack_in_log _ _ _ _ HR Hev Hs) as (j & d' & Hj & Hp).
  rewrite (parse_serialize _ _ Es) in Hp. injection Hp as <-. exists sp, g, j.
  split_and!; [done..|]. split; [done|]. intros Hlong HL. destruct (HL _ _ Hj) as (idv & Hkey & _).
  exists idv. split; [done|]. by eapply committed_read.
Qed.

(** ** A cluster

    A network in front of one raft group, whose leader commits and applies a
    write at once. *)

#[local] Instance cluster_req_codec : WireCodec BlockRequest := count_codec BlockRequest.
#[local] Instance cluster_doc_codec : WireCodec Document := count_codec Document.
#[local] Instance cluster_req_laws : WireCodecLaws BlockRequest := count_codec_laws BlockRequest.
#[local] Instance cluster_doc_laws : WireCodecLaws Document := count_codec_laws Document.
#[local] Instance cluster_doc : GammaDoc := map_doc.
#[local] Instance cluster_engine : GammaEngine := map_engine.
#[local] Instance cluster_json : JsonCodec (list Space) :=
  {| ProtoMessageToJson _ := None; JsonToProtoMessage _ := None |}.

Definition ClusterState : Type := list Replied * Group.

(** The leader's entry for a task. *)
Definition own_entry (t : Task) : IterEntry := mkIterEntry (task_data t) (Some (task_done t)).
Definition commit_task (addr : string) (t : Task) (g : Group) : Group :=
  mkGroup (g_space g) (g_init g) (g_proposed g ++ []) (g_log g ++ [mkLogEntry addr t]) (g_peers g).

Definition write_at (addr : string) (req : BlockRequest) (data : bytes) (net : ClusterState)
    : (string + BlockResponse) * ClusterState :=
  let '(evs, g) := net in
  match g_peers g !! addr with
  | None => (inl "no such node", net)
  | Some p =>
      if p_stopped p || negb (bool_decide (p_applied p = length (g_log g))) ||
         negb (bool_decide (ByteSizeLong req < 2 ^ 32)) then (inl "not ready", net)
      else
        match Block_write addr (p_block p) req empty_response data with
        | Answered r => (inr r, (mkReplied addr req data r :: evs, g))
        | Applied t =>
            let '(rs, fin, gamma) := on_apply (_space (p_block p)) [own_entry t] (p_gamma p) in
            let answers := apply_answers addr addr (p_block p) [own_entry t] rs fin in
            (match answers with ev :: _ => inr (ev_response ev) | [] => inl "no answer" end,
             (answers ++ evs, set_peer addr (advance (length rs) gamma fin p) (commit_task addr t g)))
        end
  end.

Lemma commit_task_run addr req data p t evs g lid :
  reachable false evs g → g_peers g !! addr = Some p → ByteSizeLong req < 2 ^ 32 →
  Block_write lid (p_block p) req empty_response data = Applied t →
  reachable false evs (commit_task addr t g).
Proof.
  intros (g0 & Hn & Hr) Hp Hb Hw. exists g0. split; [done|].
  apply (gr_step false g0 evs (mkGroup (g_space g) (g_init g) (g_proposed g ++ [mkLogEntry addr t])
    (g_log g) (g_peers g)) []).
  - apply (gr_step false g0 evs g []); [done|]. by eapply gs_propose.
  - exact (gs_commit false (mkGroup (g_space g) (g_init g) (g_proposed g ++ [mkLogEntry addr t])
      (g_log g) (g_peers g)) (g_proposed g) (mkLogEntry addr t) [] eq_refl).
Qed.

Lemma write_at_run addr req data net x net' :
  reachable false net.1 net.2 → write_at addr req data net = (x, net') →
  reachable false net'.1 net'.2 ∧ (∀ ev, ev ∈ net.1 → ev ∈ net'.1) ∧
  ∀ resp, x = inr resp → mkReplied addr req data resp ∈ net'.1.
Proof.
  destruct net as [evs g]. cbn [fst snd]. intros HR E. unfold write_at in E.
  destruct (g_peers g !! addr) as [p|] eqn:Hp; [|by simplify_eq].
  destruct (_ || _) eqn:Eb in E; [by simplify_eq|].
  apply orb_false_iff in Eb as [[Hst Hap]%orb_false_iff Hb].
  apply negb_false_iff, bool_decide_eq_true in Hap, Hb.
  destruct (Block_write addr (p_block p) req empty_response data) as [r|t] eqn:Ew.
  - simplify_eq. simpl. split_and!; [|by right|intros resp [= <-]; left].
    destruct HR as (g0 & Hn & Hr). exists g0. split; [done|].
    apply (gr_step false g0 evs g [mkReplied addr req data r]); [done|]. by eapply gs_answer.
  - destruct (on_apply _ _ _) as [[rs fin] gamma] eqn:Ea. simplify_eq. simpl. split_and!.
    + destruct (commit_task_run _ _ _ _ _ _ _ _ HR Hp Hb Ew) as (g0 & Hn & Hr).
      exists g0. split; [done|]. eapply gr_step; [exact Hr|].
      apply (gs_apply false (commit_task addr t g) addr p addr 1 [own_entry t]); try done.
      simpl. rewrite Hap, drop_app_length. constructor; [|constructor]. split; [done|]. by right.
    + intros ev Hev. apply elem_of_app. by right.
    + intros resp Hx. apply elem_of_app. left.
      destruct (apply_answers _ _ _ _ _ _) as [|ev l] eqn:Eans; [done|]. injection Hx as <-.
      assert (ev ∈ apply_answers addr addr (p_block p) [own_entry t] rs fin) as Hev
        by (rewrite Eans; left).
      assert (bc_request (task_done t) = req ∧ bc_data (task_done t) = data) as [Hreq Hdat].
      { unfold Block_write in Ew. case_match; [done|]. case_match; [|done]. by simplify_eq. }
      assert (ev = mkReplied addr req data (ev_response ev)) as <-; [|left].
      apply elem_of_app in Hev as [Hev|Hev].
      * apply run_closures_elem in Hev as (j & e & c & r & Hj & _ & Hc & ->).
        destruct j; [|done]. injection Hj as <-. injection Hc as <-. simpl. by rewrite Hreq, Hdat.
      * destruct fin; try (by apply elem_of_nil in Hev).
        apply run_closures_elem in Hev as (j & e & c & r & Hj & _ & Hc & ->).
        rewrite lookup_drop in Hj. destruct (length rs + j)%nat; [|done].
        injection Hj as <-. injection Hc as <-. simpl. by rewrite Hreq, Hdat.
Qed.

Definition node_addr : string := "10.0.0.1:8000".

#[local] Instance cluster_raft : RaftNet := {|
  Net := ClusterState;
  select_leader g net := (if bool_decide (g = "g") then Some node_addr else None, net);
  refresh_leader _ net := (true, net);
  update_leader _ _ net := net;
  update_configuration _ _ net := (0, net);
  IsAskedToQuit net := (false, net);
  channel_Init _ net := (0, net);
  rpc_write := write_at
|}.
#[local] Instance cluster_ps : PsNet := {|
  ps_channel_Init _ net := (0, net);
  rpc_get _ _ net := (inr empty_get_response, net)
|}.

Definition no_group : Group := mkGroup empty_space ∅ [] [] ∅.

#[local] Instance one_group_net : ClusterNet := {|
  net_ok net := reachable false net.1 net.2;
  net_group g net := if bool_decide (g = "g") then net.2 else no_group;
  net_answers g net := if bool_decide (g = "g") then net.1 else [];
  member g _ := g = "g"
|}.

Lemma one_group_same (net : ClusterState) : advances (net : Net) net.
Proof. by intros Hn. Qed.

#[local] Instance one_group_net_laws : ClusterNetLaws.
Proof.
  constructor; try (intros; exact (one_group_same _)).
  - intros g net Hn. simpl. case_bool_decide; [done|]. exists no_group. split; [|constructor].
    split_and!; [done..|]. apply map_Forall_empty.
  - intros g net l net'. simpl. case_bool_decide; [|done]. intros _. by subst g.
  - intros g addr req data net resp net' Hn Hm E. simpl in Hm. subst g. simpl in Hn, E |- *.
    destruct (write_at_run _ _ _ _ _ _ Hn E) as (_ & _ & Hans). by apply Hans.
  - intros a req data net Hn. simpl in Hn |- *. destruct (write_at a req data net) as [x net'] eqn:E.
    destruct (write_at_run _ _ _ _ _ _ Hn E) as (Hn' & Hev & _). split; [done|].
    intros g ev. simpl. case_bool_decide; [apply Hev|done].
Qed.

(** A space with one partition, whose one node leads. *)
Definition plain_space : Space :=
  mkSpace "d" "s" 1 1 1 [mkField "n" INT_SDTYPE None None] [one_partition] (Some LONG_SDTYPE)
    None None.
Definition plain_doc : Document := mkDocument (Some "7") [("n", 5)] [] [] [] [] [] [].
Definition plain_group : Group :=
  mkGroup plain_space ∅ [] [] {[node_addr := fresh_peer plain_space]}.
Definition plain_net : ClusterState :=
  ([], set_peer node_addr (set_block (started plain_space 3) (fresh_peer plain_space)) plain_group).

Lemma plain_net_ok : net_ok (plain_net : Net).
Proof.
  exists plain_group. split.
  { split_and!; [done..|]. by apply map_Forall_singleton. }
  apply (gr_step false _ [] plain_group []); [constructor|].
  by apply (gs_leader_start false plain_group node_addr (fresh_peer plain_space) 3).
Qed.

Definition plain_router : Router OneWriterMultiReaderMap Net :=
  mkRouter (mkSpaceManager [] 4 (owmr_new 2)) LocalSpaces_new (mkFs ∅ ∅ ∅ ∅ []) plain_net.
Definition plain_calls : list (SpaceCall + DocCall) :=
  [inl (CallAddSpace (Some plain_space));
   inr (CallUpsert (mkUpsertRequest "d" "s" None [plain_doc]))].
Definition plain_run := @serve_all _ (@owmr_index_map length_hash) _ _ _ _ length_hash id plain_calls plain_router.

Lemma plain_router_ok :
  @router_ok _ (@owmr_index_map length_hash) (@owmr_index_map_spec length_hash) _ plain_router.
Proof.
  split; [apply (@empty_mgr_wf length_hash); lia|]. cbn [plain_router rt_mgr].
  rewrite (@empty_mgr_view length_hash). apply map_Forall_empty.
Qed.

(** The group after the run: its log, and its leader. *)
Lemma plain_end replies r' :
  plain_run = Some (replies, r') →
  let grp := net_group "g" (rt_net r') in
  space_id_type (g_space grp) = LONG_SDTYPE ∧ entry_doc <$> g_log grp = [Some plain_doc] ∧
  (λ p, (p_stopped p, Block_is_leader (p_block p), p_applied p)) <$> g_peers grp !! node_addr =
    Some (false, true, 1%nat).
Proof.
  intros E. assert (rt_net r' = default plain_net ((λ x, rt_net x.2) <$> plain_run)) as ->
    by by rewrite E.
  split; [vm_compute; reflexivity|]. split; vm_compute; reflexivity.
Qed.

Lemma plain_storable : storable plain_doc.
Proof.
  exists 7. split; [vm_compute; reflexivity|]. split; [vm_compute; split; congruence|].
  split; [apply (bool_decide_unpack _); vm_compute; exact I|].
  repeat split; repeat constructor; vm_compute; congruence.
Qed.

Lemma one_document_log (log : list LogEntry) d j d' :
  entry_doc <$> log = [Some d] → doc_at log j = Some d' → j = 0%nat ∧ d' = d.
Proof.
  destruct log as [|le [|]]; [done| |done]. intros [= E]. destruct j; [|done].
  cbn. rewrite E. by intros [= ->].
Qed.

Lemma router_writes_are_committed_witness :
  ∃ replies r' p last d' buf', plain_run = Some (replies, r') ∧
    let grp := net_group "g" (rt_net r') in
    doc_at (g_log grp) 0 = Some plain_doc ∧ g_peers grp !! node_addr = Some p ∧
    last_document grp (p_applied p) 7 last ∧
    Block_read "" (p_block p) (p_gamma p) (mkBlockRequest "d" "s" READ INT64 "7")
      empty_response [] = Some (set_success true empty_response, buf') ∧
    ParseFromString buf' = Some d' ∧ read_back 7 last d'.
Proof.
  destruct (@router_writes_are_committed _ (@owmr_index_map length_hash)
    (@owmr_index_map_spec length_hash) _ _ map_doc map_doc_laws map_engine decimal_keys
    map_engine_laws _ _ _ _ _ _ _ length_hash id plain_calls plain_router)
    as (replies & r' & E & Hw).
  - apply plain_router_ok.
  - apply (@empty_mgr_view length_hash).
  - apply plain_net_ok.
  - repeat (apply Forall_cons; split; [try exact I|]); [|apply Forall_nil; exact I].
    split_and!; [simpl; lia..|]. apply Forall_cons. split; [split; [discriminate|simpl; lia]|].
    apply Forall_nil. exact I.
  - intros d. eexists. reflexivity.
  - assert (replies !! 1%nat = default [] (fst <$> plain_run) !! 1%nat) as Hy
      by (unfold plain_run; rewrite E; reflexivity).
    destruct (Hw 1%nat (mkUpsertRequest "d" "s" None [plain_doc])
      (ReplyUpsert (mkReply (mkUpsertResponse 103 msg_upsert_failed []) true)) plain_doc)
      as (sp & g & j & Hsp & _ & Hg & Hd & Hread);
      [reflexivity|rewrite Hy; vm_compute; reflexivity|split; reflexivity|left|].
    apply list_elem_of_singleton in Hsp as ->. apply list_elem_of_singleton in Hg as ->.
    destruct (plain_end replies r' E) as (Hlong & Hlog & Hp).
    destruct (one_document_log _ _ _ _ Hlog Hd) as [-> _].
    destruct Hread as (idv & Hk & Hread); [exact Hlong| |].
    { intros i d Hi. destruct (one_document_log _ _ _ _ Hlog Hi) as [_ ->]. apply plain_storable. }
    assert (idv = 7) as ->.
    { assert (doc_key plain_doc = Some 7) as E7 by (vm_compute; reflexivity). congruence. }
    apply fmap_Some in Hp as (p & Hp & Ep). injection Ep as Hst Hl Hap.
    assert (0 < p_applied p)%nat as Hlt by (rewrite <-Hap; exact (le_n 1)).
    destruct (Hread node_addr p "" (mkBlockRequest "d" "s" READ INT64 "7") empty_response [])
      as (last & d' & buf' & Hlast & HR);
      [exact Hp|done|done|exact Hlt|vm_compute; reflexivity|].
    exists replies, r', p, last, d', buf'. split; [exact E|].
    split; [exact Hd|]. split; [exact Hp|]. split; [exact Hlast|exact HR].
Defined.

(** ** Reads *)

(** A [Get] that is answered is answered by the handler of a partition server. *)
Definition gets_served `{PsNet} `{GammaAdmin} : Prop :=
  ∀ addr keys net resp net', rpc_get addr keys net = (inr resp, net') →
    ∃ req n, gq_ids req = keys ∧ resp = (PsRpc_Get req n).1.

Section reads.
Context `{PsNet} `{GammaAdmin} `{StdHash} (Hserved : gets_served).

Lemma take_response_empty keys errs docs errs' docs' :
  take_response keys empty_get_response [] [] errs docs = Some (errs', docs') → docs' = docs.
Proof.
  revert errs. induction keys as [|k keys IH]; intros errs E; simpl in E; [by simplify_eq|].
  by eapply IH.
Qed.

Lemma get_loop_no_docs n first idx msg keys o docs net errs docs' net' :
  get_loop n first idx msg keys o docs net = Some (errs, docs', net') → docs' = docs.
Proof using Hserved.
  revert first idx msg net. induction n as [|n IH]; intros first idx msg net E; simpl in E;
    [by simplify_eq|].
  set (i := if first then idx else _) in E. destruct (i <? 0); [done|].
  apply bind_Some in E as (cl & _ & E).
  destruct (PsRpcClient_Get keys cl net) as [[m r] net1] eqn:Eg.
  assert (r = empty_get_response) as ->.
  { unfold PsRpcClient_Get, QueryPsRpcImp in Eg. destruct (negb (pc_stub cl)); [by simplify_eq|].
    destruct (rpc_get _ keys net) as [[text|x] n1] eqn:Er; simplify_eq; [done|].
    by destruct (Hserved _ _ _ _ _ Er) as (req & node & _ & ->). }
  destruct (failed m); [by eapply IH|]. apply bind_Some in E as ([e d] & Et & [= <- <- <-]).
  by eapply take_response_empty.
Qed.

Lemma space_get_no_docs raws grps errs docs c net errs' docs' net' :
  space_get raws grps errs docs c net = Some (errs', docs', net') → docs' = docs.
Proof using Hserved.
  revert raws errs docs net. induction grps as [|[i ks] grps IH]; intros raws errs docs net E;
    simpl in E; [by simplify_eq|].
  apply bind_Some in E as ([j p] & _ & E). apply bind_Some in E as ([[e d] n1] & E1 & E).
  apply IH in E as ->. unfold Partition_GetDocs in E1.
  apply bind_Some in E1 as ([o|] & _ & E1); [apply get_loop_no_docs in E1 as ->|by simplify_eq].
  done.
Qed.

Lemma answer_loop_no_docs moved ids errs documents failed_docs :
  (answer_loop moved ids errs [] documents failed_docs).1 = documents.
Proof.
  revert documents failed_docs. induction ids as [|k ids IH]; intros; simpl; [done|].
  case_match; apply IH.
Qed.

End reads.

(** C25. No document can be read through the router: in front of partition servers, a
    read of a space that exists with ids that pass the check is answered with
    code 103, without documents, and with every id as failed, for whatever
    documents were written. *)
Theorem router_reads_no_document {M} `{IndexMapSpec M} `{PsNet} `{GammaAdmin} `{StdHash}
    (moved : Document → Document) (raws : nat → Z) (req : GetRequest) (r : Router M Net)
    (c : SpaceConn) :
  let key := GenSpaceKey (gq_db_name req) (gq_space_name req) in
  gets_served → router_ok r → (1 < String.length key)%nat →
  mgr_view (rt_mgr r) !! key = Some c → CheckPbIds (gq_ids req) (sc_pb_space c) = "" →
  gq_ids req ≠ [] →
  ∃ resp r', RouterRpc_Get moved raws req r = Some (mkReply resp true, r') ∧
    gs_code resp = 103 ∧ gs_documents resp = [] ∧ ds_id <$> gs_failed_docs resp ≡ₚ gq_ids req.
Proof.
  intros key Hserved [Hw Hl] Hk Hv Hck Hne.
  destruct (RouterRpc_Get_spec moved raws req r Hw Hk) as (resp & r' & E & _ & HP & Hcode).
  { intros c' Hc'. by apply (Hl _ _ Hc'). }
  exists resp, r'. split; [done|]. destruct (GetSpaceConn_spec _ _ Hw Hk) as [HS _].
  destruct (HS c Hv) as [i Ei]. unfold RouterRpc_Get in E. fold key in E. rewrite Ei in E.
  cbn [mbind option_bind] in E. rewrite Hck, failed_empty in E.
  apply bind_Some in E as (m & _ & E). apply bind_Some in E as ([[errs docs] net] & Eg & E).
  apply (space_get_no_docs Hserved) in Eg as ->.
  pose proof (answer_loop_no_docs moved (gq_ids req) errs [] []) as Hd.
  destruct (answer_loop _ _ _ _ _ _) as [ds fs]. simpl in Hd. subst ds.
  assert (gs_documents resp = [] ∧ (gs_code resp = 0 ∨ gs_code resp = 103)) as [Hdoc Hc].
  { case_bool_decide; simplify_eq; auto. }
  rewrite Hdoc in HP. simpl in HP. split_and!; [|done..]. destruct Hc as [Hc|]; [|done].
  apply Hcode in Hc as [Hf _]. rewrite Hf in HP. by apply Permutation_nil in HP.
Qed.

#[local] Instance cluster_table : GammaTable := name_table.
#[local] Instance cluster_admin : GammaAdmin := map_admin 0.

Definition plain_router_after : Router OneWriterMultiReaderMap Net :=
  default plain_router (snd <$> plain_run).

Lemma plain_router_after_ok :
  @router_ok _ (@owmr_index_map length_hash) (@owmr_index_map_spec length_hash) _ plain_router_after.
Proof.
  destruct (@serve_all_ok _ (@owmr_index_map length_hash) (@owmr_index_map_spec length_hash)
    _ _ _ _ length_hash id plain_calls plain_router plain_router_ok) as (xs & r' & E & Hr & _).
  { repeat (apply Forall_cons; split; [try exact I|]); [|by apply Forall_nil].
    split_and!; [simpl; lia..|]. apply Forall_cons. split; [split; [done|simpl; lia]|].
    by apply Forall_nil. }
  unfold plain_router_after, plain_run. by rewrite E.
Qed.

Lemma router_reads_no_document_witness :
  ∃ resp r', @RouterRpc_Get _ (@owmr_index_map length_hash) _ _ length_hash id (λ _, 0)
      (mkGetRequest "d" "s" None ["7"]) plain_router_after = Some (mkReply resp true, r') ∧
    gs_code resp = 103 ∧ gs_documents resp = [] ∧ ds_id <$> gs_failed_docs resp ≡ₚ ["7"].
Proof.
  assert (sc_pb_space <$> @mgr_view _ (@owmr_index_map length_hash)
    (@owmr_index_map_spec length_hash) (rt_mgr plain_router_after) !! "d-s" = Some plain_space) as Hv
    by (vm_compute; reflexivity).
  apply fmap_Some in Hv as (c & Hv & Hc).
  apply (@router_reads_no_document _ (@owmr_index_map length_hash)
    (@owmr_index_map_spec length_hash) _ _ _ _ _ _ length_hash id (λ _, 0)
    (mkGetRequest "d" "s" None ["7"]) plain_router_after c).
  - intros addr keys net resp net' [= <- <-].
    exists (mkGetRequest "" "" None keys), (mkPsNode Mata_new None ∅ (mkFs ∅ ∅ ∅ ∅ [])).
    split; reflexivity.
  - exact plain_router_after_ok.
  - simpl. lia.
  - exact Hv.
  - rewrite <-Hc. vm_compute. reflexivity.
  - discriminate.
Defined.
