(* ===== verification/DynResource.v ===== *)
(** * DynResource: src/clients/dynamic_resource.h

    Resources that refresh themselves behind a double buffer, and the manager
    that finds them by name, itself behind a double buffer of maps whose
    entries are shared pointers.  The clock is an argument of each operation;
    [IResource::get_resource] is a parameter that may throw. *)
From S2P Require Import Prelude.
Local Open Scope Z_scope.

Notation ResMap := (gmap string string).

(** A resource with its own state: the result, or [None] for an exception. *)
Class IResource (R : Type) := get_resource : R → option ResMap * R.

(** [steady_clock] in nanoseconds; [duration_cast] truncates. *)
Definition seconds (ns : Z) : Z := ns `quot` 10 ^ 9.

Record DynamicResource (R : Type) := mkDynamicResource {
  resourcePtr_ : R;
  flushInterval_ : Z;
  twoBuffer_ : ResMap * ResMap;
  dr_idx : bool;
  updateTime_ : Z
}.
Arguments mkDynamicResource {R} _ _ _ _ _.
Arguments resourcePtr_ {R} _.
Arguments flushInterval_ {R} _.
Arguments twoBuffer_ {R} _.
Arguments dr_idx {R} _.
Arguments updateTime_ {R} _.

(** The two buffers: [false] is index 0. *)
Definition buf_get {A} (b : A * A) (i : bool) : A := if i then b.2 else b.1.
Definition buf_set {A} (b : A * A) (i : bool) (x : A) : A * A :=
  if i then (b.1, x) else (x, b.2).

Section resource.
Context {R : Type} `{IResource R}.

(** [getResource] catches the exception. *)
Definition getResource (res : R) : ResMap * R :=
  let '(o, res) := get_resource res in (default ∅ o, res).

(** The constructor, at time [now]. *)
Definition DynamicResource_new (res : R) (flushInterval now : Z) : DynamicResource R :=
  let '(b0, res) := getResource res in
  let '(b1, res) := getResource res in
  mkDynamicResource res flushInterval (b0, b1) false now.

(** [updateResource], whose exception leaves the buffers as they are. *)
Definition updateResource (now : Z) (d : DynamicResource R) : option () * DynamicResource R :=
  if flushInterval_ d <? seconds (now - updateTime_ d) then
    let '(newRes, res) := get_resource (resourcePtr_ d) in
    match newRes with
    | None => (None, mkDynamicResource res (flushInterval_ d) (twoBuffer_ d) (dr_idx d) (updateTime_ d))
    | Some newRes =>
        let newIdx := negb (dr_idx d) in
        if negb (bool_decide (newRes = ∅)) then
          (Some (), mkDynamicResource res (flushInterval_ d) (buf_set (twoBuffer_ d) newIdx newRes)
            newIdx now)
        else
          (Some (), mkDynamicResource res (flushInterval_ d) (twoBuffer_ d) (dr_idx d) (updateTime_ d))
    end
  else (Some (), d).

(** [getResourceWrapper]: [now] and [now'] are the readings of the clock of the
    check and of the check under the lock. *)
Definition getResourceWrapper (now now' : Z) (d : DynamicResource R) :
    option ResMap * DynamicResource R :=
  if flushInterval_ d <? seconds (now - updateTime_ d) then
    match updateResource now' d with
    | (None, d) => (None, d)
    | (Some _, d) => (Some (buf_get (twoBuffer_ d) (dr_idx d)), d)
    end
  else (Some (buf_get (twoBuffer_ d) (dr_idx d)), d).

(** ** The manager *)

(** The objects behind the shared pointers, and the two maps of pointers. *)
Record DynamicResourceManager := mkManager {
  objects : gmap nat (DynamicResource R);
  resourceMap_ : gmap string nat * gmap string nat;
  dm_idx : bool;
  lastAddedTime_ : Z
}.

Definition DynamicResourceManager_new (now : Z) : DynamicResourceManager :=
  mkManager ∅ (∅, ∅) false now.

(** [addDynamicResource]; the readings of the clock are those of the
    constructor, of the two checks of the wrapper and of the end.  [None] is an
    exception of the resource.  The pause between additions does not change the
    state. *)
Definition addDynamicResource (ctor now now1 now2 : Z) (name : string) (res : R) (flushInterval : Z)
    (m : DynamicResourceManager) : option bool * DynamicResourceManager :=
  let '(r, dynRes) := getResourceWrapper now now1 (DynamicResource_new res flushInterval ctor) in
  match r with
  | None => (None, m)
  | Some r =>
      if negb (bool_decide (r = ∅)) then
        let p := fresh (dom (objects m)) in
        let newIdx := negb (dm_idx m) in
        let new := <[name := p]> (buf_get (resourceMap_ m) newIdx) in
        (Some true,
         mkManager (<[p := dynRes]> (objects m))
           (buf_set (resourceMap_ m) newIdx (new ∪ buf_get (resourceMap_ m) (dm_idx m)))
           newIdx now2)
      else (Some false, m)
  end.

(** [getDynamicResource] *)
Definition getDynamicResource (now now' : Z) (name : string) (m : DynamicResourceManager) :
    option ResMap * DynamicResourceManager :=
  match buf_get (resourceMap_ m) (dm_idx m) !! name with
  | None => (Some ∅, m)
  | Some p =>
      match objects m !! p with
      | None => (None, m)
      | Some d =>
          let '(r, d) := getResourceWrapper now now' d in
          (r, mkManager (<[p := d]> (objects m)) (resourceMap_ m) (dm_idx m) (lastAddedTime_ m))
      end
  end.

(** ** Specification *)

(** The active map. *)
Definition active (m : DynamicResourceManager) : gmap string nat :=
  buf_get (resourceMap_ m) (dm_idx m).
Definition inactive (m : DynamicResourceManager) : gmap string nat :=
  buf_get (resourceMap_ m) (negb (dm_idx m)).

(** The inactive map is an older version of the active one, and pointers are
    to objects. *)
Definition dm_wf (m : DynamicResourceManager) : Prop :=
  inactive m ⊆ active m ∧ (∀ name p, active m !! name = Some p → is_Some (objects m !! p)).

(** What readers get. *)
Definition current (d : DynamicResource R) : ResMap := buf_get (twoBuffer_ d) (dr_idx d).

(** ** Lemmas *)

Lemma buf_get_set {A} (b : A * A) i j x :
  buf_get (buf_set b i x) j = if bool_decide (j = i) then x else buf_get b j.
Proof. by destruct i, j. Qed.

Lemma add_maps ctor now now1 now2 name res flush m m' :
  addDynamicResource ctor now now1 now2 name res flush m = (Some true, m') →
  ∃ p, objects m !! p = None ∧ is_Some (objects m' !! p) ∧
    (∀ q, q ≠ p → objects m' !! q = objects m !! q) ∧
    inactive m' = active m ∧
    active m' = <[name := p]> (delete name (inactive m) ∪ delete name (active m)).
Proof.
  unfold addDynamicResource. destruct (getResourceWrapper _ _ _) as [[r|] d]; [|done].
  case_bool_decide; [done|]. intros [= <-]. exists (fresh (dom (objects m))). simpl.
  unfold active, inactive. simpl. rewrite negb_involutive. split_and!.
  - apply not_elem_of_dom. apply is_fresh.
  - rewrite lookup_insert_eq. eauto.
  - intros q Hq. by rewrite lookup_insert_ne.
  - rewrite buf_get_set. rewrite bool_decide_eq_false_2; [done|]. by destruct (dm_idx m).
  - rewrite buf_get_set, bool_decide_eq_true_2 by done. apply map_eq. intros k.
    destruct (decide (k = name)) as [->|Hk].
    + by rewrite lookup_union, !lookup_insert_eq, union_Some_l.
    + by rewrite lookup_union, !lookup_insert_ne, lookup_union, !lookup_delete_ne by done.
Qed.

End resource.
Arguments DynamicResourceManager : clear implicits.

(** ** Properties *)

(** A refresh never disturbs readers: data that is young enough is served
    as it is; older data is replaced by what the resource yields, in the other
    buffer, so that the buffer in use before keeps its content; an exception
    or an empty result leaves the data that was served before, to be refreshed
    at the next read. *)
Theorem dynamic_resource_refresh {R} `{IResource R} (now now' : Z) (d : DynamicResource R) :
  now ≤ now' →
  let '(r, d') := getResourceWrapper now now' d in
  if seconds (now - updateTime_ d) <=? flushInterval_ d then r = Some (current d) ∧ d' = d
  else
    match fst (get_resource (resourcePtr_ d)) with
    | Some new =>
        if bool_decide (new = ∅) then
          r = Some (current d) ∧ current d' = current d ∧ updateTime_ d' = updateTime_ d
        else r = Some new ∧ current d' = new ∧ updateTime_ d' = now' ∧
          buf_get (twoBuffer_ d') (dr_idx d) = current d
    | None => r = None ∧ current d' = current d ∧ updateTime_ d' = updateTime_ d
    end.
Proof.
  intros Hle. unfold getResourceWrapper. rewrite Z.leb_antisym.
  destruct (flushInterval_ d <? seconds (now - updateTime_ d)) eqn:E; simpl; [|done].
  assert (flushInterval_ d <? seconds (now' - updateTime_ d) = true) as E'.
  { apply Z.ltb_lt in E. apply Z.ltb_lt. eapply Z.lt_le_trans; [exact E|].
    apply Z.quot_le_mono; lia. }
  unfold updateResource. rewrite E'. destruct (get_resource (resourcePtr_ d)) as [[new|] res]; [|done].
  simpl. case_bool_decide; [done|]. simpl. unfold current. simpl. rewrite !buf_get_set.
  by destruct (dr_idx d).
Qed.

#[local] Instance counter_resource : IResource Z := λ n, (Some {["n" := to_string n]}, n + 1).

Lemma dynamic_resource_refresh_witness :
  fst (getResourceWrapper (3 * 10 ^ 9) (3 * 10 ^ 9) (DynamicResource_new (R := Z) 0 1 0)) =
    Some {["n" := "2"]}.
Proof.
  pose proof (dynamic_resource_refresh (R := Z) (3 * 10 ^ 9) (3 * 10 ^ 9)
    (DynamicResource_new 0 1 0) ltac:(lia)) as HR.
  destruct (getResourceWrapper _ _ _) as [r d]. destruct HR as [-> _]. reflexivity.
Defined.

(** Adding a resource under a new name extends the names that readers
    see by exactly that name, and leaves the map they were reading as it was;
    the invariant that this needs is kept as long as names are new.  Adding
    again under a name in use breaks it: after the next addition of any other
    resource the name refers to the older resource again. *)
Theorem manager_add {R} `{IResource R} (m : DynamicResourceManager R) :
  dm_wf m →
  (∀ c t t1 t2 name res flush m', active m !! name = None →
    addDynamicResource c t t1 t2 name res flush m = (Some true, m') →
    dm_wf m' ∧ inactive m' = active m ∧ delete name (active m') = active m ∧
    is_Some (active m' !! name)) ∧
  (∀ c t t1 t2 c' t' t1' t2' name name' res res' flush flush' p m' m'',
    active m !! name = Some p → name' ≠ name →
    addDynamicResource c t t1 t2 name res flush m = (Some true, m') →
    addDynamicResource c' t' t1' t2' name' res' flush' m' = (Some true, m'') →
    active m' !! name ≠ Some p ∧ active m'' !! name = Some p).
Proof.
  intros [Hsub Hobj]. split.
  - intros c t t1 t2 name res flush m' Hn E.
    destruct (add_maps _ _ _ _ _ _ _ _ _ E) as (p & Hp & Hp' & Hq & Hi & Ha).
    assert (delete name (inactive m) ∪ delete name (active m) = active m) as Hu.
    { rewrite <-delete_union, delete_id.
      - apply map_eq. intros k. rewrite lookup_union. specialize (Hsub k).
        by destruct (inactive m !! k), (active m !! k); simplify_eq/=.
      - rewrite lookup_union_None. split; [|done]. by eapply lookup_weaken_None. }
    rewrite Hu in Ha. split; [split|split_and!].
    + rewrite Hi, Ha. by apply insert_subseteq.
    + intros name' q. rewrite Ha. intros [[_ <-]|[_ E']]%lookup_insert_Some; [done|].
      destruct (decide (q = p)) as [->|?]; [done|]. rewrite Hq by done. eauto.
    + done.
    + by rewrite Ha, delete_insert_id.
    + rewrite Ha, lookup_insert_eq. eauto.
  - intros c t t1 t2 c' t' t1' t2' name name' res res' flush flush' p m' m'' Hold Hne E E'.
    destruct (add_maps _ _ _ _ _ _ _ _ _ E) as (q & Hq & _ & _ & Hi & Ha).
    destruct (add_maps _ _ _ _ _ _ _ _ _ E') as (q' & _ & _ & _ & _ & Ha'). split.
    + rewrite Ha, lookup_insert_eq. intros [= ->]. destruct (Hobj _ _ Hold). congruence.
    + rewrite Ha', lookup_insert_ne, lookup_union, lookup_delete_ne, Hi, Hold by done.
      by rewrite union_Some_l.
Qed.

Lemma manager_add_witness :
  is_Some (active (snd (addDynamicResource (R := Z) 0 0 0 0 "a" 0 1
    (DynamicResourceManager_new 0))) !! "a").
Proof.
  destruct (manager_add (R := Z) (DynamicResourceManager_new 0)) as [HF _].
  - split; [reflexivity|]. intros name p. unfold active. simpl. rewrite lookup_empty. discriminate.
  - eapply (HF 0 0 0 0 "a" 0 1); [reflexivity|]. vm_compute. reflexivity.
Defined.
