(* ===== verification/Mains.v ===== *)
(** * Mains: src/service/{ps_main,router_main}.cc with
    src/service/ps/{ps_register,brpc_server}.{h,cc} and
    src/service/router/{router_register,router_server}.{h,cc}

    The start of the two processes.  The results of brpc's and braft's calls are
    arguments; a thread that is started in the background runs to its end where
    its creator waits for it. *)
From S2P Require Import Prelude StdMap Numeric Bytes OwmrMap Common Dto Files Engine Wire RaftStore Config Http PsMeta PsRpc RaftClient Partition LocalSpaces EtcdMsg EtcdClient SpaceManager RouterRpc.
Local Open Scope Z_scope.

(** ** Servers *)

(** [BrpcServer::Start]: the results of adding the two services and braft's,
    and of starting. *)
Definition BrpcServer_Start (add_ps add_raft add_braft start : Z) : string :=
  if negb (add_ps =? 0) then "Fail to add PsRpcImpl service"
  else if negb (add_raft =? 0) then "Fail to add RaftRpcImpl"
  else if negb (add_braft =? 0) then "Fail to add raft service"
  else if negb (start =? 0) then "Fail to start PrRpcImpl Server"
  else "".

(** What a server does when it is asked to quit, in order. *)
Inductive StopAction := ShutdownBlock | StopServer | JoinBlock | JoinServer.

Definition BrpcServer_WaitBrpcStop (has_block : bool) : list StopAction :=
  (if has_block then [ShutdownBlock] else []) ++ [StopServer] ++
  (if has_block then [JoinBlock] else []) ++ [JoinServer].

(** [RouterServer::Start] returns [-1] and [0] as [bool]. *)
Definition int_to_bool (z : Z) : bool := negb (z =? 0).
Definition RouterServer_Start (add_space add_doc start : Z) : bool :=
  if negb (add_space =? 0) then int_to_bool (-1)
  else if negb (add_doc =? 0) then int_to_bool (-1)
  else if negb (start =? 0) then int_to_bool (-1)
  else int_to_bool 0.

Definition RouterServer_WaitBrpcStop : list StopAction := [StopServer; JoinServer].

(** ** Registration of a partition server *)

Record RegisterRequest := mkRegisterRequest {
  re_ip : option string; re_port : option Z; re_id : option Z
}.
Record RegisterResponse := mkRegisterResponse {
  rs_code : option Z; rs_msg : option string; rs_register_key : option string
}.

Record PsRegister := mkPsRegister {
  ps_etcd_cli : EtcdClient;
  psr_ip : string; psr_port : Z; psr_id : Z;
  psr_node_K : string; psr_node_V : string
}.

Section ps_register.
Context `{EtcdNet}.

Definition PsRegister_Init (masters : list (string * Z)) (ip : string) (port id : Z)
    (p : PsRegister) (net : ENet) : Z * PsRegister * ENet :=
  let '(ok, cli, net) := EtcdClient_Init masters "rr" (ps_etcd_cli p) net in
  let p := mkPsRegister cli ip port id (psr_node_K p) (to_string port) in
  if negb ok then (-1, p, net) else (0, p, net).

Context `{JsonCodec RegisterRequest} `{JsonCodec RegisterResponse}.

(** The key of a registration the master accepted. *)
Definition accepted (r : option RegisterResponse) : option string :=
  match r with
  | Some resp => if default 0 (rs_code resp) =? 0 then Some (default "" (rs_register_key resp))
                 else None
  | None => None
  end.

(** The loop of [LaunchRegisterImpl], [n] rounds of it; round [i] meets the
    network [nets i] and draws [raws i].  [inl code] is the early return,
    [inr (Some key)] the end of the loop, and [inr None] a loop that is still
    waiting; the outer [None] is the access outside of the list of masters. *)
Fixpoint register_loop (n i : nat) (nets : nat → HttpNet) (raws : nat → Z)
    (master_urls : list string) (has_space : bool) (req : RegisterRequest) :
    option (Z + option string) :=
  match n with
  | O => Some (inr None)
  | S n' =>
      r ← @HttpPost (nets i) _ _ _ _ (raws i) master_urls "/api/register" req
            (length master_urls * 2);
      match accepted r with
      | Some key => Some (inr (Some key))
      | None =>
          if negb has_space then Some (inl (-100))
          else register_loop n' (S i) nets raws master_urls has_space req
      end
  end.

(** [LaunchRegister] with its thread run for up to [n] rounds after the first.
    Only a node with a space waits for more than one, and its caller gets 0
    without waiting.  The result is the return code and the arguments of the
    keep-alive thread, when it is started; [bret] is the result of starting
    it. *)
Definition LaunchRegister (n : nat) (nets : nat → HttpNet) (raws : nat → Z) (bret : Z)
    (c : TomlConfig) (has_space : bool) (p : PsRegister) :
    option (Z * option KeepAliveArgs * PsRegister) :=
  let req := mkRegisterRequest (Some (psr_ip p)) (Some (psr_port p)) (Some (psr_id p)) in
  r ← register_loop (S n) 0 nets raws (tc_master_urls c) has_space req;
  match r with
  | inl code => Some (code, None, p)
  | inr None => Some (0, None, p)
  | inr (Some key) =>
      let '(code, cli, ka) := RegisterNodeWithKeepAlive bret key (psr_node_V p)
        (ps_hearbeat_interval_s (tc_ps c)) (ps_etcd_cli p) in
      Some (if has_space then 0 else code, ka,
            mkPsRegister cli (psr_ip p) (psr_port p) (psr_id p) key (psr_node_V p))
  end.

End ps_register.

(** ** The partition server's process *)

Section ps_main.
Context `{EtcdNet} `{FileUtil} `{StartEnv} `{GammaAdmin} `{JsonCodec PsNodeInfo}
  `{JsonCodec CreateSpaceRequest} `{HttpNet} `{JsonCodec MasterGenIdRequest}
  `{JsonCodec MasterGenIdResponse} `{JsonCodec RegisterRequest} `{JsonCodec RegisterResponse}.

(** [main] after the configuration: the exit code of a start that fails, or the
    node with its registration and what runs when it stops. *)
Definition ps_main (raw : Z) (g : Conf) (brpc_start : string)
    (gamma_load : GammaState → Z * GammaState) (gamma : GammaState) (fs : Fs)
    (rounds : nat) (nets : nat → HttpNet) (raws : nat → Z) (bret : Z) (p : PsRegister)
    (net : ENet) : option (Z + PsNode * PsRegister * option KeepAliveArgs * list StopAction) :=
  b ← ps_boot raw g brpc_start gamma_load gamma fs;
  match b with
  | inl code => Some (inl code)
  | inr n =>
      let mata := n_mata n in
      let '(_, p, net) := PsRegister_Init (GetMasterIpPorts (toml_conf_ g)) (Mata_IP mata)
        (Mata_Port mata) (Mata_Id mata) p net in
      '(code, ka, p) ← LaunchRegister rounds nets raws bret (toml_conf_ g) (HasSpace mata) p;
      if code =? 0 then
        Some (inr (n, p, ka, BrpcServer_WaitBrpcStop (bool_decide (is_Some (n_mgr n)))))
      else
        let '(_, mata, fs) := DeleteNodeInfo mata (n_fs n) in
        Some (inr (mkPsNode mata (n_mgr n) (n_gamma n) fs, p, ka, []))
  end.

End ps_main.

(** ** The router's process *)

Record RouterRegister := mkRouterRegister {
  rr_etcd_cli : EtcdClient;
  rr_ip : string; rr_port : Z; rr_node_K : string; rr_node_V : string
}.

Definition RouterRegister_Init `{EtcdNet} (masters : list (string * Z)) (ip : string) (port : Z)
    (p : RouterRegister) (net : ENet) : Z * RouterRegister * ENet :=
  let '(ok, cli, net) := EtcdClient_Init masters "rr" (rr_etcd_cli p) net in
  let p := mkRouterRegister cli ip port (GenRouterNodeKey ip port) (to_string port) in
  if negb ok then (-1, p, net) else (0, p, net).

Definition RouterRegister_LaunchRegister (bret : Z) (c : TomlConfig) (p : RouterRegister) :
    option KeepAliveArgs * RouterRegister :=
  let '(_, cli, ka) := RegisterNodeWithKeepAlive bret (rr_node_K p) (rr_node_V p)
    (rt_hearbeat_interval_s (tc_router c)) (rr_etcd_cli p) in
  (ka, mkRouterRegister cli (rr_ip p) (rr_port p) (rr_node_K p) (rr_node_V p)).

Section router_main.
Context {M : Type} `{IndexMap M} `{PsNet} `{WireCodec Document} `{JsonCodec (list Space)}
  `{EtcdNet} `{JsonCodec RangeRequest} `{JsonInto RangeResponse} `{SpaceJson} `{FileUtil}.

(** [main] after the configuration. *)
Definition router_main (raw : Z) (g : Conf) (start_results : Z * Z * Z) (bret : Z)
    (p : RouterRegister) (r : Router M Net) (net : ENet) :
    option (Z + Router M Net * RouterRegister * option KeepAliveArgs * ENet) :=
  let '(_, l, fs) :=
    LocalSpaces_Init (_router_store_dir g) "local_spaces.json" (rt_local r) (rt_fs r) in
  let r := set_local l fs r in
  let '(_, p, net) := RouterRegister_Init (GetMasterIpPorts (toml_conf_ g)) (_cur_IP g)
    (rt_port (tc_router (toml_conf_ g))) p net in
  let '(a, b, s) := start_results in
  if RouterServer_Start a b s then Some (inl (-1))
  else
    '(msg, r, net) ← SpaceManager_Init raw 1000 (rr_etcd_cli p) net r;
    if failed msg then Some (inl (-1))
    else
      let '(ka, p) := RouterRegister_LaunchRegister bret (toml_conf_ g) p in
      Some (inr (r, p, ka, net)).

End router_main.

(** ** Lemmas *)

Section register_lemmas.
Context `{JsonCodec RegisterRequest} `{JsonCodec RegisterResponse}.

(** The answer of round [i]. *)
Definition round (nets : nat → HttpNet) (raws : nat → Z) (urls : list string)
    (req : RegisterRequest) (i : nat) : option (option RegisterResponse) :=
  @HttpPost (nets i) _ _ _ _ (raws i) urls "/api/register" req (length urls * 2).

Lemma register_loop_accepts nets raws urls req n i k r key :
  (k < n)%nat → round nets raws urls req (i + k) = Some r → accepted r = Some key →
  (∀ j, (j < k)%nat → ∃ r', round nets raws urls req (i + j) = Some r' ∧ accepted r' = None) →
  register_loop n i nets raws urls true req = Some (inr (Some key)).
Proof.
  revert i k. induction n as [|n IH]; intros i k Hk Hr Ha Hj; [lia|]. cbn [register_loop].
  fold (round nets raws urls req i). destruct k as [|k].
  - rewrite Nat.add_0_r in Hr. rewrite Hr. cbn [mbind option_bind]. by rewrite Ha.
  - destruct (Hj 0%nat) as (r' & Hr' & Ha'); [lia|]. rewrite Nat.add_0_r in Hr'.
    rewrite Hr'. cbn [mbind option_bind]. rewrite Ha'. simpl.
    apply (IH (S i) k); [lia| |done|].
    + by rewrite Nat.add_succ_comm.
    + intros j Hlt. rewrite Nat.add_succ_comm. apply Hj. lia.
Qed.

End register_lemmas.

(** ** Properties *)

(** Registration with the master: a node without a space asks once, and
    either starts to keep the key the master gave it alive or gets the error
    -100; a node with a space starts without waiting, and the key of the first
    round that the master accepts is kept alive, however many rounds failed
    before. *)
Theorem LaunchRegister_registers `{JsonCodec RegisterRequest} `{JsonCodec RegisterResponse}
    (nets : nat → HttpNet) (raws : nat → Z) (c : TomlConfig) (p : PsRegister) (k n : nat)
    (r : option RegisterResponse) :
  let req := mkRegisterRequest (Some (psr_ip p)) (Some (psr_port p)) (Some (psr_id p)) in
  let round := round nets raws (tc_master_urls c) req in
  round k = Some r →
  (∀ j, (j < k)%nat → ∃ r', round j = Some r' ∧ accepted r' = None) → (k ≤ n)%nat →
  (k = 0%nat → accepted r = None →
    LaunchRegister n nets raws 0 c false p = Some (-100, None, p)) ∧
  (∀ key has_space, accepted r = Some key → (has_space = true ∨ k = 0%nat) →
    ∃ cli p', LaunchRegister n nets raws 0 c has_space p =
      Some (0, Some (mkKeepAliveArgs cli key (psr_node_V p) (ps_hearbeat_interval_s (tc_ps c))), p') ∧
      psr_node_K p' = key ∧ _chan_list cli = _chan_list (ps_etcd_cli p)).
Proof.
  intros req rnd Hr Hj Hn. unfold LaunchRegister. fold req. split.
  - intros -> Ha. cbn [register_loop]. fold (Mains.round nets raws (tc_master_urls c) req 0).
    fold rnd. rewrite Hr. cbn [mbind option_bind]. by rewrite Ha.
  - intros key has_space Ha Hs.
    assert (register_loop (S n) 0 nets raws (tc_master_urls c) has_space req =
      Some (inr (Some key))) as ->.
    { destruct Hs as [-> | ->]; [by apply (register_loop_accepts _ _ _ _ _ _ k r); [lia|..]|].
      cbn [register_loop]. fold (Mains.round nets raws (tc_master_urls c) req 0). fold rnd.
      rewrite Hr. cbn [mbind option_bind]. by rewrite Ha. }
    cbn [mbind option_bind]. simpl. do 2 eexists. split; [by destruct has_space|]. done.
Qed.

(** A master that is down in the first round. *)
Definition late_master (i : nat) : HttpNet :=
  Build_HttpNet (λ _ _, true) (λ _ _ _ _, if (i =? 0)%nat then None else Some "ok").
Definition req_json : JsonCodec RegisterRequest := {|
  ProtoMessageToJson _ := Some "req"; JsonToProtoMessage _ := None
|}.
Definition resp_json : JsonCodec RegisterResponse := {|
  ProtoMessageToJson _ := None;
  JsonToProtoMessage _ := Some (mkRegisterResponse (Some 0) None (Some "/nodes/ps/:h:1:7"))
|}.
Definition one_master : TomlConfig :=
  mkTomlConfig (mkGlobalConfig "" [] "" "" false) [] (mkRouterConfig 0 false 0)
    (mkPsConfig 1 0 0 3) ["m:80"].
Definition new_register : PsRegister :=
  mkPsRegister (mkEtcdClient [Some "e"] 1 false) "h" 1 7 "" "1".

Lemma LaunchRegister_registers_witness :
  ∃ cli p', @LaunchRegister req_json resp_json 3 late_master (λ _, 0) 0 one_master true
      new_register = Some (0, Some (mkKeepAliveArgs cli "/nodes/ps/:h:1:7" "1" 3), p').
Proof.
  destruct (@LaunchRegister_registers req_json resp_json late_master (λ _, 0) one_master
    new_register 1 3 (Some (mkRegisterResponse (Some 0) None (Some "/nodes/ps/:h:1:7"))))
    as [_ HR].
  - vm_compute. reflexivity.
  - intros j Hj. assert (j = 0%nat) as -> by lia. exists None. split; vm_compute; reflexivity.
  - lia.
  - destruct (HR "/nodes/ps/:h:1:7" true eq_refl (or_introl eq_refl)) as (cli & p' & E & _).
    exists cli, p'. exact E.
Defined.
