(* ===== verification/GoStd.v ===== *)
(** * GoStd: the parts of the Go standard library that the master uses

    [strings.Split] with a separator of one byte, [strconv.ParseInt],
    [strconv.Atoi], [strconv.Itoa] ([to_string] of the prelude), and the
    division of a string into UTF-8 sequences that [encoding/json] relies on.
    A Go [int] is 64 bits wide; a nil slice is [None] and a slice with elements
    or an empty one is [Some]. *)
From Stdlib Require Import Ascii.
From S2P Require Import Prelude Numeric Common.
Local Open Scope Z_scope.

(** ** Slices *)

Definition slice (A : Type) : Type := option (list A).
(** The elements a [range] loop visits, and [append] of one element. *)
Definition elems {A} (s : slice A) : list A := default [] s.
Definition append1 {A} (s : slice A) (x : A) : slice A := Some (elems s ++ [x]).

(** ** strings.Split *)

Fixpoint Split (s : string) (sep : ascii) : list string :=
  match s with
  | EmptyString => [""]
  | String c t =>
      if Ascii.eqb c sep then "" :: Split t sep
      else match Split t sep with
           | [] => [String c ""]
           | p :: ps => String c p :: ps
           end
  end.

(** ** strconv *)

Inductive NumError := ErrSyntax | ErrRange.

Definition maxUint64 : Z := 2 ^ 64 - 1.
(** [maxUint64/base + 1]: the smallest number whose product with 10 overflows. *)
Definition uint_cutoff : Z := maxUint64 `div` 10 + 1.

(** The loop of [strconv.ParseUint] with base 10. *)
Fixpoint parse_uint_loop (s : string) (n : Z) : Z * option NumError :=
  match s with
  | EmptyString => (n, None)
  | String c t =>
      if is_digit c then
        if uint_cutoff <=? n then (maxUint64, Some ErrRange)
        else
          let n1 := n * 10 + digit_value c in
          if maxUint64 <? n1 then (maxUint64, Some ErrRange) else parse_uint_loop t n1
      else (0, Some ErrSyntax)
  end.

Definition ParseUint (s : string) : Z * option NumError :=
  if bool_decide (s = "") then (0, Some ErrSyntax) else parse_uint_loop s 0.

(** [strconv.ParseInt(s, 10, 64)] *)
Definition ParseInt (s : string) : Z * option NumError :=
  if bool_decide (s = "") then (0, Some ErrSyntax)
  else
    let '(neg, _, s') := scan_sign s in
    match ParseUint s' with
    | (_, Some ErrSyntax) => (0, Some ErrSyntax)
    | (un, _) =>
        if negb neg && (2 ^ 63 <=? un) then (2 ^ 63 - 1, Some ErrRange)
        else if (neg : bool) && (2 ^ 63 <? un) then (- 2 ^ 63, Some ErrRange)
        else (if neg : bool then - un else un, None)
    end.

(** [strconv.Atoi], of which the code uses the value and drops the error. *)
Definition Atoi (s : string) : Z := fst (ParseInt s).

(** ** UTF-8

    The sequences [utf8.DecodeRuneInString] steps through: a byte below 128, a
    well-formed sequence of two to four bytes, or one byte of an ill-formed
    one. *)

Definition byte_in (lo hi : N) (c : ascii) : bool :=
  (lo <=? N_of_ascii c)%N && (N_of_ascii c <=? hi)%N.
Definition is_cont : ascii → bool := byte_in 128 191.
Definition is_ascii : ascii → bool := byte_in 0 127.

Definition lead2 (a b : ascii) : bool := byte_in 194 223 a && is_cont b.
Definition lead3 (a b : ascii) : bool :=
  (byte_in 224 224 a && byte_in 160 191 b) ||
  ((byte_in 225 236 a || byte_in 238 239 a) && is_cont b) ||
  (byte_in 237 237 a && byte_in 128 159 b).
Definition lead4 (a b : ascii) : bool :=
  (byte_in 240 240 a && byte_in 144 191 b) ||
  (byte_in 241 243 a && is_cont b) ||
  (byte_in 244 244 a && byte_in 128 143 b).

Inductive chunk :=
  | CAscii (a : ascii)
  | CSeq2 (a b : ascii)
  | CSeq3 (a b c : ascii)
  | CSeq4 (a b c d : ascii)
  | CBad (a : ascii).

Fixpoint chunks (s : string) : list chunk :=
  match s with
  | EmptyString => []
  | String a s1 =>
      if is_ascii a then CAscii a :: chunks s1
      else match s1 with
      | EmptyString => [CBad a]
      | String b s2 =>
          if lead2 a b then CSeq2 a b :: chunks s2
          else match s2 with
          | EmptyString => CBad a :: chunks s1
          | String c s3 =>
              if lead3 a b && is_cont c then CSeq3 a b c :: chunks s3
              else match s3 with
              | EmptyString => CBad a :: chunks s1
              | String d s4 =>
                  if lead4 a b && is_cont c && is_cont d
                  then CSeq4 a b c d :: chunks s4 else CBad a :: chunks s1
              end
          end
      end
  end.

(** The bytes of a sequence. *)
Definition chunk_bytes (k : chunk) : string :=
  match k with
  | CAscii a | CBad a => String a ""
  | CSeq2 a b => String a (String b "")
  | CSeq3 a b c => String a (String b (String c ""))
  | CSeq4 a b c d => String a (String b (String c (String d "")))
  end.

Definition chunk_ok (k : chunk) : bool :=
  match k with
  | CAscii a => is_ascii a
  | CSeq2 a b => lead2 a b
  | CSeq3 a b c => lead3 a b && is_cont c
  | CSeq4 a b c d => lead4 a b && is_cont c && is_cont d
  | CBad _ => false
  end.

(** [utf8.ValidString] *)
Definition utf8_valid (s : string) : bool := forallb chunk_ok (chunks s).

Definition concat_bytes (l : list string) : string := foldr String.append "" l.

(** ** Lemmas *)

Lemma Split_no_sep s sep : no_char sep s → Split s sep = [s].
Proof.
  unfold no_char. induction s as [|c s IH]; simpl; [done|].
  intros [Hc Hs]%andb_prop. apply negb_true_iff in Hc. by rewrite Hc, IH.
Qed.

Lemma Split_sep s t sep :
  no_char sep s → Split (s +:+ String sep t) sep = s :: Split t sep.
Proof.
  unfold no_char. induction s as [|c s IH]; rewrite ?append_nil_l, ?append_cons; simpl.
  - by rewrite Ascii.eqb_refl.
  - intros [Hc Hs]%andb_prop. apply negb_true_iff in Hc. by rewrite Hc, IH.
Qed.

Lemma decimal_nonneg ds : str_forall is_digit ds = true → 0 ≤ decimal ds.
Proof.
  induction ds as [|c ds IH]; simpl; [lia|]. intros [Hc Hd]%andb_prop.
  assert (0 ≤ digit_value c).
  { unfold is_digit in Hc. unfold digit_value. apply andb_prop in Hc as [H1 _].
    apply N.leb_le in H1. lia. }
  specialize (IH Hd). nia.
Qed.

Lemma parse_uint_digits ds n :
  0 ≤ n → str_forall is_digit ds = true →
  n * 10 ^ Z.of_nat (String.length ds) + decimal ds ≤ maxUint64 →
  parse_uint_loop ds n = (n * 10 ^ Z.of_nat (String.length ds) + decimal ds, None).
Proof.
  revert n. induction ds as [|c ds IH]; intros n Hn; cbn [parse_uint_loop str_forall decimal String.length].
  - intros _ _. f_equal. lia.
  - intros [Hc Hd]%andb_prop Hle. rewrite Hc.
    rewrite Nat2Z.inj_succ, Z.pow_succ_r in * by lia.
    pose proof (decimal_nonneg _ Hd) as Hp.
    assert (0 ≤ digit_value c) as Hv.
    { unfold is_digit in Hc. unfold digit_value. apply andb_prop in Hc as [H1 _].
      apply N.leb_le in H1. lia. }
    assert (1 ≤ 10 ^ Z.of_nat (String.length ds)) as H1 by lia.
    assert (n * 10 + digit_value c ≤ maxUint64) as Hs by nia.
    assert (n < uint_cutoff) as Hcut.
    { change uint_cutoff with 1844674407370955162.
      change maxUint64 with 18446744073709551615 in Hs. lia. }
    rewrite (proj2 (Z.leb_gt _ _) Hcut), (proj2 (Z.ltb_ge _ _) Hs).
    rewrite IH by (done || nia). f_equal. ring.
Qed.

Lemma ParseUint_pretty (p : positive) :
  Zpos p ≤ maxUint64 → ParseUint (pretty (Npos p)) = (Zpos p, None).
Proof.
  intros Hp. destruct (pretty_N_decimal (Npos p)) as (Hd & Hv & Hne). unfold ParseUint.
  rewrite bool_decide_eq_false_2 by done.
  rewrite parse_uint_digits; rewrite ?Hv; try done; lia.
Qed.

(** [strconv.ParseInt(strconv.FormatInt(z, 10), 10, 64)] *)
Lemma ParseInt_to_string z : in_int64 z → ParseInt (to_string z) = (z, None).
Proof.
  unfold in_int64. intros Hz. unfold to_string. destruct z as [|p|p]; [done|..].
  - assert (pretty (Zpos p) = pretty (Npos p)) as E by done. rewrite E.
    destruct (pretty_N_decimal (Npos p)) as (Hd & _ & Hne).
    unfold ParseInt. rewrite bool_decide_eq_false_2 by done.
    assert (scan_sign (pretty (Npos p)) = (false, O, pretty (Npos p))) as ->.
    { destruct (pretty (Npos p)) as [|c t]; [done|]. simpl in Hd |- *.
      apply andb_prop in Hd as [Hc _]. destruct (digit_not_sign _ Hc) as [-> ->]. done. }
    rewrite ParseUint_pretty by (unfold maxUint64; lia). cbn [negb andb].
    by rewrite (proj2 (Z.leb_gt _ _)) by lia.
  - assert (pretty (Zneg p) = String "-" (pretty (Npos p))) as E by done. rewrite E.
    unfold ParseInt. cbn [bool_decide decide_rel].
    change (scan_sign (String "-" (pretty (N.pos p)))) with (true, 1%nat, pretty (N.pos p)).
    rewrite bool_decide_eq_false_2 by done.
    rewrite ParseUint_pretty by (unfold maxUint64; lia). cbn [negb andb].
    by rewrite (proj2 (Z.ltb_ge _ _)) by lia.
Qed.

Lemma Atoi_to_string z : in_int64 z → Atoi (to_string z) = z.
Proof. intros Hz. unfold Atoi. by rewrite ParseInt_to_string. Qed.

Lemma chunks_ok_app k t : chunk_ok k = true → chunks (chunk_bytes k +:+ t) = k :: chunks t.
Proof.
  destruct k as [a|a b|a b c|a b c d|a]; cbn [chunk_ok chunk_bytes]; intros H;
    rewrite ?append_cons, ?append_nil_l; cbn [chunks]; [by rewrite H|..|done].
  - assert (is_ascii a = false) as -> by (unfold lead2 in H;
      destruct a as [[] [] [] [] [] [] [] []]; try done). by rewrite H.
  - assert (is_ascii a = false ∧ lead2 a b = false) as [-> ->].
    { apply andb_prop in H as [H _]. revert H. unfold lead3, lead2.
      destruct a as [[] [] [] [] [] [] [] []]; try done. }
    by rewrite H.
  - assert (is_ascii a = false ∧ lead2 a b = false ∧ lead3 a b = false) as (-> & -> & ->).
    { apply andb_prop in H as [[H _]%andb_prop _]. revert H. unfold lead4, lead3, lead2.
      destruct a as [[] [] [] [] [] [] [] []]; try done. }
    by rewrite H.
Qed.

(** Every string that is not empty starts with a well-formed sequence or with a
    byte that is reported as ill-formed. *)
Lemma chunks_cons a s :
  (∃ k t, String a s = chunk_bytes k +:+ t ∧ chunk_ok k = true) ∨
  (∃ l, chunks (String a s) = CBad a :: l).
Proof.
  cbn [chunks]. destruct (is_ascii a) eqn:Ha.
  { left. by exists (CAscii a), s. }
  destruct s as [|b s]; [by right; exists []|].
  destruct (lead2 a b) eqn:H2.
  { left. by exists (CSeq2 a b), s. }
  destruct s as [|c s]; [by right; eexists|].
  destruct (lead3 a b && is_cont c) eqn:H3.
  { left. by exists (CSeq3 a b c), s. }
  destruct s as [|d s]; [by right; eexists|].
  destruct (lead4 a b && is_cont c && is_cont d) eqn:H4; [|by right; eexists].
  left. by exists (CSeq4 a b c d), s.
Qed.

Lemma utf8_ind (P : string → Prop) :
  P "" →
  (∀ k t, chunk_ok k = true → utf8_valid t = true → P t → P (chunk_bytes k +:+ t)) →
  ∀ s, utf8_valid s = true → P s.
Proof.
  intros H0 HS s. remember (String.length s) as n eqn:En.
  revert s En. induction (Nat.lt_wf_0 n) as [n _ IH]. intros [|a s] -> Hv; [done|].
  destruct (chunks_cons a s) as [(k & t & E & Hk)|[l E]].
  - rewrite E in *. unfold utf8_valid in Hv. rewrite chunks_ok_app in Hv by done.
    simpl in Hv. apply andb_prop in Hv as [_ Hv]. apply HS; [done..|].
    eapply IH; [|reflexivity|done].
    rewrite length_append. destruct k; simpl; lia.
  - unfold utf8_valid in Hv. rewrite E in Hv. done.
Qed.

Lemma utf8_valid_cons k t :
  chunk_ok k = true → utf8_valid (chunk_bytes k +:+ t) = utf8_valid t.
Proof. intros Hk. unfold utf8_valid. rewrite chunks_ok_app by done. simpl. by rewrite Hk. Qed.

Lemma utf8_valid_app s t :
  utf8_valid s = true → utf8_valid t = true → utf8_valid (s +:+ t) = true.
Proof.
  intros Hs Ht. revert s Hs. apply utf8_ind; [done|].
  intros k u Hk _ IH. rewrite append_assoc. by rewrite utf8_valid_cons.
Qed.

Lemma ascii_valid s : str_forall is_ascii s = true → utf8_valid s = true.
Proof.
  induction s as [|a s IH]; simpl; [done|]. intros [Ha Hs]%andb_prop.
  rewrite <-(append_nil_l s). change (String a ("" +:+ s)) with (chunk_bytes (CAscii a) +:+ s).
  rewrite utf8_valid_cons by done. by apply IH.
Qed.

Lemma to_string_ascii z : str_forall is_ascii (to_string z) = true.
Proof.
  assert (∀ s, str_forall is_digit s = true → str_forall is_ascii s = true) as HD.
  { intros s. apply str_forall_impl. intros [[] [] [] [] [] [] [] []]; done. }
  unfold to_string. destruct z as [|p|p]; [done|..];
    destruct (pretty_N_decimal (Npos p)) as (Hd & _); [by apply HD|].
  change (pretty (Zneg p)) with (String "-" (pretty (Npos p))). by apply HD in Hd.
Qed.
