(* ===== verification/Log.v ===== *)
(** * Log: src/utils/log.cc

    The settings of the logging library, and the command that puts a full log
    file aside.  The library is outside: a configuration is the list of the
    settings made on it, and a command is a string that is given to a shell,
    which splits it at spaces. *)
From Stdlib Require Import Ascii.
From S2P Require Import Prelude Numeric Common GoStd.
Local Open Scope Z_scope.

Inductive ConfigurationType := Format | ToFile | ToStandardOutput | MaxLogFileSize | Filename.

#[export] Instance ConfigurationType_eq_dec : EqDecision ConfigurationType.
Proof. solve_decision. Defined.

(** The settings for all levels, the latest first. *)
Definition Configurations : Type := list (ConfigurationType * string).
Definition setGlobally (t : ConfigurationType) (v : string) (c : Configurations) : Configurations :=
  (t, v) :: c.

(** The library: its flags, the configurations of its loggers, whether the
    callback for full files is installed, and the lines logged. *)
Record Logging := mkLogging {
  lg_flags : list string; lg_loggers : list (string * Configurations);
  lg_callback : bool; lg_lines : list string
}.

(** [debug]: the macro DEBUG_. *)
Definition SetLogConfig (debug : bool) (log_dir log_name : string) (st : Logging) : Z * Logging :=
  let dir := log_dir in
  let conf := setGlobally Format "%datetime [%level] %fbase:%line %msg" [] in
  let conf := setGlobally ToFile "true" conf in
  let conf := setGlobally ToStandardOutput (if debug then "true" else "false") conf in
  let conf := setGlobally MaxLogFileSize "209715200" conf in
  let full_log_path := dir +:+ "/" +:+ log_name +:+ ".log" in
  let conf := setGlobally Filename full_log_path conf in
  (0, mkLogging ("StrictLogFileSizeCheck" :: lg_flags st) (("default", conf) :: lg_loggers st) true
        (lg_lines st ++ ["easylogging initialized with log file: " +:+ full_log_path])).

(** The callback: what it prints, and the command it runs.  [strftime] is the
    formatted time; [None] is the read of the buffer that was not written. *)
Definition PreRollOut (strftime : option string) (filename : string) (size : Z)
    : option (list string * string) :=
  mbstr ← strftime;
  Some (["************** Rolling out [" +:+ filename +:+ "] because it reached [" +:+
           to_string size +:+ " bytes]"; mbstr],
        "mv " +:+ filename +:+ " " +:+ filename +:+ "-" +:+ mbstr).

(** ** Specification *)

(** The value of a setting. *)
Definition setting (t : ConfigurationType) (c : Configurations) : option string :=
  snd <$> List.find (λ x, bool_decide (x.1 = t)) c.

(** ** Properties *)

(** A process logs to its own file: all levels go to the file of the given name
    in the given directory, files of 200 MB are rolled out, and nothing goes to
    the standard output unless the program is built for debugging. *)
Theorem SetLogConfig_file (debug : bool) (log_dir log_name : string) (st : Logging) :
  ∃ conf, (SetLogConfig debug log_dir log_name st).1 = 0 ∧
    head (lg_loggers (SetLogConfig debug log_dir log_name st).2) = Some ("default", conf) ∧
    setting Filename conf = Some (log_dir +:+ "/" +:+ log_name +:+ ".log") ∧
    setting MaxLogFileSize conf = Some (to_string (200 * 1024 * 1024)) ∧
    setting ToStandardOutput conf = Some (if debug then "true" else "false").
Proof. eexists. split_and!; reflexivity. Qed.

(** A full file is moved aside: if its name has no spaces, the command has the
    file and the file with the time as its two operands.  (With a space in the
    directory of the logs there are more operands, since the name is not
    quoted.) *)
Theorem PreRollOut_moves (time filename : string) (size : Z) :
  no_char " " time → no_char " " filename →
  ∃ lines command, PreRollOut (Some time) filename size = Some (lines, command) ∧
    Split command " " = ["mv"; filename; filename +:+ "-" +:+ time].
Proof.
  intros Ht Hf. do 2 eexists. split; [done|].
  change ("mv " +:+ ?x) with ("mv" +:+ String " " x). rewrite Split_sep by done.
  change (" " +:+ ?x) with (String " " x). rewrite Split_sep by done.
  rewrite Split_no_sep; [done|]. unfold no_char in *. by rewrite !str_forall_app, Hf, Ht.
Qed.

Lemma PreRollOut_moves_witness :
  Split "mv /l/ps.log /l/ps.log-2024-01-01-10:00:00" " " =
    ["mv"; "/l/ps.log"; "/l/ps.log-2024-01-01-10:00:00"].
Proof.
  destruct (PreRollOut_moves "2024-01-01-10:00:00" "/l/ps.log" 209715200)
    as (lines & command & [= _ <-] & E); [reflexivity..|]. exact E.
Defined.

(** A directory with a space. *)
Lemma PreRollOut_space : ∃ lines command,
  PreRollOut (Some "t") "/my logs/ps.log" 1 = Some (lines, command) ∧
  length (Split command " ") = 5%nat.
Proof. do 2 eexists. split; [reflexivity|]. vm_compute. reflexivity. Qed.
