(* ===== verification/GoJson.v ===== *)
(** * GoJson: [encoding/json] as the master uses it

    Values, the compact printer of [json.Marshal] (strings escaped for HTML,
    ill-formed UTF-8 replaced), the parser of [json.Unmarshal] with its limit on
    the nesting, and decoding into strings, integers, slices, pointers and
    structs: a value of a wrong type is skipped and reported, [null] leaves a
    value as it is, names match exactly or else up to case, later members
    overwrite earlier ones.  The main result is that printing and parsing are
    inverse. *)
From Stdlib Require Import Ascii.
From S2P Require Import Prelude Numeric Common GoStd.
Local Open Scope Z_scope.

(** ** Values *)

Inductive json :=
  | JNull
  | JBool (b : bool)
  | JNum (lit : string)
  | JStr (s : string)
  | JArr (l : list json)
  | JObj (m : list (string * json)).

Definition quote_char : ascii := "034".
Definition backslash : ascii := "092".

(** ** json.Marshal *)

Definition hex_digit (n : N) : ascii :=
  if (n <? 10)%N then ascii_of_N (48 + n) else ascii_of_N (87 + n).

(** [\u00xy] *)
Definition hex_escape (a : ascii) : string :=
  String backslash (String "u" (String "0" (String "0"
    (String (hex_digit (N_of_ascii a / 16)) (String (hex_digit (N_of_ascii a mod 16)) ""))))).

Definition escape_pair (a : ascii) : string := String backslash (String a "").

(** The characters below 128 that are not copied. *)
Definition encode_ascii (a : ascii) : string :=
  let n := N_of_ascii a in
  if bool_decide (a = quote_char) || bool_decide (a = backslash) then escape_pair a
  else if (n =? 8)%N then escape_pair "b"
  else if (n =? 12)%N then escape_pair "f"
  else if (n =? 10)%N then escape_pair "n"
  else if (n =? 13)%N then escape_pair "r"
  else if (n =? 9)%N then escape_pair "t"
  else if (n <? 32)%N || bool_decide (a = "<"%char) || bool_decide (a = ">"%char)
          || bool_decide (a = "&"%char) then hex_escape a
  else String a "".

Definition is_byte (n : N) (a : ascii) : bool := (N_of_ascii a =? n)%N.

(** U+2028 and U+2029, the bytes E2 80 A8 and E2 80 A9, are escaped. *)
Definition encode_chunk (k : chunk) : string :=
  match k with
  | CAscii a => encode_ascii a
  | CSeq3 a b c =>
      if is_byte 226 a && is_byte 128 b && is_byte 168 c then escape_pair "u" +:+ "2028"
      else if is_byte 226 a && is_byte 128 b && is_byte 169 c then escape_pair "u" +:+ "2029"
      else chunk_bytes k
  | CBad _ => escape_pair "u" +:+ "fffd"
  | _ => chunk_bytes k
  end.

Definition encode_string (s : string) : string :=
  concat_bytes (List.map encode_chunk (chunks s)).

Definition quoted (s : string) : string :=
  String quote_char (encode_string s +:+ String quote_char "").

Fixpoint join (l : list string) : string :=
  match l with
  | [] => ""
  | [x] => x
  | x :: l' => x +:+ "," +:+ join l'
  end.

Fixpoint print (j : json) : string :=
  match j with
  | JNull => "null"
  | JBool b => if b then "true" else "false"
  | JNum lit => lit
  | JStr s => quoted s
  | JArr l => "[" +:+ join (List.map print l) +:+ "]"
  | JObj m =>
      "{" +:+ join (List.map (λ kv, quoted (fst kv) +:+ ":" +:+ print (snd kv)) m) +:+ "}"
  end.

(** ** Parsing strings *)

Definition hex_value (a : ascii) : option Z :=
  if byte_in 48 57 a then Some (Z.of_N (N_of_ascii a) - 48)
  else if byte_in 97 102 a then Some (Z.of_N (N_of_ascii a) - 87)
  else if byte_in 65 70 a then Some (Z.of_N (N_of_ascii a) - 55)
  else None.

Definition hex4 (a b c d : ascii) : option Z :=
  w ← hex_value a; x ← hex_value b; y ← hex_value c; z ← hex_value d;
  Some (((w * 16 + x) * 16 + y) * 16 + z).

Definition chr (z : Z) : ascii := ascii_of_N (Z.to_N z).

(** [utf8.AppendRune]; surrogates become U+FFFD. *)
Definition utf8_encode (r : Z) : string :=
  if r <? 128 then String (chr r) ""
  else if r <? 2048 then
    String (chr (192 + r `div` 64)) (String (chr (128 + r `mod` 64)) "")
  else if (55296 <=? r) && (r <=? 57343) then
    String (chr 239) (String (chr 191) (String (chr 189) ""))
  else if r <? 65536 then
    String (chr (224 + r `div` 4096)) (String (chr (128 + r `div` 64 `mod` 64))
      (String (chr (128 + r `mod` 64)) ""))
  else
    String (chr (240 + r `div` 262144)) (String (chr (128 + r `div` 4096 `mod` 64))
      (String (chr (128 + r `div` 64 `mod` 64)) (String (chr (128 + r `mod` 64)) ""))).

Definition RuneError : string := utf8_encode 65533.

(** [utf16.DecodeRune] of two escapes, when they are a surrogate pair. *)
Definition surrogate_pair (r1 r2 : Z) : option Z :=
  if (55296 <=? r1) && (r1 <? 56320) && (56320 <=? r2) && (r2 <? 57344)
  then Some ((r1 - 55296) * 1024 + (r2 - 56320) + 65536) else None.

Definition simple_escape (e : ascii) : option ascii :=
  let n := N_of_ascii e in
  if bool_decide (e = quote_char) || bool_decide (e = backslash) || bool_decide (e = "/"%char)
  then Some e
  else if bool_decide (e = "b"%char) then Some "008"%char
  else if bool_decide (e = "f"%char) then Some "012"%char
  else if bool_decide (e = "n"%char) then Some "010"%char
  else if bool_decide (e = "r"%char) then Some "013"%char
  else if bool_decide (e = "t"%char) then Some "009"%char
  else None.

Definition put (p : string) (x : option (string * string)) : option (string * string) :=
  '(v, r) ← x; Some (p +:+ v, r).

(** The rest of a string literal after its opening quote: the value and what
    follows the closing quote. *)
Fixpoint unquote (s : string) : option (string * string) :=
  match s with
  | EmptyString => None
  | String a s1 =>
      if bool_decide (a = quote_char) then Some ("", s1)
      else if bool_decide (a = backslash) then
        match s1 with
        | EmptyString => None
        | String e s2 =>
            if bool_decide (e = "u"%char) then
              match s2 with
              | String h1 (String h2 (String h3 (String h4 s3))) =>
                  match hex4 h1 h2 h3 h4 with
                  | None => None
                  | Some r1 =>
                      match s3 with
                      | String b1 (String u1 (String g1 (String g2 (String g3 (String g4 s4))))) =>
                          if bool_decide (b1 = backslash) && bool_decide (u1 = "u"%char) then
                            match (r2 ← hex4 g1 g2 g3 g4; surrogate_pair r1 r2) with
                            | Some r => put (utf8_encode r) (unquote s4)
                            | None => put (utf8_encode r1) (unquote s3)
                            end
                          else put (utf8_encode r1) (unquote s3)
                      | _ => put (utf8_encode r1) (unquote s3)
                      end
                  end
              | _ => None
              end
            else match simple_escape e with
                 | Some c => put (String c "") (unquote s2)
                 | None => None
                 end
        end
      else if (N_of_ascii a <? 32)%N then None
      else if is_ascii a then put (String a "") (unquote s1)
      else match s1 with
      | String b s2 =>
          if lead2 a b then put (chunk_bytes (CSeq2 a b)) (unquote s2)
          else match s2 with
          | String c s3 =>
              if lead3 a b && is_cont c then put (chunk_bytes (CSeq3 a b c)) (unquote s3)
              else match s3 with
              | String d s4 =>
                  if lead4 a b && is_cont c && is_cont d
                  then put (chunk_bytes (CSeq4 a b c d)) (unquote s4)
                  else put RuneError (unquote s1)
              | EmptyString => put RuneError (unquote s1)
              end
          | EmptyString => put RuneError (unquote s1)
          end
      | EmptyString => put RuneError (unquote s1)
      end
  end.

(** ** Parsing values *)

Definition is_ws (a : ascii) : bool :=
  is_byte 32 a || is_byte 9 a || is_byte 13 a || is_byte 10 a.

Fixpoint skip_ws (s : string) : string :=
  match s with
  | String a t => if is_ws a then skip_ws t else s
  | EmptyString => ""
  end.

(** The longest prefix of digits and the rest. *)
Fixpoint take_digits (s : string) : string * string :=
  match s with
  | String a t =>
      if is_digit a then let '(d, r) := take_digits t in (String a d, r) else ("", s)
  | EmptyString => ("", "")
  end.

(** [0] or a digit from 1 to 9 and more digits. *)
Definition scan_int (s : string) : option (string * string) :=
  match s with
  | String a t =>
      if is_byte 48 a then Some ("0", t)
      else if is_digit a then Some (take_digits s) else None
  | EmptyString => None
  end.

Definition scan_frac (s : string) : option (string * string) :=
  match s with
  | String a t =>
      if is_byte 46 a then
        let '(d, r) := take_digits t in
        if bool_decide (d = "") then None else Some (String a d, r)
      else Some ("", s)
  | EmptyString => Some ("", "")
  end.

Definition scan_exp (s : string) : option (string * string) :=
  match s with
  | String a t =>
      if is_byte 101 a || is_byte 69 a then
        let '(sg, t') := match t with
                         | String b u => if is_byte 43 b || is_byte 45 b
                                         then (String b "", u) else ("", t)
                         | EmptyString => ("", t)
                         end in
        let '(d, r) := take_digits t' in
        if bool_decide (d = "") then None else Some (String a (sg +:+ d), r)
      else Some ("", s)
  | EmptyString => Some ("", "")
  end.

(** A number literal, kept as text. *)
Definition scan_number (s : string) : option (string * string) :=
  let '(sg, s0) := match s with
                   | String a t => if is_byte 45 a then ("-", t) else ("", s)
                   | EmptyString => ("", s)
                   end in
  '(i, s1) ← scan_int s0; '(f, s2) ← scan_frac s1; '(e, s3) ← scan_exp s2;
  Some (sg +:+ i +:+ f +:+ e, s3).

(** What follows the word [w], if [s] starts with it. *)
Fixpoint strip (w s : string) : option string :=
  match w, s with
  | EmptyString, _ => Some s
  | String a w', String b s' => if Ascii.eqb a b then strip w' s' else None
  | _, _ => None
  end.

Definition maxNestingDepth : N := 10000.

(** The value at the head of [s] and the rest.  A value takes at least one
    character and a member of an array or object at least one more, so that the
    length of the text is enough fuel. *)
Fixpoint parse_value (fuel : nat) (depth : N) (s : string) : option (json * string) :=
  match fuel with
  | O => None
  | S fuel =>
      match skip_ws s with
      | EmptyString => None
      | String a t as s0 =>
          if bool_decide (a = quote_char) then '(v, r) ← unquote t; Some (JStr v, r)
          else if is_byte 123 a then
            if (maxNestingDepth <=? depth)%N then None
            else match skip_ws t with
                 | EmptyString => None
                 | String b r as t0 =>
                     if is_byte 125 b then Some (JObj [], r)
                     else '(m, r) ← parse_members fuel (N.succ depth) t0; Some (JObj m, r)
                 end
          else if is_byte 91 a then
            if (maxNestingDepth <=? depth)%N then None
            else match skip_ws t with
                 | EmptyString => None
                 | String b r as t0 =>
                     if is_byte 93 b then Some (JArr [], r)
                     else '(l, r) ← parse_elems fuel (N.succ depth) t0; Some (JArr l, r)
                 end
          else if is_byte 116 a then r ← strip "true" s0; Some (JBool true, r)
          else if is_byte 102 a then r ← strip "false" s0; Some (JBool false, r)
          else if is_byte 110 a then r ← strip "null" s0; Some (JNull, r)
          else '(l, r) ← scan_number s0; Some (JNum l, r)
      end
  end
with parse_elems (fuel : nat) (depth : N) (s : string) : option (list json * string) :=
  match fuel with
  | O => None
  | S fuel =>
      '(v, r) ← parse_value fuel depth s;
      match skip_ws r with
      | EmptyString => None
      | String b r' =>
          if is_byte 44 b then '(l, r'') ← parse_elems fuel depth r'; Some (v :: l, r'')
          else if is_byte 93 b then Some ([v], r') else None
      end
  end
with parse_members (fuel : nat) (depth : N) (s : string)
    : option (list (string * json) * string) :=
  match fuel with
  | O => None
  | S fuel =>
      match skip_ws s with
      | EmptyString => None
      | String q t =>
          if bool_decide (q = quote_char) then
            '(k, r) ← unquote t;
            match skip_ws r with
            | EmptyString => None
            | String c r1 =>
                if is_byte 58 c then
                  '(v, r2) ← parse_value fuel depth r1;
                  match skip_ws r2 with
                  | EmptyString => None
                  | String b r3 =>
                      if is_byte 44 b then
                        '(m, r4) ← parse_members fuel depth r3; Some ((k, v) :: m, r4)
                      else if is_byte 125 b then Some ([(k, v)], r3) else None
                  end
                else None
            end
          else None
      end
  end.

(** The value of a whole text, or [None] for a syntax error. *)
Definition parse (s : string) : option json :=
  '(j, r) ← parse_value (S (String.length s)) 0 s;
  if bool_decide (skip_ws r = "") then Some j else None.

(** ** Decoding

    A decoder takes the value that is there and returns the new one, with a
    mark when an error was saved. *)

Definition decoder (A : Type) : Type := json → A → A * bool.

Definition dec_string : decoder string := λ j old,
  match j with
  | JStr s => (s, false)
  | JNull => (old, false)
  | _ => (old, true)
  end.

(** Integers of [bits] bits. *)
Definition dec_int (bits : Z) : decoder Z := λ j old,
  match j with
  | JNum lit =>
      match ParseInt lit with
      | (n, None) =>
          if (- 2 ^ (bits - 1) <=? n) && (n <? 2 ^ (bits - 1)) then (n, false) else (old, true)
      | _ => (old, true)
      end
  | JNull => (old, false)
  | _ => (old, true)
  end.

(** An array is decoded over the elements that are there and then over zero
    values. *)
Fixpoint dec_elems {A} (d : decoder A) (zero : A) (l : list json) (old : list A)
    : list A * bool :=
  match l with
  | [] => ([], false)
  | j :: l' =>
      let '(x, e) := d j (default zero (head old)) in
      let '(xs, e') := dec_elems d zero l' (tail old) in
      (x :: xs, e || e')
  end.

Definition dec_slice {A} (d : decoder A) (zero : A) : decoder (slice A) := λ j old,
  match j with
  | JArr l => let '(xs, e) := dec_elems d zero l (elems old) in (Some xs, e)
  | JNull => (None, false)
  | _ => (old, true)
  end.

Definition dec_ptr {A} (d : decoder A) (zero : A) : decoder (option A) := λ j old,
  match j with
  | JNull => (None, false)
  | _ => let '(x, e) := d j (default zero old) in (Some x, e)
  end.

(** Names are compared up to the case of ASCII letters, where U+017F counts as
    an S and U+212A as a K. *)
Definition upper (a : ascii) : ascii :=
  if byte_in 97 122 a then ascii_of_N (N_of_ascii a - 32) else a.
Definition fold_chunk (k : chunk) : string :=
  match k with
  | CAscii a => String (upper a) ""
  | CSeq2 a b => if is_byte 197 a && is_byte 191 b then "S" else chunk_bytes k
  | CSeq3 a b c =>
      if is_byte 226 a && is_byte 132 b && is_byte 170 c then "K" else chunk_bytes k
  | _ => chunk_bytes k
  end.
Definition fold_name (s : string) : string := concat_bytes (List.map fold_chunk (chunks s)).

Fixpoint find_by {B} (f : string → bool) (l : list (string * B)) : option B :=
  match l with
  | [] => None
  | (n, x) :: l' => if f n then Some x else find_by f l'
  end.

Definition find_field {A} (fs : list (string * decoder A)) (k : string) : option (decoder A) :=
  match find_by (λ n, bool_decide (n = k)) fs with
  | Some d => Some d
  | None => find_by (λ n, bool_decide (fold_name n = fold_name k)) fs
  end.

Fixpoint dec_members {A} (fs : list (string * decoder A)) (m : list (string * json)) (old : A)
    : A * bool :=
  match m with
  | [] => (old, false)
  | (k, j) :: m' =>
      let '(x, e) := match find_field fs k with
                     | Some d => d j old
                     | None => (old, false)
                     end in
      let '(y, e') := dec_members fs m' x in (y, e || e')
  end.

Definition dec_struct {A} (fs : list (string * decoder A)) : decoder A := λ j old,
  match j with
  | JObj m => dec_members fs m old
  | JNull => (old, false)
  | _ => (old, true)
  end.

(** A field of a struct, given by its value and its update. *)
Definition at_field {A B} (d : decoder B) (get : A → B) (set : A → B → A) : decoder A :=
  λ j x, let '(y, e) := d j (get x) in (set x y, e).

(** [json.Unmarshal]: the new value, and whether an error is returned. *)
Definition Unmarshal {A} (d : decoder A) (data : string) (old : A) : A * bool :=
  match parse data with
  | None => (old, true)
  | Some j => d j old
  end.

(** Members with [omitempty]. *)
Definition omit {A} (empty : bool) (x : A) : list A := if empty then [] else [x].
Definition enc_int (z : Z) : json := JNum (to_string z).
Definition enc_slice {A} (enc : A → json) (s : slice A) : json :=
  match s with
  | None => JNull
  | Some l => JArr (List.map enc l)
  end.

(** ** Induction *)

Section json_ind.
Context (P : json → Prop).
Hypothesis P_null : P JNull.
Hypothesis P_bool : ∀ b, P (JBool b).
Hypothesis P_num : ∀ l, P (JNum l).
Hypothesis P_str : ∀ s, P (JStr s).
Hypothesis P_arr : ∀ l, Forall P l → P (JArr l).
Hypothesis P_obj : ∀ m, Forall (λ kv, P (snd kv)) m → P (JObj m).

Fixpoint json_all_ind (j : json) : P j :=
  match j with
  | JNull => P_null
  | JBool b => P_bool b
  | JNum l => P_num l
  | JStr s => P_str s
  | JArr l =>
      P_arr l ((fix go l : Forall P l :=
        match l with
        | [] => Forall_nil_2 _
        | x :: l => Forall_cons_2 _ _ _ (json_all_ind x) (go l)
        end) l)
  | JObj m =>
      P_obj m ((fix go m : Forall (λ kv, P (snd kv)) m :=
        match m with
        | [] => Forall_nil_2 _
        | (k, x) :: m => Forall_cons_2 (λ kv, P (snd kv)) (k, x) _ (json_all_ind x) (go m)
        end) m)
  end.
End json_ind.

(** ** Strings *)

Lemma put_put p q x : put p (put q x) = put (p +:+ q) x.
Proof. destruct x as [[v r]|]; [|done]. simpl. by rewrite append_assoc. Qed.

Lemma unquote_u h1 h2 h3 h4 r t :
  hex4 h1 h2 h3 h4 = Some r → (r < 55296 ∨ 56320 ≤ r) →
  unquote (String backslash (String "u" (String h1 (String h2 (String h3 (String h4 t)))))) =
    put (utf8_encode r) (unquote t).
Proof.
  intros Hr Hs. cbn [unquote]. rewrite (bool_decide_eq_false_2 (backslash = quote_char)) by done.
  rewrite (bool_decide_eq_true_2 (backslash = backslash)) by done.
  rewrite (bool_decide_eq_true_2 ("u"%char = "u"%char)) by done. rewrite Hr.
  assert (∀ x, (r2 ← x; surrogate_pair r r2) = None) as HN.
  { intros [r2|]; [|done]. simpl. unfold surrogate_pair.
    destruct (Z.leb_spec 55296 r), (Z.ltb_spec r 56320); try done; lia. }
  repeat (destruct t as [|? t]; [done|]). rewrite HN. by case_match.
Qed.

Lemma unquote_ascii a t :
  is_ascii a = true → unquote (encode_ascii a +:+ t) = put (String a "") (unquote t).
Proof.
  intros Ha. destruct a as [[] [] [] [] [] [] [] []]; try done; clear Ha;
    try reflexivity.
  all: lazymatch goal with |- unquote (encode_ascii ?a +:+ ?t) = _ =>
    exact (unquote_u "0" "0" (hex_digit (N_of_ascii a / 16)) (hex_digit (N_of_ascii a mod 16))
             (Z.of_N (N_of_ascii a)) t eq_refl (or_introl eq_refl)) end.
Qed.

(** A byte of a longer sequence is neither a quote nor an escape. *)
Lemma lead_not_special a :
  is_ascii a = false →
  bool_decide (a = quote_char) = false ∧ bool_decide (a = backslash) = false ∧
  (N_of_ascii a <? 32)%N = false.
Proof. destruct a as [[] [] [] [] [] [] [] []]; try done. Qed.

Lemma chunks_not_ascii k a t :
  chunk_ok k = true → chunk_bytes k = String a t → t ≠ "" → is_ascii a = false.
Proof.
  destruct k as [?|? ?|? ? ?|? ? ? ?|?]; cbn [chunk_bytes chunk_ok]; intros Hk [= -> <-] Hn;
    try done; revert Hk; unfold lead2, lead3, lead4;
    destruct a as [[] [] [] [] [] [] [] []]; done.
Qed.

Lemma unquote_raw k t :
  chunk_ok k = true → (∀ a, k ≠ CAscii a) →
  unquote (chunk_bytes k +:+ t) = put (chunk_bytes k) (unquote t).
Proof.
  intros Hk Hn. pose proof (chunks_ok_app k t Hk) as Hc.
  destruct (chunk_bytes k) as [|a s] eqn:Eb; [by destruct k|].
  assert (is_ascii a = false) as Ha.
  { eapply chunks_not_ascii; [done..|]. intros ->. destruct k; naive_solver. }
  destruct (lead_not_special _ Ha) as (H1 & H2 & H3).
  destruct k as [?|? ?|? ? ?|? ? ? ?|?]; simplify_eq/=; rewrite ?append_cons, ?append_nil_l in *;
    cbn [unquote chunks] in *; rewrite H1, H2, H3, Ha in *;
    repeat (case_match; simplify_eq/=; try done).
Qed.

Lemma unquote_chunk k t :
  chunk_ok k = true → unquote (encode_chunk k +:+ t) = put (chunk_bytes k) (unquote t).
Proof.
  intros Hk. destruct k as [a|a b|a b c|a b c d|a]; [by apply unquote_ascii|..|done];
    try by apply unquote_raw.
  cbn [encode_chunk].
  assert (∀ n a, is_byte n a = true → N_of_ascii a = n) as HB by (intros ??; apply N.eqb_eq).
  assert (∀ n a, is_byte n a = true → a = ascii_of_N n) as HB'.
  { intros n x Hx%HB. by rewrite <-Hx, ascii_N_embedding. }
  repeat case_match; [..|by apply unquote_raw];
    repeat match goal with H : _ && _ = true |- _ => apply andb_prop in H as [??] end;
    repeat match goal with H : is_byte _ _ = true |- _ => apply HB' in H; subst end.
  - exact (unquote_u "2" "0" "2" "8" 8232 t eq_refl (or_introl eq_refl)).
  - exact (unquote_u "2" "0" "2" "9" 8233 t eq_refl (or_introl eq_refl)).
Qed.

(** What is quoted is read back. *)
Lemma unquote_quoted s t :
  utf8_valid s = true →
  unquote (encode_string s +:+ String quote_char t) = Some (s, t).
Proof.
  intros Hs. revert s Hs. apply utf8_ind; [done|].
  intros k u Hk _ IH. unfold encode_string. rewrite chunks_ok_app by done.
  cbn [List.map concat_bytes foldr]. rewrite append_assoc, unquote_chunk by done.
  unfold encode_string, concat_bytes in IH. by rewrite IH.
Qed.

(** ** Printing and parsing *)

(** Values as the encoder produces them: integers and well-formed strings. *)
Fixpoint wf_json (j : json) : Prop :=
  match j with
  | JNum l => ∃ z, l = to_string z
  | JStr s => utf8_valid s = true
  | JArr l => foldr (λ x p, wf_json x ∧ p) True l
  | JObj m => foldr (λ kv p, utf8_valid (fst kv) = true ∧ wf_json (snd kv) ∧ p) True m
  | _ => True
  end.

Fixpoint depth (j : json) : N :=
  match j with
  | JArr l => N.succ (foldr (λ x n, N.max (depth x) n) 0%N l)
  | JObj m => N.succ (foldr (λ kv n, N.max (depth (snd kv)) n) 0%N m)
  | _ => 0%N
  end.

(** What can follow a value. *)
Definition delim (s : string) : Prop :=
  match s with
  | EmptyString => True
  | String a _ => is_ws a || is_byte 44 a || is_byte 93 a || is_byte 125 a = true
  end.

Lemma pretty_N_go_head x s :
  (0 < x)%N → ∃ a t, pretty_N_go x s = String a t ∧ is_byte 48 a = false.
Proof.
  revert s. induction (N.lt_wf_0 x) as [x _ IH]; intros s Hx.
  rewrite pretty_N_go_step by lia. destruct (decide (x < 10)%N) as [Hl|Hl].
  - rewrite N.div_small, N.mod_small by lia. rewrite pretty_N_go_0. eexists _, _. split; [done|].
    assert (x = 1 ∨ x = 2 ∨ x = 3 ∨ x = 4 ∨ x = 5 ∨ x = 6 ∨ x = 7 ∨ x = 8 ∨ x = 9)%N as Hc by lia.
    by destruct_or! Hc; subst.
  - apply IH; [apply N.div_lt; lia|]. apply N.div_str_pos. lia.
Qed.

Lemma take_digits_app ds rest :
  str_forall is_digit ds = true → delim rest → take_digits (ds +:+ rest) = (ds, rest).
Proof.
  intros Hd Hr. induction ds as [|a ds IH].
  - rewrite append_nil_l. destruct rest as [|a r]; [done|]. simpl.
    assert (is_digit a = false) as ->; [|done]. revert Hr. simpl.
    destruct a as [[] [] [] [] [] [] [] []]; done.
  - rewrite append_cons. simpl in *. apply andb_prop in Hd as [-> Hd]. by rewrite IH.
Qed.

Lemma scan_tail_delim rest :
  delim rest → scan_frac rest = Some ("", rest) ∧ scan_exp rest = Some ("", rest).
Proof.
  destruct rest as [|a r]; [done|]. simpl.
  destruct a as [[] [] [] [] [] [] [] []]; done.
Qed.

Lemma scan_int_digits (p : positive) rest :
  delim rest → scan_int (pretty (Npos p) +:+ rest) = Some (pretty (Npos p), rest).
Proof.
  intros Hr. destruct (pretty_N_decimal (Npos p)) as (Hd & _ & Hne).
  unfold pretty, pretty_N in *. rewrite decide_False in * by done.
  destruct (pretty_N_go_head (Npos p) "") as (a & t & E & Ha); [done|]. rewrite E in *.
  rewrite append_cons. unfold scan_int. rewrite Ha. simpl in Hd.
  assert (is_digit a = true) as -> by (by apply andb_prop in Hd as [? _]).
  f_equal. by apply (take_digits_app (String a t)).
Qed.

Lemma scan_number_int z rest :
  delim rest → scan_number (to_string z +:+ rest) = Some (to_string z, rest).
Proof.
  intros Hr. destruct (scan_tail_delim _ Hr) as [Hf He]. unfold to_string.
  destruct z as [|p|p].
  - change (pretty 0) with "0". rewrite append_cons, append_nil_l. unfold scan_number.
    cbn [is_byte N_of_ascii]. simpl. rewrite Hf. simpl. by rewrite He.
  - change (pretty (Zpos p)) with (pretty (Npos p)).
    pose proof (scan_int_digits p rest Hr) as Hi. unfold scan_number.
    destruct (pretty (Npos p)) as [|a t] eqn:E; rewrite ?append_cons in *.
    { by destruct (pretty_N_decimal (Npos p)) as (_ & _ & Hne). }
    destruct (is_byte 45 a) eqn:Ha.
    { destruct (pretty_N_decimal (Npos p)) as (Hd & _). rewrite E in Hd. simpl in Hd.
      revert Hd Ha. clear. destruct a as [[] [] [] [] [] [] [] []]; done. }
    rewrite Hi. simpl. rewrite Hf. simpl. rewrite He. simpl. by rewrite append_nil_l, append_nil_r.
  - change (pretty (Zneg p)) with (String "-" (pretty (Npos p))). rewrite append_cons.
    unfold scan_number. change (is_byte 45 "-") with true. cbv iota beta.
    rewrite (scan_int_digits p rest Hr). simpl. rewrite Hf. simpl. rewrite He. simpl.
    by rewrite append_nil_r.
Qed.

Lemma to_string_head z :
  ∃ a t, to_string z = String a t ∧ (is_digit a || is_byte 45 a) = true.
Proof.
  unfold to_string. destruct z as [|p|p]; [by eexists _, _| |by eexists _, _].
  change (pretty (Zpos p)) with (pretty (Npos p)).
  destruct (pretty_N_decimal (Npos p)) as (Hd & _ & Hne).
  destruct (pretty (Npos p)) as [|a t]; [done|]. exists a, t. split; [done|].
  simpl in Hd. by apply andb_prop in Hd as [-> _].
Qed.

(** The first character of a printed value. *)
Lemma print_head j :
  wf_json j → ∃ a t, print j = String a t ∧ is_ws a = false ∧ is_byte 93 a = false.
Proof.
  destruct j as [| [] |l|s|l|m]; cbn [print wf_json]; try (by intros; eexists _, _).
  intros [z ->]. destruct (to_string_head z) as (a & t & -> & Ha). exists a, t.
  split; [done|]. destruct a as [[] [] [] [] [] [] [] []]; done.
Qed.

Lemma skip_ws_print j t : wf_json j → skip_ws (print j +:+ t) = print j +:+ t.
Proof.
  intros (a & u & -> & Hw & _)%print_head. rewrite append_cons. cbn [skip_ws]. by rewrite Hw.
Qed.

(** Reading back a value printed before [rest]. *)
Definition reads (j : json) : Prop := ∀ fuel d rest,
  (String.length (print j) ≤ fuel)%nat → (d + depth j ≤ maxNestingDepth)%N → delim rest →
  parse_value fuel d (print j +:+ rest) = Some (j, rest).

Lemma parse_elems_print l fuel d rest :
  Forall (λ j, wf_json j ∧ reads j) l → l ≠ [] →
  (String.length (join (List.map print l)) < fuel)%nat →
  (d + foldr (λ x n, N.max (depth x) n) 0%N l ≤ maxNestingDepth)%N →
  parse_elems fuel d (join (List.map print l) +:+ String "]" rest) = Some (l, rest).
Proof.
  revert fuel. induction l as [|j l IH]; intros fuel HF Hne Hf Hd; [done|].
  apply Forall_cons in HF as [[Hw Hj] Hl].
  destruct fuel as [|fuel]; [lia|]. cbn [foldr] in Hd. destruct l as [|k l].
  - cbn [List.map join parse_elems] in *. rewrite Hj; [|lia|lia|done]. done.
  - change (join (List.map print (j :: k :: l))) with
      (print j +:+ "," +:+ join (List.map print (k :: l))) in *.
    rewrite !length_append in Hf. rewrite !append_assoc. cbn [parse_elems].
    rewrite Hj; [|lia|lia|done]. cbn [mbind option_bind].
    rewrite append_cons, append_nil_l. cbn [skip_ws]. change (is_ws ",") with false.
    cbv iota. change (is_byte 44 ",") with true. cbv iota.
    rewrite IH; [done|done|done|simpl in *; lia|lia].
Qed.

Definition print_member (kv : string * json) : string :=
  quoted (fst kv) +:+ ":" +:+ print (snd kv).

Lemma parse_members_print m fuel d rest :
  Forall (λ kv, utf8_valid (fst kv) = true ∧ wf_json (snd kv) ∧ reads (snd kv)) m → m ≠ [] →
  (String.length (join (List.map print_member m)) < fuel)%nat →
  (d + foldr (λ kv n, N.max (depth (snd kv)) n) 0%N m ≤ maxNestingDepth)%N →
  parse_members fuel d (join (List.map print_member m) +:+ String "}" rest) = Some (m, rest).
Proof.
  revert fuel. induction m as [|[k j] m IH];
    intros fuel HF Hne Hf Hd; [done|].
  apply Forall_cons in HF as [(Hk & Hw & Hj) Hm].
  destruct fuel as [|fuel]; [lia|]. cbn [foldr snd fst] in *.
  assert (∃ tl, join (List.map print_member ((k, j) :: m)) = print_member (k, j) +:+ tl ∧
    (tl = "" ∧ m = [] ∨ m ≠ [] ∧ tl = "," +:+ join (List.map print_member m))) as (tl & E & Htl).
  { destruct m as [|kv m]; [exists ""; rewrite append_nil_r; auto|].
    eexists. split; [reflexivity|]. right. done. }
  rewrite E in *. unfold print_member in Hf at 1. unfold print_member at 1. cbn [fst snd] in *.
  rewrite !length_append in Hf. unfold quoted. rewrite !append_assoc.
  rewrite append_cons, !append_assoc. cbn [parse_members skip_ws].
  change (is_ws quote_char) with false. cbv iota.
  rewrite (bool_decide_eq_true_2 (quote_char = quote_char)) by done.
  rewrite append_cons, append_nil_l, unquote_quoted by done. cbn [mbind option_bind].
  rewrite append_cons, append_nil_l. cbn [skip_ws]. change (is_ws ":") with false. cbv iota.
  change (is_byte 58 ":") with true. cbv iota.
  rewrite Hj; [|lia|lia|by destruct Htl as [[-> ->]|[_ ->]]]. cbn [mbind option_bind].
  destruct Htl as [[-> ->]|[Hm0 ->]]; [done|].
  rewrite !append_assoc, append_cons, append_nil_l. cbn [skip_ws]. change (is_ws ",") with false.
  cbv iota. change (is_byte 44 ",") with true. cbv iota.
  rewrite IH; [done|done|done| |lia]. rewrite !length_append in Hf. simpl in *. lia.
Qed.

Lemma wf_arr l : wf_json (JArr l) ↔ Forall wf_json l.
Proof. induction l as [|j l IH]; cbn in *; [by split|]. rewrite Forall_cons. naive_solver. Qed.
Lemma wf_obj m : wf_json (JObj m) ↔ Forall (λ kv, utf8_valid (fst kv) = true ∧ wf_json (snd kv)) m.
Proof. induction m as [|j m IH]; cbn in *; [by split|]. rewrite Forall_cons. naive_solver. Qed.

Lemma parse_number fuel d z rest :
  delim rest → parse_value (S fuel) d (to_string z +:+ rest) = Some (JNum (to_string z), rest).
Proof.
  intros Hr. pose proof (scan_number_int z rest Hr) as Hs.
  destruct (to_string_head z) as (a & t & E & Ha). rewrite E in *. rewrite append_cons in *.
  cbn [parse_value skip_ws].
  assert (is_ws a = false ∧ bool_decide (a = quote_char) = false ∧ is_byte 123 a = false ∧
    is_byte 91 a = false ∧ is_byte 116 a = false ∧ is_byte 102 a = false ∧ is_byte 110 a = false)
    as (-> & -> & -> & -> & -> & -> & ->).
  { clear -Ha. destruct a as [[] [] [] [] [] [] [] []]; done. }
  by rewrite Hs.
Qed.

Lemma reads_arr l : Forall (λ j, wf_json j ∧ reads j) l → reads (JArr l).
Proof.
  intros HF [|fuel] d rest Hf Hd Hr; [simpl in Hf; lia|].
  cbn [print depth] in *. rewrite !append_assoc, append_cons, append_nil_l.
  cbn [parse_value skip_ws]. change (is_ws "[") with false. cbv iota.
  change (bool_decide ("["%char = quote_char)) with false. change (is_byte 123 "[") with false.
  change (is_byte 91 "[") with true. cbv iota.
  rewrite (proj2 (N.leb_gt _ _)) by lia.
  assert (parse_elems fuel (N.succ d)
    (join (List.map print l) +:+ String "]" rest) = Some (l, rest) ∨ l = []) as Hp.
  { destruct (decide (l = [])); [by right|left]. apply parse_elems_print; [done|done| |lia].
    rewrite !length_append in Hf. simpl in Hf. lia. }
  destruct l as [|j l]; [done|]. destruct Hp as [Hp|]; [|done].
  rewrite append_cons, append_nil_l in *.
  assert (∃ a t, join (List.map print (j :: l)) = String a t ∧ is_ws a = false ∧
    is_byte 93 a = false) as (a & t & E & Hws & H93).
  { apply Forall_cons in HF as [[(a & t & E & H)%print_head _] _]. cbn [List.map]. rewrite E.
    destruct l; eexists a, _; split; try done. }
  rewrite E in *. rewrite append_cons in *. cbn [skip_ws]. rewrite Hws, H93, Hp. done.
Qed.

Lemma reads_obj m :
  Forall (λ kv, utf8_valid (fst kv) = true ∧ wf_json (snd kv) ∧ reads (snd kv)) m →
  reads (JObj m).
Proof.
  intros HF [|fuel] d rest Hf Hd Hr; [simpl in Hf; lia|].
  cbn [print depth] in *. change (λ kv, _ +:+ _ +:+ print (snd kv)) with print_member in *.
  rewrite !append_assoc, append_cons, append_nil_l.
  cbn [parse_value skip_ws]. change (is_ws "{") with false. cbv iota.
  change (bool_decide ("{"%char = quote_char)) with false. change (is_byte 123 "{") with true.
  cbv iota. rewrite (proj2 (N.leb_gt _ _)) by lia.
  assert (parse_members fuel (N.succ d)
    (join (List.map print_member m) +:+ String "}" rest) = Some (m, rest) ∨ m = []) as Hp.
  { destruct (decide (m = [])); [by right|left]. apply parse_members_print; [done|done| |lia].
    rewrite !length_append in Hf. simpl in Hf. lia. }
  destruct m as [|kv m]; [done|]. destruct Hp as [Hp|]; [|done].
  rewrite append_cons, append_nil_l in *.
  assert (∃ t, join (List.map print_member (kv :: m)) = String quote_char t) as (t & E).
  { destruct m; by eexists. }
  rewrite E in *. rewrite append_cons in *. cbn [skip_ws]. change (is_ws quote_char) with false.
  cbv iota. change (is_byte 125 quote_char) with false. cbv iota. by rewrite Hp.
Qed.

Lemma print_reads j : wf_json j → reads j.
Proof.
  induction j as [| [] |l|s|l IH|m IH] using json_all_ind; intros Hw fuel d rest Hf Hd Hr;
    (destruct fuel as [|fuel]; [exfalso; destruct (print_head _ Hw) as (a & t & E & _);
      rewrite E in Hf; simpl in Hf; lia|]); [done..| | | |].
  - destruct Hw as [z ->]. by apply parse_number.
  - cbn [print]. unfold quoted. rewrite append_cons. cbn [parse_value skip_ws].
    change (is_ws quote_char) with false. cbv iota.
    rewrite (bool_decide_eq_true_2 (quote_char = quote_char)) by done.
    rewrite append_assoc, append_cons, append_nil_l, unquote_quoted by done. done.
  - apply wf_arr in Hw. apply reads_arr; [|done..]. rewrite Forall_forall in Hw, IH |- *. auto.
  - apply wf_obj in Hw. apply reads_obj; [|done..]. rewrite Forall_forall in Hw, IH |- *.
    naive_solver.
Qed.

(** Printing and parsing are inverse. *)
Lemma parse_print j : wf_json j → (depth j ≤ maxNestingDepth)%N → parse (print j) = Some j.
Proof.
  intros Hw Hd. unfold parse. pose proof (print_reads j Hw (S (String.length (print j))) 0%N "") as E.
  rewrite append_nil_r in E. rewrite E; [done|lia|lia|done].
Qed.

(** ** Decoding what was encoded *)

(** [d] makes [x] of [old] and the value [j], without an error. *)
Definition decodes {A} (d : decoder A) (old : A) (j : json) (x : A) : Prop :=
  d j old = (x, false).

Lemma decodes_string old s : decodes dec_string old (JStr s) s.
Proof. done. Qed.

Lemma decodes_int64 old z : in_int64 z → decodes (dec_int 64) old (enc_int z) z.
Proof.
  intros Hz. unfold decodes, enc_int, dec_int. rewrite ParseInt_to_string by done.
  unfold in_int64 in Hz. change (2 ^ (64 - 1)) with 9223372036854775808.
  rewrite (proj2 (Z.leb_le _ _)), (proj2 (Z.ltb_lt _ _)) by lia. done.
Qed.

Lemma decodes_slice {A} (d : decoder A) zero (enc : A → json) (s : slice A) :
  Forall (λ x, decodes d zero (enc x) x) (elems s) →
  decodes (dec_slice d zero) None (enc_slice enc s) s.
Proof.
  destruct s as [l|]; [|done]. unfold decodes. cbn [elems default dec_slice enc_slice id].
  intros Hd. assert (dec_elems d zero (List.map enc l) [] = (l, false)) as ->; [|done].
  induction Hd as [|x l Hx _ IH]; [done|]. simpl. by rewrite Hx, IH.
Qed.

Lemma decodes_ptr {A} (d : decoder A) zero j x :
  j ≠ JNull → decodes d zero j x → decodes (dec_ptr d zero) None j (Some x).
Proof. unfold decodes. intros Hj Hd. destruct j; try done; simpl; by rewrite Hd. Qed.

(** One member of a struct. *)
Lemma dec_members_cons {A} fs k j (m : list (string * json)) (old : A) d x y :
  find_field fs k = Some d → d j old = (x, false) → dec_members fs m x = (y, false) →
  dec_members fs ((k, j) :: m) old = (y, false).
Proof. intros Hf Hd Hm. simpl. by rewrite Hf, Hd, Hm. Qed.

(** One member with [omitempty]: leaving it out must not make a difference. *)
Lemma dec_members_omit {A} fs (e : bool) k j (m : list (string * json)) (old : A) d x y :
  find_field fs k = Some d → (e = true → x = old) → d j old = (x, false) ∨ e = true →
  dec_members fs m x = (y, false) →
  dec_members fs (omit e (k, j) ++ m) old = (y, false).
Proof.
  intros Hf He Hd Hm. destruct e; simpl; [by rewrite <-He|]. destruct Hd as [Hd|]; [|done].
  by rewrite Hf, Hd, Hm.
Qed.

Lemma decodes_at {A B} (d : decoder B) (get : A → B) (set : A → B → A) j old x :
  decodes d (get old) j x → at_field d get set j old = (set old x, false).
Proof. unfold decodes, at_field. by intros ->. Qed.

(** What is printed is well-formed UTF-8. *)
Lemma encode_ascii_valid a : is_ascii a = true → utf8_valid (encode_ascii a) = true.
Proof. intros Ha. destruct a as [[] [] [] [] [] [] [] []]; try discriminate Ha; reflexivity. Qed.

Lemma encode_chunk_valid k : chunk_ok k = true → utf8_valid (encode_chunk k) = true.
Proof.
  assert (chunk_ok k = true → utf8_valid (chunk_bytes k) = true) as HK.
  { intros Hk. rewrite <-(append_nil_r (chunk_bytes k)). by rewrite utf8_valid_cons. }
  destruct k as [a|a b|a b c|a b c d|a]; intros Hk; cbn [encode_chunk]; [|by apply HK| |by apply HK|done].
  - by apply encode_ascii_valid.
  - destruct (_ && _); [done|]. destruct (_ && _); [done|]. by apply HK.
Qed.

Lemma quoted_valid s : utf8_valid s = true → utf8_valid (quoted s) = true.
Proof.
  intros Hs. unfold quoted.
  change (String quote_char ?t) with (String quote_char "" +:+ t).
  repeat apply utf8_valid_app; [done| |done]. revert s Hs. apply utf8_ind; [done|].
  intros k t Hk _ IH. unfold encode_string. rewrite chunks_ok_app by done.
  cbn [List.map concat_bytes foldr]. apply utf8_valid_app; [by apply encode_chunk_valid|exact IH].
Qed.

Lemma join_valid l : Forall (λ s, utf8_valid s = true) l → utf8_valid (join l) = true.
Proof.
  induction 1 as [|x [|y l] Hx _ IH]; [done|done|]. cbn [join].
  by repeat apply utf8_valid_app.
Qed.

Lemma print_valid j : wf_json j → utf8_valid (print j) = true.
Proof.
  induction j as [|b|l|s|l IH|m IH] using json_all_ind; cbn [print]; try done.
  - by destruct b.
  - intros [z ->]. apply ascii_valid, to_string_ascii.
  - apply quoted_valid.
  - intros Hl%wf_arr. repeat apply utf8_valid_app; [done| |done].
    apply join_valid, List.Forall_map. rewrite Forall_forall in *. naive_solver.
  - intros Hm%wf_obj. repeat apply utf8_valid_app; [done| |done].
    apply join_valid, List.Forall_map. rewrite Forall_forall in *. intros [k x] Hin.
    specialize (IH _ Hin). destruct (Hm _ Hin) as [H1 H2]. simpl in *.
    apply utf8_valid_app; [by apply quoted_valid|]. apply utf8_valid_app; [done|by apply IH].
Qed.

#[export] Hint Resolve decodes_string decodes_int64 : simsearch.
