(* ===== verification/MasterCommon.v ===== *)
(** * MasterCommon: src/master/config/config.go and src/master/common/common.go

    The keys of the cluster in etcd: the prefixes of the configuration package,
    the functions that build keys and the ones that take registration keys
    apart.  An index outside of a slice panics: [None]. *)
From Stdlib Require Import Ascii.
From S2P Require Import Prelude Numeric Common GoStd.
Local Open Scope Z_scope.

(** ** config *)

Definition NodesPrefix : string := "/nodes".
Definition PsNodesPrefix : string := NodesPrefix +:+ "/ps".
Definition RouterNodesPrefix : string := NodesPrefix +:+ "/router".
Definition SpacesMataPrefix : string := "/spaces/mata".
Definition CreatingSpacesMataPrefix : string := "/creating_spaces/mata".
Definition DeletedSpacesMataPrefix : string := "/deleted_spaces/mata".
Definition DdlLockKey : string := "/ddl/lock".
Definition DdlDisabledKey : string := "/cluster/ddl_disabled".
Definition ErrSpacesPrefix : string := "/error/spaces".
Definition ErrPsNodesPrefix : string := "/error/nodes/ps".
Definition ErrLog : string := "/error/log".

(** In units of 1024 bytes. *)
Definition EtcdValMaxLen : Z := 100.
Definition ErrLogValMaxLen : Z := 1024.

Definition GenPsIdKey : string := "gen_ps_id".
Definition GenSpaceIdKey : string := "gen_space_id".
Definition IdBaseVal : Z := 0.
Definition PsNodeTTL : Z := 5.

Definition DocKeyTypes : list string := ["long"; "string"].
Definition ScalarFieldTypes : list string :=
  ["int"; "long"; "float"; "double"; "string"; "stringarray"].
Definition ScalarIndexTypes : list string := ["SCALAR"].
Definition VectorFieldTypes : list string := ["vector"].
Definition VectorIndexTypes : list string :=
  ["IVFPQ"; "HNSW"; "VEARCH"; "IVFFLAT"; "BINARYIVF"; "FLAT"].
Definition MetricType : list string := ["L2"; "InnerProduct"].

(** [genericutil.InSlice] *)
Fixpoint InSlice (target : string) (list : list string) : bool :=
  match list with
  | [] => false
  | item :: rest => if bool_decide (item = target) then true else InSlice target rest
  end.

(** ** common *)

Definition GetSpaceEtcdKey (dbName spaceName : string) : string :=
  SpacesMataPrefix +:+ "/" +:+ dbName +:+ "/" +:+ spaceName.

Definition GetCreatingSpaceEtcdKey (dbName spaceName : string) : string :=
  CreatingSpacesMataPrefix +:+ "/" +:+ dbName +:+ "/" +:+ spaceName.

Definition GetDeletedSpaceEtcdKey (dbName spaceName : string) (spaceId : Z) : string :=
  DeletedSpacesMataPrefix +:+ "/" +:+ dbName +:+ "/" +:+ spaceName +:+ "/" +:+ to_string spaceId.

(** A byte slice and a string are the same here. *)
Definition GetIPList (keyByteList : list string) : list string := List.map (λ b, b) keyByteList.

Definition GetPsNodeName (IP : string) (Port : Z) : string :=
  ":" +:+ IP +:+ ":" +:+ to_string Port +:+ ":".

Definition GetPsRegisterKey (IP : string) (Port Id : Z) : string :=
  PsNodesPrefix +:+ "/" +:+ GetPsNodeName IP Port +:+ to_string Id.

Definition ParsePsRegisterKey (key : string) : option (string * Z * Z) :=
  let parts := Split key ":" in
  IP ← parts !! 1%nat; i ← parts !! 3%nat; p ← parts !! 2%nat;
  Some (IP, Atoi p, Atoi i).

Definition GetRouterNodeEtcdKey (key : string) : option (string * Z) :=
  let parts := Split key ":" in
  IP ← parts !! 1%nat; p ← parts !! 2%nat; Some (IP, Atoi p).

Definition GetErrPsNodeEtcdKey (IP : string) (Port Id : Z) : string :=
  ErrPsNodesPrefix +:+ "/" +:+ GetPsNodeName IP Port +:+ to_string Id.

Definition GetErrSpaceEtcdKey (dbName spaceName : string) (spaceId : Z) : string :=
  ErrSpacesPrefix +:+ "/" +:+ dbName +:+ "/" +:+ spaceName +:+ "/" +:+ to_string spaceId.

Definition GetPartitionGroupName (dbName spaceName : string) (partitionId : Z) : string :=
  dbName +:+ ":" +:+ spaceName +:+ ":" +:+ to_string partitionId.

(** ** Lemmas *)

Lemma InSlice_spec x l : InSlice x l = true ↔ x ∈ l.
Proof.
  induction l as [|y l IH]; simpl; [by split; [|intros ?%elem_of_nil]|].
  rewrite elem_of_cons. case_bool_decide; naive_solver.
Qed.

Lemma no_char_app c s t : no_char c (s +:+ t) ↔ no_char c s ∧ no_char c t.
Proof. unfold no_char. rewrite str_forall_app. apply andb_true_iff. Qed.

Lemma colon_append s : ":" +:+ s = String ":" s.
Proof. done. Qed.

(** A key with a node name between two parts without colons. *)
Lemma Split_node_key pre IP port id :
  no_char ":" pre → no_char ":" IP →
  Split (pre +:+ GetPsNodeName IP port +:+ to_string id) ":" =
    [pre; IP; to_string port; to_string id].
Proof.
  intros Hp HI. unfold GetPsNodeName. rewrite !append_assoc.
  rewrite !colon_append.
  rewrite Split_sep by done. rewrite Split_sep by done.
  rewrite Split_sep by apply to_string_no_colon.
  by rewrite Split_no_sep by apply to_string_no_colon.
Qed.

Lemma GetPsNodeName_inj IP port IP' port' :
  no_char ":" IP → no_char ":" IP' →
  GetPsNodeName IP port = GetPsNodeName IP' port' → IP = IP' ∧ port = port'.
Proof.
  intros HI HI' E. unfold GetPsNodeName in E. apply append_inj_r in E.
  rewrite !colon_append in E.
  apply append_sep_inj in E as [<- E]; [|done..].
  apply append_sep_inj in E as [E _]; [|apply to_string_no_colon..].
  split; [done|]. by apply (inj pretty) in E.
Qed.

Lemma ParsePsRegisterKey_node pre IP port id :
  no_char ":" pre → no_char ":" IP → in_int64 port → in_int64 id →
  ParsePsRegisterKey (pre +:+ GetPsNodeName IP port +:+ to_string id) = Some (IP, port, id).
Proof.
  intros Hp HI Hport Hid. unfold ParsePsRegisterKey. rewrite Split_node_key by done.
  simpl. by rewrite !Atoi_to_string.
Qed.

(** ** Properties *)

(** The keys of the two languages fit: the key under which a partition server
    registers is the key the master builds, the master takes it apart into the
    address, the port and the id of the server, and the same holds of the key
    under which it records that the server is in error; the key of a router is
    taken apart into its address and port. *)
Theorem register_keys_agree (IP : string) (port id : Z) :
  no_char ":" IP → in_int64 port → in_int64 id →
  fst (GetPsRegisterKV IP port id) = GetPsRegisterKey IP port id ∧
  ParsePsRegisterKey (fst (GetPsRegisterKV IP port id)) = Some (IP, port, id) ∧
  ParsePsRegisterKey (GetErrPsNodeEtcdKey IP port id) = Some (IP, port, id) ∧
  GetRouterNodeEtcdKey (GenRouterNodeKey IP port) = Some (IP, port).
Proof.
  intros HI Hp Hid.
  assert (fst (GetPsRegisterKV IP port id) = GetPsRegisterKey IP port id) as E.
  { unfold GetPsRegisterKV, GetPsRegisterKey, GetPsNodeName. cbn [fst].
    by rewrite !append_assoc. }
  split_and!.
  - done.
  - rewrite E. by apply (ParsePsRegisterKey_node "/nodes/ps/").
  - by apply (ParsePsRegisterKey_node "/error/nodes/ps/").
  - unfold GenRouterNodeKey, GetRouterNodeEtcdKey.
    rewrite !colon_append, !Split_sep, Split_no_sep by (done || apply to_string_no_colon).
    simpl. by rewrite Atoi_to_string.
Qed.

Lemma register_keys_agree_witness :
  ParsePsRegisterKey (fst (GetPsRegisterKV "172.24.131.15" 8081 1)) =
    Some ("172.24.131.15", 8081, 1).
Proof.
  apply (register_keys_agree "172.24.131.15" 8081 1); (reflexivity || (unfold in_int64; lia)).
Defined.
