(* ===== verification/MasterConfig.v ===== *)
(** * MasterConfig: src/master/config

    The configuration of the master: its sections, its reading and writing, the
    addresses derived from it, the search for the entry of this process, and the
    checks.  The TOML library, the file system, the resolution of names and the
    list of the network interfaces are arguments.  A map from addresses to
    [true] is a set; [None] is a panic: a nil pointer or an index outside of a
    slice. *)
From Stdlib Require Import Ascii.
From S2P Require Import Prelude Numeric Common GoStd MasterCommon.
Local Open Scope Z_scope.

(** ** master_config.go *)

Record MasterCfg := mkMasterCfg {
  mc_Name : string; mc_Address : string; mc_ApiPort : Z; mc_EtcdPort : Z;
  mc_EtcdPeerPort : Z; mc_EtcdClientPort : Z; mc_Self : bool; mc_MonitorPort : Z
}.

Definition ApiUrl (m : MasterCfg) : string :=
  if mc_ApiPort m =? 80 then "http://" +:+ mc_Address m
  else "http://" +:+ mc_Address m +:+ ":" +:+ to_string (mc_ApiPort m).

Definition ClientAddress (ms : list MasterCfg) : list string :=
  (λ m, mc_Address m +:+ ":" +:+ to_string (mc_EtcdClientPort m)) <$> ms.

(** nil is [None]. *)
Definition Masters_Self (ms : list MasterCfg) : option MasterCfg := List.find mc_Self ms.

Definition AreMasterCfgsEqual (a b : MasterCfg) : bool :=
  bool_decide (mc_Address a = mc_Address b) && bool_decide (mc_Name a = mc_Name b).

Fixpoint masters_equal_loop (a b : list MasterCfg) : bool :=
  match a, b with
  | x :: a', y :: b' => AreMasterCfgsEqual x y && masters_equal_loop a' b'
  | _, _ => true
  end.
Definition MastersEqual (a b : list MasterCfg) : bool :=
  bool_decide (length a = length b) && masters_equal_loop a b.

(** ** config.go *)

(** [GetEtcdAddress] of the copy of the masters. *)
Definition GetEtcdAddress (ms : list MasterCfg) : list string := ClientAddress ms.

(** [None] is the panic of the division by zero. *)
Definition GetDataDirBySlot (data : list string) (pid : Z) : option string :=
  if bool_decide (data = []) then None
  else data !! Z.to_nat (Z.rem pid (Z.of_nat (length data))).

(** The sections; those that are pointers may be nil. *)
Record GlobalCfg := mkGlobalCfg {
  gc_Log : string; gc_Level : string; gc_LogFileNum : Z; gc_LogFileSize : Z;
  gc_Data : list string; gc_Name : string; gc_ResourceName : string; gc_Path : string;
  gc_SupportEtcdAuth : bool
}.
Record EtcdCfg := mkEtcdCfg {
  ec_AddressList : list string; ec_EtcdClientPort : Z; ec_Username : string; ec_Password : string
}.
Record RouterCfg := mkRouterCfg {
  rc_Port : Z; rc_PprofPort : Z; rc_RpcPort : Z; rc_MonitorPort : Z; rc_ConnLimit : Z;
  rc_CloseTimeout : Z; rc_RouterIPS : list string; rc_ConcurrentNum : Z; rc_RpcTimeOut : Z
}.
Record PSCfg := mkPSCfg {
  pc_RpcPort : Z; pc_PsHeartbeatTimeout : Z; pc_RaftHeartbeatPort : Z; pc_RaftReplicatePort : Z;
  pc_RaftHeartbeatInterval : Z; pc_RaftRetainLogs : Z; pc_RpcTimeOut : Z
}.
Record Config := mkConfig {
  cf_Global : option GlobalCfg; cf_EtcdConfig : option EtcdCfg; cf_Masters : list MasterCfg;
  cf_Router : option RouterCfg; cf_PS : option PSCfg
}.

(** The url of a router, by its position in the list. *)
Definition RouterCfg_ApiUrl (r : RouterCfg) (keyNumber : Z) : option string :=
  Addr ← if (0 <? Z.of_nat (length (rc_RouterIPS r))) &&
            (keyNumber <? Z.of_nat (length (rc_RouterIPS r)))
         then if keyNumber <? 0 then None else rc_RouterIPS r !! Z.to_nat keyNumber
         else Some "";
  Some (if rc_Port r =? 80 then "http://" +:+ Addr
        else "http://" +:+ Addr +:+ ":" +:+ to_string (rc_Port r)).

Definition GetLogDir (c : Config) : option string := gc_Log <$> cf_Global c.
Definition GetLevel (c : Config) : option string := gc_Level <$> cf_Global c.
Definition GetDataDir (c : Config) : option string := g ← cf_Global c; head (gc_Data g).
Definition GetDatas (c : Config) : option (list string) := gc_Data <$> cf_Global c.
Definition GetLogFileNum (c : Config) : option Z := gc_LogFileNum <$> cf_Global c.
Definition GetLogFileSize (c : Config) : option Z := gc_LogFileSize <$> cf_Global c.
Definition SetMasters (newMasters : list MasterCfg) (c : Config) : Config :=
  mkConfig (cf_Global c) (cf_EtcdConfig c) newMasters (cf_Router c) (cf_PS c).

(** What a function that may end the process comes to. *)
Inductive Outcome (A : Type) := Returns (a : A) | Exits (code : Z) | Panics.
Arguments Returns {A} _.
Arguments Exits {A} _.
Arguments Panics {A}.

Definition set_path (path : string) (g : GlobalCfg) : GlobalCfg :=
  mkGlobalCfg (gc_Log g) (gc_Level g) (gc_LogFileNum g) (gc_LogFileSize g) (gc_Data g)
    (gc_Name g) (gc_ResourceName g) path (gc_SupportEtcdAuth g).

Definition empty_Config : Config :=
  mkConfig (Some (mkGlobalCfg "" "" 0 0 [] "" "" "" false)) None [] None
    (Some (mkPSCfg 0 0 0 0 0 0 0)).

(** [DecodeFile] fills a configuration from a file, or fails. *)
Definition LoadConfig (DecodeFile : string → Config → string + Config) (conf : Config)
    (path : string) : Outcome Config :=
  if bool_decide (path = "") then Exits (-1)
  else match DecodeFile path conf with
       | inl _ => Exits (-1)
       | inr conf =>
           match cf_Global conf with
           | None => Panics
           | Some g => Returns (mkConfig (Some (set_path path g)) (cf_EtcdConfig conf)
                         (cf_Masters conf) (cf_Router conf) (cf_PS conf))
           end
       end.
Definition InitConfig (DecodeFile : string → Config → string + Config) (path : string)
    : Outcome Config := LoadConfig DecodeFile empty_Config path.

(** [SetConfigVersion] takes effect once. *)
Record BuildInfo := mkBuildInfo {
  versionOnce : bool; buildVersion : string; buildTime : string; commitID : string
}.
Definition initial_BuildInfo : BuildInfo := mkBuildInfo false "0.0" "0" "xxxxx".
Definition SetConfigVersion (bv bt ci : string) (b : BuildInfo) : BuildInfo :=
  if versionOnce b then b else mkBuildInfo true bv bt ci.

(** The regular expression of an address with a mask: four numbers separated by
    dots, a slash and a number. *)
Definition digits (s : string) : bool :=
  negb (bool_decide (s = "")) && str_forall (byte_in 48 57) s.
Definition is_cidr (s : string) : bool :=
  match Split s "/" with
  | [ip; mask] => bool_decide (length (Split ip ".") = 4%nat) && forallb digits (Split ip ".") && digits mask
  | _ => false
  end.

Definition LocalSingleAddr : string := "127.0.0.1".
Definition LocalCastAddr : string := "0.0.0.0".

(** The interfaces: an error, or the addresses of each; [None] is the panic. *)
Definition addrMap (interfaces : string + list (list string)) : option (gset string) :=
  match interfaces with
  | inl _ => None
  | inr ifaces =>
      Some (foldl (λ m addr, if is_cidr addr then {[default "" (head (Split addr "/"))]} ∪ m else m)
        {[LocalSingleAddr; LocalCastAddr]} (mjoin ifaces))
  end.

Definition set_self (m : MasterCfg) : MasterCfg :=
  mkMasterCfg (mc_Name m) (mc_Address m) (mc_ApiPort m) (mc_EtcdPort m) (mc_EtcdPeerPort m)
    (mc_EtcdClientPort m) true (mc_MonitorPort m).

Definition msg_no_master : string :=
  "None of the masters has the same ip address as current local master server's ip".

(** The loop over the masters: the error and the masters, whose entries it
    changes in place.  [resolve] is [net.ResolveIPAddr]. *)
Fixpoint current_loop (resolve : string → string + string) (addrs : gset string)
    (masterName : string) (ms : list MasterCfg) : option string * list MasterCfg :=
  match ms with
  | [] => (Some msg_no_master, [])
  | m :: rest =>
      let skip := let '(e, rest') := current_loop resolve addrs masterName rest in (e, m :: rest') in
      let here (domainIP : option string) : bool :=
        bool_decide (mc_Name m = masterName) || bool_decide (mc_Address m ∈ addrs) ||
        match domainIP with Some ip => bool_decide (ip ∈ addrs) | None => false end in
      if is_cidr (mc_Address m) then
        if here None then (None, set_self m :: rest) else skip
      else match resolve (mc_Address m) with
           | inl err => (Some err, m :: rest)
           | inr ip => if here (Some ip) then (None, set_self m :: rest) else skip
           end
  end.

Definition CurrentByMasterNameDomainIp (interfaces : string + list (list string))
    (resolve : string → string + string) (masterName : string) (ms : list MasterCfg)
    : option (option string * list MasterCfg) :=
  addrs ← addrMap interfaces; Some (current_loop resolve addrs masterName ms).

(** The part of [Validate] that counts the masters. *)
Definition Validate_masters (ms : list MasterCfg) : option string :=
  if 1 <? Z.of_nat (length (filter (λ m, mc_Self m = true) ms))
  then Some "two masters on one machine" else None.

(** The file system: [os.MkdirAll], and [os.Create] with the encoder behind it. *)
Section files.
Context {FS : Type} (MkdirAll : string → FS → option string * FS).
Context (Create : string → FS → option string * FS) (Encode : Config → FS → option string * FS).

Definition validatePath (c : Config) (fs : FS) : option (option string * FS) :=
  logDir ← GetLogDir c;
  let '(err, fs) := MkdirAll logDir fs in
  match err with
  | Some e => Some (Some e, fs)
  | None => dataDir ← GetDataDir c; Some (MkdirAll dataDir fs)
  end.

Inductive Model := Master | PS | Router.

Definition Validate (model : Model) (c : Config) (fs : FS) : option (option string * FS) :=
  match model with
  | Master =>
      match Validate_masters (cf_Masters c) with
      | Some e => Some (Some e, fs)
      | None => validatePath c fs
      end
  | _ => validatePath c fs
  end.

Definition DumpConfig (c : Config) (fs : FS) : option (option string * FS) :=
  g ← cf_Global c;
  if bool_decide (gc_Path g = "") then Some (Some "dump config path is empty", fs)
  else let '(err, fs) := Create (gc_Path g) fs in
       match err with
       | Some e => Some (Some e, fs)
       | None => Some (Encode c fs)
       end.
End files.

(** ** Specification *)

(** The entry is this process's, by its name, its address, or what its address
    resolves to. *)
Definition is_current (resolve : string → string + string) (addrs : gset string)
    (masterName : string) (m : MasterCfg) : Prop :=
  mc_Name m = masterName ∨ mc_Address m ∈ addrs ∨
  (is_cidr (mc_Address m) = false ∧
   match resolve (mc_Address m) with inr ip => ip ∈ addrs | inl _ => False end).

#[global] Instance is_current_dec resolve addrs name m : Decision (is_current resolve addrs name m).
Proof. unfold is_current. destruct (resolve (mc_Address m)); apply _. Defined.

(** Its address can be resolved, where it has to be. *)
Definition resolvable (resolve : string → string + string) (m : MasterCfg) : Prop :=
  is_cidr (mc_Address m) = true ∨ ∃ ip, resolve (mc_Address m) = inr ip.

(** ** Lemmas *)

Lemma current_loop_spec resolve addrs name ms :
  Forall (resolvable resolve) ms →
  current_loop resolve addrs name ms =
    match list_find (is_current resolve addrs name) ms with
    | Some (i, m) => (None, <[i := set_self m]> ms)
    | None => (Some msg_no_master, ms)
    end.
Proof.
  induction 1 as [|m ms Hm _ IH]; [done|]. cbn [current_loop list_find]. rewrite IH. clear IH.
  assert (∀ b : bool, (b = true ↔ is_current resolve addrs name m) →
    (if b then (None, set_self m :: ms)
     else let '(e, rest') := match list_find (is_current resolve addrs name) ms with
            | Some (i, m0) => (None, <[i:=set_self m0]> ms) | None => (Some msg_no_master, ms) end in
          (e, m :: rest')) =
    match (if decide (is_current resolve addrs name m) then Some (0%nat, m)
           else prod_map S id <$> list_find (is_current resolve addrs name) ms) with
    | Some (i, m0) => (None, <[i:=set_self m0]> (m :: ms))
    | None => (Some msg_no_master, m :: ms)
    end) as HB.
  { intros b Hb. destruct (decide (is_current resolve addrs name m)) as [Hc|Hc].
    - by rewrite (proj2 Hb Hc).
    - assert (b = false) as -> by (destruct b; [exfalso; apply Hc, Hb; done|done]).
      by destruct (list_find _ ms) as [[i m0]|]. }
  destruct Hm as [Hm|[ip Hip]].
  - rewrite Hm. apply HB. unfold is_current. rewrite Hm, !orb_true_iff, !bool_decide_eq_true.
    naive_solver.
  - destruct (is_cidr (mc_Address m)) eqn:Ec; rewrite ?Hip; apply HB; unfold is_current;
      rewrite ?Ec, ?Hip, !orb_true_iff, !bool_decide_eq_true; naive_solver.
Qed.

Lemma filter_self_insert ms i m :
  Forall (λ m, mc_Self m = false) ms → ms !! i = Some m →
  filter (λ m, mc_Self m = true) (<[i := set_self m]> ms) = [set_self m].
Proof.
  intros Hf Hi. assert (i < length ms)%nat by (by eapply lookup_lt_Some).
  rewrite insert_take_drop, filter_app by done.
  assert (∀ l : list MasterCfg, Forall (λ m, mc_Self m = false) l →
    filter (λ m, mc_Self m = true) l = []) as HN.
  { induction 1 as [|x l Hx _ IH]; [done|]. rewrite filter_cons_False by congruence. done. }
  rewrite HN by (by apply Forall_take). rewrite filter_cons_True by done.
  by rewrite HN by (by apply Forall_drop).
Qed.

(** ** Properties *)

(** The entry of this process: when every address resolves, exactly the first
    entry that has the given name or an address of this machine is marked, none
    is marked if there is no such entry, and the check for two masters on one
    machine, which counts the marks, cannot fail afterwards. *)
Theorem CurrentByMaster_marks_first (resolve : string → string + string)
    (ifaces : list (list string)) (name : string) (ms : list MasterCfg) :
  Forall (resolvable resolve) ms → Forall (λ m, mc_Self m = false) ms →
  ∃ addrs e ms', addrMap (inr ifaces) = Some addrs ∧
    CurrentByMasterNameDomainIp (inr ifaces) resolve name ms = Some (e, ms') ∧
    (e, ms') = match list_find (is_current resolve addrs name) ms with
               | Some (i, m) => (None, <[i := set_self m]> ms)
               | None => (Some msg_no_master, ms)
               end ∧
    Validate_masters ms' = None.
Proof.
  intros Hr Hs. unfold CurrentByMasterNameDomainIp. cbn [addrMap mbind option_bind].
  set (addrs := foldl _ _ _). exists addrs. rewrite current_loop_spec by done.
  destruct (list_find _ ms) as [[i m]|] eqn:E.
  - apply list_find_Some in E as (Hi & _).
    do 2 eexists. split; [done|]. split; [done|]. split; [done|].
    unfold Validate_masters. by rewrite (filter_self_insert _ _ m).
  - do 2 eexists. split; [done|]. split; [done|]. split; [done|]. unfold Validate_masters.
    assert (filter (λ m, mc_Self m = true) ms = []) as ->; [|done].
    clear -Hs. induction Hs as [|x l Hx _ IH]; [done|]. by rewrite filter_cons_False by congruence.
Qed.

Definition two_masters : list MasterCfg :=
  [mkMasterCfg "m1" "10.0.0.1" 80 2370 2380 2379 false 0;
   mkMasterCfg "m2" "10.0.0.2" 80 2370 2380 2379 false 0].

Lemma CurrentByMaster_marks_first_witness :
  CurrentByMasterNameDomainIp (inr [["10.0.0.2/24"]]) inr "master" two_masters =
    Some (None, <[1%nat := mkMasterCfg "m2" "10.0.0.2" 80 2370 2380 2379 true 0]> two_masters).
Proof.
  destruct (CurrentByMaster_marks_first inr [["10.0.0.2/24"]] "master" two_masters)
    as (addrs & e & ms & Ea & -> & E & _).
  - repeat (apply Forall_cons; split; [right; by eexists|]). apply Forall_nil. exact I.
  - repeat (apply Forall_cons; split; [reflexivity|]). apply Forall_nil. exact I.
  - injection Ea as <-. rewrite E. vm_compute. reflexivity.
Defined.
