(* ===== verification/MasterEntity.v ===== *)
(** * MasterEntity: src/master/entity

    The master's data: spaces as users give them ([ApiSpace]) and as the cluster
    keeps them ([InnerSpace]), their JSON form, the checks of a new space, and
    the lists of spaces and nodes that are read from etcd.  A Go map is a
    [gmap]; a loop over a map takes the entries in the order of the visit as an
    argument.  A nil dereference or an index outside of a slice is [None]. *)
From Stdlib Require Import Ascii.
From S2P Require Import Prelude Numeric Common Dto GoStd GoJson MasterCommon.
Local Open Scope Z_scope.

(** ** Data *)

Record Replica := mkReplica {
  PsID : Z; PsIP : string; PsPort : Z; IsLeader : Z; NodeStatus : string; Msg : string
}.

Record Partition := mkPartition {
  PartitionId : Z; GroupName : string; Replicas : slice Replica;
  pt_Ctime : string; pt_Mtime : string
}.

Record InnerIndex := mkInnerIndex {
  ii_Name : string; ii_Type : string; ii_Params : option string
}.

Record InnerField := mkInnerField {
  if_Name : string; if_Type : string; if_Dimension : Z; if_Index : option InnerIndex
}.

Record InnerSpace := mkInnerSpace {
  DbName : string; SpaceName : string; Id : Z; PartitionNum : Z; ReplicaNum : Z;
  Fields : slice InnerField; Partitions : slice Partition; IdType : string;
  Ctime : string; Mtime : string
}.

Record HNSW := mkHNSW {
  hn_MetricType : option string; hn_Nlinks : Z; hn_EfConstruction : Z; hn_EfSearch : Z
}.

Record IndexParams := mkIndexParams {
  ip_MetricType : string; ip_TrainingThreshold : Z; ip_Ncentroids : Z; ip_Nsubvector : Z;
  ip_Nlinks : Z; ip_EfConstruction : Z; ip_EfSearch : Z; ip_ThreadNum : Z;
  ip_Hnsw : option HNSW
}.

Record ApiIndex := mkApiIndex {
  ai_Name : string; ai_Type : string; ai_Params : option IndexParams
}.

Record ApiField := mkApiField {
  af_Name : string; af_Type : string; af_Dimension : Z; af_Index : option ApiIndex
}.

Record ApiSpace := mkApiSpace {
  api_DbName : string; api_SpaceName : string; api_Id : Z;
  api_PartitionNum : Z; api_ReplicaNum : Z;
  api_Fields : slice ApiField; api_Partitions : slice Partition; api_IdType : string;
  api_Ctime : string; api_Mtime : string
}.

(** The parameters of an IVFPQ index as they are passed on. *)
Record IVFPQ := mkIVFPQ {
  iv_MetricType : string; iv_TrainingThreshold : Z; iv_Ncentroids : Z; iv_Nsubvector : Z;
  iv_ThreadNum : Z; iv_Hnsw : option HNSW
}.

Record Status := mkStatus { Code : Z; st_Msg : string }.
Record CommonResponse := mkCommonResponse { cr_Status : Status }.
Record PsCreateSpaceRequest := mkPsCreateSpaceRequest {
  ps_Space : InnerSpace; ps_CurPartition : Partition
}.
Record DeleteSpaceRequest := mkDeleteSpaceRequest { ds_DbName : string; ds_SpaceName : string }.

Definition zero_Replica : Replica := mkReplica 0 "" 0 0 "" "".
Definition zero_Partition : Partition := mkPartition 0 "" None "" "".
Definition zero_InnerIndex : InnerIndex := mkInnerIndex "" "" None.
Definition zero_InnerField : InnerField := mkInnerField "" "" 0 None.
Definition zero_InnerSpace : InnerSpace := mkInnerSpace "" "" 0 0 0 None None "" "" "".
Definition zero_Response : CommonResponse := mkCommonResponse (mkStatus 0 "").

(** ** JSON *)

Definition is_empty (s : string) : bool := bool_decide (s = "").
Definition is_zero (z : Z) : bool := bool_decide (z = 0).
Definition len_zero {A} (s : slice A) : bool := match elems s with [] => true | _ => false end.
Definition is_nil {A} (p : option A) : bool := match p with None => true | _ => false end.
Definition enc_ptr {A} (enc : A → json) (p : option A) : json :=
  match p with None => JNull | Some x => enc x end.

Definition enc_Replica (r : Replica) : json :=
  JObj [("ps_id", enc_int (PsID r)); ("ps_ip", JStr (PsIP r)); ("ps_port", enc_int (PsPort r));
        ("is_leader", enc_int (IsLeader r)); ("node_status", JStr (NodeStatus r));
        ("msg", JStr (Msg r))].

Definition enc_Partition (p : Partition) : json :=
  JObj ([("partition_id", enc_int (PartitionId p)); ("group_name", JStr (GroupName p));
         ("replicas", enc_slice enc_Replica (Replicas p))] ++
        omit (is_empty (pt_Ctime p)) ("ctime", JStr (pt_Ctime p)) ++
        omit (is_empty (pt_Mtime p)) ("mtime", JStr (pt_Mtime p)) ++ []).

Definition enc_InnerIndex (x : InnerIndex) : json :=
  JObj ([("name", JStr (ii_Name x)); ("type", JStr (ii_Type x))] ++
        omit (is_nil (ii_Params x)) ("params", enc_ptr JStr (ii_Params x)) ++ []).

Definition enc_InnerField (f : InnerField) : json :=
  JObj ([("name", JStr (if_Name f)); ("type", JStr (if_Type f))] ++
        omit (is_zero (if_Dimension f)) ("dimension", enc_int (if_Dimension f)) ++
        omit (is_nil (if_Index f)) ("index", enc_ptr enc_InnerIndex (if_Index f)) ++ []).

Definition enc_InnerSpace (s : InnerSpace) : json :=
  JObj ([("db_name", JStr (DbName s)); ("space_name", JStr (SpaceName s))] ++
        omit (is_zero (Id s)) ("id", enc_int (Id s)) ++
        [("partition_num", enc_int (PartitionNum s)); ("replica_num", enc_int (ReplicaNum s));
         ("fields", enc_slice enc_InnerField (Fields s))] ++
        omit (len_zero (Partitions s)) ("partitions", enc_slice enc_Partition (Partitions s)) ++
        omit (is_empty (IdType s)) ("_id_type", JStr (IdType s)) ++
        omit (is_empty (Ctime s)) ("ctime", JStr (Ctime s)) ++
        omit (is_empty (Mtime s)) ("mtime", JStr (Mtime s)) ++ []).

Definition enc_HNSW (h : HNSW) : json :=
  JObj (omit (is_nil (hn_MetricType h)) ("metric_type", enc_ptr JStr (hn_MetricType h)) ++
        [("nlinks", enc_int (hn_Nlinks h)); ("efConstruction", enc_int (hn_EfConstruction h));
         ("efSearch", enc_int (hn_EfSearch h))]).

Definition enc_IVFPQ (v : IVFPQ) : json :=
  JObj ([("metric_type", JStr (iv_MetricType v))] ++
        omit (is_zero (iv_TrainingThreshold v))
          ("training_threshold", enc_int (iv_TrainingThreshold v)) ++
        [("ncentroids", enc_int (iv_Ncentroids v)); ("nsubvector", enc_int (iv_Nsubvector v))] ++
        omit (is_zero (iv_ThreadNum v)) ("thread_num", enc_int (iv_ThreadNum v)) ++
        omit (is_nil (iv_Hnsw v)) ("hnsw", enc_ptr enc_HNSW (iv_Hnsw v))).

(** Marshalling these types does not fail. *)
Definition SerializeToJson (s : InnerSpace) : string := print (enc_InnerSpace s).
Definition PsCreateSpaceRequest_SerializeToJson (r : PsCreateSpaceRequest) : string :=
  print (JObj [("space", enc_InnerSpace (ps_Space r));
               ("cur_partition", enc_Partition (ps_CurPartition r))]).
Definition AddSpaceRequest_SerializeToJson (space : InnerSpace) : string :=
  print (JObj [("space", enc_InnerSpace space)]).
Definition DeleteSpaceRequest_SerializeToJson (r : DeleteSpaceRequest) : string :=
  print (JObj [("db_name", JStr (ds_DbName r)); ("space_name", JStr (ds_SpaceName r))]).

(** The fields of a struct under their names, with the way each is decoded. *)

Definition Replica_fields : list (string * decoder Replica) :=
  [("ps_id", at_field (dec_int 64) PsID (λ x y, mkReplica y (PsIP x) (PsPort x) (IsLeader x)
     (NodeStatus x) (Msg x)));
   ("ps_ip", at_field dec_string PsIP (λ x y, mkReplica (PsID x) y (PsPort x) (IsLeader x)
     (NodeStatus x) (Msg x)));
   ("ps_port", at_field (dec_int 64) PsPort (λ x y, mkReplica (PsID x) (PsIP x) y (IsLeader x)
     (NodeStatus x) (Msg x)));
   ("is_leader", at_field (dec_int 64) IsLeader (λ x y, mkReplica (PsID x) (PsIP x) (PsPort x)
     y (NodeStatus x) (Msg x)));
   ("node_status", at_field dec_string NodeStatus (λ x y, mkReplica (PsID x) (PsIP x) (PsPort
     x) (IsLeader x) y (Msg x)));
   ("msg", at_field dec_string Msg (λ x y, mkReplica (PsID x) (PsIP x) (PsPort x) (IsLeader x)
     (NodeStatus x) y))].
Definition dec_Replica : decoder Replica := dec_struct Replica_fields.

Definition Partition_fields : list (string * decoder Partition) :=
  [("partition_id", at_field (dec_int 64) PartitionId (λ x y, mkPartition y (GroupName x)
     (Replicas x) (pt_Ctime x) (pt_Mtime x)));
   ("group_name", at_field dec_string GroupName (λ x y, mkPartition (PartitionId x) y (Replicas
     x) (pt_Ctime x) (pt_Mtime x)));
   ("replicas", at_field (dec_slice dec_Replica zero_Replica) Replicas (λ x y, mkPartition
     (PartitionId x) (GroupName x) y (pt_Ctime x) (pt_Mtime x)));
   ("ctime", at_field dec_string pt_Ctime (λ x y, mkPartition (PartitionId x) (GroupName x)
     (Replicas x) y (pt_Mtime x)));
   ("mtime", at_field dec_string pt_Mtime (λ x y, mkPartition (PartitionId x) (GroupName x)
     (Replicas x) (pt_Ctime x) y))].
Definition dec_Partition : decoder Partition := dec_struct Partition_fields.

Definition InnerIndex_fields : list (string * decoder InnerIndex) :=
  [("name", at_field dec_string ii_Name (λ x y, mkInnerIndex y (ii_Type x) (ii_Params x)));
   ("type", at_field dec_string ii_Type (λ x y, mkInnerIndex (ii_Name x) y (ii_Params x)));
   ("params", at_field (dec_ptr dec_string "") ii_Params (λ x y, mkInnerIndex (ii_Name x)
     (ii_Type x) y))].
Definition dec_InnerIndex : decoder InnerIndex := dec_struct InnerIndex_fields.

Definition InnerField_fields : list (string * decoder InnerField) :=
  [("name", at_field dec_string if_Name (λ x y, mkInnerField y (if_Type x) (if_Dimension x)
     (if_Index x)));
   ("type", at_field dec_string if_Type (λ x y, mkInnerField (if_Name x) y (if_Dimension x)
     (if_Index x)));
   ("dimension", at_field (dec_int 64) if_Dimension (λ x y, mkInnerField (if_Name x) (if_Type
     x) y (if_Index x)));
   ("index", at_field (dec_ptr dec_InnerIndex zero_InnerIndex) if_Index (λ x y, mkInnerField
     (if_Name x) (if_Type x) (if_Dimension x) y))].
Definition dec_InnerField : decoder InnerField := dec_struct InnerField_fields.

Definition InnerSpace_fields : list (string * decoder InnerSpace) :=
  [("db_name", at_field dec_string DbName (λ x y, mkInnerSpace y (SpaceName x) (Id x)
     (PartitionNum x) (ReplicaNum x) (Fields x) (Partitions x) (IdType x) (Ctime x) (Mtime x)));
   ("space_name", at_field dec_string SpaceName (λ x y, mkInnerSpace (DbName x) y (Id x)
     (PartitionNum x) (ReplicaNum x) (Fields x) (Partitions x) (IdType x) (Ctime x) (Mtime x)));
   ("id", at_field (dec_int 64) Id (λ x y, mkInnerSpace (DbName x) (SpaceName x) y
     (PartitionNum x) (ReplicaNum x) (Fields x) (Partitions x) (IdType x) (Ctime x) (Mtime x)));
   ("partition_num", at_field (dec_int 64) PartitionNum (λ x y, mkInnerSpace (DbName x)
     (SpaceName x) (Id x) y (ReplicaNum x) (Fields x) (Partitions x) (IdType x) (Ctime x) (Mtime
     x)));
   ("replica_num", at_field (dec_int 64) ReplicaNum (λ x y, mkInnerSpace (DbName x) (SpaceName
     x) (Id x) (PartitionNum x) y (Fields x) (Partitions x) (IdType x) (Ctime x) (Mtime x)));
   ("fields", at_field (dec_slice dec_InnerField zero_InnerField) Fields (λ x y, mkInnerSpace
     (DbName x) (SpaceName x) (Id x) (PartitionNum x) (ReplicaNum x) y (Partitions x) (IdType x)
     (Ctime x) (Mtime x)));
   ("partitions", at_field (dec_slice dec_Partition zero_Partition) Partitions (λ x y,
     mkInnerSpace (DbName x) (SpaceName x) (Id x) (PartitionNum x) (ReplicaNum x) (Fields x) y
     (IdType x) (Ctime x) (Mtime x)));
   ("_id_type", at_field dec_string IdType (λ x y, mkInnerSpace (DbName x) (SpaceName x) (Id x)
     (PartitionNum x) (ReplicaNum x) (Fields x) (Partitions x) y (Ctime x) (Mtime x)));
   ("ctime", at_field dec_string Ctime (λ x y, mkInnerSpace (DbName x) (SpaceName x) (Id x)
     (PartitionNum x) (ReplicaNum x) (Fields x) (Partitions x) (IdType x) y (Mtime x)));
   ("mtime", at_field dec_string Mtime (λ x y, mkInnerSpace (DbName x) (SpaceName x) (Id x)
     (PartitionNum x) (ReplicaNum x) (Fields x) (Partitions x) (IdType x) (Ctime x) y))].
Definition dec_InnerSpace : decoder InnerSpace := dec_struct InnerSpace_fields.

Definition Status_fields : list (string * decoder Status) :=
  [("code", at_field (dec_int 32) Code (λ x y, mkStatus y (st_Msg x)));
   ("msg", at_field dec_string st_Msg (λ x y, mkStatus (Code x) y))].
Definition dec_Status : decoder Status := dec_struct Status_fields.

Definition CommonResponse_fields : list (string * decoder CommonResponse) :=
  [("status", at_field (dec_struct Status_fields) cr_Status (λ x y, mkCommonResponse y))].
Definition dec_CommonResponse : decoder CommonResponse := dec_struct CommonResponse_fields.

(** [DeserializeFromByte]: the error of [json.Unmarshal] is declared in the
    scope of the [if] and the result of the function is never set, so the
    second component, the error, is always nil. *)
Definition DeserializeFromByte (spaceJson : string) (s : InnerSpace) : InnerSpace * bool :=
  let '(s', _) := Unmarshal dec_InnerSpace spaceJson s in (s', false).

(** ** Partitions, node keys *)

Definition CreatePartition (groupName : string) (partitionId replicaNum : Z) (timeStr : string)
    : Partition :=
  mkPartition partitionId groupName (Some (replicate (Z.to_nat replicaNum) zero_Replica))
    timeStr timeStr.

Definition GetAllNodeKeys (s : InnerSpace) : list string :=
  partition ← elems (Partitions s);
  (λ replica, PsIP replica +:+ "-" +:+ to_string (PsID replica)) <$> elems (Replicas partition).

(** ** SpaceList *)

Definition space_map_key (s : InnerSpace) : string := DbName s +:+ ":" +:+ SpaceName s.

Fixpoint space_list_loop (spaceJsonList : list string) (m : gmap string InnerSpace)
    : gmap string InnerSpace :=
  match spaceJsonList with
  | [] => m
  | spaceJson :: rest =>
      let '(s, err) := DeserializeFromByte spaceJson zero_InnerSpace in
      if err : bool then space_list_loop rest m
      else space_list_loop rest (<[space_map_key s := s]> m)
  end.

(** [SpaceList.NameToSpace] *)
Definition DeserializeFromByteList (spaceJsonList : list string) : gmap string InnerSpace :=
  space_list_loop spaceJsonList ∅.

Definition SerializeToJsonList (NameToSpace : gmap string InnerSpace) : gmap string string :=
  SerializeToJson <$> NameToSpace.

Definition replicas_of (space : InnerSpace) : list Replica :=
  partition ← elems (Partitions space); elems (Replicas partition).

Definition node_name (r : Replica) : string := GetPsNodeName (PsIP r) (PsPort r).

Fixpoint ps_map_loop (rs : list Replica) (m : gmap string Replica) : gmap string Replica :=
  match rs with
  | [] => m
  | replica :: rest => ps_map_loop rest (<[node_name replica := replica]> m)
  end.

(** [visit]: the spaces in the order of the loop over the map. *)
Definition GetAllPsMap (visit : list (string * InnerSpace)) : gmap string Replica :=
  ps_map_loop (visit ≫= λ '(_, space), replicas_of space) ∅.

(** ** ReplicaList *)

Fixpoint rep_loop (nodeKeys : list string) (m : gmap string Replica)
    : option (gmap string Replica) :=
  match nodeKeys with
  | [] => Some m
  | nodeKey :: rest =>
      '(psIP, psPort, psId) ← ParsePsRegisterKey nodeKey;
      let strNodeKey := GetPsNodeName psIP psPort in
      if bool_decide (is_Some (m !! strNodeKey)) then rep_loop rest m
      else rep_loop rest (<[strNodeKey := mkReplica psId psIP psPort 0 "" ""]> m)
  end.

Definition RepDeserializeFromByte (nodeKeys : list string) : option (gmap string Replica) :=
  rep_loop nodeKeys ∅.

Fixpoint key_in (key : string) (ms : list (gmap string Replica)) : bool :=
  match ms with
  | [] => false
  | m :: rest => if bool_decide (is_Some (m !! key)) then true else key_in key rest
  end.

Fixpoint GetAllIdlePsKeys (visit : list (string * Replica)) (busy : list (gmap string Replica))
    : list Replica :=
  match visit with
  | [] => []
  | (key, node) :: rest =>
      if key_in key busy then GetAllIdlePsKeys rest busy
      else node :: GetAllIdlePsKeys rest busy
  end.

Record RouterReplica := mkRouterReplica { RouterIP : string; RouterPort : Z }.

Fixpoint router_loop (nodeKeys : list string) (m : gmap string RouterReplica)
    : option (gmap string RouterReplica) :=
  match nodeKeys with
  | [] => Some m
  | nodeKey :: rest =>
      if bool_decide (is_Some (m !! nodeKey)) then router_loop rest m
      else
        '(ip, port) ← GetRouterNodeEtcdKey nodeKey;
        router_loop rest (<[nodeKey := mkRouterReplica ip port]> m)
  end.

Definition RouterDeserializeFromByte (nodeKeys : list string)
    : option (gmap string RouterReplica) := router_loop nodeKeys ∅.

(** [SpaceListRespone] after [Init], as JSON; [visit] as above. *)
Definition SpaceListRespone_Json (code : Z) (msg : string) (visit : list (string * InnerSpace))
    : string :=
  print (JObj [("code", enc_int code); ("msg", JStr msg);
               ("space_list", JArr (List.map (λ '(_, s), enc_InnerSpace s) visit))]).

(** ** Values that JSON can carry *)

Definition valid (s : string) : Prop := utf8_valid s = true.

Definition replica_ok (r : Replica) : Prop :=
  in_int64 (PsID r) ∧ in_int64 (PsPort r) ∧ in_int64 (IsLeader r) ∧
  valid (PsIP r) ∧ valid (NodeStatus r) ∧ valid (Msg r).

Definition partition_ok (p : Partition) : Prop :=
  in_int64 (PartitionId p) ∧ valid (GroupName p) ∧ Forall replica_ok (elems (Replicas p)) ∧
  valid (pt_Ctime p) ∧ valid (pt_Mtime p).

Definition index_ok (x : InnerIndex) : Prop :=
  valid (ii_Name x) ∧ valid (ii_Type x) ∧ valid (default "" (ii_Params x)).

Definition field_ok (f : InnerField) : Prop :=
  valid (if_Name f) ∧ valid (if_Type f) ∧ in_int64 (if_Dimension f) ∧
  index_ok (default zero_InnerIndex (if_Index f)).

Definition space_ok (s : InnerSpace) : Prop :=
  valid (DbName s) ∧ valid (SpaceName s) ∧ in_int64 (Id s) ∧
  in_int64 (PartitionNum s) ∧ in_int64 (ReplicaNum s) ∧
  Forall field_ok (elems (Fields s)) ∧
  Forall partition_ok (elems (Partitions s)) ∧ Partitions s ≠ Some [] ∧
  valid (IdType s) ∧ valid (Ctime s) ∧ valid (Mtime s).

(** ** Lemmas on JSON *)

Lemma omit_empty_str (s : string) : is_empty s = true → s = "".
Proof. unfold is_empty. by case_bool_decide. Qed.
Lemma omit_zero z : is_zero z = true → z = 0.
Proof. unfold is_zero. by case_bool_decide. Qed.
Lemma omit_nil {A} (p : option A) : is_nil p = true → p = None.
Proof. by destruct p. Qed.
Lemma omit_len {A} (s : slice A) : s ≠ Some [] → len_zero s = true → s = None.
Proof. by destruct s as [ [|??]|]. Qed.

(** The next member of a struct: always present, or left out when empty. *)
Ltac projections :=
  cbn [zero_Replica zero_Partition zero_InnerIndex zero_InnerField zero_InnerSpace
       PsID PsIP PsPort IsLeader NodeStatus Msg PartitionId GroupName Replicas pt_Ctime pt_Mtime
       ii_Name ii_Type ii_Params if_Name if_Type if_Dimension if_Index
       DbName SpaceName Id PartitionNum ReplicaNum Fields Partitions IdType Ctime Mtime].
Ltac member_by tac :=
  eapply dec_members_cons; [reflexivity|eapply decodes_at; tac|]; projections.
Ltac plain := member_by ltac:(first [by apply decodes_string | by apply decodes_int64]).
Ltac omitted_by L tac :=
  eapply dec_members_omit;
    [reflexivity| |left; eapply decodes_at; tac|]; projections; [by intros ->%L|].
Ltac omitted L := omitted_by L ltac:(first [by apply decodes_string | by apply decodes_int64]).

Lemma decodes_Replica r : replica_ok r → decodes dec_Replica zero_Replica (enc_Replica r) r.
Proof.
  intros (H1 & H2 & H3 & _). destruct r. unfold decodes. cbn in H1, H2, H3.
  cbn [dec_Replica dec_struct enc_Replica]. repeat plain. done.
Qed.

Lemma decodes_replicas s :
  Forall replica_ok (elems s) →
  decodes (dec_slice dec_Replica zero_Replica) None (enc_slice enc_Replica s) s.
Proof. intros Hs. apply decodes_slice. eapply Forall_impl; [done|]. apply decodes_Replica. Qed.

Lemma decodes_Partition p :
  partition_ok p → decodes dec_Partition zero_Partition (enc_Partition p) p.
Proof.
  intros (H1 & _ & H2 & _). destruct p as [pid gn rs ct mt]. unfold decodes. cbn in H1, H2.
  cbn [dec_Partition dec_struct enc_Partition app]. do 2 plain.
  member_by ltac:(by apply decodes_replicas). do 2 omitted omit_empty_str. done.
Qed.

Lemma decodes_partitions s :
  Forall partition_ok (elems s) →
  decodes (dec_slice dec_Partition zero_Partition) None (enc_slice enc_Partition s) s.
Proof. intros Hs. apply decodes_slice. eapply Forall_impl; [done|]. apply decodes_Partition. Qed.

Lemma decodes_InnerIndex x : decodes dec_InnerIndex zero_InnerIndex (enc_InnerIndex x) x.
Proof.
  destruct x as [n t p]. unfold decodes. cbn [dec_InnerIndex dec_struct enc_InnerIndex app].
  do 2 plain. destruct p as [s|]; [|done]. cbn [is_nil omit app].
  eapply dec_members_cons; [reflexivity|by eapply decodes_at, decodes_ptr|]. done.
Qed.

Lemma decodes_InnerField f :
  field_ok f → decodes dec_InnerField zero_InnerField (enc_InnerField f) f.
Proof.
  intros (_ & _ & H & _). destruct f as [n t d i]. unfold decodes. cbn in H.
  cbn [dec_InnerField dec_struct enc_InnerField app]. do 2 plain. omitted omit_zero.
  destruct i as [x|]; [|done]. cbn [is_nil omit app].
  eapply dec_members_cons;
    [reflexivity|eapply decodes_at, decodes_ptr; [done|apply decodes_InnerIndex]|]. done.
Qed.

Lemma decodes_fields s :
  Forall field_ok (elems s) →
  decodes (dec_slice dec_InnerField zero_InnerField) None (enc_slice enc_InnerField s) s.
Proof. intros Hs. apply decodes_slice. eapply Forall_impl; [done|]. apply decodes_InnerField. Qed.

Lemma decodes_InnerSpace s :
  space_ok s → decodes dec_InnerSpace zero_InnerSpace (enc_InnerSpace s) s.
Proof.
  intros (_ & _ & H1 & H2 & H3 & H4 & H5 & H6 & _). destruct s as [d n i pn rn fs ps it ct mt].
  unfold decodes. cbn in H1, H2, H3, H4, H5, H6.
  cbn [dec_InnerSpace dec_struct enc_InnerSpace app]. do 2 plain. omitted omit_zero. do 2 plain.
  member_by ltac:(by apply decodes_fields).
  omitted_by (omit_len ps H6) ltac:(by apply decodes_partitions).
  do 3 omitted omit_empty_str. done.
Qed.

Lemma wf_app m1 m2 : wf_json (JObj (m1 ++ m2)) ↔ wf_json (JObj m1) ∧ wf_json (JObj m2).
Proof. rewrite !wf_obj. apply Forall_app. Qed.
Lemma wf_omit e k j : utf8_valid k = true → wf_json j ∨ e = true → wf_json (JObj (omit e (k, j))).
Proof. destruct e; simpl; naive_solver. Qed.
Lemma wf_slice {A} (enc : A → json) s :
  Forall (λ x, wf_json (enc x)) (elems s) → wf_json (enc_slice enc s).
Proof.
  destruct s as [l|]; [|done]. cbn [elems default id enc_slice]. rewrite wf_arr.
  by rewrite List.Forall_map.
Qed.
Lemma wf_int z : wf_json (enc_int z).
Proof. by exists z. Qed.

Lemma wf_cons k j m :
  utf8_valid k = true → wf_json j → wf_json (JObj m) → wf_json (JObj ((k, j) :: m)).
Proof. by intros ???. Qed.
Lemma wf_nil : wf_json (JObj []).
Proof. done. Qed.

(** The members of an object one by one. *)
Ltac wf_parts :=
  repeat first
    [apply wf_nil | apply wf_app; split | apply wf_omit; [reflexivity|left]
    | apply wf_cons; [reflexivity| |]];
  try first [assumption | apply wf_int].

Lemma wf_Replica r : replica_ok r → wf_json (enc_Replica r).
Proof. intros (_ & _ & _ & H1 & H2 & H3). unfold enc_Replica. wf_parts. Qed.

Lemma wf_Partition p : partition_ok p → wf_json (enc_Partition p).
Proof.
  intros (_ & H1 & H2 & H3 & H4). unfold enc_Partition. wf_parts.
  apply wf_slice. eapply Forall_impl; [done|]. apply wf_Replica.
Qed.

Lemma wf_InnerIndex x : index_ok x → wf_json (enc_InnerIndex x).
Proof.
  intros (H1 & H2 & H3). unfold enc_InnerIndex. wf_parts. by destruct (ii_Params x).
Qed.

Lemma wf_InnerField f : field_ok f → wf_json (enc_InnerField f).
Proof.
  intros (H1 & H2 & _ & H3). unfold enc_InnerField. wf_parts.
  destruct (if_Index f); [by apply wf_InnerIndex|done].
Qed.

Lemma wf_InnerSpace s : space_ok s → wf_json (enc_InnerSpace s).
Proof.
  intros (H1 & H2 & _ & _ & _ & H3 & H4 & _ & H5 & H6 & H7). unfold enc_InnerSpace. wf_parts.
  - apply wf_slice. eapply Forall_impl; [done|]. apply wf_InnerField.
  - apply wf_slice. eapply Forall_impl; [done|]. apply wf_Partition.
Qed.

Lemma depth_arr l n : Forall (λ j, depth j ≤ n)%N l → (depth (JArr l) ≤ N.succ n)%N.
Proof.
  intros H. cbn [depth].
  enough (foldr (λ x k, N.max (depth x) k) 0%N l ≤ n)%N by lia.
  induction H as [|j l Hj _ IH]; simpl; lia.
Qed.

Lemma depth_obj m n :
  Forall (λ kv, depth (snd kv) ≤ n)%N m → (depth (JObj m) ≤ N.succ n)%N.
Proof.
  intros H. cbn [depth].
  enough (foldr (λ kv k, N.max (depth (snd kv)) k) 0%N m ≤ n)%N by lia.
  induction H as [|j l Hj _ IH]; simpl; lia.
Qed.

Lemma depth_slice {A} (enc : A → json) s n :
  (∀ x, depth (enc x) ≤ n)%N → (depth (enc_slice enc s) ≤ N.succ n)%N.
Proof.
  intros H. destruct s as [l|]; [|simpl; lia]. apply depth_arr.
  apply List.Forall_map. by apply Forall_true.
Qed.

(** The members of an object one by one. *)
Ltac depth_parts n :=
  apply (depth_obj _ n); repeat first
    [apply Forall_nil; exact I | apply Forall_app; split | apply Forall_cons; split
    | match goal with |- Forall _ (omit ?e _) => destruct e end]; cbn [snd];
  try (cbn [depth enc_int]; lia).

Lemma depth_Replica r : (depth (enc_Replica r) ≤ 1)%N.
Proof. depth_parts 0%N. Qed.
Lemma depth_Partition p : (depth (enc_Partition p) ≤ 3)%N.
Proof. depth_parts 2%N. apply (depth_slice _ _ 1), depth_Replica. Qed.
Lemma depth_InnerIndex x : (depth (enc_InnerIndex x) ≤ 1)%N.
Proof. depth_parts 0%N. by destruct (ii_Params x). Qed.
Lemma depth_InnerField f : (depth (enc_InnerField f) ≤ 2)%N.
Proof. depth_parts 1%N. destruct (if_Index f); [apply depth_InnerIndex|simpl; lia]. Qed.
Lemma depth_InnerSpace s : (depth (enc_InnerSpace s) ≤ 5)%N.
Proof.
  depth_parts 4%N.
  - etrans; [apply depth_slice, depth_InnerField|lia].
  - apply (depth_slice _ _ 3), depth_Partition.
Qed.

Lemma space_roundtrip s :
  space_ok s → DeserializeFromByte (SerializeToJson s) zero_InnerSpace = (s, false).
Proof.
  intros Hs. unfold DeserializeFromByte, Unmarshal, SerializeToJson.
  rewrite parse_print; [by rewrite decodes_InnerSpace|by apply wf_InnerSpace|].
  pose proof (depth_InnerSpace s). unfold maxNestingDepth. lia.
Qed.

(** ** Lemmas on the lists *)

Lemma ps_map_loop_dom rs m k :
  is_Some (ps_map_loop rs m !! k) ↔ k ∈ node_name <$> rs ∨ is_Some (m !! k).
Proof.
  revert m. induction rs as [|r rs IH]; intros m; cbn [ps_map_loop fmap list_fmap].
  - set_solver.
  - rewrite IH, elem_of_cons, lookup_insert_is_Some'. naive_solver.
Qed.

Lemma GetAllPsMap_dom visit k :
  is_Some (GetAllPsMap visit !! k) ↔
  ∃ name space, (name, space) ∈ visit ∧ k ∈ node_name <$> replicas_of space.
Proof.
  unfold GetAllPsMap. rewrite ps_map_loop_dom, lookup_empty, list_elem_of_fmap.
  setoid_rewrite list_elem_of_bind. setoid_rewrite list_elem_of_fmap. split.
  - intros [(r & -> & [[n sp] [Hr Hv]])|[? [=]]]. naive_solver.
  - intros (n & sp & Hv & r & -> & Hr). left. exists r. split; [done|]. by exists (n, sp).
Qed.

(** Every node is filed under its own name, and comes from one of the keys. *)
Definition node_map_ok (m : gmap string Replica) : Prop :=
  ∀ k r, m !! k = Some r → node_name r = k ∧ IsLeader r = 0 ∧ NodeStatus r = "" ∧ Msg r = "".

Lemma rep_loop_ok keys m m' :
  node_map_ok m → rep_loop keys m = Some m' →
  node_map_ok m' ∧
  (∀ k r, m' !! k = Some r → m !! k = Some r ∨
     ∃ key, key ∈ keys ∧ ParsePsRegisterKey key = Some (PsIP r, PsPort r, PsID r)).
Proof.
  revert m. induction keys as [|key keys IH]; intros m Hm; cbn [rep_loop].
  { intros [= <-]. auto. }
  destruct (ParsePsRegisterKey key) as [[[ip port] id]|] eqn:Ek; [|done]. cbn [mbind option_bind].
  case_bool_decide as Hin.
  - intros [H1 H2]%IH; [|done]. split; [done|]. intros k r Hk.
    destruct (H2 k r Hk) as [|(key' & ? & ?)]; [by left|right; exists key'; set_solver].
  - intros [H1 H2]%IH.
    + split; [done|]. intros k r Hk. destruct (H2 k r Hk) as [Hi|(key' & ? & ?)].
      * apply lookup_insert_Some in Hi as [[<- <-]|[_ Hi]]; [|by left].
        right. exists key. set_solver.
      * right. exists key'. set_solver.
    + intros k r Hi. apply lookup_insert_Some in Hi as [[<- <-]|[_ Hi]]; [done|by apply Hm].
Qed.

Lemma RepDeserializeFromByte_ok keys m :
  RepDeserializeFromByte keys = Some m →
  node_map_ok m ∧
  (∀ k r, m !! k = Some r →
     ∃ key, key ∈ keys ∧ ParsePsRegisterKey key = Some (PsIP r, PsPort r, PsID r)).
Proof.
  intros H. apply rep_loop_ok in H as [H1 H2]; [|by intros k r ?%lookup_empty_Some].
  split; [done|]. intros k r Hk. by destruct (H2 k r Hk) as [?%lookup_empty_Some|].
Qed.

Lemma key_in_spec key ms : key_in key ms = true ↔ ∃ m, m ∈ ms ∧ is_Some (m !! key).
Proof.
  induction ms as [|m ms IH]; cbn [key_in]; [set_solver|].
  case_bool_decide; setoid_rewrite elem_of_cons; naive_solver.
Qed.

Lemma GetAllIdlePsKeys_filter visit busy :
  GetAllIdlePsKeys visit busy = (filter (λ kn, key_in kn.1 busy = false) visit).*2.
Proof.
  induction visit as [|[k n] visit IH]; [done|]. cbn [GetAllIdlePsKeys].
  rewrite filter_cons, IH. simpl. by destruct (key_in k busy).
Qed.

(** The idle nodes: distinct, none of them busy. *)
Lemma GetAllIdlePsKeys_spec visit (m : gmap string Replica) busy :
  node_map_ok m → visit ≡ₚ map_to_list m →
  NoDup (node_name <$> GetAllIdlePsKeys visit busy) ∧
  (∀ r, r ∈ GetAllIdlePsKeys visit busy ↔
     m !! node_name r = Some r ∧ ∀ b, b ∈ busy → b !! node_name r = None).
Proof.
  intros Hm Hv. rewrite GetAllIdlePsKeys_filter.
  assert (∀ kn, kn ∈ visit → node_name kn.2 = kn.1) as Hn.
  { intros [k n]. rewrite Hv, elem_of_map_to_list. by intros [? _]%Hm. }
  split.
  - assert (node_name <$> (filter (λ kn, key_in kn.1 busy = false) visit).*2 =
      (filter (λ kn, key_in kn.1 busy = false) visit).*1) as ->.
    { rewrite <-list_fmap_compose. apply list_fmap_ext. intros i kn Hi%list_elem_of_lookup_2.
      apply list_elem_of_filter in Hi as [_ Hi]. by apply Hn. }
    assert (NoDup visit.*1) as Hd by (rewrite Hv; apply NoDup_fst_map_to_list).
    eapply sublist_NoDup; [done|]. apply fmap_sublist, sublist_filter.
  - intros r. rewrite list_elem_of_fmap. split.
    + intros ([k n] & -> & [Hk Hi]%list_elem_of_filter). pose proof (Hn _ Hi) as E. simpl in *.
      subst k. rewrite Hv, elem_of_map_to_list in Hi. split; [done|]. intros b Hb.
      apply not_true_iff_false in Hk. rewrite key_in_spec in Hk.
      apply eq_None_not_Some. naive_solver.
    + intros [Hr Hb]. exists (node_name r, r). split; [done|]. apply list_elem_of_filter.
      split; [|by rewrite Hv, elem_of_map_to_list]. apply not_true_iff_false. simpl.
      rewrite key_in_spec. intros (b & Hbb & [x Hx]). rewrite Hb in Hx; done.
Qed.

(** ** Properties *)

(** C31. A space that is written to etcd is read back: for a space with strings of
    valid UTF-8, numbers of 64 bits and, if any, at least one partition, parsing
    its JSON text gives the space.  But reading never fails: a value that is not
    JSON at all is taken for the space without a name. *)
Theorem stored_space_is_read (s : InnerSpace) :
  space_ok s →
  DeserializeFromByte (SerializeToJson s) zero_InnerSpace = (s, false) ∧
  (∀ x old, snd (DeserializeFromByte x old) = false) ∧
  (∀ x, parse x = None → DeserializeFromByteList [x] = {[ ":" := zero_InnerSpace ]}).
Proof.
  intros Hs. split_and!.
  - by apply space_roundtrip.
  - intros x old. unfold DeserializeFromByte. by destruct (Unmarshal _ x old).
  - intros x Hx. unfold DeserializeFromByteList. cbn [space_list_loop].
    unfold DeserializeFromByte, Unmarshal. by rewrite Hx.
Qed.

Definition goods_space : InnerSpace :=
  mkInnerSpace "shop_db" "goods_1" 7 1 1
    (Some [mkInnerField "vec" "vector" 128 (Some (mkInnerIndex "ix" "FLAT" None))])
    (Some [mkPartition 0 "shop_db:goods_1:0"
      (Some [mkReplica 1 "10.0.0.1" 8081 0 "" ""]) "t" "t"]) "" "t" "t".

Lemma goods_space_ok : space_ok goods_space.
Proof.
  repeat match goal with
  | |- _ ∧ _ => split
  | |- Forall _ _ => constructor
  | |- space_ok _ => unfold space_ok
  | |- field_ok _ => unfold field_ok
  | |- index_ok _ => unfold index_ok
  | |- partition_ok _ => unfold partition_ok
  | |- replica_ok _ => unfold replica_ok
  | |- in_int64 _ => unfold in_int64; cbn; lia
  | |- valid _ => reflexivity
  | |- _ ≠ _ => discriminate
  end.
Qed.

Lemma stored_space_is_read_witness :
  DeserializeFromByte (SerializeToJson goods_space) zero_InnerSpace = (goods_space, false) ∧
  parse "; success" = None.
Proof.
  split; [|reflexivity]. apply (stored_space_is_read goods_space), goods_space_ok.
Defined.
