(* ===== verification/MasterCheck.v ===== *)
(** * MasterCheck: the checks of a new space

    [NameValidate] of src/master/entity/space.go, and [CheckApiSpace] and
    [ApiSpaceToInnerSpace] of src/master/entity/dto.go.  The result of a check
    is a message, empty when it passes; [None] is the panic of a nil
    dereference. *)
From Stdlib Require Import Ascii.
From S2P Require Import Prelude Numeric Common Dto GoStd GoJson MasterCommon MasterEntity.
Local Open Scope Z_scope.

(** ** Names *)

(** [unicode.IsLetter] of a rune below 256. *)
Definition is_letter (a : ascii) : bool :=
  byte_in 65 90 a || byte_in 97 122 a || byte_in 170 170 a || byte_in 181 181 a ||
  byte_in 186 186 a || byte_in 192 214 a || byte_in 216 246 a || byte_in 248 255 a.

(** The class [[a-zA-Z0-9_-]]. *)
Definition name_char (a : ascii) : bool :=
  byte_in 97 122 a || byte_in 65 90 a || byte_in 48 57 a || is_byte 95 a || is_byte 45 a.

(** [^[a-zA-Z0-9_-]+$] *)
Definition name_regexp (s : string) : bool :=
  negb (bool_decide (s = "")) && str_forall name_char s.

Definition NameValidate (s : string) : string :=
  if (String.length s <=? 5)%nat then "长度应该 > 5"
  else match s with
  | EmptyString => ""
  | String first _ =>
      if negb (is_letter first) then "首字母应该为大/小写字母"
      else if negb (name_regexp s) then "应该只包含大小字母、数字、'-' 或者 '_'"
      else ""
  end.

(** ** Messages

    [fmt.Sprintf] of a format with verbs [%v] for slices of strings; other
    verbs, which a type given by the user could contain, are copied. *)
Fixpoint spaced (l : list string) : string :=
  match l with
  | [] => ""
  | [x] => x
  | x :: l' => x +:+ " " +:+ spaced l'
  end.
Definition fmt_slice (l : list string) : string := "[" +:+ spaced l +:+ "]".

Fixpoint Sprintf (f : string) (args : list (list string)) : string :=
  match f with
  | EmptyString => ""
  | String a t =>
      match t with
      | String b u =>
          if is_byte 37 a && is_byte 118 b then
            match args with
            | x :: args' => fmt_slice x +:+ Sprintf u args'
            | [] => "%!v(MISSING)" +:+ Sprintf u args
            end
          else String a (Sprintf t args)
      | EmptyString => String a ""
      end
  end.

Definition msg_partition_num (n : Z) : string :=
  "PartitionNum[" +:+ to_string n +:+ "] error, num range [1, 100]".
Definition msg_replica_num (n : Z) : string :=
  "ReplicaNum[" +:+ to_string n +:+ "] error, it should in (1, 3, 5)".
Definition msg_partitions : string := "CreateSpace api, Partitions info should is null".
Definition msg_id_type : string :=
  Sprintf "CreateSpace api, _id_type only support %v." [DocKeyTypes].

(** ** The fields

    The index parameters of a vector field, by the type of the index. *)
Definition check_index_params (ty : string) (p : IndexParams) : string :=
  if bool_decide (ty = "IVFPQ") then
    if (ip_Ncentroids p <? 2) || (ip_Nsubvector p <? 2) then
      "IVFPQ index, ncentroids and nsubvector should be setted. "
    else match ip_Hnsw p with
    | Some h =>
        if (hn_Nlinks h <? 2) || (hn_EfConstruction h <? 2) || (hn_EfSearch h <? 2) then
          "IVFPQ HNSW index, efSearch and nlinks and efConstruction should be setted. "
        else ""
    | None => ""
    end
  else if bool_decide (ty = "HNSW") then
    if (ip_Nlinks p <? 2) || (ip_EfConstruction p <? 2) || (ip_EfSearch p <? 2) then
      "HNSW index, efSearch and nlinks and efConstruction should be setted. "
    else ""
  else if bool_decide (ty = "IVFFLAT") then
    if ip_Ncentroids p <? 2 then "IVFFLAT index, ncentroids should be setted. " else ""
  else if bool_decide (ty = "VEARCH") then
    if (ip_Ncentroids p <? 2) || (ip_Nsubvector p <? 2) then
      "VEARCH index, ncentroids and nsubvector should be setted. "
    else ""
  else if bool_decide (ty = "FLAT") then ""
  else if bool_decide (ty = "BINARYIVF") then
    if ip_Ncentroids p <? 2 then "BINARYIVF index, ncentroids should be setted. " else ""
  else "vector index type errr, it is in [IVFPQ, HNSW, IVFFLAT, VEARCH, FLAT, BINARYIVF]; ".

(** A vector field when [n] were accepted before it. *)
Definition check_vector (n : Z) (f : ApiField) : option string :=
  if 1 <? n then Some "has 2 vector field, now only allow 1 vector field. "
  else if (af_Dimension f <? 1) || (65536 <? af_Dimension f) then
    Some "vector Dimension, should in [1, 65536]. "
  else match af_Index f with
  | None => Some "please set vector index info. "
  | Some ix =>
      if negb (InSlice (ai_Type ix) VectorIndexTypes) then
        Some (Sprintf ("vector index type:" +:+ ai_Type ix +:+ " is failed, it should is %v. ")
          [VectorIndexTypes])
      else
        p ← ai_Params ix;
        if negb (InSlice (ip_MetricType p) MetricType) then
          Some (Sprintf "metric_type should is %v. " [MetricType])
        else Some (check_index_params (ai_Type ix) p)
  end.

Definition check_scalar (f : ApiField) : string :=
  match af_Index f with
  | Some ix =>
      if negb (InSlice (ai_Type ix) ScalarIndexTypes) then
        Sprintf ("scalar index type:" +:+ ai_Type ix +:+ " is failed, it should is %v")
          [ScalarIndexTypes]
      else ""
  | None => ""
  end.

(** The variables of the loop: [msg], the two counters and the names seen. *)
Record CheckState := mkCheckState {
  ck_msg : string; vector_field_num : Z; scalar_field_num : Z;
  indexNameMp : list string; fieldNameMp : list string
}.

Definition add_msg (m : string) (st : CheckState) : CheckState :=
  mkCheckState (ck_msg st +:+ m) (vector_field_num st) (scalar_field_num st)
    (indexNameMp st) (fieldNameMp st).

(** The part of the loop body after the names: by the type of the field. *)
Definition check_type (f : ApiField) (st : CheckState) : option CheckState :=
  if InSlice (af_Type f) ScalarFieldTypes then
    let m := check_scalar f in
    if! m then Some (add_msg m st)
    else Some (mkCheckState (ck_msg st) (vector_field_num st)
      (match af_Index f with Some _ => scalar_field_num st + 1 | None => scalar_field_num st end)
      (indexNameMp st) (fieldNameMp st))
  else if InSlice (af_Type f) VectorFieldTypes then
    m ← check_vector (vector_field_num st) f;
    if! m then Some (add_msg m st)
    else Some (mkCheckState (ck_msg st) (vector_field_num st + 1) (scalar_field_num st)
      (indexNameMp st) (fieldNameMp st))
  else Some (add_msg (Sprintf ("Field type:" +:+ af_Type f +:+ " is error, it should is %v or %v. ")
    [ScalarFieldTypes; VectorFieldTypes]) st).

Definition check_field (f : ApiField) (st : CheckState) : option CheckState :=
  if bool_decide (af_Name f = "") then Some (add_msg "Field name is null. " st)
  else if InSlice (af_Name f) (fieldNameMp st) then
    Some (add_msg ("Field name:" +:+ af_Name f +:+ " is repeated. ") st)
  else
    let st := mkCheckState (ck_msg st) (vector_field_num st) (scalar_field_num st)
      (indexNameMp st) (af_Name f :: fieldNameMp st) in
    match af_Index f with
    | Some ix =>
        if bool_decide (ai_Name ix = "") then Some (add_msg "Field Index name is null. " st)
        else if InSlice (ai_Name ix) (indexNameMp st) then
          Some (add_msg ("index name:" +:+ ai_Name ix +:+ " is repeated. ") st)
        else check_type f (mkCheckState (ck_msg st) (vector_field_num st) (scalar_field_num st)
          (ai_Name ix :: indexNameMp st) (fieldNameMp st))
    | None => check_type f st
    end.

Fixpoint check_fields (fs : list ApiField) (st : CheckState) : option CheckState :=
  match fs with
  | [] => Some st
  | f :: fs' => st' ← check_field f st; check_fields fs' st'
  end.

Definition CheckApiSpace (s : ApiSpace) : option string :=
  let e := NameValidate (api_DbName s) in
  if! e then Some ("DbName 格式错误：" +:+ e) else
  let e := NameValidate (api_SpaceName s) in
  if! e then Some ("Space Name 格式错误：" +:+ e) else
  if (api_PartitionNum s <=? 0) || (100 <? api_PartitionNum s) then
    Some (msg_partition_num (api_PartitionNum s))
  else if (api_ReplicaNum s <=? 0) || (Z.rem (api_ReplicaNum s) 2 =? 0) || (5 <? api_ReplicaNum s)
  then Some (msg_replica_num (api_ReplicaNum s))
  else if negb (len_zero (api_Partitions s)) then Some msg_partitions
  else if InSlice (api_IdType s) DocKeyTypes then Some msg_id_type
  else
    st ← check_fields (elems (api_Fields s)) (mkCheckState "" 0 0 [] []);
    Some (if vector_field_num st =? 0 then ck_msg st +:+ "There is no vector field. "
          else ck_msg st).

(** ** ApiSpaceToInnerSpace *)

(** The parameters that are passed on, as JSON text: those of IVFPQ and VEARCH,
    and those of HNSW. *)
Definition inner_params (ty : string) (p : IndexParams) : option string :=
  if bool_decide (ty = "IVFPQ") || bool_decide (ty = "VEARCH") then
    Some (print (enc_IVFPQ (mkIVFPQ (ip_MetricType p) (ip_TrainingThreshold p) (ip_Ncentroids p)
      (ip_Nsubvector p) (ip_ThreadNum p) (ip_Hnsw p))))
  else if bool_decide (ty = "HNSW") then
    Some (print (enc_HNSW (mkHNSW (Some (ip_MetricType p)) (ip_Nlinks p) (ip_EfConstruction p)
      (ip_EfSearch p))))
  else None.

(** The index is only set when it has parameters. *)
Definition inner_index (i : option ApiIndex) : option InnerIndex :=
  ix ← i; p ← ai_Params ix;
  Some (mkInnerIndex (ai_Name ix) (ai_Type ix) (inner_params (ai_Type ix) p)).

Definition inner_field (f : ApiField) : InnerField :=
  mkInnerField (af_Name f) (af_Type f) (af_Dimension f) (inner_index (af_Index f)).

Fixpoint inner_fields (fs : list ApiField) (acc : slice InnerField) : slice InnerField :=
  match fs with
  | [] => acc
  | f :: fs' => inner_fields fs' (append1 acc (inner_field f))
  end.

Definition ApiSpaceToInnerSpace (s : ApiSpace) : InnerSpace :=
  mkInnerSpace (api_DbName s) (api_SpaceName s) (api_Id s) (api_PartitionNum s)
    (api_ReplicaNum s) (inner_fields (elems (api_Fields s)) None) (api_Partitions s)
    (api_IdType s) (api_Ctime s) (api_Mtime s).

(** ** Specification *)

Definition ascii_letter (a : ascii) : bool := byte_in 65 90 a || byte_in 97 122 a.

Definition name_ok (s : string) : Prop :=
  (5 < String.length s)%nat ∧ str_forall name_char s = true ∧
  ∃ c t, s = String c t ∧ ascii_letter c = true.

Definition params_ok (ty : string) (p : IndexParams) : Prop :=
  (ty = "IVFPQ" ∨ ty = "VEARCH" → 2 ≤ ip_Ncentroids p ∧ 2 ≤ ip_Nsubvector p) ∧
  (ty = "IVFPQ" → ∀ h, ip_Hnsw p = Some h →
     2 ≤ hn_Nlinks h ∧ 2 ≤ hn_EfConstruction h ∧ 2 ≤ hn_EfSearch h) ∧
  (ty = "HNSW" → 2 ≤ ip_Nlinks p ∧ 2 ≤ ip_EfConstruction p ∧ 2 ≤ ip_EfSearch p) ∧
  (ty = "IVFFLAT" ∨ ty = "BINARYIVF" → 2 ≤ ip_Ncentroids p).

Definition scalar_ok (f : ApiField) : Prop :=
  af_Type f ∈ ScalarFieldTypes ∧ ∀ ix, af_Index f = Some ix → ai_Type ix = "SCALAR".

Definition vector_ok (f : ApiField) : Prop :=
  af_Type f = "vector" ∧ 1 ≤ af_Dimension f ≤ 65536 ∧
  ∃ ix p, af_Index f = Some ix ∧ ai_Params ix = Some p ∧
    ai_Type ix ∈ VectorIndexTypes ∧ ip_MetricType p ∈ MetricType ∧ params_ok (ai_Type ix) p.

Definition is_vector (f : ApiField) : bool := bool_decide (af_Type f = "vector").
Definition index_names (f : ApiField) : list string :=
  match af_Index f with Some ix => [ai_Name ix] | None => [] end.

(** The schema of a space. *)
Definition schema_ok (fs : list ApiField) : Prop :=
  Forall (λ f, af_Name f ≠ "" ∧ "" ∉ index_names f ∧ (scalar_ok f ∨ vector_ok f)) fs ∧
  NoDup (af_Name <$> fs) ∧ NoDup (fs ≫= index_names) ∧
  1 ≤ Z.of_nat (length (filter is_vector fs)) ≤ 2.

(** ** Lemmas *)

Lemma NameValidate_spec s : NameValidate s = "" ↔ name_ok s.
Proof.
  unfold NameValidate, name_ok, name_regexp. destruct (Nat.leb_spec (String.length s) 5).
  { split; [done|lia]. }
  destruct s as [|c t]; [simpl in *; lia|].
  rewrite (bool_decide_eq_false_2 (String c t = "")) by done. cbn [negb andb].
  destruct (str_forall name_char (String c t)) eqn:Hf; cbn [negb].
  - assert (is_letter c = true ↔ ascii_letter c = true) as HL.
    { simpl in Hf. apply andb_prop in Hf as [Hc _]. revert Hc.
      destruct c as [[] [] [] [] [] [] [] []]; vm_compute; naive_solver. }
    destruct (is_letter c); naive_solver.
  - destruct (is_letter c); naive_solver.
Qed.

Lemma name_ok_chars s (a : ascii) : name_char a = false → name_ok s → no_char a s.
Proof.
  intros Ha (_ & Hs & _). revert Hs. apply str_forall_impl. intros x Hx.
  destruct (Ascii.eqb_spec x a) as [->|]; [congruence|done].
Qed.

Lemma name_ok_valid s : name_ok s → utf8_valid s = true.
Proof.
  intros (_ & Hs & _). apply ascii_valid. revert Hs. apply str_forall_impl.
  intros [[] [] [] [] [] [] [] []]; done.
Qed.

Lemma append_ne_nil_r s t : t ≠ "" → s +:+ t ≠ "".
Proof. intros Ht [_ ?]%append_eq_nil. done. Qed.

Ltac split_ltb := repeat match goal with
  | |- context [?a <? ?b] => destruct (Z.ltb_spec a b)
  end.

Lemma check_index_params_spec ty p :
  ty ∈ VectorIndexTypes → check_index_params ty p = "" ↔ params_ok ty p.
Proof.
  intros Ht. unfold params_ok.
  assert (ty = "IVFPQ" ∨ ty = "HNSW" ∨ ty = "VEARCH" ∨ ty = "IVFFLAT" ∨ ty = "BINARYIVF" ∨
    ty = "FLAT") as Hc by (unfold VectorIndexTypes in Ht; set_solver). clear Ht.
  destruct_or! Hc; subst; unfold check_index_params; simpl bool_decide; cbv iota;
    destruct (ip_Hnsw p) as [h|]; split_ltb; cbn [orb];
    (split; [try done; intros _; split_and!; intros; destruct_or?; simplify_eq; lia
            |intros (Q1 & Q2 & Q3 & Q4); try done; exfalso; first
              [specialize (Q1 ltac:(auto)); lia | specialize (Q2 eq_refl h eq_refl); lia
              |specialize (Q3 eq_refl); lia | specialize (Q4 ltac:(auto)); lia]]).
Qed.

Lemma check_vector_spec n f :
  af_Type f = "vector" → check_vector n f = Some "" ↔ n ≤ 1 ∧ vector_ok f.
Proof.
  intros Ht. unfold check_vector, vector_ok.
  destruct (Z.ltb_spec 1 n) as [Hn|Hn]; [split; [done|lia]|].
  destruct (Z.ltb_spec (af_Dimension f) 1) as [Hd|Hd]; cbn [orb]; [split; [done|lia]|].
  destruct (Z.ltb_spec 65536 (af_Dimension f)) as [Hd'|Hd']; [split; [done|lia]|].
  destruct (af_Index f) as [ix|]; [|split; [done|naive_solver]].
  destruct (InSlice (ai_Type ix) VectorIndexTypes) eqn:Hi; cbn [negb].
  2:{ split; [done|]. intros (_ & _ & _ & ? & p & [= <-] & _ & Hin%InSlice_spec & _). congruence. }
  destruct (ai_Params ix) as [p|] eqn:Hp; cbn [mbind option_bind]; [|naive_solver].
  destruct (InSlice (ip_MetricType p) MetricType) eqn:Hm; cbn [negb].
  2:{ split; [done|]. intros (_ & _ & _ & ? & q & [= <-] & Hq & _ & Hin%InSlice_spec & _).
      rewrite Hp in Hq. simplify_eq. congruence. }
  apply InSlice_spec in Hi, Hm. pose proof (check_index_params_spec _ p Hi) as HP. split.
  - intros [= E]. split; [lia|]. split; [done|]. split; [lia|]. exists ix, p. naive_solver.
  - intros (_ & _ & _ & ? & q & [= <-] & Hq & _ & _ & Hok). rewrite Hp in Hq. simplify_eq.
    f_equal. by apply HP.
Qed.

Lemma check_scalar_spec f :
  af_Type f ∈ ScalarFieldTypes → check_scalar f = "" ↔ scalar_ok f.
Proof.
  intros Ht. unfold check_scalar, scalar_ok. destruct (af_Index f) as [ix|]; [|naive_solver].
  destruct (InSlice (ai_Type ix) ScalarIndexTypes) eqn:Hi; cbn [negb].
  - apply InSlice_spec, list_elem_of_singleton in Hi. naive_solver.
  - split; [done|]. intros [_ H]. rewrite (H ix) in Hi by done. done.
Qed.

(** The loop goes on without a complaint. *)
Definition accepts (o : option CheckState) (st' : CheckState) : Prop :=
  o = Some st' ∧ ck_msg st' = "".

Lemma accepts_msg m st st' : m ≠ "" → ¬ accepts (Some (add_msg m st)) st'.
Proof. intros Hm [[= <-] E]. by apply append_eq_nil in E as [_ ?]. Qed.

Definition bump (f : ApiField) (st : CheckState) : CheckState :=
  mkCheckState (ck_msg st) (vector_field_num st + if is_vector f then 1 else 0)
    (scalar_field_num st + match af_Index f with
                           | Some _ => if is_vector f then 0 else 1 | None => 0 end)
    (indexNameMp st) (fieldNameMp st).

Lemma check_type_accepts f st st' :
  accepts (check_type f st) st' ↔
  ck_msg st = "" ∧ (scalar_ok f ∨ vector_field_num st ≤ 1 ∧ vector_ok f) ∧ st' = bump f st.
Proof.
  unfold check_type, bump, is_vector. destruct (InSlice (af_Type f) ScalarFieldTypes) eqn:Hs.
  - apply InSlice_spec in Hs. pose proof (check_scalar_spec f Hs) as HS.
    assert (af_Type f ≠ "vector") as Hv by (intros E; rewrite E in Hs; unfold ScalarFieldTypes in Hs; set_solver).
    rewrite (bool_decide_eq_false_2 _ Hv), Z.add_0_r.
    assert (¬ vector_ok f) by (by intros [? _]).
    destruct (failed (check_scalar f)) eqn:Hf.
    + apply failed_true in Hf. split; [by intros ?%accepts_msg|naive_solver].
    + apply failed_false in Hf. unfold accepts. split.
      * intros [[= <-] Hm]. split; [done|]. split; [by left; apply HS|].
        destruct (af_Index f); by rewrite ?Z.add_0_r.
      * intros (Hm & _ & ->). split; [|done]. destruct (af_Index f); by rewrite ?Z.add_0_r.
  - assert (¬ scalar_ok f) by (intros [?%InSlice_spec _]; congruence).
    destruct (InSlice (af_Type f) VectorFieldTypes) eqn:Hv.
    + apply InSlice_spec, list_elem_of_singleton in Hv.
      rewrite (bool_decide_eq_true_2 _ Hv).
      pose proof (check_vector_spec (vector_field_num st) f Hv) as HV.
      destruct (check_vector _ f) as [m|]; cbn [mbind option_bind]; [|unfold accepts; naive_solver].
      destruct (failed m) eqn:Hf.
      * apply failed_true in Hf. split; [by intros ?%accepts_msg|naive_solver].
      * apply failed_false in Hf. subst m. unfold accepts.
        split.
        { intros [[= <-] Hm]. split; [done|]. split; [by right; apply HV|].
          destruct (af_Index f); by rewrite ?Z.add_0_r. }
        { intros (Hm & _ & ->). split; [|done]. destruct (af_Index f); by rewrite ?Z.add_0_r. }
    + split; [by intros ?%accepts_msg|]. intros (_ & [?|[_ [Ht _]]] & _); [done|].
      by rewrite Ht in Hv.
Qed.

(** The state after an accepted field. *)
Definition next (f : ApiField) (st : CheckState) : CheckState :=
  bump f (mkCheckState (ck_msg st) (vector_field_num st) (scalar_field_num st)
    (index_names f ++ indexNameMp st) (af_Name f :: fieldNameMp st)).

Lemma check_field_accepts f st st' :
  accepts (check_field f st) st' ↔
  ck_msg st = "" ∧ af_Name f ≠ "" ∧ af_Name f ∉ fieldNameMp st ∧
  "" ∉ index_names f ∧ (∀ n, n ∈ index_names f → n ∉ indexNameMp st) ∧
  (scalar_ok f ∨ vector_field_num st ≤ 1 ∧ vector_ok f) ∧ st' = next f st.
Proof.
  unfold check_field, next, index_names. case_bool_decide as Hn.
  { split; [by intros ?%accepts_msg|naive_solver]. }
  destruct (InSlice (af_Name f) (fieldNameMp st)) eqn:Hi.
  { apply InSlice_spec in Hi. split; [by intros ?%accepts_msg|naive_solver]. }
  apply not_true_iff_false in Hi. rewrite InSlice_spec in Hi.
  destruct (af_Index f) as [ix|].
  - case_bool_decide as Hx.
    { split; [by intros ?%accepts_msg|]. set_solver. }
    cbn [indexNameMp]. destruct (InSlice (ai_Name ix) (indexNameMp st)) eqn:Hj.
    { apply InSlice_spec in Hj. split; [by intros ?%accepts_msg|]. set_solver. }
    apply not_true_iff_false in Hj. rewrite InSlice_spec in Hj.
    rewrite check_type_accepts. cbn [ck_msg vector_field_num app]. set_solver.
  - rewrite check_type_accepts. cbn [ck_msg vector_field_num app]. set_solver.
Qed.

Definition field_good (f : ApiField) : Prop :=
  af_Name f ≠ "" ∧ "" ∉ index_names f ∧ (scalar_ok f ∨ vector_ok f).
Definition vectors_in (fs : list ApiField) : Z := Z.of_nat (length (filter is_vector fs)).

Lemma scalar_not_vector f : scalar_ok f → is_vector f = false.
Proof.
  intros [Ht _]. apply bool_decide_eq_false_2. intros E. rewrite E in Ht.
  unfold ScalarFieldTypes in Ht. set_solver.
Qed.
Lemma vector_is_vector f : vector_ok f → is_vector f = true.
Proof. intros [Ht _]. by apply bool_decide_eq_true_2. Qed.

Lemma vectors_in_cons f fs :
  vectors_in (f :: fs) = (if is_vector f then 1 else 0) + vectors_in fs.
Proof. unfold vectors_in. rewrite filter_cons. destruct (is_vector f); simpl; lia. Qed.
Lemma vectors_in_nonneg fs : 0 ≤ vectors_in fs.
Proof. unfold vectors_in. lia. Qed.

(** The fields [fs] are acceptable after those that led to [st]. *)
Definition fields_good (fs : list ApiField) (st : CheckState) : Prop :=
  Forall field_good fs ∧ NoDup (af_Name <$> fs) ∧ NoDup (fs ≫= index_names) ∧
  (∀ n, n ∈ af_Name <$> fs → n ∉ fieldNameMp st) ∧
  (∀ n, n ∈ fs ≫= index_names → n ∉ indexNameMp st) ∧
  (vectors_in fs = 0 ∨ vector_field_num st + vectors_in fs ≤ 2).

Lemma fields_good_cons f fs st :
  fields_good (f :: fs) st ↔
  (af_Name f ≠ "" ∧ af_Name f ∉ fieldNameMp st ∧
   "" ∉ index_names f ∧ (∀ n, n ∈ index_names f → n ∉ indexNameMp st) ∧
   (scalar_ok f ∨ vector_field_num st ≤ 1 ∧ vector_ok f)) ∧ fields_good fs (next f st).
Proof.
  unfold fields_good, next, bump, field_good.
  cbn [fmap list_fmap mbind list_bind vector_field_num fieldNameMp indexNameMp].
  rewrite Forall_cons, NoDup_cons, NoDup_app, vectors_in_cons.
  assert (NoDup (index_names f)) by (unfold index_names; destruct (af_Index f); repeat constructor; set_solver).
  pose proof (vectors_in_nonneg fs). pose proof (scalar_not_vector f).
  pose proof (vector_is_vector f). split.
  - intros ([(Hf1 & Hf2 & Hf3) HF] & [Hn1 Hn2] & (_ & Hx1 & Hx2) & Hm & Hi & Hv).
    split; [split_and!; [done|set_solver|done|set_solver|]|].
    { destruct Hf3 as [?|Hve]; [by left|]. right. rewrite (vector_is_vector f Hve) in Hv.
      split; [lia|done]. }
    split_and!; try done; [set_solver..|]. destruct (is_vector f); lia.
  - intros ((Hf1 & Hf2 & Hf3 & Hf4 & Hf5) & HF & Hn & Hx & Hm & Hi & Hv).
    split_and!; try done; [naive_solver|set_solver..|].
    destruct Hf5 as [Hs|[Hle Hve]].
    + rewrite (scalar_not_vector f Hs) in *. lia.
    + rewrite (vector_is_vector f Hve) in *. lia.
Qed.

Lemma check_fields_accepts fs st st' :
  accepts (check_fields fs st) st' ↔
  ck_msg st = "" ∧ fields_good fs st ∧ st' = foldl (λ s f, next f s) st fs.
Proof.
  revert st. induction fs as [|f fs IH]; intros st; cbn [check_fields foldl].
  - unfold accepts, fields_good, vectors_in. simpl. split.
    + intros [[= <-] E]. split_and!; try done; [constructor..|set_solver|set_solver|by left].
    + intros (E & _ & ->). done.
  - rewrite fields_good_cons. pose proof (check_field_accepts f st) as HC. split.
    + intros [E Hm]. destruct (check_field f st) as [st1|] eqn:E1; [|done].
      cbn [mbind option_bind] in E.
      destruct (proj1 (IH st1) (conj E Hm)) as (Hm1 & Hg & ->).
      destruct (proj1 (HC st1) (conj eq_refl Hm1)) as (H1 & H2 & H3 & H4 & H5 & H6 & ->).
      split_and!; done.
    + intros (Hm & [(H1 & H2 & H3 & H4 & H5) Hg] & ->).
      destruct (proj2 (HC (next f st))) as [E1 Em]; [by split_and!|].
      rewrite E1. cbn [mbind option_bind]. apply IH. by split_and!.
Qed.

Lemma vector_field_num_next fs st :
  vector_field_num (foldl (λ s f, next f s) st fs) = vector_field_num st + vectors_in fs.
Proof.
  revert st. induction fs as [|f fs IH]; intros st; cbn [foldl].
  - unfold vectors_in. simpl. lia.
  - rewrite IH, vectors_in_cons. cbn [next bump vector_field_num]. lia.
Qed.

Lemma fields_good_start fs :
  fields_good fs (mkCheckState "" 0 0 [] []) ∧ 1 ≤ vectors_in fs ↔ schema_ok fs.
Proof.
  unfold fields_good, schema_ok, field_good. fold (vectors_in fs).
  cbn [fieldNameMp indexNameMp vector_field_num].
  split; [intros ((?&?&?&?&?&?)&?); split_and!; try done; lia|].
  intros (?&?&?&?&?). split_and!; try done; [set_solver..|lia].
Qed.

Lemma replica_num_check n :
  (n <=? 0) || (Z.rem n 2 =? 0) || (5 <? n) = false ↔ n ∈ [1; 3; 5].
Proof.
  rewrite !orb_false_iff, Z.leb_gt, Z.eqb_neq, Z.ltb_ge, !elem_of_cons, elem_of_nil.
  split; [|intros [-> |[-> |[-> |[]]]]; split_and!; lia || discriminate].
  intros [[Ha Hb] Hc].
  assert (n = 1 ∨ n = 2 ∨ n = 3 ∨ n = 4 ∨ n = 5) as Hn by lia. clear Ha Hc.
  destruct_or! Hn; subst; naive_solver.
Qed.

Lemma inner_fields_app fs acc :
  inner_fields fs acc = match fs with [] => acc | _ => Some (elems acc ++ (inner_field <$> fs)) end.
Proof.
  revert acc. induction fs as [|f fs IH]; intros acc; [done|]. cbn [inner_fields].
  rewrite IH. unfold append1. destruct fs as [|f' fs]; [done|].
  cbn [elems default id fmap list_fmap]. by rewrite <-app_assoc.
Qed.

(** ** Properties *)

(** C30. The check of a new space accepts exactly: names of more than five
    characters, letters, digits, dashes and underscores with a letter first; 1
    to 100 partitions of 1, 3 or 5 replicas; no partitions given; an id type
    that is neither long nor string; and a schema of fields with distinct names
    and distinct index names, each a scalar with no or a SCALAR index or a
    vector of a legal dimension with complete index parameters, of which one or
    two are vectors. *)
Theorem CheckApiSpace_exact (s : ApiSpace) :
  CheckApiSpace s = Some "" ↔
  name_ok (api_DbName s) ∧ name_ok (api_SpaceName s) ∧
  1 ≤ api_PartitionNum s ≤ 100 ∧ api_ReplicaNum s ∈ [1; 3; 5] ∧
  elems (api_Partitions s) = [] ∧ api_IdType s ≠ "long" ∧ api_IdType s ≠ "string" ∧
  schema_ok (elems (api_Fields s)).
Proof.
  unfold CheckApiSpace.
  destruct (failed (NameValidate (api_DbName s))) eqn:H1.
  { apply failed_true in H1. rewrite NameValidate_spec in H1. naive_solver. }
  apply failed_false, NameValidate_spec in H1.
  destruct (failed (NameValidate (api_SpaceName s))) eqn:H2.
  { apply failed_true in H2. rewrite NameValidate_spec in H2. naive_solver. }
  apply failed_false, NameValidate_spec in H2.
  destruct (Z.leb_spec (api_PartitionNum s) 0); cbn [orb]; [split; [done|lia]|].
  destruct (Z.ltb_spec 100 (api_PartitionNum s)); [split; [done|lia]|].
  pose proof (replica_num_check (api_ReplicaNum s)) as HR.
  destruct (_ || (5 <? _)); [split; [done|]; intros (_ & _ & _ & Hr%HR & _); done|].
  destruct (elems (api_Partitions s)) as [|p ps] eqn:Hp; unfold len_zero; rewrite Hp; cbn [negb];
    [|split; [done|naive_solver]].
  destruct (InSlice (api_IdType s) DocKeyTypes) eqn:Hi.
  { apply InSlice_spec in Hi. unfold DocKeyTypes in Hi. split; [done|]. set_solver. }
  assert (api_IdType s ≠ "long" ∧ api_IdType s ≠ "string") as [Hl Hs]
    by (split; intros E; by rewrite E in Hi).
  rewrite <-fields_good_start. set (fs := elems (api_Fields s)).
  pose proof (check_fields_accepts fs (mkCheckState "" 0 0 [] [])) as HC.
  pose proof (vector_field_num_next fs (mkCheckState "" 0 0 [] [])) as HV.
  cbn [vector_field_num] in HV. split.
  - intros E. destruct (check_fields fs _) as [st|] eqn:Ef; [|done]. cbn [mbind option_bind] in E.
    destruct (Z.eqb_spec (vector_field_num st) 0) as [|Hz].
    { injection E as E. by apply append_eq_nil in E as [_ ?]. }
    injection E as E. destruct (proj1 (HC st) (conj eq_refl E)) as (_ & Hg & ->).
    pose proof (vectors_in_nonneg fs). split_and!; try done; try lia. by apply HR.
  - intros (_ & _ & _ & _ & _ & _ & _ & Hg & Hv).
    destruct (proj2 (HC (foldl (λ s f, next f s) (mkCheckState "" 0 0 [] []) fs))) as [-> Em];
      [by split_and!|]. cbn [mbind option_bind].
    rewrite HV, (proj2 (Z.eqb_neq _ _)) by lia. by f_equal.
Qed.

(** What the master accepts and what the engine can store are disjoint: a
    document of any space that passes the check is refused, whatever the
    document, because the check turns away exactly the id types that the
    partition servers know. *)
Theorem accepted_spaces_store_nothing `{GammaDoc}
    (s : ApiSpace) (sp : Space) (d : Document) (g : Doc) :
  CheckApiSpace s = Some "" → space_id_type sp = IdType (ApiSpaceToInnerSpace s) →
  PbDocToGammaDoc d sp g = ("Unsupported _id type: " +:+ api_IdType s, g).
Proof.
  intros Hc Ht. cbn [ApiSpaceToInnerSpace IdType] in Ht. unfold PbDocToGammaDoc. rewrite Ht.
  rewrite bool_decide_eq_false_2; [done|].
  intros E. unfold CheckApiSpace in Hc. rewrite E in Hc.
  change (InSlice LONG_SDTYPE DocKeyTypes) with true in Hc.
  repeat case_match; try done; simplify_eq.
Qed.

Definition goods_request : ApiSpace :=
  mkApiSpace "shop_db" "goods_1" 0 2 1
    (Some [mkApiField "_id" "long" 0 None;
           mkApiField "vec" "vector" 128 (Some (mkApiIndex "ix" "FLAT"
             (Some (mkIndexParams "L2" 0 0 0 0 0 0 0 None))))]) None "" "" "".

Lemma accepted_spaces_store_nothing_witness :
  CheckApiSpace goods_request = Some "" ∧
  fst (PbDocToGammaDoc (H := map_doc) empty_document empty_space (∅, ∅)) =
    "Unsupported _id type: ".
Proof.
  split; [reflexivity|].
  rewrite (accepted_spaces_store_nothing (H := map_doc) goods_request empty_space empty_document
    (∅, ∅)); reflexivity.
Defined.
