(* ===== verification/Concurrent.v ===== *)
(** * Concurrent: src/master/utils/concurrent/concurrent.go

    [ParallelExecuteWithResults] as a step relation over the producer, the
    buffered channel of indices and the pool of workers, in every interleaving;
    a call of [fn] is one step on the shared world.  The function
    [parallel_exec] executes the calls in a given order; the main result is
    that the pool always terminates, and with what [parallel_exec] computes for
    some order of all the tasks. *)
From S2P Require Import Prelude.
Local Open Scope nat_scope.

Section pool.
Context {T R E W : Type}.
(** [fn], the tasks, the bound on the workers and the zero values of the two
    slices. *)
Context (fn : T → W → R * E * W) (argsList : list T) (maxConcurrency : nat)
  (zeroR : R) (zeroE : E).

(** ** Operations *)

(** A worker waits for an index, holds one, or has returned. *)
Inductive worker := Idle | Running (idx : nat) | Done.

#[global] Instance worker_eq_dec : EqDecision worker.
Proof. solve_decision. Defined.

Record Pool := mkPool {
  sent : nat; closed : bool; taskChan : list nat; workers : list worker;
  results : list R; errors : list E; world : W
}.

Definition pool_start (w : W) : Pool :=
  mkPool 0 false [] (replicate (min maxConcurrency (length argsList)) Idle)
    (replicate (length argsList) zeroR) (replicate (length argsList) zeroE) w.

(** [results[idx], errors[idx] = fn(argsList[idx])] *)
Definition exec1 (s : list R * list E * W) (idx : nat) : list R * list E * W :=
  let '(rs, es, w) := s in
  match argsList !! idx with
  | None => s
  | Some a => let '(r, e, w') := fn a w in (<[idx := r]> rs, <[idx := e]> es, w')
  end.

(** The steps, labelled with the index a call was made for. *)
Inductive pool_step : Pool → option nat → Pool → Prop :=
  | step_send s : sent s < length argsList → length (taskChan s) < length argsList →
      pool_step s None (mkPool (S (sent s)) (closed s) (taskChan s ++ [sent s]) (workers s)
        (results s) (errors s) (world s))
  | step_close s : sent s = length argsList → closed s = false →
      pool_step s None (mkPool (sent s) true (taskChan s) (workers s)
        (results s) (errors s) (world s))
  | step_take s i idx ch : workers s !! i = Some Idle → taskChan s = idx :: ch →
      pool_step s None (mkPool (sent s) (closed s) ch (<[i := Running idx]> (workers s))
        (results s) (errors s) (world s))
  | step_call s i idx rs es w : workers s !! i = Some (Running idx) →
      exec1 (results s, errors s, world s) idx = (rs, es, w) →
      pool_step s (Some idx) (mkPool (sent s) (closed s) (taskChan s)
        (<[i := Idle]> (workers s)) rs es w)
  | step_exit s i : workers s !! i = Some Idle → taskChan s = [] → closed s = true →
      pool_step s None (mkPool (sent s) (closed s) (taskChan s) (<[i := Done]> (workers s))
        (results s) (errors s) (world s)).

(** The producer has closed the channel and [wg.Wait()] returns. *)
Definition pool_final (s : Pool) : Prop := closed s = true ∧ Forall (λ k, k = Done) (workers s).

(** Runs, with the indices of the calls in order. *)
Inductive pool_run : Pool → list nat → Pool → Prop :=
  | run_refl s : pool_run s [] s
  | run_step s o t l u : pool_run s l t → pool_step t o u →
      pool_run s (l ++ option_list o) u.

(** The calls one after the other in the order [order]. *)
Definition parallel_exec (order : list nat) (w : W) : list R * list E * W :=
  foldl exec1 (replicate (length argsList) zeroR, replicate (length argsList) zeroE, w) order.

(** ** Lemmas *)

Definition held (k : worker) : option nat := match k with Running i => Some i | _ => None end.
Definition weight (k : worker) : nat := match k with Idle => 1 | Running _ => 2 | Done => 0 end.

Lemma held_insert (ws : list worker) i k k' :
  ws !! i = Some k →
  ∃ l, omap held ws ≡ₚ option_list (held k) ++ l ∧
       omap held (<[i := k']> ws) ≡ₚ option_list (held k') ++ l.
Proof.
  intros Hi. assert (i < length ws) by (by eapply lookup_lt_Some).
  exists (omap held (take i ws ++ drop (S i) ws)).
  rewrite <-(take_drop_middle ws i k Hi) at 1. rewrite insert_take_drop by done.
  rewrite !omap_app. cbn [omap list_omap]. split.
  - destruct (held k); simpl; [by rewrite Permutation_middle|done].
  - destruct (held k'); simpl; [by rewrite Permutation_middle|done].
Qed.

Lemma weight_insert (ws : list worker) i k k' :
  ws !! i = Some k →
  sum_list_with weight (<[i := k']> ws) + weight k = sum_list_with weight ws + weight k'.
Proof.
  intros Hi. assert (i < length ws) by (by eapply lookup_lt_Some).
  rewrite <-(take_drop_middle ws i k Hi) at 2. rewrite insert_take_drop by done.
  rewrite !sum_list_with_app. simpl. lia.
Qed.

Lemma done_insert (ws : list worker) i k : Done ∈ <[i := k]> ws → Done = k ∨ Done ∈ ws.
Proof.
  intros [j Hj]%list_elem_of_lookup. apply list_lookup_insert_Some in Hj as [(_ & ? & _)|[_ Hj]];
    [by left|right]. by eapply list_elem_of_lookup_2.
Qed.

(** The tasks are in three places: called, held by a worker, or in the
    channel. *)
Record pool_inv (w0 : W) (l : list nat) (s : Pool) : Prop := {
  inv_sent : sent s ≤ length argsList;
  inv_closed : closed s = true → sent s = length argsList;
  inv_tasks : l ++ omap held (workers s) ++ taskChan s ≡ₚ seq 0 (sent s);
  inv_exec : (results s, errors s, world s) = parallel_exec l w0;
  inv_done : Done ∈ workers s → closed s = true ∧ taskChan s = [];
  inv_workers : length (workers s) = min maxConcurrency (length argsList)
}.

Lemma pool_inv_start w : pool_inv w [] (pool_start w).
Proof.
  split; simpl; try done; [lia| | |by rewrite length_replicate].
  - generalize (min maxConcurrency (length argsList)). induction n as [|n IH]; [done|exact IH].
  - intros [? _]%elem_of_replicate. done.
Qed.

Lemma pool_inv_step w l s o t :
  pool_inv w l s → pool_step s o t → pool_inv w (l ++ option_list o) t.
Proof.
  intros [I1 I2 I3 I4 I5 I6] Hs. destruct Hs as [s Hlt Hch|s Hn Hc|s i idx ch Hi Hch
    |s i idx rs es w' Hi Hx|s i Hi Hch Hc]; simpl; rewrite ?app_nil_r.
  - split; simpl; try done.
    + intros Hc. specialize (I2 Hc). lia.
    + change (0 :: seq 1 (sent s)) with (seq 0 (S (sent s))).
      rewrite seq_S, !app_assoc, <-(app_assoc l), I3. done.
    + intros Hd%I5. destruct Hd as [Hc%I2 _]. lia.
  - split; simpl; try done. intros [Hc' _]%I5. congruence.
  - destruct (held_insert (workers s) i Idle (Running idx) Hi) as (u & E1 & E2).
    split; simpl; try done; [| |by rewrite length_insert].
    + rewrite E2. rewrite E1, Hch in I3. simpl in *. rewrite <-I3. f_equiv.
      by rewrite Permutation_middle.
    + intros [Hd|Hd]%done_insert; [done|]. destruct (I5 Hd) as [_ Hnil]. congruence.
  - destruct (held_insert (workers s) i (Running idx) Idle Hi) as (u & E1 & E2).
    split; simpl; try done; [| | |by rewrite length_insert].
    + rewrite E2. rewrite E1 in I3. simpl in *. rewrite <-I3, <-app_assoc. done.
    + unfold parallel_exec. rewrite foldl_snoc. fold (parallel_exec l w). by rewrite <-I4, Hx.
    + intros [Hd|Hd]%done_insert; [done|]. by apply I5.
  - destruct (held_insert (workers s) i Idle Done Hi) as (u & E1 & E2).
    split; simpl; try done; [|by rewrite length_insert].
    rewrite E2. rewrite E1 in I3. done.
Qed.

Lemma pool_inv_run w l s : pool_run (pool_start w) l s → pool_inv w l s.
Proof.
  intros Hr. remember (pool_start w) as s0 eqn:Hs0. induction Hr as [s|s o t l u Hr IH Hs].
  - subst. apply pool_inv_start.
  - eapply pool_inv_step; [by apply IH|done].
Qed.

Lemma pool_final_spec w l s :
  1 ≤ maxConcurrency → pool_inv w l s → pool_final s →
  l ≡ₚ seq 0 (length argsList) ∧ (results s, errors s, world s) = parallel_exec l w.
Proof.
  intros Hm [I1 I2 I3 I4 I5 I6] [Hc Hf]. split; [|done]. rewrite <-(I2 Hc), <-I3.
  assert (omap held (workers s) = []) as ->.
  { clear -Hf. induction Hf as [|k ws -> _ IH]; [done|exact IH]. }
  assert (taskChan s = []) as ->; [|by rewrite !app_nil_r].
  destruct (workers s) as [|k ws] eqn:Ew.
  - assert (length argsList = 0) as Hn by (simpl in I6; lia).
    rewrite (I2 Hc), Hn in I3. simpl in I3.
    apply Permutation_nil_r, app_eq_nil in I3 as [_ ?]. done.
  - apply Forall_cons in Hf as [-> _]. apply I5. by left.
Qed.

Lemma pool_progress w l s :
  pool_inv w l s → pool_final s ∨ ∃ o t, pool_step s o t.
Proof.
  intros [I1 I2 I3 I4 I5 I6]. destruct (closed s) eqn:Hc.
  - destruct (decide (Forall (λ k, k = Done) (workers s))) as [|Hn]; [left; by split|right].
    apply not_Forall_Exists, Exists_exists in Hn as (k & Hk & Hne); [|apply _].
    apply list_elem_of_lookup in Hk as [i Hi]. destruct k as [|idx|]; [| |by destruct Hne].
    + destruct (taskChan s) as [|idx ch] eqn:Hch; do 2 eexists;
        [by eapply step_exit|by eapply step_take].
    + destruct (exec1 (results s, errors s, world s) idx) as [[rs es] w'] eqn:Hx.
      do 2 eexists. by eapply step_call.
  - right. destruct (decide (sent s < length argsList)).
    + do 2 eexists. apply step_send; [done|].
      apply Permutation_length in I3. rewrite !length_app, length_seq in I3. lia.
    + do 2 eexists. apply step_close; [lia|done].
Qed.

Definition measure (s : Pool) : nat :=
  4 * (length argsList - sent s) + (if closed s then 0 else 1) + 3 * length (taskChan s) +
  sum_list_with weight (workers s).

Lemma pool_step_measure s o t : pool_step s o t → measure t < measure s.
Proof.
  unfold measure. intros Hs. destruct Hs as [s Hlt Hch|s Hn Hc|s i idx ch Hi Hch
    |s i idx rs es w' Hi Hx|s i Hi Hch Hc]; simpl.
  - rewrite length_app. simpl. lia.
  - rewrite Hc. lia.
  - pose proof (weight_insert _ _ _ (Running idx) Hi) as Hw. rewrite Hch. simpl in *. lia.
  - pose proof (weight_insert _ _ _ Idle Hi) as Hw. simpl in *. lia.
  - pose proof (weight_insert _ _ _ Done Hi) as Hw. simpl in *. lia.
Qed.

Lemma pool_terminates s : Acc (λ t u, ∃ o, pool_step u o t) s.
Proof.
  induction (well_founded_ltof _ measure s) as [s _ IH]. constructor. intros t [o Hs].
  apply IH. by eapply pool_step_measure.
Qed.

Lemma exec1_length rs es w i :
  length (fst (fst (exec1 (rs, es, w) i))) = length rs ∧
  length (snd (fst (exec1 (rs, es, w) i))) = length es.
Proof.
  unfold exec1. destruct (argsList !! i) as [a|]; [|done]. destruct (fn a w) as [[r e] w'].
  simpl. by rewrite !length_insert.
Qed.

Lemma parallel_exec_length order w rs es w' :
  parallel_exec order w = (rs, es, w') →
  length rs = length argsList ∧ length es = length argsList.
Proof.
  unfold parallel_exec. intros H.
  assert (∀ r0 e0 w0, foldl exec1 (r0, e0, w0) order = (rs, es, w') →
    length rs = length r0 ∧ length es = length e0) as HG.
  { clear H. induction order as [|i order IH]; intros r0 e0 w0; [by intros [= -> -> ->]|].
    cbn [foldl]. destruct (exec1 (r0, e0, w0) i) as [[r1 e1] w1] eqn:Hx.
    pose proof (exec1_length r0 e0 w0 i) as HL. rewrite Hx in HL. simpl in HL.
    intros [-> ->]%IH. done. }
  apply HG in H. by rewrite !length_replicate in H.
Qed.

End pool.

(** ** Properties *)

(** C19. The pool of workers terminates and does its work: no run goes on for ever,
    no reachable state is stuck before all workers have returned, and when they
    have, every task was executed exactly once and the results, the errors and
    the world are those of executing the tasks one after the other in the order
    of the calls. *)
Theorem ParallelExecuteWithResults_correct {T R E W : Type} (fn : T → W → R * E * W)
    (argsList : list T) (maxConcurrency : nat) (zeroR : R) (zeroE : E) (w : W) :
  1 ≤ maxConcurrency →
  let start := pool_start argsList maxConcurrency zeroR zeroE w in
  Acc (λ t u, ∃ o, pool_step fn argsList u o t) start ∧
  (∀ l s, pool_run fn argsList start l s →
     pool_final s ∨ ∃ o t, pool_step fn argsList s o t) ∧
  (∀ l s, pool_run fn argsList start l s → pool_final s →
     l ≡ₚ seq 0 (length argsList) ∧
     (results s, errors s, world s) = parallel_exec fn argsList zeroR zeroE l w).
Proof.
  intros Hm start. split; [apply pool_terminates|]. split.
  - intros l s Hr%pool_inv_run. by eapply pool_progress.
  - intros l s Hr%pool_inv_run. by apply pool_final_spec with maxConcurrency.
Qed.

Lemma ParallelExecuteWithResults_correct_witness :
  Acc (λ t u, ∃ o, pool_step (λ a w, (a, false, w + a)) [3; 4] u o t)
    (pool_start [3; 4] 10 0 false 0) ∧
  parallel_exec (λ a w, (a, false, w + a)) [3; 4] 0 false [1; 0] 0 = ([3; 4], [false; false], 7).
Proof.
  split; [|reflexivity].
  apply (ParallelExecuteWithResults_correct (λ a w, (a, false, w + a)) [3; 4] 10 0 false 0).
  lia.
Defined.
