(* ===== verification/MasterStore.v ===== *)
(** * MasterStore: src/master/etcdcluster and src/master/utils/httputil

    The master's etcd client, its distributed lock, the generation of ids and
    the HTTP calls to the other processes.  The etcd client library, the
    network, the clock and the scheduler are the class [MasterEnv]: operations
    on an unknown world, each free to fail.  What the code relies on of them is
    stated in MasterSafety. *)
From Stdlib Require Import Ascii.
From S2P Require Import Prelude Numeric Common GoStd GoJson MasterCommon MasterEntity Concurrent.
Local Open Scope Z_scope.

(** ** The environment *)

Class MasterEnv (W : Type) := {
  (** clientv3: an error, or the answer. *)
  cli_Put : string → string → W → option string * W;
  cli_PutLease : string → string → Z → W → option string * W;
  cli_Get : string → W → (string + list (string * option string)) * W;
  cli_GetPrefix : string → W → (string + list (string * string)) * W;
  cli_Delete : string → W → (string + Z) * W;
  cli_Grant : Z → W → (string + Z) * W;
  cli_CreateTxn : string → string → W → (string + bool) * W;
  (** A transaction that reads one key, applies a function that yields the new
      value and a result, and commits: whether it succeeded, and the result. *)
  cli_STM : string → (string → string + string * Z) → W → (string + bool * Z) * W;
  (** clientv3/concurrency *)
  session_New : W → option string * W;
  mutex_TryLock : W → option string * W;
  mutex_Unlock : W → option string * W;
  session_Close : W → W;
  (** net/http: the error of building a request; sending one, where reading the
      answer can fail as well. *)
  http_NewRequest : string → option string;
  http_Do : string → string → W → (string + (string + string)) * W;
  (** time.Now: the formatted time and the nanoseconds. *)
  time_Now : W → string * Z * W;
  time_Sleep : Z → W → W;
  (** The order in which a loop visits a map, and in which a pool of workers
      calls its tasks. *)
  range_map : ∀ {A : Type}, gmap string A → W → list (string * A);
  schedule : nat → W → list nat;
  (** The text of the error of [json.Unmarshal]. *)
  json_error : string → string
}.

(** ** Computations that can panic

    A panic leaves the world as it was at that point. *)

Definition M (W A : Type) : Type := W → option A * W.
Definition mret {W A} (a : A) : M W A := λ w, (Some a, w).
Definition mpanic {W A} : M W A := λ w, (None, w).
Definition mdo {W A} (f : W → A * W) : M W A := λ w, let '(a, w') := f w in (Some a, w').
Definition mthen {W A B} (m : M W A) (k : A → M W B) : M W B := λ w,
  match m w with
  | (Some a, w') => k a w'
  | (None, w') => (None, w')
  end.
Definition mlift {W A} (o : option A) : M W A := λ w, (o, w).

Declare Scope master_scope.
Notation "x ⇐ m ; k" := (mthen m (λ x, k))
  (at level 20, m at level 100, k at level 200, right associativity,
   format "x  ⇐  m ;  '/' k") : master_scope.
Notation "' p ⇐ m ; k" := (mthen m (λ x, match x with p => k end))
  (at level 20, p pattern, m at level 100, k at level 200, right associativity,
   format "' p  ⇐  m ;  '/' k") : master_scope.
Open Scope master_scope.

Section store.
Context {W : Type} `{MasterEnv W}.

(** ** EtcdClient *)

Definition Put (key value : string) : M W (option string) := mdo (cli_Put key value).

(** [resp.Kvs[0].Value], nil when there is no entry. *)
Definition Get (key : string) : M W (string + option string) :=
  r ⇐ mdo (cli_Get key);
  mret (match r with
        | inl err => inl err
        | inr [] => inr None
        | inr ((_, v) :: _) => inr v
        end).

Definition PutOrAppend (key value : string) (maxLenKB : Z) : M W (option string) :=
  r ⇐ Get key;
  match r with
  | inl err => mret (Some ("EtcdClient PutOrAppend() failed to get key " +:+ key +:+
                           ", error: " +:+ err))
  | inr oldValue =>
      let value := match oldValue with Some o => o +:+ value | None => value end in
      let maxLenBytes := maxLenKB * 1024 in
      let len := Z.of_nat (String.length value) in
      if maxLenBytes <? len then
        mret (Some ("EtcdClient PutOrAppend() value len:" +:+ to_string len +:+
                    " > maxLenBytes: " +:+ to_string maxLenBytes))
      else Put key value
  end.

Definition Create (key value : string) : M W (option string) :=
  r ⇐ mdo (cli_CreateTxn key value);
  mret (match r with
        | inl err => Some err
        | inr succeeded =>
            if succeeded : bool then None else Some ("etcd store key :" +:+ key +:+ " error")
        end).

(** A [time.Duration] is a number of nanoseconds. *)
Definition Second : Z := 1000000000.
Definition ttl_too_short (ttl : Z) : bool :=
  negb (bool_decide (ttl = 0)) && bool_decide (Z.quot ttl Second = 0).
Definition msg_ttl : string := "ttl time must greater than 1 second".

Definition CreateWithTTL (key value : string) (ttl : Z) : M W (option string) :=
  if ttl_too_short ttl then mret (Some msg_ttl)
  else
    grant ⇐ mdo (cli_Grant (Z.quot ttl Second));
    match grant with
    | inl err => mret (Some err)
    | inr id => mdo (cli_PutLease key value id)
    end.

Definition PutWithLeaseId (key value : string) (ttl leaseId : Z) : M W (option string) :=
  if ttl_too_short ttl then mret (Some msg_ttl) else mdo (cli_PutLease key value leaseId).

Definition Update (key value : string) : M W (option string) := mdo (cli_Put key value).

(** The keys and the values; both nil on an error. *)
Definition PrefixScan (prefix : string)
    : M W (list string * list string * option string) :=
  r ⇐ mdo (cli_GetPrefix prefix);
  mret (match r with
        | inl err => ([], [], Some err)
        | inr kvs => (kvs.*1, kvs.*2, None)
        end).

Definition Delete (key : string) : M W (option string) :=
  r ⇐ mdo (cli_Delete key);
  mret (match r with
        | inl err => Some ("failed to delete " +:+ key +:+ " from etcd store, the error is :" +:+ err)
        | inr deleted =>
            if bool_decide (deleted = 1) then None else Some ("key not exist error, key:" +:+ key)
        end).

(** The function of the transaction of [NewIDGenerate]. *)
Definition next_id (base : Z) (v : string) : string + string * Z :=
  if bool_decide (v = "") then inr (to_string base, base)
  else match ParseInt v with
       | (_, Some _) => inl ("increment id error in storage :" +:+ v)
       | (intv, None) => let nextID := int64 (intv + 1) in inr (to_string nextID, nextID)
       end.

Definition NewIDGenerate (key : string) (base : Z) : M W (Z * option string) :=
  r ⇐ mdo (cli_STM key (next_id base));
  mret (match r with
        | inl err => (0, Some err)
        | inr (succeeded, nextID) =>
            if succeeded : bool then (nextID, None) else (0, Some "etcd stm failed")
        end).

(** ** EtcdLocker *)

Definition GetEtcdLocker : M W (option string) :=
  err ⇐ mdo session_New;
  mret (match err with Some e => Some ("创建 session 失败: " +:+ e) | None => None end).

Fixpoint try_lock_loop (left : nat) (intervalMs : Z) : M W bool :=
  match left with
  | O => mret false
  | S left' =>
      err ⇐ mdo mutex_TryLock;
      match err with
      | None => mret true
      | Some _ =>
          _ ⇐ (if bool_decide (left' = O) then mret tt
               else mdo (λ w, (tt, time_Sleep (intervalMs * 1000000) w)));
          try_lock_loop left' intervalMs
      end
  end.

Definition TryLock (retry : nat) (intervalMs : Z) : M W (option string) :=
  ok ⇐ try_lock_loop retry intervalMs;
  mret (if ok : bool then None
        else Some ("tryLock key failed after " +:+ to_string (Z.of_nat retry) +:+ " retries")).

Definition Unlock : M W (option string) :=
  err ⇐ mdo mutex_Unlock;
  mret (match err with Some e => Some ("unlock key failed, " +:+ e) | None => None end).

Definition UnlockAndClose : M W (option string) :=
  err ⇐ Unlock;
  match err with
  | Some e => mret (Some e)
  | None => mdo (λ w, (None, session_Close w))
  end.

(** ** httputil *)

(** The text of the response, the error, and the response struct. *)
Definition PostRequest (url body : string) (resp : CommonResponse)
    : W → string * string * CommonResponse * W := λ w,
  match http_NewRequest url with
  | Some err => ("", "failed to build http request: " +:+ err, resp, w)
  | None =>
      match http_Do url body w with
      | (inl err, w') => ("", "failed to send http request: " +:+ err, resp, w')
      | (inr (inl err), w') => ("", "failed to read http response body: " +:+ err, resp, w')
      | (inr (inr text), w') =>
          let '(resp', e) := Unmarshal dec_CommonResponse text resp in
          if e : bool then
            (text, "failed to unmarshal http response body: " +:+ json_error text, resp', w')
          else (text, "", resp', w')
      end
  end.

(** [timeutil.GetCurTime]: the formatted time and the milliseconds. *)
Definition GetCurTime : W → string * string * Z * W := λ w,
  let '(formatted, nano, w') := time_Now w in
  let milli := Z.quot nano 1000000 in
  (formatted +:+ "," +:+ to_string milli, formatted, milli, w').

End store.
