(* ===== verification/MasterApi.v ===== *)
(** * MasterApi: src/master/clusterapi

    The handlers of the master's HTTP interface and the functions they are made
    of.  A request arrives as what [ShouldBindJSON] makes of its body: the
    parameters or the text of the error.  The functions run in the monad [M] of
    computations on the world that can panic; a handler's deferred function
    runs in any case and answers with the values the variables have at that
    point. *)
From Stdlib Require Import Ascii.
From S2P Require Import Prelude Numeric Common GoStd GoJson MasterCommon MasterEntity MasterCheck Concurrent MasterStore.
Local Open Scope Z_scope.

Section api.
Context {W : Type} `{MasterEnv W}.

(** ** space_api.go *)

Definition msg_space_exists (name : string) : string :=
  "DB_name + space_name[" +:+ name +:+ "] already exists, Please reset DB_name and Space_name.".

(** The order of a loop over a map. *)
Definition mrange {A} (m : gmap string A) : M W (list (string * A)) :=
  λ w, (Some (range_map m w), w).

Definition ValidateNameAndGetIdlePsNode (space : InnerSpace) : M W (list Replica * string) :=
  '(psKeys, _, _) ⇐ PrefixScan PsNodesPrefix;
  '(errPsKeys, _, _) ⇐ PrefixScan ErrPsNodesPrefix;
  replicaList ⇐ mlift (RepDeserializeFromByte psKeys);
  errReplicaList ⇐ mlift (RepDeserializeFromByte errPsKeys);
  '(_, spaces_detail, _) ⇐ PrefixScan SpacesMataPrefix;
  let busySpaceList := DeserializeFromByteList spaces_detail in
  let db_and_space_name := DbName space +:+ ":" +:+ SpaceName space in
  if bool_decide (is_Some (busySpaceList !! db_and_space_name)) then
    mret ([], msg_space_exists db_and_space_name)
  else
    visit ⇐ mrange busySpaceList;
    let busyPsKeyMap := GetAllPsMap visit in
    visit ⇐ mrange replicaList;
    mret (GetAllIdlePsKeys visit [busyPsKeyMap; errReplicaList], "").

Record taskArgs := mkTaskArgs { nodeType : string; ta_ip : string; ta_port : Z; reqJson : string }.

Definition task_url (args : taskArgs) : string :=
  let base := "http://" +:+ ta_ip args +:+ ":" +:+ to_string (ta_port args) in
  if bool_decide (nodeType args = "ps_delete") then base +:+ "/PsService/DeleteSpace"
  else if bool_decide (nodeType args = "router_delete") then base +:+ "/space/delete_space"
  else if bool_decide (nodeType args = "ps_create") then base +:+ "/PsService/CreateSpace"
  else if bool_decide (nodeType args = "router_create") then base +:+ "/space/add_space"
  else "".

Definition HttpOneNode (args : taskArgs) (w : W) : CommonResponse * string * W :=
  let '(_, err_str, resp, w') := PostRequest (task_url args) (reqJson args) zero_Response w in
  if failed err_str || negb (bool_decide (Code (cr_Status resp) = 0)) then
    (mkCommonResponse (mkStatus (Code (cr_Status resp))
       (st_Msg (cr_Status resp) +:+ ", detail: " +:+ err_str)), err_str, w')
  else (resp, err_str, w').

(** [concurrent.ParallelExecuteWithResults(HttpOneNode, tasks, 10)], with the
    calls in the order of the scheduler. *)
Definition parallel_http (tasks : list taskArgs) : M W (list CommonResponse * list string) := λ w,
  let '(rs, es, w') :=
    parallel_exec HttpOneNode tasks zero_Response "" (schedule (length tasks) w) w in
  (Some (rs, es), w').

Definition call_failed (e : string) (r : CommonResponse) : bool :=
  failed e || negb (bool_decide (Code (cr_Status r) = 0)).

(** [space.Partitions[idx/space.PartitionNum].Replicas[idx%space.PartitionNum]] *)
Definition replica_at (space : InnerSpace) (idx : Z) : option Replica :=
  if bool_decide (PartitionNum space = 0) then None
  else
    let q := Z.quot idx (PartitionNum space) in
    let r := Z.rem idx (PartitionNum space) in
    if (q <? 0) || (r <? 0) then None
    else
      partition ← elems (Partitions space) !! Z.to_nat q;
      elems (Replicas partition) !! Z.to_nat r.

(** The loop over the responses: the indices that failed; looking up the node
    of a failed call for the log can panic. *)
Fixpoint failed_loop (space : InnerSpace) (idx : Z) (rs : list CommonResponse)
    (es : list string) : option (list Z) :=
  match rs with
  | [] => Some []
  | resp :: rs' =>
      e ← head es;
      if call_failed e resp then
        _ ← replica_at space idx;
        l ← failed_loop space (idx + 1) rs' (tail es); Some (idx :: l)
      else failed_loop space (idx + 1) rs' (tail es)
  end.

Definition create_tasks (space : InnerSpace) : list taskArgs :=
  partition ← elems (Partitions space);
  let reqJson := PsCreateSpaceRequest_SerializeToJson (mkPsCreateSpaceRequest space partition) in
  (λ rep, mkTaskArgs "ps_create" (PsIP rep) (PsPort rep) reqJson) <$> elems (Replicas partition).

Definition ParallelCreatePsSpace (space : InnerSpace) : M W (list Z) :=
  '(respList, errList) ⇐ parallel_http (create_tasks space);
  mlift (failed_loop space 0 respList errList).

Definition delete_tasks (space : InnerSpace) : list taskArgs :=
  let req_json := DeleteSpaceRequest_SerializeToJson
    (mkDeleteSpaceRequest (DbName space) (SpaceName space)) in
  (λ rep, mkTaskArgs "ps_delete" (PsIP rep) (PsPort rep) req_json) <$> replicas_of space.

Definition ParallelDeletePsSpace (space : InnerSpace) : M W (list Z) :=
  '(respList, errList) ⇐ parallel_http (delete_tasks space);
  mlift (failed_loop space 0 respList errList).

Definition DeleteRouterSpace (dbName spaceName : string) : M W unit :=
  let req_json := DeleteSpaceRequest_SerializeToJson (mkDeleteSpaceRequest dbName spaceName) in
  '(router_keys, _, err) ⇐ PrefixScan RouterNodesPrefix;
  match err with
  | None =>
      routers ⇐ mlift (RouterDeserializeFromByte router_keys);
      visit ⇐ mrange routers;
      _ ⇐ parallel_http ((λ '(_, router), mkTaskArgs "router_delete" (RouterIP router)
             (RouterPort router) req_json) <$> visit);
      mret tt
  | Some _ => mret tt
  end.

Definition AddRouterSpace (space : InnerSpace) : M W string :=
  '(router_keys, _, _) ⇐ PrefixScan RouterNodesPrefix;
  routers ⇐ mlift (RouterDeserializeFromByte router_keys);
  let req_json := AddSpaceRequest_SerializeToJson space in
  visit ⇐ mrange routers;
  _ ⇐ parallel_http ((λ '(_, router), mkTaskArgs "router_create" (RouterIP router)
         (RouterPort router) req_json) <$> visit);
  mret "".

Definition node_str (rep : Replica) : string :=
  "ip:" +:+ PsIP rep +:+ ", port:" +:+ to_string (PsPort rep) +:+ ", id:" +:+
  to_string (PsID rep) +:+ "; ".

Fixpoint put_errs_loop (space : InnerSpace) (failedIdxs : list Z) (errMsg acc : string)
    : M W string :=
  match failedIdxs with
  | [] => mret acc
  | idx :: rest =>
      rep ⇐ mlift (replica_at space idx);
      let errPsNodeKey := GetErrPsNodeEtcdKey (PsIP rep) (PsPort rep) (PsID rep) in
      let msg := "space_id:" +:+ to_string (Id space) +:+ " " +:+ errMsg in
      _ ⇐ PutOrAppend errPsNodeKey msg EtcdValMaxLen;
      put_errs_loop space rest errMsg (acc +:+ node_str rep)
  end.

Definition PutNodesErrInfoToEtcd (space : InnerSpace) (failedIdxs : list Z) (errMsg : string)
    : M W string := put_errs_loop space failedIdxs errMsg "".

(** ** CreatePsSpaceImpl *)

Definition set_times (t : string) (s : InnerSpace) : InnerSpace :=
  mkInnerSpace (DbName s) (SpaceName s) (Id s) (PartitionNum s) (ReplicaNum s) (Fields s)
    (Partitions s) (IdType s) t t.
Definition set_partitions (ps : slice Partition) (s : InnerSpace) : InnerSpace :=
  mkInnerSpace (DbName s) (SpaceName s) (Id s) (PartitionNum s) (ReplicaNum s) (Fields s)
    ps (IdType s) (Ctime s) (Mtime s).
Definition set_id (id : Z) (s : InnerSpace) : InnerSpace :=
  mkInnerSpace (DbName s) (SpaceName s) id (PartitionNum s) (ReplicaNum s) (Fields s)
    (Partitions s) (IdType s) (Ctime s) (Mtime s).
Definition set_replicas (rs : slice Replica) (p : Partition) : Partition :=
  mkPartition (PartitionId p) (GroupName p) rs (pt_Ctime p) (pt_Mtime p).

(** The inner loop: [left] replicas from [rid] on are taken from the idle nodes,
    from [node_idx] on. *)
Fixpoint fill_replicas (left rid : nat) (idlePsList : list Replica) (node_idx : nat)
    (rs : list Replica) : option (list Replica * nat) :=
  match left with
  | O => Some (rs, node_idx)
  | S left' =>
      node ← idlePsList !! node_idx;
      if bool_decide (rid < length rs)%nat then
        fill_replicas left' (S rid) idlePsList (S node_idx) (<[rid := node]> rs)
      else None
  end.

Fixpoint place_loop (left : nat) (pid : Z) (timeStr : string) (idlePsList : list Replica)
    (node_idx : nat) (space : InnerSpace) : option InnerSpace :=
  match left with
  | O => Some space
  | S left' =>
      let groupName := GetPartitionGroupName (DbName space) (SpaceName space) pid in
      let partition := CreatePartition groupName pid (ReplicaNum space) timeStr in
      '(rs, node_idx) ← fill_replicas (Z.to_nat (ReplicaNum space)) 0 idlePsList node_idx
                          (elems (Replicas partition));
      place_loop left' (pid + 1) timeStr idlePsList node_idx
        (set_partitions (append1 (Partitions space) (set_replicas (Some rs) partition)) space)
  end.

Definition log_prefix (dbName spaceName : string) : string :=
  "CreateSpace(db_name:" +:+ dbName +:+ ", space_name:" +:+ spaceName +:+ ")".

Definition msg_not_enough (prefix : string) (need have : Z) : string :=
  prefix +:+ ", not enough idle PS nodes, need " +:+ to_string need +:+ ", but only " +:+
  to_string have +:+ ", Create space failed".

(** The clean-up after a failed creation: whether nodes could not be cleaned. *)
Definition create_ps_failed (space : InnerSpace) (errSpaceKey prefix : string)
    (failedPsIdxs : list Z) : M W (bool * string) :=
  let e_str := prefix +:+ ", Create ps space failed, deadly error; " in
  failedNodesStr ⇐ PutNodesErrInfoToEtcd space failedPsIdxs e_str;
  let CreateErrInfo := "create ps space failed; failed nodes: " +:+ failedNodesStr +:+ "; " in
  _ ⇐ PutOrAppend errSpaceKey CreateErrInfo EtcdValMaxLen;
  _ ⇐ PutOrAppend DdlDisabledKey CreateErrInfo EtcdValMaxLen;
  deletedFailedPsIdxs ⇐ ParallelDeletePsSpace space;
  failedNodesStr ⇐ PutNodesErrInfoToEtcd space deletedFailedPsIdxs "delete ps space failed; ";
  _ ⇐ (if! failedNodesStr then
         PutOrAppend DdlDisabledKey ("delete ps failed nodes: " +:+ failedNodesStr +:+ "; ")
           EtcdValMaxLen
       else mret None);
  mret (false, e_str).

Definition put_mata_failed (space : InnerSpace) (errSpaceKey prefix err : string)
    : M W (bool * string) :=
  let e_str := prefix +:+ ", Put space mata info to etcd failed, deadly error:" +:+ err +:+ "; " in
  _ ⇐ PutOrAppend errSpaceKey e_str EtcdValMaxLen;
  deletedFailedPsIdxs ⇐ ParallelDeletePsSpace space;
  failedNodesStr ⇐ PutNodesErrInfoToEtcd space deletedFailedPsIdxs e_str;
  _ ⇐ (if! failedNodesStr then
         PutOrAppend DdlDisabledKey ("delete ps failed nodes: " +:+ failedNodesStr +:+ "; ")
           EtcdValMaxLen
       else mret None);
  mret (false, e_str).

(** Whether DDL stays enabled, the message, and the space, which the code
    updates in place. *)
Definition CreatePsSpaceImpl (space : InnerSpace) (idlePsList : list Replica)
    : M W (bool * string * InnerSpace) :=
  let prefix := log_prefix (DbName space) (SpaceName space) in
  timeStr ⇐ mdo (λ w, let '(t, _, _, w') := GetCurTime w in (t, w'));
  let space := set_times timeStr space in
  let need := PartitionNum space * ReplicaNum space in
  let have := Z.of_nat (length idlePsList) in
  if have <? need then mret (true, msg_not_enough prefix need have, space)
  else
    space ⇐ mlift (place_loop (Z.to_nat (PartitionNum space)) 0 timeStr idlePsList 0 space);
    let etcdKey := GetSpaceEtcdKey (DbName space) (SpaceName space) in
    '(spaceId, _) ⇐ NewIDGenerate GenSpaceIdKey IdBaseVal;
    let space := set_id spaceId space in
    let errSpaceKey := GetErrSpaceEtcdKey (DbName space) (SpaceName space) (Id space) in
    let spaceJson := SerializeToJson space in
    _ ⇐ Put DdlDisabledKey (spaceJson +:+ "; ");
    failedPsIdxs ⇐ ParallelCreatePsSpace space;
    match failedPsIdxs with
    | _ :: _ =>
        '(b, e) ⇐ create_ps_failed space errSpaceKey prefix failedPsIdxs; mret (b, e, space)
    | [] =>
        e ⇐ Put etcdKey spaceJson;
        match e with
        | Some err => '(b, e) ⇐ put_mata_failed space errSpaceKey prefix err; mret (b, e, space)
        | None => _ ⇐ Delete DdlDisabledKey; mret (true, "", space)
        end
    end.

(** ** createSpace *)

Definition ValidateCreateSpaceParam (bind : string + ApiSpace) : M W (InnerSpace * string) :=
  match bind with
  | inl err => mret (zero_InnerSpace, "params error " +:+ err)
  | inr apiSpace =>
      let space := ApiSpaceToInnerSpace apiSpace in
      unvalid_str ⇐ mlift (CheckApiSpace apiSpace);
      mret (space, unvalid_str)
  end.

(** The deferred function of a handler: the lock, if there is one, is released
    after a return and after a panic. *)
Definition answer_and_unlock {A} (body : M W A) (on_panic : A) (w : W) : A * W :=
  let '(r, w1) := body w in
  let '(_, w2) := UnlockAndClose w1 in
  (default on_panic r, w2).

Definition ddl_is_enabled (r : string + option string) : bool :=
  match r with inr None => true | _ => false end.

(** What happens once the lock is held. *)
Definition createSpace_body (space : InnerSpace) : M W (Z * string) :=
  let prefix := log_prefix (DbName space) (SpaceName space) in
  val ⇐ Get DdlDisabledKey;
  if negb (ddl_is_enabled val) then
    mret (10, prefix +:+ ", cluster has error, cannot create space.")
  else
    '(idlePsNode, msg_str) ⇐ ValidateNameAndGetIdlePsNode space;
    if! msg_str then mret (10, msg_str)
    else
      '(isDdlAbled, msg_str, space) ⇐ CreatePsSpaceImpl space idlePsNode;
      if! msg_str then mret (if isDdlAbled : bool then 10 else 100, msg_str)
      else _ ⇐ AddRouterSpace space; mret (0, "success").

(** What happens once there is a lock object. *)
Definition createSpace_locked (space : InnerSpace) : M W (Z * string) :=
  err ⇐ TryLock 20 200;
  match err with
  | Some _ =>
      mret (10, log_prefix (DbName space) (SpaceName space) +:+ ", get etcd locker failed")
  | None => createSpace_body space
  end.

Definition createSpace (bind : string + ApiSpace) (w : W) : Z * string * W :=
  match ValidateCreateSpaceParam bind w with
  | (None, w) => (10, "", w)
  | (Some (space, msg_str), w) =>
      if! msg_str then (10, msg_str, w)
      else
        match GetEtcdLocker w with
        | (Some None, w) => answer_and_unlock (createSpace_locked space) (10, "") w
        | (Some (Some err), w) =>
            (10, log_prefix (DbName space) (SpaceName space) +:+ ", get etcd locker failed: " +:+ err, w)
        | (None, w) => (10, "", w)
        end
  end.

(** ** spaceList *)

(** The body of the answer. *)
Definition spaceList (bind : string + string) : M W string :=
  match bind with
  | inl err => mret (print (JObj [("code", enc_int 10); ("msg", JStr ("params error " +:+ err))]))
  | inr _ =>
      '(_, spaces_detail, _) ⇐ PrefixScan SpacesMataPrefix;
      visit ⇐ mrange (DeserializeFromByteList spaces_detail);
      mret (SpaceListRespone_Json 0 "" visit)
  end.

(** ** deleteSpace *)

Definition delete_prefix (req : DeleteSpaceRequest) : string :=
  "DeleteSpace(db_name:" +:+ ds_DbName req +:+ ", space_name:" +:+ ds_SpaceName req +:+ ")".

(** From the deletion of the meta data on. *)
Definition delete_everywhere (req : DeleteSpaceRequest) (space : InnerSpace)
    (spaceEtcdKey deletedSpaceKey errSpaceKey : string) : M W (Z * string) :=
  let prefix := delete_prefix req in
  err ⇐ Delete spaceEtcdKey;
  match err with
  | Some _ =>
      _ ⇐ PutOrAppend errSpaceKey "delete etcd space info failed; " EtcdValMaxLen;
      mret (100, "")
  | None =>
      _ ⇐ DeleteRouterSpace (ds_DbName req) (ds_SpaceName req);
      failedPsIdxs ⇐ ParallelDeletePsSpace space;
      match failedPsIdxs with
      | _ :: _ =>
          failedNodesStr ⇐ PutNodesErrInfoToEtcd space failedPsIdxs
            (prefix +:+ " delete ps space failed; ");
          _ ⇐ PutOrAppend errSpaceKey
            ("delete ps space failed; failed nodes: " +:+ failedNodesStr) EtcdValMaxLen;
          _ ⇐ Delete DdlDisabledKey;
          mret (100, prefix +:+ " delete ps space failed, deadly error nodes:" +:+ failedNodesStr)
      | [] =>
          _ ⇐ Delete DdlDisabledKey;
          _ ⇐ PutOrAppend deletedSpaceKey "; success" EtcdValMaxLen;
          mret (0, "success")
      end
  end.

Definition deleteSpace_body (req : DeleteSpaceRequest) : M W (Z * string) :=
  let prefix := delete_prefix req in
  let spaceEtcdKey := GetSpaceEtcdKey (ds_DbName req) (ds_SpaceName req) in
  r ⇐ Get spaceEtcdKey;
  match r with
  | inr (Some space_detail) =>
      val ⇐ Get DdlDisabledKey;
      if negb (ddl_is_enabled val) then
        mret (100, prefix +:+ ", cluster has error, cannot create space.")
      else
        let '(space, err) := DeserializeFromByte space_detail zero_InnerSpace in
        if err : bool then
          let msg_str := prefix +:+ ", deserialize space_json failed, err: " +:+
            json_error space_detail +:+ "; " in
          _ ⇐ PutOrAppend ErrLog msg_str ErrLogValMaxLen;
          mret (100, msg_str)
        else
          let deletedSpaceKey :=
            GetDeletedSpaceEtcdKey (ds_DbName req) (ds_SpaceName req) (Id space) in
          let errSpaceKey := GetErrSpaceEtcdKey (ds_DbName req) (ds_SpaceName req) (Id space) in
          _ ⇐ Put deletedSpaceKey space_detail;
          _ ⇐ Put DdlDisabledKey prefix;
          delete_everywhere req space spaceEtcdKey deletedSpaceKey errSpaceKey
  | _ => mret (10, prefix +:+ " is not exist")
  end.

(** The result of the attempt to lock is not looked at. *)
Definition deleteSpace_locked (req : DeleteSpaceRequest) : M W (Z * string) :=
  _ ⇐ TryLock 20 200; deleteSpace_body req.

Definition deleteSpace (bind : string + DeleteSpaceRequest) (w : W) : Z * string * W :=
  match bind with
  | inl err => (10, "delete_space api request params error: " +:+ err, w)
  | inr req =>
      match GetEtcdLocker w with
      | (Some None, w) => answer_and_unlock (deleteSpace_locked req) (100, "") w
      | (Some (Some err), w) =>
          (10, delete_prefix req +:+ " failed, get etcd locker failed: " +:+ err, w)
      | (None, w) => (100, "", w)
      end
  end.

(** ** cluster_api.go *)

(** The generators of ids are created when the interface starts. *)
Definition init_generator (key : string) : M W unit :=
  r ⇐ Get key;
  match r with
  | inr (Some _) => mret tt
  | _ => _ ⇐ NewIDGenerate key IdBaseVal; mret tt
  end.

Definition InitClusterApi : M W unit :=
  _ ⇐ init_generator GenPsIdKey; init_generator GenSpaceIdKey.

(** Code, message and id. *)
Definition genID (bind : option string) : M W (Z * string * Z) :=
  match bind with
  | Some err => mret (10, "params error " +:+ err, -1)
  | None => '(genId, _) ⇐ NewIDGenerate GenPsIdKey IdBaseVal; mret (0, "success", genId)
  end.

Record registerReq := mkRegisterReq { rr_Ip : string; rr_Port : Z; rr_Id : Z }.

(** The first of the maps that has the node under another id. *)
Fixpoint other_id (name : string) (id : Z) (ms : list (gmap string Replica)) : option Z :=
  match ms with
  | [] => None
  | m :: rest =>
      match m !! name with
      | Some nodeInfo =>
          if bool_decide (PsID nodeInfo = id) then other_id name id rest else Some (PsID nodeInfo)
      | None => other_id name id rest
      end
  end.

Definition msg_registered (req : registerReq) (old_id : Z) : string :=
  "register node ip:" +:+ rr_Ip req +:+ " port:" +:+ to_string (rr_Port req) +:+
  " already exists. old_id:" +:+ to_string old_id +:+ " new_id:" +:+ to_string (rr_Id req).

(** Code, message and registration key. *)
Definition register_locked (req : registerReq) : M W (Z * string * string) :=
  let curNodeName := GetPsNodeName (rr_Ip req) (rr_Port req) in
  let nodePrefix := PsNodesPrefix +:+ "/" +:+ curNodeName in
  let errNodePrefix := ErrPsNodesPrefix +:+ "/" +:+ curNodeName in
  err ⇐ TryLock 20 200;
  match err with
  | Some e => mret (11, "TryLock etcd locker failed: " +:+ e, "")
  | None =>
      '(psKeys, _, _) ⇐ PrefixScan nodePrefix;
      '(errPsKeys, _, _) ⇐ PrefixScan errNodePrefix;
      replicaList ⇐ mlift (RepDeserializeFromByte psKeys);
      errReplicaList ⇐ mlift (RepDeserializeFromByte errPsKeys);
      '(_, spaces_detail, _) ⇐ PrefixScan SpacesMataPrefix;
      visit ⇐ mrange (DeserializeFromByteList spaces_detail);
      let busyPsKeyMap := GetAllPsMap visit in
      match other_id curNodeName (rr_Id req) [busyPsKeyMap; replicaList; errReplicaList] with
      | Some old_id => mret (12, msg_registered req old_id, "")
      | None =>
          let nodeKey := GetPsRegisterKey (rr_Ip req) (rr_Port req) (rr_Id req) in
          _ ⇐ CreateWithTTL nodeKey "by_master_put" PsNodeTTL;
          mret (0, "success", nodeKey)
      end
  end.

Definition register (bind : string + registerReq) (w : W) : Z * string * string * W :=
  match bind with
  | inl err => (10, "params error " +:+ err, "", w)
  | inr req =>
      match GetEtcdLocker w with
      | (Some None, w) => answer_and_unlock (register_locked req) (0, "success", "") w
      | (Some (Some err), w) => (10, "get etcd locker failed: " +:+ err, "", w)
      | (None, w) => (0, "success", "", w)
      end
  end.

End api.
