(* ===== verification/Placement.v ===== *)
(** * Placement: how the idle nodes are dealt out

    The loops of [CreatePsSpaceImpl] that build the partitions of a space
    (src/master/clusterapi/space_api.go), against the definition of the result:
    partition [i] gets the [i]-th block of the idle nodes.  And the arithmetic
    by which the same file finds the node of a failed call. *)
From S2P Require Import Prelude Numeric Common GoStd MasterCommon MasterEntity MasterStore MasterApi.
Local Open Scope Z_scope.

(** ** Reference *)

(** The partitions from number [pid] on, from the nodes from [i] on. *)
Fixpoint blocks (n : nat) (pid : Z) (db name t : string) (R : nat) (idle : list Replica) (i : nat)
    : list Partition :=
  match n with
  | O => []
  | S n' => mkPartition pid (GetPartitionGroupName db name pid) (Some (take R (drop i idle))) t t
            :: blocks n' (pid + 1) db name t R idle (i + R)
  end.

Definition append_all {A} (s : slice A) (l : list A) : slice A :=
  match l with [] => s | _ => Some (elems s ++ l) end.

(** ** Lemmas *)

Lemma append_all_append1 {A} (s : slice A) x l :
  append_all (append1 s x) l = append_all s (x :: l).
Proof.
  destruct l as [|y l]; [done|]. cbn [append_all append1 elems default id]. by rewrite <-app_assoc.
Qed.

Lemma elems_append_all {A} (s : slice A) l : elems (append_all s l) = elems s ++ l.
Proof. destruct l; [by rewrite app_nil_r|done]. Qed.

Lemma take_S_insert (rs : list Replica) rid node :
  (rid < length rs)%nat → take (S rid) (<[rid := node]> rs) = take rid rs ++ [node].
Proof.
  intros Hl. rewrite (take_S_r _ _ node); [|by apply list_lookup_insert_eq].
  by rewrite take_insert_ge.
Qed.

Lemma fill_replicas_spec left rid idle i rs :
  (rid + left = length rs)%nat → (i + left ≤ length idle)%nat →
  fill_replicas left rid idle i rs =
    Some (take rid rs ++ take left (drop i idle), (i + left)%nat).
Proof.
  revert rid i rs. induction left as [|left IH]; intros rid i rs Hr Hi; cbn [fill_replicas].
  - rewrite take_0, app_nil_r, take_ge by lia. do 2 f_equal. lia.
  - destruct (idle !! i) as [node|] eqn:E; [|apply lookup_ge_None in E; lia].
    cbn [mbind option_bind]. rewrite bool_decide_eq_true_2 by lia.
    rewrite IH by (rewrite ?length_insert; lia).
    rewrite take_S_insert by lia. rewrite (drop_S _ node i) by done. cbn [take].
    rewrite <-app_assoc. do 2 f_equal. lia.
Qed.

Lemma place_loop_spec n pid t idle i space :
  (i + n * Z.to_nat (ReplicaNum space) ≤ length idle)%nat →
  place_loop n pid t idle i space =
    Some (set_partitions (append_all (Partitions space)
      (blocks n pid (DbName space) (SpaceName space) t (Z.to_nat (ReplicaNum space)) idle i)) space).
Proof.
  revert pid i space. induction n as [|n IH]; intros pid i space Hi; cbn [place_loop blocks].
  - by destruct space.
  - cbn [CreatePartition Replicas elems default id].
    rewrite fill_replicas_spec; [|by rewrite length_replicate|lia].
    cbn [mbind option_bind take app]. rewrite IH by (cbn [set_partitions ReplicaNum]; lia).
    cbn [set_partitions Partitions DbName SpaceName ReplicaNum]. by rewrite append_all_append1.
Qed.

Lemma blocks_length n pid db name t R idle i : length (blocks n pid db name t R idle i) = n.
Proof. revert pid i. induction n; intros pid i; simpl; auto. Qed.

(** The blocks are consecutive. *)
Lemma blocks_replicas n pid db name t R idle i :
  (blocks n pid db name t R idle i ≫= λ p, elems (Replicas p)) = take (n * R) (drop i idle).
Proof.
  revert pid i. induction n as [|n IH]; intros pid i; [by rewrite take_0|].
  cbn [blocks]. rewrite bind_cons, IH. cbn [Replicas elems default id Nat.mul].
  by rewrite <-take_take_drop, drop_drop.
Qed.

Lemma blocks_lookup n pid db name t R idle i k :
  (k < n)%nat →
  blocks n pid db name t R idle i !! k =
    Some (mkPartition (pid + Z.of_nat k) (GetPartitionGroupName db name (pid + Z.of_nat k))
      (Some (take R (drop (i + k * R) idle))) t t).
Proof.
  revert pid i k. induction n as [|n IH]; intros pid i k Hk; [lia|]. destruct k as [|k]; simpl.
  - rewrite Z.add_0_r, Nat.add_0_r. done.
  - rewrite IH by lia. replace (pid + 1 + Z.of_nat k) with (pid + Z.of_nat (S k)) by lia.
    do 4 f_equal. f_equal. lia.
Qed.

(** [n] partitions of [R] replicas. *)
Definition uniform (sp : InnerSpace) (n R : nat) : Prop :=
  length (elems (Partitions sp)) = n ∧
  Forall (λ p, length (elems (Replicas p)) = R) (elems (Partitions sp)).

Lemma bind_lookup_uniform (ps : list Partition) R q r p :
  Forall (λ p, length (elems (Replicas p)) = R) ps → (r < R)%nat → ps !! q = Some p →
  (ps ≫= λ p, elems (Replicas p)) !! (q * R + r)%nat = elems (Replicas p) !! r.
Proof.
  intros Hps Hr. revert q. induction Hps as [|p0 ps Hp0 Hps IH]; intros q; [done|].
  rewrite bind_cons. destruct q as [|q]; cbn [lookup list_lookup].
  - intros [= ->]. cbn [Nat.mul Nat.add]. rewrite lookup_app_l by lia. done.
  - intros Hq. rewrite lookup_app_r by lia. rewrite Hp0.
    replace (S q * R + r - R)%nat with (q * R + r)%nat by lia. by apply IH.
Qed.

Lemma replica_at_nat sp n R i :
  uniform sp n R → PartitionNum sp = Z.of_nat n → (0 < n)%nat →
  replica_at sp (Z.of_nat i) =
    (p ← elems (Partitions sp) !! (i / n)%nat; elems (Replicas p) !! (i mod n)%nat).
Proof.
  intros _ HP Hn. unfold replica_at. rewrite HP.
  rewrite bool_decide_eq_false_2 by lia.
  rewrite Z.quot_div_nonneg, Z.rem_mod_nonneg by lia.
  rewrite <-Nat2Z.inj_div, <-Nat2Z.inj_mod.
  rewrite !(proj2 (Z.ltb_ge _ _)) by lia. by rewrite !Nat2Z.id.
Qed.

(** The loop over the responses panics when the lookup of a failed call does. *)
Lemma failed_loop_panics space base rs es j r e :
  rs !! j = Some r → es !! j = Some e → call_failed e r = true →
  replica_at space (base + Z.of_nat j) = None → failed_loop space base rs es = None.
Proof.
  revert base es j. induction rs as [|r0 rs IH]; intros base es j; [done|].
  destruct es as [|e0 es]; [done|]. cbn [failed_loop head mbind option_bind tail].
  destruct j as [|j]; cbn [lookup list_lookup].
  - intros [= ->] [= ->] -> HN. rewrite Z.add_0_r in HN. by rewrite HN.
  - intros Hr He Hf HN. rewrite (IH (base + 1) es j) by (done || rewrite <-HN; f_equal; lia).
    destruct (call_failed e0 r0); [|done]. by destruct (replica_at space base).
Qed.

(** ** Properties *)

(** C28. Dealing out the nodes: with at least as many idle nodes as replicas are
    needed, the loops do not panic and give partition [k] exactly the [k]-th
    block of the idle nodes, so that the space has [n] partitions of [R] nodes
    each, which together are the first [n * R] idle nodes in order. *)
Theorem placement_is_blockwise (n R : nat) (t : string) (idle : list Replica)
    (space : InnerSpace) :
  ReplicaNum space = Z.of_nat R → Partitions space = None → (n * R ≤ length idle)%nat →
  ∃ sp, place_loop n 0 t idle 0 space = Some sp ∧ uniform sp n R ∧
    replicas_of sp = take (n * R) idle ∧
    ∀ k, (k < n)%nat → elems (Partitions sp) !! k =
      Some (mkPartition (Z.of_nat k)
        (GetPartitionGroupName (DbName space) (SpaceName space) (Z.of_nat k))
        (Some (take R (drop (k * R) idle))) t t).
Proof.
  intros HR HN Hl. rewrite place_loop_spec by (rewrite HR, Nat2Z.id; lia).
  eexists. split; [reflexivity|].
  rewrite HR, HN, Nat2Z.id. unfold uniform, replicas_of. cbn [set_partitions Partitions].
  rewrite elems_append_all. cbn [elems default id app].
  split_and!.
  - apply blocks_length.
  - apply Forall_lookup. intros k p Hp.
    assert (k < n)%nat by (apply lookup_lt_Some in Hp; by rewrite blocks_length in Hp).
    rewrite blocks_lookup in Hp by done. simplify_eq/=. rewrite length_take, length_drop. nia.
  - by rewrite blocks_replicas.
  - intros k Hk. by rewrite blocks_lookup.
Qed.

Definition idle_nodes : list Replica :=
  [mkReplica 1 "10.0.0.1" 8081 0 "" ""; mkReplica 2 "10.0.0.2" 8081 0 "" "";
   mkReplica 3 "10.0.0.3" 8081 0 "" ""].
Definition three_replicas : InnerSpace :=
  mkInnerSpace "shop_db" "goods_1" 0 1 3 None None "" "" "".

Lemma placement_is_blockwise_witness :
  ∃ sp, place_loop 1 0 "t" idle_nodes 0 three_replicas = Some sp ∧ replicas_of sp = idle_nodes.
Proof.
  destruct (placement_is_blockwise 1 3 "t" idle_nodes three_replicas) as (sp & E & _ & Hr & _);
    [reflexivity|reflexivity|simpl; lia|]. exists sp. split; [exact E|exact Hr].
Defined.

(** C39. The node of a failed call: the index of a call is split by the number of
    partitions instead of the number of replicas.  If the two numbers are equal
    every index finds the node that was called.  Otherwise some index is outside
    of the space, and if the call with that index fails the handler panics
    instead of recording the error. *)
Theorem failed_call_lookup (sp : InnerSpace) (n R : nat) (rs : list CommonResponse)
    (es : list string) :
  (0 < n)%nat → (0 < R)%nat → uniform sp n R → PartitionNum sp = Z.of_nat n →
  (n = R → ∀ i, (i < n * R)%nat → replica_at sp (Z.of_nat i) = replicas_of sp !! i) ∧
  (n ≠ R → ∃ i, (i < n * R)%nat ∧ replica_at sp (Z.of_nat i) = None ∧
     ∀ r e, rs !! i = Some r → es !! i = Some e → call_failed e r = true →
       failed_loop sp 0 rs es = None).
Proof.
  intros Hn HR Hu HP. pose proof Hu as [Hl Hf]. split.
  - intros <- i Hi. rewrite (replica_at_nat sp n n) by done.
    assert (i / n < n)%nat by (apply Nat.Div0.div_lt_upper_bound; lia).
    destruct (lookup_lt_is_Some_2 (elems (Partitions sp)) (i / n)) as [p Hp]; [lia|].
    rewrite Hp. cbn [mbind option_bind]. unfold replicas_of.
    rewrite <-(bind_lookup_uniform _ n (i / n) (i mod n) p Hf); [|by apply Nat.mod_upper_bound; lia|done].
    f_equal. rewrite Nat.mul_comm. symmetry. apply Nat.div_mod. lia.
  - intros Hne.
    assert (∃ i, (i < n * R)%nat ∧ replica_at sp (Z.of_nat i) = None) as (i & Hi & HN).
    { destruct (decide (n < R)%nat).
      - exists (n * n)%nat. split; [nia|]. rewrite (replica_at_nat sp n R) by done.
        rewrite Nat.div_mul by lia. by rewrite lookup_ge_None_2 by lia.
      - exists R. split; [nia|]. rewrite (replica_at_nat sp n R) by done.
        rewrite Nat.div_small, Nat.mod_small by lia.
        destruct (elems (Partitions sp) !! 0%nat) as [p|] eqn:E; [|done]. cbn [mbind option_bind].
        rewrite Forall_lookup in Hf. specialize (Hf _ _ E). by rewrite lookup_ge_None_2 by lia. }
    exists i. split_and!; [done..|]. intros r e Hr He Hc. eapply failed_loop_panics; done.
Qed.

Lemma failed_call_lookup_witness :
  ∃ sp, place_loop 1 0 "t" idle_nodes 0 three_replicas = Some sp ∧
    ∃ i, (i < 3)%nat ∧ replica_at sp (Z.of_nat i) = None.
Proof.
  exists (set_partitions (Some [mkPartition 0 "shop_db:goods_1:0" (Some idle_nodes) "t" "t"])
    three_replicas). split; [reflexivity|].
  destruct (failed_call_lookup (set_partitions
    (Some [mkPartition 0 "shop_db:goods_1:0" (Some idle_nodes) "t" "t"]) three_replicas) 1 3 [] [])
    as [_ Hne]; [lia|lia|split; [reflexivity|by repeat constructor]|reflexivity|].
  destruct Hne as (i & Hi & HN & _); [lia|]. exists i. split; [lia|exact HN].
Defined.
