(* ===== verification/MasterSafety.v ===== *)
(** * MasterSafety: what the master guarantees about the cluster

    The laws of etcd that the master relies on while it holds the DDL lock, and
    the invariant that follows from them: a partition server is in at most one
    stored space, and the handlers leave each other's spaces alone. *)
From Stdlib Require Import Ascii.
From S2P Require Import Prelude Numeric Common GoStd GoJson MasterCommon MasterEntity MasterCheck Concurrent MasterStore MasterApi Placement.
Local Open Scope Z_scope.

(** ** Laws of the environment *)

Definition is_space_key (k : string) : Prop := str_prefix SpacesMataPrefix k.
Definition is_error_key (k : string) : Prop := str_prefix ErrPsNodesPrefix k.
(** The keys that are written under the lock only. *)
Definition tracked (k : string) : Prop :=
  is_space_key k ∨ is_error_key k ∨ k = DdlDisabledKey.

Class EtcdLaws (W : Type) `{MasterEnv W} := {
  (** The contents of etcd, and whether this process holds the lock. *)
  kv : W → gmap string string;
  locked : W → Prop;
  (** While the lock is held the tracked keys [P] do not change. *)
  agree (P : string → Prop) (w w' : W) : Prop :=
    locked w' ∧ ∀ k, P k → kv w' !! k = kv w !! k;
  law_TryLock w : (mutex_TryLock w).1 = None → locked (mutex_TryLock w).2;
  law_Put k v w : locked w →
    agree (λ x, tracked x ∧ x ≠ k) w (cli_Put k v w).2 ∧
    ((cli_Put k v w).1 = None → kv (cli_Put k v w).2 !! k = Some v) ∧
    (tracked k → kv (cli_Put k v w).2 !! k = Some v ∨ kv (cli_Put k v w).2 !! k = kv w !! k);
  law_Delete k w : locked w →
    agree (λ x, tracked x ∧ x ≠ k) w (cli_Delete k w).2 ∧
    (tracked k → kv (cli_Delete k w).2 !! k = None ∨ kv (cli_Delete k w).2 !! k = kv w !! k) ∧
    (∀ n, (cli_Delete k w).1 = inr n →
       kv (cli_Delete k w).2 !! k = None ∧ (tracked k → n = 1 ↔ is_Some (kv w !! k)));
  law_Get k w : locked w →
    agree tracked w (cli_Get k w).2 ∧
    (∀ l, (cli_Get k w).1 = inr l → tracked k →
       match kv w !! k with
       | None => l = []
       | Some v => ∃ x, l = [(k, x)] ∧ (v ≠ "" → x = Some v)
       end);
  law_GetPrefix p w : locked w →
    agree tracked w (cli_GetPrefix p w).2 ∧
    (∀ l, (cli_GetPrefix p w).1 = inr l → (∀ k, str_prefix p k → tracked k) →
       NoDup l.*1 ∧ ∀ k v, (k, v) ∈ l ↔ str_prefix p k ∧ kv w !! k = Some v);
  law_STM k f w : locked w → ¬ tracked k → agree tracked w (cli_STM k f w).2;
  law_http url body w : locked w → agree tracked w (http_Do url body w).2;
  law_STM_result k f w s n : (cli_STM k f w).1 = inr (s, n) → ∃ v v', f v = inr (v', n);
  law_time w : locked w → agree tracked w (time_Now w).2;
  law_time_text w : str_forall is_ascii (time_Now w).1.1 = true;
  (** A loop visits every entry once; a pool calls every task once. *)
  law_range {A} (m : gmap string A) w : range_map m w ≡ₚ map_to_list m;
  law_schedule n w : schedule n w ≡ₚ seq 0 n;
  (** What registers under the prefix of partition servers are the keys of
      servers at IP addresses. *)
  law_ps_keys w l : (cli_GetPrefix PsNodesPrefix w).1 = inr l →
    Forall (λ x, ∃ ip port id, x.1 = fst (GetPsRegisterKV ip port id) ∧ no_char ":" ip ∧
      str_forall is_ascii ip = true ∧ in_int64 port ∧ in_int64 id) l
}.

Section safety.
Context {W : Type} `{EtcdLaws W}.

(** ** Framing *)

(** The computation keeps the keys [P]. *)
Definition preserves {A} (P : string → Prop) (m : M W A) : Prop :=
  ∀ w, locked w → agree P w (m w).2.

Lemma agree_refl P w : locked w → agree P w w.
Proof. by split. Qed.
Lemma agree_trans P w1 w2 w3 : agree P w1 w2 → agree P w2 w3 → agree P w1 w3.
Proof. intros [_ H1] [Hl H2]. split; [done|]. intros k Hk. by rewrite H2, H1. Qed.
Lemma agree_weaken (P Q : string → Prop) w w' :
  (∀ k, P k → Q k) → agree Q w w' → agree P w w'.
Proof. intros HPQ [Hl Hk]. split; auto. Qed.

Lemma preserves_ret {A} P (a : A) : preserves P (mret a).
Proof. intros w Hw. by apply agree_refl. Qed.
Lemma preserves_lift {A} P (o : option A) : preserves P (mlift o).
Proof. intros w Hw. by apply agree_refl. Qed.
Lemma preserves_range {A} P (m : gmap string A) : preserves P (mrange m).
Proof. intros w Hw. by apply agree_refl. Qed.
Lemma preserves_then {A B} P (m : M W A) (k : A → M W B) :
  preserves P m → (∀ a, preserves P (k a)) → preserves P (mthen m k).
Proof.
  intros Hm Hk w Hw. unfold mthen. specialize (Hm w Hw).
  destruct (m w) as [[a|] w1]; simpl in *; [|done].
  eapply agree_trans; [done|]. apply Hk, Hm.
Qed.
Lemma preserves_weaken {A} (P Q : string → Prop) (m : M W A) :
  (∀ k, P k → Q k) → preserves Q m → preserves P m.
Proof. intros HPQ Hm w Hw. eapply agree_weaken; [done|]. by apply Hm. Qed.
Lemma preserves_do {A} P (f : W → A * W) :
  (∀ w, locked w → agree P w (f w).2) → preserves P (mdo f).
Proof. intros Hf w Hw. unfold mdo. specialize (Hf w Hw). by destruct (f w). Qed.

Lemma preserves_Get k : preserves tracked (Get k).
Proof.
  apply preserves_then; [|intros; apply preserves_ret]. apply preserves_do.
  intros w Hw. by apply law_Get.
Qed.
Lemma preserves_PrefixScan p : preserves tracked (PrefixScan p).
Proof.
  apply preserves_then; [|intros; apply preserves_ret]. apply preserves_do.
  intros w Hw. by apply law_GetPrefix.
Qed.
Lemma preserves_Put P k v :
  (∀ x, P x → tracked x ∧ x ≠ k) → preserves P (Put k v).
Proof.
  intros HP. apply (preserves_weaken _ _ _ HP), preserves_do. intros w Hw. by apply law_Put.
Qed.
Lemma preserves_Delete P k :
  (∀ x, P x → tracked x ∧ x ≠ k) → preserves P (Delete k).
Proof.
  intros HP. apply (preserves_weaken _ _ _ HP).
  apply preserves_then; [|intros; apply preserves_ret]. apply preserves_do.
  intros w Hw. by apply law_Delete.
Qed.
Lemma preserves_PutOrAppend P k v n :
  (∀ x, P x → tracked x ∧ x ≠ k) → preserves P (PutOrAppend k v n).
Proof.
  intros HP. apply preserves_then.
  { eapply preserves_weaken; [|apply preserves_Get]. intros x Hx. by apply HP. }
  intros [e|o]; [apply preserves_ret|]. simpl. destruct (_ <? _); [apply preserves_ret|].
  by apply preserves_Put.
Qed.
Lemma preserves_NewID k b : ¬ tracked k → preserves tracked (NewIDGenerate k b).
Proof.
  intros Hk. apply preserves_then; [|intros; apply preserves_ret]. apply preserves_do.
  intros w Hw. by apply law_STM.
Qed.
Lemma preserves_time : preserves tracked (mdo (λ w, let '(t, _, _, w') := GetCurTime w in (t, w'))).
Proof.
  apply preserves_do. intros w Hw. unfold GetCurTime. pose proof (law_time w Hw) as HT.
  by destruct (time_Now w) as [[? ?] ?].
Qed.

Lemma HttpOneNode_agree t w : locked w → agree tracked w (HttpOneNode t w).2.
Proof.
  intros Hw. unfold HttpOneNode, PostRequest.
  pose proof (law_http (task_url t) (reqJson t) w Hw) as HL.
  pose proof (agree_refl tracked w Hw) as HR.
  repeat case_match; simplify_eq/=; done.
Qed.

Lemma preserves_http tasks : preserves tracked (parallel_http tasks).
Proof.
  intros w Hw. unfold parallel_http, parallel_exec.
  generalize (schedule (length tasks) w). intros order.
  assert (∀ rs es w1, locked w1 →
    agree tracked w1 (foldl (exec1 HttpOneNode tasks) (rs, es, w1) order).2) as HG.
  { induction order as [|i order IH]; intros rs es w1 Hw1; [by apply agree_refl|]. cbn [foldl].
    destruct (exec1 HttpOneNode tasks (rs, es, w1) i) as [[rs' es'] w2] eqn:E.
    assert (agree tracked w1 w2) as Ha.
    { unfold exec1 in E. destruct (tasks !! i) as [t|]; [|simplify_eq; by apply agree_refl].
      pose proof (HttpOneNode_agree t w1 Hw1). destruct (HttpOneNode t w1) as [[r e] w3].
      by simplify_eq/=. }
    eapply agree_trans; [done|]. apply IH, Ha. }
  specialize (HG (replicate (length tasks) zero_Response) (replicate (length tasks) "") w Hw).
  by destruct (foldl _ _ _) as [[rs es] w'].
Qed.

(** ** Reading functions keep every tracked key *)

(** Reading steps, one after the other. *)
Ltac reads :=
  repeat first
    [ apply preserves_ret | apply preserves_lift | apply preserves_range
    | apply preserves_Get | apply preserves_PrefixScan | apply preserves_http
    | apply preserves_then; [|intros ?]
    | match goal with |- preserves _ (match ?x with _ => _ end) => destruct x end
    | match goal with |- preserves _ (if ?b then _ else _) => destruct b end
    | match goal with |- preserves _ (let '(_, _) := ?x in _) => destruct x end ].

Lemma preserves_Validate space : preserves tracked (ValidateNameAndGetIdlePsNode space).
Proof. unfold ValidateNameAndGetIdlePsNode. reads. Qed.
Lemma preserves_ParallelCreate space : preserves tracked (ParallelCreatePsSpace space).
Proof. unfold ParallelCreatePsSpace. reads. Qed.
Lemma preserves_ParallelDelete space : preserves tracked (ParallelDeletePsSpace space).
Proof. unfold ParallelDeletePsSpace. reads. Qed.
Lemma preserves_AddRouter space : preserves tracked (AddRouterSpace space).
Proof. unfold AddRouterSpace. reads. Qed.
Lemma preserves_DeleteRouter db name : preserves tracked (DeleteRouterSpace db name).
Proof. unfold DeleteRouterSpace. reads. Qed.

(** ** Keys *)

Lemma space_key_tracked k : is_space_key k → tracked k.
Proof. by left. Qed.
Lemma not_space_key k x : is_space_key x → (∀ r, k ≠ SpacesMataPrefix +:+ r) → tracked x ∧ x ≠ k.
Proof. intros Hx Hk. split; [by left|]. intros ->. destruct Hx as [r ->]. by apply (Hk r). Qed.

Lemma space_key_is_key db name : is_space_key (GetSpaceEtcdKey db name).
Proof. unfold GetSpaceEtcdKey. by eexists. Qed.

Lemma GetSpaceEtcdKey_inj db name db' name' :
  no_char "/" db → no_char "/" db' →
  GetSpaceEtcdKey db name = GetSpaceEtcdKey db' name' → db = db' ∧ name = name'.
Proof.
  intros H1 H2 E. unfold GetSpaceEtcdKey in E. apply append_inj_r, append_inj_r in E.
  change ("/" +:+ ?x) with (String "/" x) in E. by apply append_sep_inj in E.
Qed.

(** A key that starts differently is not the key of a space. *)
Ltac other_key :=
  intros x Hx; apply not_space_key; [exact Hx|];
  intros r E; repeat (rewrite ?append_cons, ?append_nil_l in E); discriminate E.

Lemma spaces_keep_Put_ddl v : preserves is_space_key (Put DdlDisabledKey v).
Proof. apply preserves_Put. other_key. Qed.
Lemma spaces_keep_Delete_ddl : preserves is_space_key (Delete DdlDisabledKey).
Proof. apply preserves_Delete. other_key. Qed.
Lemma spaces_keep_Append_ddl v n : preserves is_space_key (PutOrAppend DdlDisabledKey v n).
Proof. apply preserves_PutOrAppend. other_key. Qed.
Lemma spaces_keep_Append_err db name id v n :
  preserves is_space_key (PutOrAppend (GetErrSpaceEtcdKey db name id) v n).
Proof. apply preserves_PutOrAppend. unfold GetErrSpaceEtcdKey. other_key. Qed.
Lemma spaces_keep_Append_deleted db name id v n :
  preserves is_space_key (PutOrAppend (GetDeletedSpaceEtcdKey db name id) v n).
Proof. apply preserves_PutOrAppend. unfold GetDeletedSpaceEtcdKey. other_key. Qed.
Lemma spaces_keep_Put_deleted db name id v :
  preserves is_space_key (Put (GetDeletedSpaceEtcdKey db name id) v).
Proof. apply preserves_Put. unfold GetDeletedSpaceEtcdKey. other_key. Qed.
Lemma spaces_keep_Append_node ip port id v n :
  preserves is_space_key (PutOrAppend (GetErrPsNodeEtcdKey ip port id) v n).
Proof. apply preserves_PutOrAppend. unfold GetErrPsNodeEtcdKey. other_key. Qed.
Lemma spaces_keep_Append_log v n : preserves is_space_key (PutOrAppend ErrLog v n).
Proof. apply preserves_PutOrAppend. other_key. Qed.

Lemma spaces_keep_reads {A} (m : M W A) : preserves tracked m → preserves is_space_key m.
Proof. apply preserves_weaken, space_key_tracked. Qed.

Lemma spaces_keep_put_errs space l e acc :
  preserves is_space_key (put_errs_loop space l e acc).
Proof.
  revert acc. induction l as [|i l IH]; intros acc; cbn [put_errs_loop]; [apply preserves_ret|].
  apply preserves_then; [apply preserves_lift|]. intros rep.
  apply preserves_then; [apply spaces_keep_Append_node|]. intros _. apply IH.
Qed.

(** Steps that keep the keys of spaces. *)
Ltac keeps :=
  repeat first
    [ apply preserves_ret | apply preserves_lift | apply preserves_range
    | apply spaces_keep_Put_ddl | apply spaces_keep_Delete_ddl | apply spaces_keep_Append_ddl
    | apply spaces_keep_Append_err | apply spaces_keep_Append_deleted
    | apply spaces_keep_Put_deleted | apply spaces_keep_Append_log
    | apply spaces_keep_put_errs
    | apply spaces_keep_reads; first
        [ apply preserves_Get | apply preserves_PrefixScan | apply preserves_ParallelCreate
        | apply preserves_ParallelDelete | apply preserves_AddRouter | apply preserves_DeleteRouter
        | apply preserves_time | apply preserves_Validate ]
    | apply preserves_then; [|intros ?]
    | match goal with |- preserves _ (match ?x with _ => _ end) => destruct x end ].

Lemma spaces_keep_create_failed space prefix l db name id :
  preserves is_space_key (create_ps_failed space (GetErrSpaceEtcdKey db name id) prefix l).
Proof. unfold create_ps_failed, PutNodesErrInfoToEtcd. keeps. Qed.
Lemma spaces_keep_put_failed space prefix err db name id :
  preserves is_space_key (put_mata_failed space (GetErrSpaceEtcdKey db name id) prefix err).
Proof. unfold put_mata_failed, PutNodesErrInfoToEtcd. keeps. Qed.

(** ** What CreatePsSpaceImpl does to the spaces *)

(** [sp] is the space [space] with the first idle nodes, some time and some id. *)
Definition placed (space : InnerSpace) (idle : list Replica) (sp : InnerSpace) : Prop :=
  ∃ t id sp0, str_forall is_ascii t = true ∧ in_int64 id ∧
    PartitionNum space * ReplicaNum space ≤ Z.of_nat (length idle) ∧
    place_loop (Z.to_nat (PartitionNum space)) 0 t idle 0 (set_times t space) = Some sp0 ∧
    sp = set_id id sp0.

Lemma place_loop_names n pid t idle i space sp :
  place_loop n pid t idle i space = Some sp →
  DbName sp = DbName space ∧ SpaceName sp = SpaceName space.
Proof.
  revert pid i space. induction n as [|n IH]; intros pid i space; cbn [place_loop].
  - by intros [= ->].
  - destruct (fill_replicas _ _ _ _ _) as [[rs j]|]; [|done]. cbn [mbind option_bind].
    by intros E%IH.
Qed.

Lemma NewIDGenerate_int64 key w :
  ∃ r, (NewIDGenerate key IdBaseVal w).1 = Some r ∧ in_int64 r.1.
Proof.
  unfold NewIDGenerate, mthen, mdo, mret.
  destruct (cli_STM key (next_id IdBaseVal) w) as [[e|[[] n]] w'] eqn:E; simpl;
    eexists; (split; [reflexivity|]); simpl; try (unfold in_int64; lia).
  destruct (law_STM_result key (next_id IdBaseVal) w true n) as (v & v' & Hf); [by rewrite E|].
  unfold next_id in Hf. case_bool_decide; [simplify_eq; unfold in_int64, IdBaseVal; lia|].
  destruct (ParseInt v) as [z [|]]; simplify_eq. apply int64_range.
Qed.

Lemma GetCurTime_ascii w : str_forall is_ascii (GetCurTime w).1.1.1 = true.
Proof.
  unfold GetCurTime. pose proof (law_time_text w) as Ht.
  destruct (time_Now w) as [[f n] w']. simpl in *.
  rewrite !str_forall_app, Ht, to_string_ascii. done.
Qed.

(** One step of a computation that keeps [P]. *)
Lemma run_step {A B} P (m : M W A) (k : A → M W B) w r w' :
  preserves P m → locked w → mthen m k w = (r, w') →
  ∃ w1, agree P w w1 ∧
    ((r = None ∧ w' = w1) ∨ (∃ a, m w = (Some a, w1) ∧ k a w1 = (r, w'))).
Proof.
  intros Hm Hw. specialize (Hm w Hw). unfold mthen.
  destruct (m w) as [[a|] w1]; simpl in Hm; intros E; exists w1; (split; [done|]); simplify_eq; eauto.
Qed.

(** The last steps: from the creation of the space on the nodes on. *)
Definition finish_create (space : InnerSpace) (prefix : string) : M W (bool * string * InnerSpace) :=
  let errSpaceKey := GetErrSpaceEtcdKey (DbName space) (SpaceName space) (Id space) in
  failedPsIdxs ⇐ ParallelCreatePsSpace space;
  match failedPsIdxs with
  | _ :: _ =>
      '(b, e) ⇐ create_ps_failed space errSpaceKey prefix failedPsIdxs; mret (b, e, space)
  | [] =>
      e ⇐ Put (GetSpaceEtcdKey (DbName space) (SpaceName space)) (SerializeToJson space);
      match e with
      | Some err => '(b, e) ⇐ put_mata_failed space errSpaceKey prefix err; mret (b, e, space)
      | None => _ ⇐ Delete DdlDisabledKey; mret (true, "", space)
      end
  end.

Lemma append_not_empty s t u : t ≠ "" → s +:+ t +:+ u ≠ "".
Proof. intros Ht [_ [E _]%append_eq_nil]%append_eq_nil. done. Qed.

(** The message of the clean-up is never empty. *)
Lemma create_ps_failed_msg space key prefix l w b e w' :
  create_ps_failed space key prefix l w = (Some (b, e), w') → b = false ∧ e ≠ "".
Proof.
  unfold create_ps_failed, mthen, mret. intros E. repeat case_match; simplify_eq.
  all: split; [done|]; by apply append_ne_nil_r.
Qed.
Lemma put_mata_failed_msg space key prefix err w b e w' :
  put_mata_failed space key prefix err w = (Some (b, e), w') → b = false ∧ e ≠ "".
Proof.
  unfold put_mata_failed, mthen, mret. intros E. repeat case_match; simplify_eq.
  all: split; [done|]; apply append_ne_nil_r; done.
Qed.

Definition space_key (s : InnerSpace) : string := GetSpaceEtcdKey (DbName s) (SpaceName s).
Definition other_spaces (s : InnerSpace) (k : string) : Prop := is_space_key k ∧ k ≠ space_key s.

(** Either no space changes and the result is not a success, or [sp] is written
    and nothing else. *)
Definition created (sp : InnerSpace) (w : W) (r : option (bool * string * InnerSpace)) (w' : W)
    : Prop :=
  (agree is_space_key w w' ∧ ∀ b s, r ≠ Some (b, "", s)) ∨
  (agree (other_spaces sp) w w' ∧ kv w' !! space_key sp = Some (SerializeToJson sp) ∧
   ∀ b s, r = Some (b, "", s) → s = sp).

Lemma created_step sp w w1 r w' : agree is_space_key w w1 → created sp w1 r w' → created sp w r w'.
Proof.
  intros Ha [[H1 H2]|[H1 H2]]; [left|right]; (split; [|done]); eapply agree_trans; try done.
  eapply agree_weaken; [|done]. by intros k [Hk _].
Qed.

(** After the entry is written, steps that keep the spaces keep it. *)
Lemma created_after sp w w1 r w' :
  agree (other_spaces sp) w w1 → kv w1 !! space_key sp = Some (SerializeToJson sp) →
  agree is_space_key w1 w' → (∀ b s, r = Some (b, "", s) → s = sp) → created sp w r w'.
Proof.
  intros Ha Hk Hb Hr. right. split_and!; [|by rewrite (proj2 Hb) by apply space_key_is_key|done].
  eapply agree_trans; [done|]. eapply agree_weaken; [|done]. by intros k [? _].
Qed.

(** A clean-up ends without success. *)
Lemma cleanup_effect (m : M W (bool * string)) (sp : InnerSpace) w r w' :
  preserves is_space_key m → (∀ w b e w', m w = (Some (b, e), w') → b = false ∧ e ≠ "") →
  locked w → mthen m (λ '(b, e), mret (b, e, sp)) w = (r, w') →
  agree is_space_key w w' ∧ ∀ b s, r ≠ Some (b, "", s).
Proof.
  intros Hp He Hw E. apply (run_step is_space_key) in E as (w1 & Ha & [[-> ->]|([b e] & Em & E)]);
    [done| |done..]. injection E as <- <-. split; [done|]. apply He in Em as [_ ?]. naive_solver.
Qed.

Lemma put_space_effect sp prefix w r w' :
  locked w →
  (e ⇐ Put (space_key sp) (SerializeToJson sp);
   match e with
   | Some err => '(b, e) ⇐ put_mata_failed sp (GetErrSpaceEtcdKey (DbName sp) (SpaceName sp) (Id sp))
                   prefix err; mret (b, e, sp)
   | None => _ ⇐ Delete DdlDisabledKey; mret (true, "", sp)
   end) w = (r, w') →
  created sp w r w'.
Proof.
  intros Hw. unfold mthen at 1, Put, mdo.
  destruct (cli_Put (space_key sp) (SerializeToJson sp) w) as [e w2] eqn:EP.
  destruct (law_Put (space_key sp) (SerializeToJson sp) w Hw) as (HA & HN & HM).
  rewrite EP in HA, HN, HM. simpl in HA, HN, HM.
  assert (agree (other_spaces sp) w w2) as HO.
  { eapply agree_weaken; [|exact HA]. intros k [Hk Hne]. split; [by left|done]. }
  assert (Hl2 := proj1 HO). destruct e as [err|]; intros E.
  - apply cleanup_effect in E as [Hb Hr];
      [|apply spaces_keep_put_failed|intros; by eapply put_mata_failed_msg|done].
    destruct (HM (space_key_tracked _ (space_key_is_key _ _))) as [Hs|Hs].
    + apply (created_after sp w w2); try done. naive_solver.
    + left. split; [|done]. eapply agree_trans; [|done]. split; [done|]. intros k Hk.
      destruct (decide (k = space_key sp)) as [-> |Hne]; [done|]. by apply HO.
  - apply (run_step is_space_key) in E as (w3 & Ha & E); [|keeps|done].
    apply (created_after sp w w2); [done|by apply HN| |].
    + destruct E as [[_ ->]|(a & _ & E)]; [done|]. unfold mret in E. by simplify_eq.
    + intros b s ->. destruct E as [[? _]|(a & _ & E)]; [done|]. unfold mret in E. by simplify_eq.
Qed.

Lemma finish_create_effect sp prefix w r w' :
  locked w → finish_create sp prefix w = (r, w') → created sp w r w'.
Proof.
  intros Hw E. unfold finish_create in E.
  apply (run_step is_space_key) in E as (w1 & Ha & E);
    [|apply spaces_keep_reads, preserves_ParallelCreate|done].
  apply (created_step sp w w1); [done|]. destruct Ha as [Hw1 _].
  destruct E as [[-> ->]|([|i l] & _ & E)].
  - left. split; [by apply agree_refl|done].
  - by eapply put_space_effect.
  - left. apply cleanup_effect in E; try done;
      [apply spaces_keep_create_failed|intros; by eapply create_ps_failed_msg].
Qed.

(** The same for steps that only read. *)
Lemma read_step {A B} (m : M W A) (k : A → M W B) w r w' :
  preserves tracked m → locked w → mthen m k w = (r, w') →
  ∃ w1, agree is_space_key w w1 ∧
    ((r = None ∧ w' = w1) ∨ (∃ a, m w = (Some a, w1) ∧ k a w1 = (r, w'))).
Proof. intros Hm Hw. apply run_step; [by apply spaces_keep_reads|done]. Qed.

Lemma gen_space_id_untracked : ¬ tracked GenSpaceIdKey.
Proof. intros [[x Hx]|[[x Hx]|Hx]]; discriminate Hx. Qed.

Lemma CreatePsSpaceImpl_effect space idle w r w' :
  locked w → CreatePsSpaceImpl space idle w = (r, w') →
  (agree is_space_key w w' ∧ ∀ b s, r ≠ Some (b, "", s)) ∨
  (∃ sp, placed space idle sp ∧ created sp w r w').
Proof.
  intros Hw E. unfold CreatePsSpaceImpl in E. pose proof (GetCurTime_ascii w) as Ht.
  destruct (read_step _ _ _ _ _ preserves_time Hw E) as (w1 & Ha & [[-> ->]|(t & Et & E1)]);
    [by left|]. clear E.
  assert (str_forall is_ascii t = true) as Htt.
  { revert Et Ht. unfold mdo. destruct (GetCurTime w) as [[[t' f] m] w2]. intros [= -> ->]. done. }
  clear Et Ht. assert (Hw1 := proj1 Ha). cbn [set_times PartitionNum ReplicaNum] in E1.
  destruct (Z.ltb_spec (Z.of_nat (length idle)) (PartitionNum space * ReplicaNum space)).
  { injection E1 as <- <-. left. split; [done|]. by intros b s [=]. }
  unfold mthen at 1, mlift in E1.
  destruct (place_loop _ _ _ _ _ _) as [sp0|] eqn:Ep; [|injection E1 as <- <-; by left].
  destruct (NewIDGenerate_int64 GenSpaceIdKey w1) as ([id ie] & Eid & Hid). simpl in Hid.
  destruct (read_step _ _ _ _ _ (preserves_NewID _ IdBaseVal gen_space_id_untracked) Hw1 E1)
    as (w2 & Ha2 & E2). clear E1. assert (agree is_space_key w w2) by (by eapply agree_trans).
  destruct E2 as [[-> ->]|([id' ie'] & Ei & E2)]; [by left|].
  rewrite Ei in Eid. simpl in Eid. injection Eid as -> ->.
  destruct (run_step _ _ _ _ _ _ (spaces_keep_Put_ddl _) (proj1 Ha2) E2) as (w3 & Ha3 & E3).
  clear E2. assert (agree is_space_key w w3) by (by eapply agree_trans).
  destruct E3 as [[-> ->]|(e & _ & E3)]; [by left|].
  right. exists (set_id id sp0). split; [exists t, id, sp0; by split_and!|].
  apply (created_step _ w w3); [done|]. by eapply finish_create_effect; [exact (proj1 Ha3)|].
Qed.

(** ** The invariant of the stored spaces *)

(** The space that a stored value is read as, and the names of its nodes. *)
Definition space_of (v : string) : InnerSpace := (DeserializeFromByte v zero_InnerSpace).1.
Definition nodes_of (s : InnerSpace) : list string := node_name <$> replicas_of s.

(** A stored space has the shape its numbers say. *)
Definition shape_ok (s : InnerSpace) : Prop :=
  1 ≤ PartitionNum s ≤ 100 ∧ 1 ≤ ReplicaNum s ≤ 5 ∧
  uniform s (Z.to_nat (PartitionNum s)) (Z.to_nat (ReplicaNum s)).

Record ddl_inv (w : W) : Prop := {
  inv_stored k v : is_space_key k → kv w !! k = Some v →
    k = space_key (space_of v) ∧ name_ok (DbName (space_of v)) ∧
    name_ok (SpaceName (space_of v)) ∧ NoDup (nodes_of (space_of v)) ∧
    v = SerializeToJson (space_of v) ∧ space_ok (space_of v) ∧ shape_ok (space_of v);
  inv_disjoint k1 k2 v1 v2 : is_space_key k1 → is_space_key k2 →
    kv w !! k1 = Some v1 → kv w !! k2 = Some v2 → k1 ≠ k2 →
    ∀ n, n ∈ nodes_of (space_of v1) → n ∉ nodes_of (space_of v2)
}.

(** Reading the spaces does not fail. *)
Definition scans_succeed : Prop :=
  ∀ w, locked w → ∃ l, (cli_GetPrefix SpacesMataPrefix w).1 = inr l.

Lemma space_list_loop_foldl vs m :
  space_list_loop vs m =
    foldl (λ m v, <[space_map_key (space_of v) := space_of v]> m) m vs.
Proof.
  revert m. induction vs as [|v vs IH]; intros m; cbn [space_list_loop foldl]; [done|].
  destruct (DeserializeFromByte v zero_InnerSpace) as [s e] eqn:E.
  assert (space_of v = s) as -> by (unfold space_of; by rewrite E). assert (e = false) as ->.
  { unfold DeserializeFromByte in E. destruct (Unmarshal _ _ _). by simplify_eq. }
  apply IH.
Qed.

Lemma foldl_insert_lookup {A} (key : A → string) (l : list A) (m : gmap string A) k x :
  NoDup (key <$> l) →
  foldl (λ m v, <[key v := v]> m) m l !! k = Some x ↔
  (x ∈ l ∧ key x = k) ∨ (k ∉ key <$> l ∧ m !! k = Some x).
Proof.
  revert m. induction l as [|y l IH]; intros m Hd; cbn [foldl fmap list_fmap].
  - set_solver.
  - apply NoDup_cons in Hd as [Hn Hd]. rewrite IH by done.
    rewrite lookup_insert_Some, !elem_of_cons.
    destruct (decide (key y = k)) as [<-|Hne]; [|naive_solver]. split.
    + intros [[Hx Hk]|[Hk [[_ ->]|[? _]]]]; naive_solver.
    + intros [[[->|Hx] Hk]|[Hk _]]; naive_solver.
Qed.

Lemma DeserializeFromByteList_lookup vs k s :
  NoDup ((λ v, space_map_key (space_of v)) <$> vs) →
  DeserializeFromByteList vs !! k = Some s ↔
  ∃ v, v ∈ vs ∧ s = space_of v ∧ k = space_map_key (space_of v).
Proof.
  intros Hd. unfold DeserializeFromByteList. rewrite space_list_loop_foldl.
  assert (∀ m, foldl (λ m v, <[space_map_key (space_of v) := space_of v]> m) m vs =
    foldl (λ m v, <[space_map_key v := v]> m) m (space_of <$> vs)) as ->.
  { clear. induction vs as [|v vs IH]; intros m; [done|]. cbn [foldl fmap list_fmap]. apply IH. }
  rewrite foldl_insert_lookup by (by rewrite <-list_fmap_compose).
  rewrite lookup_empty, list_elem_of_fmap. naive_solver.
Qed.

Lemma NoDup_fmap_by {A} (f g : A → string) (l : list A) :
  NoDup (g <$> l) → (∀ x y, x ∈ l → y ∈ l → f x = f y → g x = g y) → NoDup (f <$> l).
Proof.
  intros Hg Hfg. induction l as [|x l IH]; [constructor|]. cbn [fmap list_fmap] in *.
  apply NoDup_cons in Hg as [Hn Hg]. apply NoDup_cons. split.
  - intros (y & E & Hy)%list_elem_of_fmap. apply Hn, list_elem_of_fmap. exists y.
    split; [|done]. apply Hfg; set_solver.
  - apply IH; [done|]. intros y z Hy Hz. apply Hfg; set_solver.
Qed.

Lemma space_map_key_inj s1 s2 :
  name_ok (DbName s1) → name_ok (DbName s2) →
  space_map_key s1 = space_map_key s2 → space_key s1 = space_key s2.
Proof.
  intros H1 H2 E. unfold space_map_key in E. rewrite !colon_append in E.
  apply append_sep_inj in E as [E1 E2]; [|by apply name_ok_chars..].
  unfold space_key. by rewrite E1, E2.
Qed.

Lemma ddl_inv_agree w w' : agree is_space_key w w' → ddl_inv w → ddl_inv w'.
Proof.
  intros [_ Ha] [I1 I2]. split.
  - intros k v Hk Hv. rewrite Ha in Hv by done. by apply I1.
  - intros k1 k2 v1 v2 H1 H2 E1 E2. rewrite Ha in E1, E2 by done. by eapply I2.
Qed.

Lemma scan_spaces w :
  scans_succeed → locked w → ddl_inv w →
  ∃ l w1, PrefixScan SpacesMataPrefix w = (Some (l.*1, l.*2, None), w1) ∧
    (∀ k v, (k, v) ∈ l ↔ is_space_key k ∧ kv w !! k = Some v) ∧
    NoDup ((λ v, space_map_key (space_of v)) <$> l.*2).
Proof.
  intros Hs Hw [I1 _]. destruct (Hs w Hw) as [l El].
  destruct (law_GetPrefix SpacesMataPrefix w Hw) as [_ HL].
  destruct (HL l El) as [Hd Hl]; [by left|]. unfold PrefixScan, mthen, mdo, mret.
  destruct (cli_GetPrefix SpacesMataPrefix w) as [r w1]. simpl in El. subst r.
  exists l, w1. split_and!; [done..|]. rewrite <-list_fmap_compose.
  apply (NoDup_fmap_by _ fst _ Hd). intros [k1 v1] [k2 v2] H1%Hl H2%Hl. simpl. intros E.
  destruct H1 as [K1 V1], H2 as [K2 V2].
  destruct (I1 _ _ K1 V1) as (-> & N1 & _), (I1 _ _ K2 V2) as (-> & N2 & _).
  by apply space_map_key_inj.
Qed.

(** Two tracked keys read the same after reading steps. *)
Lemma agree_spaces w w' : agree tracked w w' → agree is_space_key w w'.
Proof. apply agree_weaken, space_key_tracked. Qed.

(** A node is usable: its data can be written, and no stored space has it. *)
Definition usable (w : W) (r : Replica) : Prop :=
  replica_ok r ∧ ∀ k v, is_space_key k → kv w !! k = Some v → node_name r ∉ nodes_of (space_of v).

Lemma ps_replica_ok w keys m k r :
  (PrefixScan PsNodesPrefix w).1 = Some keys → RepDeserializeFromByte keys.1.1 = Some m →
  m !! k = Some r → replica_ok r.
Proof.
  intros Es Em Hk. destruct (RepDeserializeFromByte_ok _ _ Em) as [Hm Hf].
  destruct (Hm k r Hk) as (_ & E1 & E2 & E3). destruct (Hf k r Hk) as (key & Hkey & Ep).
  revert Es. unfold PrefixScan, mthen, mdo, mret.
  destruct (cli_GetPrefix PsNodesPrefix w) as [[e|l] w1] eqn:El; simpl; intros [= <-];
    [by apply elem_of_nil in Hkey|]. simpl in Hkey.
  pose proof (law_ps_keys w l) as Hl. rewrite El, Forall_forall in Hl. specialize (Hl eq_refl).
  apply list_elem_of_fmap in Hkey as (x & -> & Hin).
  destruct (Hl _ Hin) as (ip & port & id & Ek & Hip & Ha & Hport & Hid).
  assert (fst (GetPsRegisterKV ip port id) = "/nodes/ps/" +:+ GetPsNodeName ip port +:+ to_string id)
    as Ef by (unfold GetPsRegisterKV, GetPsNodeName; cbn [fst]; by rewrite !append_assoc).
  rewrite Ek, Ef, ParsePsRegisterKey_node in Ep by done. injection Ep as -> -> ->.
  unfold replica_ok. rewrite E1, E2, E3.
  split_and!; try done. by apply ascii_valid.
Qed.

Lemma Validate_spec space w idle w' :
  scans_succeed → locked w → ddl_inv w → name_ok (DbName space) →
  ValidateNameAndGetIdlePsNode space w = (Some (idle, ""), w') →
  NoDup (node_name <$> idle) ∧ Forall (usable w) idle ∧ kv w !! space_key space = None.
Proof.
  intros Hs Hw HI Hn. unfold ValidateNameAndGetIdlePsNode. intros E.
  destruct (run_step _ _ _ _ _ _ (preserves_PrefixScan _) Hw E)
    as (w1 & A1 & [[? _]|([[psK psV] e1] & S1 & E1)]); [done|]. clear E.
  destruct (run_step _ _ _ _ _ _ (preserves_PrefixScan _) (proj1 A1) E1)
    as (w2 & A2 & [[? _]|([[erK erV] e2] & S2 & E2)]); [done|]. clear E1.
  unfold mthen at 1, mlift in E2. destruct (RepDeserializeFromByte psK) as [m|] eqn:Em; [|done].
  unfold mthen at 1 in E2. destruct (RepDeserializeFromByte erK) as [me|] eqn:Ee; [|done].
  assert (agree is_space_key w w2) as A by (apply agree_spaces; by eapply agree_trans).
  destruct (scan_spaces w2 Hs (proj1 A)) as (l & w3 & S3 & Hl & Hd);
    [by eapply ddl_inv_agree|]. unfold mthen at 1 in E2. rewrite S3 in E2.
  set (spaces := DeserializeFromByteList l.*2) in *.
  case_bool_decide as Hin; [by injection E2|]. unfold mthen, mrange, mret in E2.
  injection E2 as <- _. assert (∀ k v, is_space_key k → kv w !! k = Some v →
    spaces !! space_map_key (space_of v) = Some (space_of v)) as Hsp.
  { intros k v Hk Hv. apply DeserializeFromByteList_lookup; [done|]. exists v. split_and!; try done.
    apply list_elem_of_fmap. exists (k, v). split; [done|]. apply Hl. split; [done|].
    by rewrite (proj2 A). }
  destruct (RepDeserializeFromByte_ok _ _ Em) as [Hm _].
  destruct (GetAllIdlePsKeys_spec (range_map m w3) m [GetAllPsMap (range_map spaces w3); me]
    Hm (law_range m w3)) as [HND HE]. split_and!; [done| |].
  - apply Forall_forall. intros r [Hr Hb]%HE. split.
    + eapply (ps_replica_ok w); [by rewrite S1|done..].
    + intros k v Hk Hv Hnode. specialize (Hb (GetAllPsMap (range_map spaces w3))).
      destruct (proj2 (GetAllPsMap_dom (range_map spaces w3) (node_name r))) as [x Hx].
      { exists (space_map_key (space_of v)), (space_of v). split; [|done].
        rewrite (law_range spaces w3), elem_of_map_to_list. by eapply Hsp. }
      rewrite Hb in Hx by set_solver. done.
  - apply eq_None_not_Some. intros [v Hv]. apply Hin.
    pose proof (space_key_is_key (DbName space) (SpaceName space)) as Hk.
    pose proof HI as [I1 _]. destruct (I1 _ _ Hk Hv) as (Ek & N1 & _).
    apply GetSpaceEtcdKey_inj in Ek as [E1 E2]; [|by apply name_ok_chars..].
    exists (space_of v). rewrite E1, E2. by eapply Hsp.
Qed.

(** ** Creating a space *)

(** A request that passed the check, with text that is valid UTF-8. *)
Definition new_space_ok (s : InnerSpace) : Prop :=
  name_ok (DbName s) ∧ name_ok (SpaceName s) ∧ 1 ≤ PartitionNum s ≤ 100 ∧ 1 ≤ ReplicaNum s ≤ 5 ∧
  Forall field_ok (elems (Fields s)) ∧ valid (IdType s) ∧ elems (Partitions s) = [].

(** The strings and integers of a request, as the decoder of JSON delivers them. *)
Definition api_index_ok (ix : ApiIndex) : Prop :=
  valid (ai_Name ix) ∧ valid (ai_Type ix) ∧
  ∀ p, ai_Params ix = Some p → valid (ip_MetricType p) ∧
    ∀ h m, ip_Hnsw p = Some h → hn_MetricType h = Some m → valid m.
Definition api_ok (s : ApiSpace) : Prop :=
  valid (api_IdType s) ∧
  Forall (λ f, valid (af_Name f) ∧ valid (af_Type f) ∧ in_int64 (af_Dimension f) ∧
    ∀ ix, af_Index f = Some ix → api_index_ok ix) (elems (api_Fields s)).

Lemma inner_params_valid ty p :
  valid (ip_MetricType p) →
  (∀ h m, ip_Hnsw p = Some h → hn_MetricType h = Some m → valid m) →
  valid (default "" (inner_params ty p)).
Proof.
  intros Hm Hh. unfold inner_params, valid. destruct (_ || _); cbn [default id].
  - apply print_valid. unfold enc_IVFPQ.
    cbn [iv_MetricType iv_TrainingThreshold iv_Ncentroids iv_Nsubvector iv_ThreadNum iv_Hnsw].
    wf_parts. destruct (ip_Hnsw p) as [h|] eqn:E; [|done]. specialize (Hh h).
    cbn [enc_ptr]. unfold enc_HNSW. wf_parts. destruct (hn_MetricType h); [by apply Hh|done].
  - case_bool_decide; [|done]. apply print_valid. unfold enc_HNSW.
    cbn [hn_MetricType hn_Nlinks hn_EfConstruction hn_EfSearch enc_ptr is_nil]. wf_parts.
Qed.

(** The check lets through what can be created. *)
Lemma accepted_new_space s :
  CheckApiSpace s = Some "" → api_ok s → new_space_ok (ApiSpaceToInnerSpace s).
Proof.
  intros HC [Hid Hf]. unfold CheckApiSpace in HC.
  destruct (failed (NameValidate (api_DbName s))) eqn:H1; [by injection HC|].
  destruct (failed (NameValidate (api_SpaceName s))) eqn:H2; [by injection HC|].
  apply failed_false, NameValidate_spec in H1, H2.
  destruct ((_ <=? _) || (100 <? _)) eqn:H3; [by injection HC|].
  destruct ((_ <=? _) || _ || _) eqn:H4; [by injection HC|].
  destruct (negb (len_zero _)) eqn:H5; [by injection HC|]. clear HC.
  apply orb_false_iff in H3 as [H3%Z.leb_gt H3'%Z.ltb_ge].
  apply replica_num_check in H4. rewrite !elem_of_cons, elem_of_nil in H4.
  unfold new_space_ok, ApiSpaceToInnerSpace.
  cbn [DbName SpaceName PartitionNum ReplicaNum Fields Partitions IdType].
  split_and!; try done; try lia.
  - rewrite inner_fields_app. destruct (elems (api_Fields s)) as [|f fs]; [constructor|].
    cbn [elems default id app]. apply Forall_fmap. eapply Forall_impl; [exact Hf|].
    intros g (G1 & G2 & G3 & G4). unfold field_ok, compose, inner_field.
    cbn [if_Name if_Type if_Dimension if_Index]. split_and!; try done.
    unfold inner_index. destruct (af_Index g) as [ix|]; [|done]. cbn [mbind option_bind].
    destruct (G4 ix eq_refl) as (I1 & I2 & I3).
    destruct (ai_Params ix) as [p|]; [|done]. cbn [mbind option_bind default id].
    destruct (I3 p eq_refl) as [J1 J2]. unfold index_ok. cbn [ii_Name ii_Type ii_Params].
    split_and!; [done..|]. by apply inner_params_valid.
  - apply negb_false_iff in H5. unfold len_zero in H5. by destruct (elems (api_Partitions s)).
Qed.

Lemma group_name_valid db name pid :
  name_ok db → name_ok name → valid (GetPartitionGroupName db name pid).
Proof.
  intros H1 H2. unfold GetPartitionGroupName, valid.
  repeat apply utf8_valid_app; try done; try (by apply name_ok_valid).
  apply ascii_valid, to_string_ascii.
Qed.

Lemma placed_facts space idle sp :
  new_space_ok space → placed space idle sp → Forall replica_ok idle →
  space_ok sp ∧ DbName sp = DbName space ∧ SpaceName sp = SpaceName space ∧
  PartitionNum sp = PartitionNum space ∧ ReplicaNum sp = ReplicaNum space ∧
  replicas_of sp = take (Z.to_nat (PartitionNum space) * Z.to_nat (ReplicaNum space)) idle ∧
  uniform sp (Z.to_nat (PartitionNum space)) (Z.to_nat (ReplicaNum space)).
Proof.
  intros (N1 & N2 & HP & HR & HF & HT & HN) (t & i & sp0 & Ht & Hid & Hlen & Ep & ->) Hi.
  set (n := Z.to_nat (PartitionNum space)) in *. set (R := Z.to_nat (ReplicaNum space)) in *.
  assert (n * R ≤ length idle)%nat as Hle by (unfold n, R; lia).
  rewrite place_loop_spec in Ep by done. injection Ep as <-.
  unfold space_ok, replicas_of, uniform.
  cbn [set_id set_partitions set_times DbName SpaceName Id PartitionNum ReplicaNum Fields
    Partitions IdType Ctime Mtime].
  rewrite elems_append_all, HN. fold R. cbn [app].
  assert (valid t) as Htv by (by apply ascii_valid).
  assert (∀ k p, blocks n 0 (DbName space) (SpaceName space) t R idle 0 !! k = Some p →
    (k < n)%nat ∧ p = mkPartition (Z.of_nat k) (GetPartitionGroupName (DbName space)
      (SpaceName space) (Z.of_nat k)) (Some (take R (drop (k * R) idle))) t t) as HB.
  { intros k p Hp. assert (k < n)%nat as Hk
      by (apply lookup_lt_Some in Hp; by rewrite blocks_length in Hp).
    rewrite blocks_lookup in Hp by done. by simplify_eq. }
  split_and!; try done; try (by apply name_ok_valid); try (unfold in_int64; lia).
  - apply Forall_lookup. intros k p [Hk ->]%HB. unfold partition_ok.
    cbn [PartitionId GroupName Replicas pt_Ctime pt_Mtime elems default id].
    split_and!; try done; [unfold in_int64, n in *; lia|by apply group_name_valid|].
    by apply Forall_take, Forall_drop.
  - unfold append_all. destruct (blocks n _ _ _ _ _ _ _) eqn:E; [|by rewrite HN].
    apply (f_equal length) in E. rewrite blocks_length in E. unfold n in E. simpl in E. lia.
  - by rewrite blocks_replicas.
  - apply blocks_length.
  - apply Forall_lookup. intros k p [Hk ->]%HB. cbn [Replicas elems default id].
    rewrite length_take, length_drop. nia.
Qed.

Lemma createSpace_body_effect space w r w' :
  locked w → createSpace_body space w = (r, w') →
  (agree is_space_key w w' ∧ r ≠ Some (0, "success")) ∨
  (∃ idle w1 w2 sp, agree tracked w w1 ∧
     ValidateNameAndGetIdlePsNode space w1 = (Some (idle, ""), w2) ∧
     placed space idle sp ∧ agree (other_spaces sp) w w' ∧
     kv w' !! space_key sp = Some (SerializeToJson sp)).
Proof.
  intros Hw E. unfold createSpace_body in E.
  destruct (run_step _ _ _ _ _ _ (preserves_Get _) Hw E)
    as (w1 & A1 & [[-> ->]|(val & _ & E1)]); [left; split; [by apply agree_spaces|done]|]. clear E.
  destruct (negb (ddl_is_enabled val)).
  { injection E1 as <- <-. left. split; [by apply agree_spaces|done]. }
  destruct (run_step _ _ _ _ _ _ (preserves_Validate _) (proj1 A1) E1)
    as (w2 & A2 & E2). clear E1. assert (agree tracked w w2) as A by (by eapply agree_trans).
  destruct E2 as [[-> ->]|([idle msg] & V & E2)]; [left; split; [by apply agree_spaces|done]|].
  destruct (failed msg) eqn:Hf.
  { injection E2 as <- <-. left. split; [by apply agree_spaces|done]. }
  apply failed_false in Hf. subst msg. apply agree_spaces in A.
  assert (Hw2 := proj1 A2). unfold mthen at 1 in E2.
  destruct (CreatePsSpaceImpl space idle w2) as [[[[b e] sp']|] w3] eqn:EC;
    destruct (CreatePsSpaceImpl_effect _ _ _ _ _ Hw2 EC) as [[Ha Hr]|(sp & Hpl & HC)].
  - left. destruct (failed e) eqn:Hf; [|apply failed_false in Hf; naive_solver].
    injection E2 as <- <-. split; [by eapply agree_trans|]. by destruct b.
  - apply (created_step sp w w2 _ _ A) in HC.
    assert (agree is_space_key w3 w' ∧ (e ≠ "" → r ≠ Some (0, "success"))) as [HR3 Hne].
    { assert (locked w3) as Hw3 by (destruct HC as [[[? _] _]|[[? _] _]]; done).
      destruct (failed e) eqn:Hf.
      - injection E2 as <- <-. split; [by apply agree_refl|]. by destruct b.
      - apply failed_false in Hf. split; [|done].
        apply (run_step is_space_key) in E2 as (w4 & A4 & [[_ ->]|(a & _ & E4)]);
          [done| |keeps|done]. by injection E4 as _ <-. }
    destruct HC as [[Ha Hr]|(Ha & Hk & _)].
    + left. split; [by eapply agree_trans|]. apply Hne. intros ->. naive_solver.
    + right. exists idle, w1, w2, sp. split_and!; try done.
      * eapply agree_trans; [done|]. eapply agree_weaken; [|done]. by intros k [? _].
      * rewrite (proj2 HR3); [done|apply space_key_is_key].
  - left. injection E2 as <- <-. split; [by eapply agree_trans|done].
  - injection E2 as <- <-. apply (created_step sp w w2 _ _ A) in HC.
    destruct HC as [[Ha _]|(Ha & Hk & _)]; [by left|right].
    exists idle, w1, w2, sp. by split_and!.
Qed.

(** The invariant after one entry is added. *)
Lemma ddl_inv_add w w' sp :
  ddl_inv w → agree (other_spaces sp) w w' → kv w' !! space_key sp = Some (SerializeToJson sp) →
  space_ok sp → name_ok (DbName sp) → name_ok (SpaceName sp) → NoDup (nodes_of sp) →
  shape_ok sp →
  (∀ k v, is_space_key k → kv w !! k = Some v →
     ∀ n, n ∈ nodes_of sp → n ∉ nodes_of (space_of v)) →
  ddl_inv w'.
Proof.
  intros [I1 I2] [_ Ha] Hk Hok N1 N2 Hd Hsh Hdis.
  assert (space_of (SerializeToJson sp) = sp) as Es
    by (unfold space_of; by rewrite space_roundtrip).
  assert (∀ k v, is_space_key k → kv w' !! k = Some v →
    (k = space_key sp ∧ v = SerializeToJson sp) ∨ (k ≠ space_key sp ∧ kv w !! k = Some v)) as HC.
  { intros k v K V. destruct (decide (k = space_key sp)) as [->|Hne]; [left; by simplify_eq|].
    right. rewrite Ha in V by done. done. }
  split.
  - intros k v K V. destruct (HC k v K V) as [[-> ->]|[_ V']]; [by rewrite !Es|by apply I1].
  - intros k1 k2 v1 v2 K1 K2 V1 V2 Hne n Hn Hn2.
    destruct (HC _ _ K1 V1) as [[-> ->]|[_ V1']], (HC _ _ K2 V2) as [[-> ->]|[_ V2']]; [done|..];
      rewrite ?Es in *.
    + by eapply (Hdis _ _ K2 V2').
    + by eapply (Hdis _ _ K1 V1').
    + by eapply (I2 k1 k2).
Qed.

(** The invariant after at most one entry is removed. *)
Lemma ddl_inv_remove w w' key :
  ddl_inv w → agree (λ k, is_space_key k ∧ k ≠ key) w w' →
  (kv w' !! key = None ∨ kv w' !! key = kv w !! key) → ddl_inv w'.
Proof.
  intros [I1 I2] [_ Ha] Hk.
  assert (∀ k v, is_space_key k → kv w' !! k = Some v → kv w !! k = Some v) as HC.
  { intros k v K V. destruct (decide (k = key)) as [->|Hne].
    - destruct Hk as [Hk|Hk]; congruence.
    - by rewrite <-(Ha k) by done. }
  split.
  - intros k v K V%HC; [|done]. by apply I1.
  - intros k1 k2 v1 v2 K1 K2 V1%HC V2%HC; try done. by eapply I2.
Qed.

Lemma nodes_of_take sp n idle :
  replicas_of sp = take n idle → nodes_of sp = take n (node_name <$> idle).
Proof. intros E. unfold nodes_of. by rewrite E, fmap_take. Qed.

(** What a created space is: the request with its number of nodes, each of them
    outside of every space so far. *)
Record fresh_space (w : W) (space sp : InnerSpace) : Prop := {
  fs_ok : space_ok sp;
  fs_db : DbName sp = DbName space;
  fs_name : SpaceName sp = SpaceName space;
  fs_partitions : PartitionNum sp = PartitionNum space;
  fs_replicas : ReplicaNum sp = ReplicaNum space;
  fs_uniform : uniform sp (Z.to_nat (PartitionNum space)) (Z.to_nat (ReplicaNum space));
  fs_absent : kv w !! space_key space = None;
  fs_nodup : NoDup (nodes_of sp);
  fs_free : ∀ k v, is_space_key k → kv w !! k = Some v →
    ∀ n, n ∈ nodes_of sp → n ∉ nodes_of (space_of v)
}.

Lemma placed_fresh space w w1 w2 idle sp :
  scans_succeed → ddl_inv w → new_space_ok space → agree tracked w w1 →
  ValidateNameAndGetIdlePsNode space w1 = (Some (idle, ""), w2) →
  placed space idle sp → fresh_space w space sp.
Proof.
  intros Hs HI HN A1 V Hpl.
  assert (ddl_inv w1) as HI1 by (by eapply ddl_inv_agree; [apply agree_spaces|]).
  destruct (Validate_spec _ _ _ _ Hs (proj1 A1) HI1 (proj1 HN) V) as (Hd & Hu & Habs).
  assert (Forall replica_ok idle) as Hri by (eapply Forall_impl; [exact Hu|]; by intros r []).
  destruct (placed_facts _ _ _ HN Hpl Hri) as (Hok & E1 & E2 & E3 & E4 & Er & Hun).
  apply nodes_of_take in Er. split; try done.
  - rewrite <-Habs. symmetry. apply A1, space_key_tracked, space_key_is_key.
  - rewrite Er. eapply sublist_NoDup; [exact Hd|]. apply sublist_take.
  - intros k v K Vv n Hn. rewrite Er in Hn.
    apply subseteq_take, list_elem_of_fmap in Hn as (r & -> & Hr).
    rewrite Forall_forall in Hu. destruct (Hu r Hr) as [_ Hf]. apply (Hf k); [done|].
    rewrite (proj2 A1); [done|by left].
Qed.

Lemma createSpace_body_spaces space w r w' :
  scans_succeed → locked w → ddl_inv w → new_space_ok space →
  createSpace_body space w = (r, w') →
  (agree is_space_key w w' ∧ r ≠ Some (0, "success")) ∨
  (∃ sp, fresh_space w space sp ∧ agree (other_spaces sp) w w' ∧
     kv w' !! space_key sp = Some (SerializeToJson sp)).
Proof.
  intros Hs Hw HI HN E.
  destruct (createSpace_body_effect _ _ _ _ Hw E) as [?|(idle & w1 & w2 & sp & A & V & Hp & HA & HK)];
    [by left|right]. exists sp. split_and!; try done. by eapply placed_fresh.
Qed.

Lemma createSpace_body_inv space w r w' :
  scans_succeed → locked w → ddl_inv w → new_space_ok space →
  createSpace_body space w = (r, w') → ddl_inv w'.
Proof.
  intros Hs Hw HI HN E.
  destruct (createSpace_body_spaces _ _ _ _ Hs Hw HI HN E) as [[Ha _]|(sp & [] & HA & HK)].
  - by eapply ddl_inv_agree.
  - destruct HN as (N1 & N2 & HP & HR & _). eapply (ddl_inv_add w w' sp); try done; [congruence..|].
    unfold shape_ok. by rewrite fs_partitions0, fs_replicas0.
Qed.

(** ** Deleting a space *)

(** Of the spaces at most the one under [key] is gone; a success means that it is. *)
Definition deleted (key : string) (w : W) (r : option (Z * string)) (w' : W) : Prop :=
  agree (λ k, is_space_key k ∧ k ≠ key) w w' ∧
  (kv w' !! key = None ∨ (kv w' !! key = kv w !! key ∧ r ≠ Some (0, "success"))).

Lemma deleted_none key w r w' :
  is_space_key key → agree is_space_key w w' → r ≠ Some (0, "success") → deleted key w r w'.
Proof.
  intros Hk Ha Hr. split; [eapply agree_weaken; [|done]; by intros k [? _]|]. right.
  split; [by apply Ha|done].
Qed.

Lemma deleted_step key w w1 r w' :
  is_space_key key → agree is_space_key w w1 → deleted key w1 r w' → deleted key w r w'.
Proof.
  intros Hk Ha [H1 H2]. split.
  - eapply agree_trans; [|done]. eapply agree_weaken; [|done]. by intros k [? _].
  - rewrite <-(proj2 Ha key Hk). done.
Qed.

(** The steps after the entry is gone. *)
Definition delete_on_nodes (req : DeleteSpaceRequest) (space : InnerSpace)
    (deletedSpaceKey errSpaceKey : string) : M W (Z * string) :=
  let prefix := delete_prefix req in
  _ ⇐ DeleteRouterSpace (ds_DbName req) (ds_SpaceName req);
  failedPsIdxs ⇐ ParallelDeletePsSpace space;
  match failedPsIdxs with
  | _ :: _ =>
      failedNodesStr ⇐ PutNodesErrInfoToEtcd space failedPsIdxs
        (prefix +:+ " delete ps space failed; ");
      _ ⇐ PutOrAppend errSpaceKey
        ("delete ps space failed; failed nodes: " +:+ failedNodesStr) EtcdValMaxLen;
      _ ⇐ Delete DdlDisabledKey;
      mret (100, prefix +:+ " delete ps space failed, deadly error nodes:" +:+ failedNodesStr)
  | [] =>
      _ ⇐ Delete DdlDisabledKey;
      _ ⇐ PutOrAppend deletedSpaceKey "; success" EtcdValMaxLen;
      mret (0, "success")
  end.

Lemma spaces_keep_delete_on_nodes req space db name id :
  preserves is_space_key (delete_on_nodes req space (GetDeletedSpaceEtcdKey db name id)
    (GetErrSpaceEtcdKey db name id)).
Proof. unfold delete_on_nodes, PutNodesErrInfoToEtcd. keeps. Qed.

Lemma delete_everywhere_effect req space db name id w r w' :
  let key := GetSpaceEtcdKey (ds_DbName req) (ds_SpaceName req) in
  locked w →
  delete_everywhere req space key (GetDeletedSpaceEtcdKey db name id) (GetErrSpaceEtcdKey db name id)
    w = (r, w') →
  deleted key w r w'.
Proof.
  intros key Hw E. assert (is_space_key key) as Hkey by apply space_key_is_key.
  unfold delete_everywhere in E. destruct (law_Delete key w Hw) as (HA & HM & HN).
  unfold mthen at 1, Delete at 1, mthen at 1, mdo in E.
  destruct (cli_Delete key w) as [d w1]. cbn [fst snd] in HA, HM, HN.
  assert (agree (λ k, is_space_key k ∧ k ≠ key) w w1) as HO.
  { eapply agree_weaken; [|exact HA]. intros k [Hk Hne]. split; [by left|done]. }
  specialize (HM (space_key_tracked _ Hkey)).
  assert (agree is_space_key w1 w' ∧ (kv w1 !! key = None ∨ r ≠ Some (0, "success"))) as [Hb Hr].
  { unfold mret at 1 in E. destruct d as [err|n]; simpl in E.
    - destruct (run_step _ _ _ _ _ _ (spaces_keep_Append_err _ _ _ _ _) (proj1 HO) E)
        as (w2 & A2 & [[-> ->]|(a & _ & [= <- <-])]); (split; [done|by right]).
    - split; [|left; by apply (HN n)]. case_bool_decide.
      2: { destruct (run_step _ _ _ _ _ _ (spaces_keep_Append_err _ _ _ _ _) (proj1 HO) E)
             as (w2 & A2 & [[-> ->]|(a & _ & [= <- <-])]); done. }
      pose proof (spaces_keep_delete_on_nodes req space db name id w1 (proj1 HO)) as HP.
      unfold delete_on_nodes in HP. by rewrite E in HP. }
  split.
  - eapply agree_trans; [exact HO|]. eapply agree_weaken; [|exact Hb]. by intros k [? _].
  - rewrite (proj2 Hb key Hkey). destruct HM; destruct Hr; tauto.
Qed.

Lemma deleteSpace_body_effect req w r w' :
  locked w → deleteSpace_body req w = (r, w') →
  deleted (GetSpaceEtcdKey (ds_DbName req) (ds_SpaceName req)) w r w'.
Proof.
  intros Hw E. unfold deleteSpace_body in E. set (key := GetSpaceEtcdKey _ _) in *.
  assert (is_space_key key) as Hkey by apply space_key_is_key.
  destruct (read_step _ _ _ _ _ (preserves_Get _) Hw E) as (w1 & A1 & [[-> ->]|(g & _ & E1)]);
    [by apply deleted_none|]. clear E.
  destruct g as [err|[detail|]]; [by injection E1 as <- <-; apply deleted_none| |
    by injection E1 as <- <-; apply deleted_none].
  apply (deleted_step _ _ w1); [done..|].
  destruct (read_step _ _ _ _ _ (preserves_Get _) (proj1 A1) E1)
    as (w2 & A2 & [[-> ->]|(v & _ & E2)]); [by apply deleted_none|]. clear E1.
  destruct (negb (ddl_is_enabled v)); [by injection E2 as <- <-; apply deleted_none|].
  apply (deleted_step _ _ w2); [done..|]. clear A1.
  destruct (DeserializeFromByte detail zero_InnerSpace) as [space [|]].
  { destruct (run_step _ _ _ _ _ _ (spaces_keep_Append_log _ _) (proj1 A2) E2)
      as (w3 & A3 & [[-> ->]|(a & _ & [= <- <-])]); by apply deleted_none. }
  destruct (run_step _ _ _ _ _ _ (spaces_keep_Put_deleted _ _ _ _) (proj1 A2) E2)
    as (w3 & A3 & [[-> ->]|(a & _ & E3)]); [by apply deleted_none|]. clear E2.
  apply (deleted_step _ _ w3); [done..|]. clear A2.
  destruct (run_step _ _ _ _ _ _ (spaces_keep_Put_ddl _) (proj1 A3) E3)
    as (w4 & A4 & [[-> ->]|(b & _ & E4)]); [by apply deleted_none|]. clear E3.
  apply (deleted_step _ _ w4); [done..|].
  exact (delete_everywhere_effect _ _ _ _ _ _ _ _ (proj1 A4) E4).
Qed.

Lemma deleteSpace_body_inv req w r w' :
  locked w → ddl_inv w → deleteSpace_body req w = (r, w') → ddl_inv w'.
Proof.
  intros Hw HI E. destruct (deleteSpace_body_effect _ _ _ _ Hw E) as [HA HK].
  eapply ddl_inv_remove; [done..|]. destruct HK as [?|[? _]]; auto.
Qed.

(** ** Histories of the cluster *)

(** A cluster starts without spaces.  Handlers run one at a time, under the lock;
    between them anything happens that leaves the spaces alone.  A creation holds
    the lock or is refused.  The deletions are those that got the lock:
    [deleteSpace] does not look at the result of [TryLock], and what it does when
    it goes on without the lock, next to another handler, is not covered. *)
Inductive ddl_reach : W → Prop :=
| reach_start w : (∀ k, is_space_key k → kv w !! k = None) → ddl_reach w
| reach_other w w' : ddl_reach w → (∀ k, is_space_key k → kv w' !! k = kv w !! k) → ddl_reach w'
| reach_create w req r w' : ddl_reach w → locked w →
    CheckApiSpace req = Some "" → api_ok req →
    createSpace_body (ApiSpaceToInnerSpace req) w = (r, w') → ddl_reach w'
| reach_delete w req r w' : ddl_reach w → locked w →
    deleteSpace_body req w = (r, w') → ddl_reach w'.

Lemma ddl_reach_inv w : scans_succeed → ddl_reach w → ddl_inv w.
Proof.
  intros Hs. induction 1 as [w He|w w' _ IH He|w req r w' _ IH Hw HC HA E|w req r w' _ IH Hw E].
  - split; intros; by rewrite He in *.
  - destruct IH as [I1 I2]. split.
    + intros k v Hk Hv. rewrite He in Hv by done. by apply I1.
    + intros k1 k2 v1 v2 K1 K2 V1 V2. rewrite He in V1, V2 by done. by eapply I2.
  - eapply createSpace_body_inv; try done. by apply accepted_new_space.
  - by eapply deleteSpace_body_inv.
Qed.
End safety.
