(* ===== verification/MasterCluster.v ===== *)
(** * MasterCluster: the cluster as the master leaves it

    The properties of the handlers that create and delete spaces
    (src/master/clusterapi/space_api.go): the mark that blocks them after an
    error, the spaces and nodes over a history of requests, the creation that
    succeeds, and the ids.  The last part is a concrete cluster in which the
    hypotheses hold. *)
From Stdlib Require Import Ascii Sorted.
From stdpp Require Import sorting.
From S2P Require Import Prelude Numeric Common GoStd GoJson MasterCommon MasterEntity MasterCheck Concurrent MasterStore MasterApi Placement MasterSafety.
Local Open Scope Z_scope.

Section mark.
Context {W : Type} `{EtcdLaws W}.

(** ** The mark of an error *)

(** The lock is held and the key that disables DDL has a value. *)
Definition marked (w : W) : Prop :=
  locked w ∧ ∃ v, kv w !! DdlDisabledKey = Some v ∧ v ≠ "".

Definition stable {A} (m : M W A) : Prop := ∀ w, marked w → marked (m w).2.

Lemma ddl_key_tracked : tracked DdlDisabledKey.
Proof. by right; right. Qed.

Lemma marked_agree (P : string → Prop) w w' :
  P DdlDisabledKey → agree P w w' → marked w → marked w'.
Proof.
  intros HP [Hl Ha] (_ & v & Hv & Hne). split; [done|]. exists v. by rewrite (Ha _ HP).
Qed.
Lemma stable_preserves {A} (P : string → Prop) (m : M W A) :
  P DdlDisabledKey → preserves P m → stable m.
Proof. intros HP Hm w Hw. eapply marked_agree; [done|apply Hm, Hw|done]. Qed.
Lemma stable_reads {A} (m : M W A) : preserves tracked m → stable m.
Proof. apply stable_preserves, ddl_key_tracked. Qed.
Lemma stable_then {A B} (m : M W A) (k : A → M W B) :
  stable m → (∀ a, stable (k a)) → stable (mthen m k).
Proof.
  intros Hm Hk w Hw. unfold mthen. specialize (Hm w Hw).
  destruct (m w) as [[a|] w1]; simpl in *; [by apply Hk|done].
Qed.

Lemma stable_Put k v : k ≠ DdlDisabledKey ∨ v ≠ "" → stable (Put k v).
Proof.
  intros Hkv w Hw. pose proof (law_Put k v w (proj1 Hw)) as (Ha & _ & HT).
  unfold Put, mdo. destruct (cli_Put k v w) as [e w1]. simpl in *.
  destruct (decide (k = DdlDisabledKey)) as [->|Hne].
  - destruct Hkv as [?|Hv]; [done|]. destruct Hw as (_ & v0 & Hv0 & Hne).
    split; [apply Ha|]. destruct (HT ddl_key_tracked) as [-> | ->]; eauto.
  - eapply marked_agree; [|exact Ha|done]. split; [apply ddl_key_tracked|done].
Qed.
Lemma stable_PutOrAppend k v n : v ≠ "" → stable (PutOrAppend k v n).
Proof.
  intros Hv. apply stable_then; [apply stable_reads, preserves_Get|].
  intros [e|o]; [intros w Hw; exact Hw|]. simpl.
  destruct (_ <? _); [intros w Hw; exact Hw|]. apply stable_Put. right.
  destruct o; [by apply append_ne_nil_r|done].
Qed.
Lemma stable_put_errs space l e acc : stable (put_errs_loop space l e acc).
Proof.
  revert acc. induction l as [|i l IH]; intros acc; cbn [put_errs_loop]; [intros w Hw; exact Hw|].
  apply stable_then; [intros w Hw; exact Hw|]. intros rep.
  apply stable_then; [|intros _; apply IH]. by apply stable_PutOrAppend.
Qed.

Ltac stays :=
  repeat first
    [ match goal with |- stable (mret _) => intros ? ?; assumption end
    | match goal with |- stable (mlift _) => intros ? ?; assumption end
    | apply stable_put_errs
    | apply stable_reads; first [apply preserves_ParallelDelete | apply preserves_ParallelCreate]
    | apply stable_PutOrAppend; first [done | by apply append_ne_nil_r | idtac]
    | apply stable_then; [|intros ?]
    | match goal with |- stable (match ?x with _ => _ end) => destruct x end ].

Lemma stable_create_failed space key prefix l : stable (create_ps_failed space key prefix l).
Proof. unfold create_ps_failed, PutNodesErrInfoToEtcd. stays. Qed.
Lemma stable_put_failed space key prefix err : stable (put_mata_failed space key prefix err).
Proof. unfold put_mata_failed, PutNodesErrInfoToEtcd. stays. Qed.

(** With the mark, DDL is not enabled. *)
Lemma marked_disabled w r w' : marked w → Get DdlDisabledKey w = (Some r, w') → ddl_is_enabled r = false.
Proof.
  intros (Hw & v & Hv & Hne). destruct (law_Get DdlDisabledKey w Hw) as [_ HL].
  unfold Get, mthen, mdo, mret. destruct (cli_Get DdlDisabledKey w) as [[e|l] w1];
    intros [= <- <-]; [done|]. simpl in HL. specialize (HL l eq_refl ddl_key_tracked).
  rewrite Hv in HL. destruct HL as (x & -> & Hx). by rewrite Hx.
Qed.
Lemma Get_total k w : ∃ r w', Get k w = (Some r, w').
Proof. unfold Get, mthen, mdo, mret. destruct (cli_Get k w). eauto. Qed.

Lemma marked_step {A B} (m : M W A) (k : A → M W B) w r w' :
  marked w → stable m → mthen m k w = (Some r, w') →
  ∃ a w1, marked w1 ∧ k a w1 = (Some r, w').
Proof.
  intros Hw Hm. specialize (Hm w Hw). unfold mthen.
  destruct (m w) as [[a|] w1]; intros E; [by exists a, w1|done].
Qed.

(** The mark can be written. *)
Definition marks_succeed : Prop :=
  ∀ v w, locked w → (cli_Put DdlDisabledKey v w).1 = None.

Lemma Put_marks v w : marks_succeed → v ≠ "" → locked w → marked (Put DdlDisabledKey v w).2.
Proof.
  intros Hm Hv Hw. destruct (law_Put DdlDisabledKey v w Hw) as (Ha & HN & _).
  specialize (HN (Hm v w Hw)). unfold Put, mdo. destruct (cli_Put _ _ _) as [e w1].
  split; [apply Ha|]. by exists v.
Qed.

(** A creation that ends without a success that is not an early refusal. *)
Lemma finish_create_mark sp prefix w b e s w' :
  marked w → finish_create sp prefix w = (Some (b, e, s), w') → e ≠ "" → b = false ∧ marked w'.
Proof.
  intros Hw E He. unfold finish_create in E.
  destruct (marked_step _ _ _ _ _ Hw (stable_reads _ (preserves_ParallelCreate sp)) E)
    as (l & w1 & Hw1 & E1). clear E.
  assert (∀ (m : M W (bool * string)) w2, marked w2 → stable m →
    (∀ w b e w', m w = (Some (b, e), w') → b = false ∧ e ≠ "") →
    mthen m (λ '(b, e), mret (b, e, sp)) w2 = (Some (b, e, s), w') → b = false ∧ marked w') as HF.
  { intros m w2 Hw2 Hm Hb. unfold mthen. specialize (Hm w2 Hw2).
    destruct (m w2) as [[[b' e']|] w3] eqn:Em; [|done]. intros [= <- <- <- <-].
    split; [|done]. by apply Hb in Em as [? _]. }
  destruct l as [|i l].
  - assert (stable (Put (GetSpaceEtcdKey (DbName sp) (SpaceName sp)) (SerializeToJson sp))) as HP.
    { apply stable_Put. left. unfold GetSpaceEtcdKey. discriminate. }
    destruct (marked_step _ _ _ _ _ Hw1 HP E1) as ([err|] & w2 & Hw2 & E2).
    + eapply HF; [exact Hw2|apply stable_put_failed| |exact E2].
      intros; by eapply put_mata_failed_msg.
    + unfold mthen in E2. destruct (Delete DdlDisabledKey w2) as [[a|] w3]; [|done].
      unfold mret in E2. by simplify_eq.
  - eapply HF; [exact Hw1|apply stable_create_failed| |exact E1].
    intros; by eapply create_ps_failed_msg.
Qed.

(** A message that is not the refusal for the lack of nodes. *)
Lemma CreatePsSpaceImpl_mark space idle w e s w' :
  marks_succeed → locked w → CreatePsSpaceImpl space idle w = (Some (false, e, s), w') →
  e ≠ "" → marked w'.
Proof.
  intros Hm Hw E He. unfold CreatePsSpaceImpl in E.
  destruct (read_step _ _ _ _ _ preserves_time Hw E) as (w1 & A1 & [[? _]|(t & _ & E1)]); [done|].
  clear E. destruct (_ <? _); [unfold mret in E1; by simplify_eq|].
  unfold mthen at 1, mlift in E1.
  destruct (place_loop _ _ _ _ _ _) as [sp0|] eqn:Ep; [|done].
  destruct (read_step _ _ _ _ _ (preserves_NewID _ IdBaseVal gen_space_id_untracked) (proj1 A1) E1)
    as (w2 & A2 & [[? _]|([id ie] & _ & E2)]); [done|]. clear E1.
  assert (marked (Put DdlDisabledKey (SerializeToJson (set_id id sp0) +:+ "; ") w2).2) as HM.
  { apply Put_marks; [done|by apply append_ne_nil_r|exact (proj1 A2)]. }
  unfold mthen at 1 in E2. destruct (Put DdlDisabledKey _ w2) as [[o|] w3]; [|done].
  simpl in HM. exact (proj2 (finish_create_mark (set_id id sp0) _ _ _ _ _ _ HM E2 He)).
Qed.

Lemma createSpace_body_mark space w m w' :
  marks_succeed → locked w → createSpace_body space w = (Some (100, m), w') → marked w'.
Proof.
  intros Hm Hw E. unfold createSpace_body in E.
  destruct (read_step _ _ _ _ _ (preserves_Get _) Hw E) as (w1 & A1 & [[? _]|(v & _ & E1)]); [done|].
  clear E. destruct (negb (ddl_is_enabled v)); [by unfold mret in E1; simplify_eq|].
  destruct (read_step _ _ _ _ _ (preserves_Validate _) (proj1 A1) E1)
    as (w2 & A2 & [[? _]|([idle msg] & _ & E2)]); [done|]. clear E1.
  destruct (failed msg); [by unfold mret in E2; simplify_eq|].
  unfold mthen at 1 in E2.
  destruct (CreatePsSpaceImpl space idle w2) as [[[[b e] sp]|] w3] eqn:EC; [|done].
  destruct (failed e) eqn:Hf.
  - unfold mret in E2. destruct b; [by simplify_eq|]. injection E2 as -> ->.
    eapply CreatePsSpaceImpl_mark; [done|apply A2|exact EC|]. intros ->. done.
  - unfold mthen, mret in E2. destruct (AddRouterSpace sp w3) as [[a|] w4]; by simplify_eq.
Qed.

Definition cluster_error (space : InnerSpace) : Z * string :=
  (10, log_prefix (DbName space) (SpaceName space) +:+ ", cluster has error, cannot create space.").

Lemma marked_create space w :
  marked w → ∃ w', createSpace_body space w = (Some (cluster_error space), w') ∧ agree tracked w w'.
Proof.
  intros Hw. destruct (Get_total DdlDisabledKey w) as (r & w' & E). exists w'.
  pose proof (preserves_Get DdlDisabledKey w (proj1 Hw)) as Ha. rewrite E in Ha. split; [|done].
  unfold createSpace_body, mthen at 1. rewrite E, (marked_disabled _ _ _ Hw E). done.
Qed.

Lemma marked_delete req w :
  marked w → ∃ c m w', deleteSpace_body req w = (Some (c, m), w') ∧ c ≠ 0 ∧ agree tracked w w'.
Proof.
  intros Hw. set (key := GetSpaceEtcdKey (ds_DbName req) (ds_SpaceName req)).
  destruct (Get_total key w) as (r & w1 & E1). pose proof (preserves_Get key w (proj1 Hw)) as A1.
  rewrite E1 in A1. unfold deleteSpace_body, mthen at 1. fold key. rewrite E1.
  destruct r as [e|[v|]]; [by do 3 eexists| |by do 3 eexists].
  assert (marked w1) as Hw1 by (by eapply marked_agree; [apply ddl_key_tracked|exact A1|]).
  destruct (Get_total DdlDisabledKey w1) as (r & w2 & E2).
  pose proof (preserves_Get DdlDisabledKey w1 (proj1 Hw1)) as A2. rewrite E2 in A2.
  unfold mthen at 1. rewrite E2, (marked_disabled _ _ _ Hw1 E2).
  do 3 eexists. split_and!; [done..|]. by eapply agree_trans.
Qed.

(** Requests one after the other. *)
Definition run_request (q : InnerSpace + DeleteSpaceRequest) : M W (Z * string) :=
  match q with inl space => createSpace_body space | inr req => deleteSpace_body req end.

Fixpoint run_requests (qs : list (InnerSpace + DeleteSpaceRequest)) (w : W)
    : list (option (Z * string)) * W :=
  match qs with
  | [] => ([], w)
  | q :: qs =>
      let '(r, w1) := run_request q w in
      let '(rs, w2) := run_requests qs w1 in (r :: rs, w2)
  end.

Lemma marked_request q w :
  marked w → ∃ c m w', run_request q w = (Some (c, m), w') ∧ c ≠ 0 ∧ agree tracked w w'.
Proof.
  intros Hw. destruct q as [space|req]; [|by apply marked_delete].
  destruct (marked_create space w Hw) as (w' & E & Ha). by do 3 eexists.
Qed.

Lemma marked_requests qs w :
  marked w → agree tracked w (run_requests qs w).2 ∧
    Forall (λ r, ∃ c m, r = Some (c, m) ∧ c ≠ 0) (run_requests qs w).1.
Proof.
  revert w. induction qs as [|q qs IH]; intros w Hw; cbn [run_requests].
  { split; [apply agree_refl, Hw|constructor]. }
  destruct (marked_request q w Hw) as (c & m & w1 & E & Hc & Ha). rewrite E.
  assert (marked w1) as Hw1 by (by eapply marked_agree; [apply ddl_key_tracked|exact Ha|]).
  destruct (IH w1 Hw1) as [Ha2 Hf]. destruct (run_requests qs w1) as [rs w2]. simpl in *.
  split; [by eapply agree_trans|]. constructor; [by do 2 eexists|done].
Qed.
End mark.

Section progress.
Context {W : Type} `{EtcdLaws W}.

(** ** A cluster in which every call succeeds *)

Record working : Prop := {
  wk_put k v w : locked w → (cli_Put k v w).1 = None;
  wk_get k w : locked w → ∃ l, (cli_Get k w).1 = inr l;
  wk_scan p w : locked w → ∃ l, (cli_GetPrefix p w).1 = inr l;
  wk_delete k w : locked w → ∃ n, (cli_Delete k w).1 = inr n;
  wk_request url : http_NewRequest url = None;
  wk_http url body w : locked w → ∃ text resp, (http_Do url body w).1 = inr (inr text) ∧
    Unmarshal dec_CommonResponse text zero_Response = (resp, false) ∧ Code (cr_Status resp) = 0;
  wk_routers w l : (cli_GetPrefix RouterNodesPrefix w).1 = inr l →
    is_Some (RouterDeserializeFromByte l.*1)
}.

Lemma step_to {A B} (m : M W A) (k : A → M W B) w a w1 :
  m w = (Some a, w1) → mthen m k w = k a w1.
Proof. unfold mthen. by intros ->. Qed.

Lemma failed_loop_none space idx rs es :
  length rs = length es →
  (∀ i r e, rs !! i = Some r → es !! i = Some e → call_failed e r = false) →
  failed_loop space idx rs es = Some [].
Proof.
  revert idx es. induction rs as [|r rs IH]; intros idx [|e es] Hl Hf; try done.
  cbn [failed_loop head mbind option_bind tail]. rewrite (Hf 0%nat r e) by done.
  apply IH; [by injection Hl|]. intros i r' e' Hr He. by apply (Hf (S i)).
Qed.

Context (Hwk : working).

Lemma HttpOneNode_working t w :
  locked w → ∃ resp, (HttpOneNode t w).1 = (resp, "") ∧ Code (cr_Status resp) = 0.
Proof using Hwk.
  intros Hw. unfold HttpOneNode, PostRequest. rewrite wk_request by done.
  destruct (wk_http Hwk (task_url t) (reqJson t) w Hw) as (text & resp & Eh & Eu & Ec).
  destruct (http_Do _ _ w) as [x w1]. simpl in Eh. subst x. rewrite Eu, Ec.
  exists resp. done.
Qed.

(** Every call of the pool succeeds. *)
Lemma parallel_http_working tasks w :
  locked w → ∃ rs es w1, parallel_http tasks w = (Some (rs, es), w1) ∧ length rs = length es ∧
    ∀ i r e, rs !! i = Some r → es !! i = Some e → call_failed e r = false.
Proof using Hwk.
  intros Hw. unfold parallel_http, parallel_exec. generalize (schedule (length tasks) w).
  intros order. set (good := λ (rs : list CommonResponse) es, length rs = length es ∧
    ∀ i r e, rs !! i = Some r → es !! i = Some e → call_failed e r = false).
  assert (∀ rs es w1, locked w1 → good rs es →
    ∃ rs' es' w2, foldl (exec1 HttpOneNode tasks) (rs, es, w1) order = (rs', es', w2) ∧
      good rs' es') as HG.
  { induction order as [|i order IH]; intros rs es w1 Hw1 Hg; [by do 3 eexists|]. cbn [foldl].
    cbn [exec1]. destruct (tasks !! i) as [t|]; [|by apply IH].
    pose proof (HttpOneNode_agree t w1 Hw1) as Ha.
    destruct (HttpOneNode_working t w1 Hw1) as (resp & Er & Ec).
    destruct (HttpOneNode t w1) as [[r e] w2]. simpl in Er, Ha. injection Er as -> ->.
    apply IH; [apply Ha|]. destruct Hg as [Hl Hg]. split; [by rewrite !length_insert|].
    intros j r e Hr He. apply list_lookup_insert_Some in Hr as [(-> & <- & Hj)|[Hne Hr]].
    - rewrite list_lookup_insert_eq in He by lia. injection He as <-.
      unfold call_failed. by rewrite ?Ec.
    - rewrite list_lookup_insert_ne in He by done. by apply (Hg j). }
  destruct (HG (replicate (length tasks) zero_Response) (replicate (length tasks) "") w Hw)
    as (rs & es & w2 & E & Hl & Hg).
  { split; [by rewrite !length_replicate|]. intros i r e Hr He.
    apply lookup_replicate in Hr as [-> _]. by apply lookup_replicate in He as [-> _]. }
  rewrite E. by exists rs, es, w2.
Qed.

Lemma ParallelCreate_working sp w :
  locked w → ∃ w1, ParallelCreatePsSpace sp w = (Some [], w1).
Proof using Hwk.
  intros Hw. destruct (parallel_http_working (create_tasks sp) w Hw) as (rs & es & w1 & E & Hl & Hg).
  exists w1. unfold ParallelCreatePsSpace. rewrite (step_to _ _ _ _ _ E).
  unfold mlift. by rewrite failed_loop_none.
Qed.

Lemma PrefixScan_working p w :
  locked w → ∃ l w1, PrefixScan p w = (Some (l.*1, l.*2, None), w1) ∧
    (cli_GetPrefix p w).1 = inr l ∧ locked w1.
Proof using Hwk.
  intros Hw. destruct (wk_scan Hwk p w Hw) as [l El]. pose proof (preserves_PrefixScan p w Hw) as Ha.
  revert Ha. unfold PrefixScan, mthen, mdo, mret. destruct (cli_GetPrefix p w) as [r w1].
  simpl in El. subst r. intros Ha. exists l, w1. split_and!; [done..|]. apply Ha.
Qed.

Lemma AddRouter_working sp w : locked w → ∃ w1, AddRouterSpace sp w = (Some "", w1).
Proof using Hwk.
  intros Hw. destruct (PrefixScan_working RouterNodesPrefix w Hw) as (l & w1 & E & El & Hw1).
  unfold AddRouterSpace. rewrite (step_to _ _ _ _ _ E).
  destruct (wk_routers Hwk w l El) as [m Em]. rewrite Em.
  unfold mlift, mrange. unfold mthen at 1 2.
  match goal with |- context [parallel_http ?ts] =>
    destruct (parallel_http_working ts w1 Hw1) as (rs & es & w2 & Eh & _) end.
  rewrite (step_to _ _ _ _ _ Eh). by exists w2.
Qed.

Lemma Put_working k v w :
  locked w → ∃ w1, Put k v w = (Some None, w1) ∧ locked w1.
Proof using Hwk.
  intros Hw. pose proof (wk_put Hwk k v w Hw) as E. destruct (law_Put k v w Hw) as [[Hl _] _].
  unfold Put, mdo. destruct (cli_Put k v w) as [e w1]. simpl in E, Hl. subst e. by exists w1.
Qed.

Lemma Delete_working k w :
  locked w → ∃ e w1, Delete k w = (Some e, w1) ∧ locked w1 ∧ kv w1 !! k = None.
Proof using Hwk.
  intros Hw. destruct (wk_delete Hwk k w Hw) as [n En].
  destruct (law_Delete k w Hw) as ([Hl _] & _ & HN). destruct (HN n En) as [Hk _].
  unfold Delete, mthen, mdo, mret. destruct (cli_Delete k w) as [r w1]. simpl in *. subst r.
  by do 2 eexists.
Qed.

Lemma finish_create_working sp prefix w :
  locked w → ∃ w1, finish_create sp prefix w = (Some (true, "", sp), w1) ∧ locked w1 ∧
    kv w1 !! DdlDisabledKey = None.
Proof using Hwk.
  intros Hw. destruct (ParallelCreate_working sp w Hw) as (w1 & E1).
  pose proof (preserves_ParallelCreate sp w Hw) as [Hw1 _]. rewrite E1 in Hw1.
  unfold finish_create. rewrite (step_to _ _ _ _ _ E1).
  destruct (Put_working (GetSpaceEtcdKey (DbName sp) (SpaceName sp)) (SerializeToJson sp) w1 Hw1)
    as (w2 & E2 & Hw2). rewrite (step_to _ _ _ _ _ E2).
  destruct (Delete_working DdlDisabledKey w2 Hw2) as (e & w3 & E3 & Hw3 & Hk).
  rewrite (step_to _ _ _ _ _ E3). by exists w3.
Qed.

Lemma CreatePsSpaceImpl_working space idle w :
  locked w → 0 ≤ PartitionNum space → 0 ≤ ReplicaNum space →
  PartitionNum space * ReplicaNum space ≤ Z.of_nat (length idle) →
  ∃ sp w1, CreatePsSpaceImpl space idle w = (Some (true, "", sp), w1) ∧ locked w1 ∧
    kv w1 !! DdlDisabledKey = None.
Proof using Hwk.
  intros Hw HP HR Hn. unfold CreatePsSpaceImpl.
  pose proof (preserves_time w Hw) as [Hw1 _].
  destruct (mdo _ w) as [[t|] w1] eqn:E1;
    [|unfold mdo in E1; by repeat case_match; simplify_eq].
  rewrite (step_to _ _ _ _ _ E1). cbn [set_times PartitionNum ReplicaNum].
  rewrite (proj2 (Z.ltb_ge _ _)) by lia.
  rewrite place_loop_spec by (cbn [set_times ReplicaNum]; nia).
  unfold mlift. unfold mthen at 1.
  destruct (NewIDGenerate_int64 GenSpaceIdKey w1) as ([id ie] & Eid & _).
  pose proof (preserves_NewID _ IdBaseVal gen_space_id_untracked w1 Hw1) as [Hw2 _].
  destruct (NewIDGenerate GenSpaceIdKey IdBaseVal w1) as [o w2] eqn:E2. simpl in Eid. subst o.
  rewrite (step_to _ _ _ _ _ E2).
  match goal with |- context [mthen (Put DdlDisabledKey ?v)] =>
    destruct (Put_working DdlDisabledKey v w2 Hw2) as (w3 & E3 & Hw3) end.
  rewrite (step_to _ _ _ _ _ E3).
  destruct (finish_create_working (set_id id (set_partitions (append_all (Partitions
    (set_times t space)) (blocks (Z.to_nat (PartitionNum space)) 0 (DbName (set_times t space))
    (SpaceName (set_times t space)) t (Z.to_nat (ReplicaNum (set_times t space))) idle 0))
    (set_times t space))) (log_prefix (DbName space) (SpaceName space)) w3 Hw3)
    as (w4 & E4 & Hw4 & Hk). eexists _, w4. split; [exact E4|done].
Qed.

(** Enough idle nodes, whenever the question is asked. *)
Definition enough_idle (space : InnerSpace) (w : W) : Prop :=
  ∀ w1, agree tracked w w1 →
    ∃ idle w2, ValidateNameAndGetIdlePsNode space w1 = (Some (idle, ""), w2) ∧
      PartitionNum space * ReplicaNum space ≤ Z.of_nat (length idle).

Lemma createSpace_body_working space w :
  locked w → kv w !! DdlDisabledKey = None → 0 ≤ PartitionNum space → 0 ≤ ReplicaNum space →
  enough_idle space w →
  ∃ w', createSpace_body space w = (Some (0, "success"), w') ∧ kv w' !! DdlDisabledKey = None.
Proof using Hwk.
  intros Hw Hd HP HR He. unfold createSpace_body.
  pose proof (preserves_Get DdlDisabledKey w Hw) as A1.
  assert (∃ w1, Get DdlDisabledKey w = (Some (inr None), w1)) as (w1 & E1).
  { destruct (wk_get Hwk DdlDisabledKey w Hw) as [l El].
    destruct (law_Get DdlDisabledKey w Hw) as [_ HL]. specialize (HL l El ddl_key_tracked).
    rewrite Hd in HL. subst l. unfold Get, mthen, mdo, mret.
    destruct (cli_Get DdlDisabledKey w) as [r w1]. simpl in El. subst r. by exists w1. }
  rewrite E1 in A1. simpl in A1. rewrite (step_to _ _ _ _ _ E1). cbn [ddl_is_enabled negb].
  destruct (He w1 A1) as (idle & w2 & E2 & Hn).
  pose proof (preserves_Validate space w1 (proj1 A1)) as A2. rewrite E2 in A2.
  rewrite (step_to _ _ _ _ _ E2).
  change (failed "") with false. cbn beta iota.
  destruct (CreatePsSpaceImpl_working space idle w2 (proj1 A2) HP HR Hn)
    as (sp & w3 & E3 & Hw3 & Hk). rewrite (step_to _ _ _ _ _ E3).
  change (failed "") with false. cbn beta iota.
  destruct (AddRouter_working sp w3 Hw3) as (w4 & E4).
  pose proof (preserves_AddRouter sp w3 Hw3) as [_ A4]. rewrite E4 in A4.
  exists w4. unfold mthen at 1. rewrite E4. split; [done|].
  simpl in A4. by rewrite (A4 _ ddl_key_tracked).
Qed.
End progress.

Section ids.
Context {W : Type} `{EtcdLaws W}.

(** ** Histories of a counter *)

(** A transaction reads the entry, and writes what its function makes of it. *)
Definition stm_serial : Prop :=
  ∀ k f w n w', cli_STM k f w = (inr (true, n), w') →
    ∃ v, f (default "" (kv w !! k)) = inr (v, n) ∧ kv w' !! k = Some v.

(** The ids this process got, and how often the counter was advanced in all:
    another process gets ids, a transaction commits but its answer is lost, and
    other entries change. *)
Inductive id_history (key : string) : nat → list Z → W → Prop :=
| ids_start w : kv w !! key = None → id_history key 0 [] w
| ids_other n l w w' : id_history key n l w → kv w' !! key = kv w !! key → id_history key n l w'
| ids_lost n l w w' v id : id_history key n l w →
    next_id IdBaseVal (default "" (kv w !! key)) = inr (v, id) → kv w' !! key = Some v →
    id_history key (S n) l w'
| ids_get n l w w' id : id_history key n l w →
    NewIDGenerate key IdBaseVal w = (Some (id, None), w') → id_history key (S n) (l ++ [id]) w'.

(** The value after [n] advances. *)
Definition counter_value (n : nat) : option string :=
  match n with O => None | S m => Some (to_string (IdBaseVal + Z.of_nat m)) end.

Lemma next_id_counter n :
  IdBaseVal + Z.of_nat n < 2 ^ 63 →
  next_id IdBaseVal (default "" (counter_value n)) =
    inr (to_string (IdBaseVal + Z.of_nat n), IdBaseVal + Z.of_nat n).
Proof.
  intros Hn. unfold next_id. destruct n as [|m]; simpl default; [done|].
  rewrite bool_decide_eq_false_2 by apply to_string_nonempty.
  rewrite ParseInt_to_string by (unfold in_int64, IdBaseVal in *; lia).
  rewrite int64_id by (unfold in_int64, IdBaseVal in *; lia).
  by replace (IdBaseVal + Z.of_nat m + 1) with (IdBaseVal + Z.of_nat (S m)) by lia.
Qed.

Lemma id_history_counter key n l w :
  stm_serial → IdBaseVal + Z.of_nat n ≤ 2 ^ 63 → id_history key n l w →
  kv w !! key = counter_value n ∧ StronglySorted Z.lt l ∧
  Forall (λ id, IdBaseVal ≤ id < IdBaseVal + Z.of_nat n) l.
Proof.
  intros Hs Hn Hh. induction Hh as [w E|n l w w' _ IH E|n l w w' v id _ IH Ev Ew|n l w w' id _ IH E].
  - split_and!; [done|constructor|constructor].
  - rewrite E. by apply IH.
  - destruct IH as (IH1 & IH2 & IH3); [lia|]. rewrite IH1, next_id_counter in Ev by lia.
    injection Ev as <- <-. split_and!; [done..|]. eapply Forall_impl; [exact IH3|]. simpl. lia.
  - destruct IH as (IH1 & IH2 & IH3); [lia|]. unfold NewIDGenerate, mthen, mdo, mret in E.
    destruct (cli_STM key (next_id IdBaseVal) w) as [[e|[[] n']] w1] eqn:Es; simplify_eq.
    destruct (Hs _ _ _ _ _ Es) as (v & Ev & Ew). rewrite IH1, next_id_counter in Ev by lia.
    injection Ev as <- <-. split_and!; [done| |].
    + apply StronglySorted_app_2; [|done|by repeat constructor].
      intros x y Hx ->%list_elem_of_singleton. rewrite Forall_forall in IH3.
      specialize (IH3 x Hx). lia.
    + apply Forall_app. split; [eapply Forall_impl; [exact IH3|]; simpl; lia|].
      repeat constructor; lia.
Qed.
End ids.

(** ** A concrete cluster

    The contents of etcd are a finite map; three partition servers and a router
    are registered, and every process answers a call with code 0.  In the
    variants reading the spaces or every call to another process fails. *)

Lemma prefix_spec p k : String.prefix p k = true ↔ str_prefix p k.
Proof.
  revert k. induction p as [|a p IH]; intros k; simpl.
  - split; intros _; [by exists k|by destruct k].
  - destruct k as [|b k]; [split; [done|]; intros [r E]; discriminate|].
    simpl. destruct (ascii_dec a b) as [->|Hne].
    + rewrite IH. split; intros [r E]; exists r.
      * rewrite append_cons. by f_equal.
      * rewrite append_cons in E. by injection E.
    + split; [done|]. intros [r E]. rewrite append_cons in E. by injection E.
Qed.

Definition registered : list (string * string) :=
  (λ r, (GetPsRegisterKey (PsIP r) (PsPort r) (PsID r), "by_master_put")) <$> idle_nodes.
Definition scan (p : string) (m : gmap string string) : list (string * string) :=
  if bool_decide (p = PsNodesPrefix) then registered
  else if bool_decide (p = RouterNodesPrefix) then [(GenRouterNodeKey "10.0.0.9" 8080, "")]
  else filter (λ x, String.prefix p x.1 = true) (map_to_list m).
Definition answer_ok : string := print (JObj [("status", JObj [("code", enc_int 0)])]).

Definition small_env (spaces_fail calls_fail : bool) : MasterEnv (gmap string string) := {|
  cli_Put k v w := (None, <[k := v]> w);
  cli_PutLease k v _ w := (None, <[k := v]> w);
  cli_Get k w := (inr (match w !! k with Some v => [(k, Some v)] | None => [] end), w);
  cli_GetPrefix p w :=
    (if spaces_fail && bool_decide (p = SpacesMataPrefix) then inl "context deadline exceeded"
     else inr (scan p w), w);
  cli_Delete k w := (inr (if bool_decide (is_Some (w !! k)) then 1 else 0), delete k w);
  cli_Grant _ w := (inr 1, w);
  cli_CreateTxn k v w :=
    (inr (bool_decide (w !! k = None)), if bool_decide (w !! k = None) then <[k := v]> w else w);
  cli_STM k f w :=
    match f (default "" (w !! k)) with
    | inl e => (inl e, w)
    | inr (v, n) => (inr (true, n), <[k := v]> w)
    end;
  session_New w := (None, w);
  mutex_TryLock w := (None, w);
  mutex_Unlock w := (None, w);
  session_Close w := w;
  http_NewRequest _ := None;
  http_Do _ _ w := (if calls_fail then inl "connection refused" else inr (inr answer_ok), w);
  time_Now w := ("2025-06-01 12:00:00", 5000000, w);
  time_Sleep _ w := w;
  range_map A m _ := map_to_list m;
  schedule n _ := seq 0 n;
  json_error s := s
|}.

Lemma registered_keys : Forall (λ x : string * string, ∃ ip port id,
  x.1 = fst (GetPsRegisterKV ip port id) ∧ no_char ":" ip ∧ str_forall is_ascii ip = true ∧
  in_int64 port ∧ in_int64 id) registered.
Proof.
  repeat constructor; [exists "10.0.0.1", 8081, 1|exists "10.0.0.2", 8081, 2|
    exists "10.0.0.3", 8081, 3]; (split_and!; [reflexivity|done|done|unfold in_int64; lia..]).
Qed.

Lemma scan_tracked p (m : gmap string string) :
  (∀ k, str_prefix p k → tracked k) →
  scan p m = filter (λ x, String.prefix p x.1 = true) (map_to_list m).
Proof.
  intros Hp. unfold scan.
  assert (∀ q, q = PsNodesPrefix ∨ q = RouterNodesPrefix → ¬ tracked q) as Hnt.
  { intros q [-> | ->] [[r E]|[[r E]|E]]; discriminate E. }
  assert (str_prefix p p) as Hpp by (exists ""; by rewrite append_nil_r).
  rewrite !bool_decide_eq_false_2; [done|intros ->; by eapply Hnt, Hp, Hpp; right|].
  intros ->. by eapply Hnt, Hp, Hpp; left.
Qed.

Lemma small_laws (spaces_fail calls_fail : bool) :
  @EtcdLaws (gmap string string) (small_env spaces_fail calls_fail).
Proof.
  refine {| kv w := w; locked _ := True |}; simpl.
  - done.
  - intros k v w _. split; [split; [done|]; intros x [_ Hx]; by rewrite lookup_insert_ne|].
    split; intros _; [|left]; by rewrite lookup_insert_eq.
  - intros k w _. split; [|split].
    + split; [done|]. intros x [_ Hx]. by rewrite lookup_delete_ne.
    + intros _. left. by rewrite lookup_delete_eq.
    + intros n [= <-]. split; [by rewrite lookup_delete_eq|]. intros _. case_bool_decide; split; done.
  - intros k w _. split; [done|]. intros l [= <-] _. destruct (w !! k) as [v|]; [|done]. by exists (Some v).
  - intros p w _. split; [done|]. intros l. destruct (_ && _); [done|]. intros [= <-] Hp.
    rewrite scan_tracked by done. split.
    + apply (sublist_NoDup _ (map_to_list w).*1); [apply NoDup_fst_map_to_list|].
      apply fmap_sublist, sublist_filter.
    + intros k v. rewrite list_elem_of_filter, elem_of_map_to_list. simpl. by rewrite prefix_spec.
  - intros k f w _ Hk. destruct (f _) as [e|[v n]]; (split; [done|]); [done|]. intros x Hx.
    simpl. rewrite lookup_insert_ne; [done|]. by intros ->.
  - done.
  - intros k f w s n. destruct (f (default "" (w !! k))) as [e|[v n']] eqn:E; [done|].
    intros [= <- <-]. eauto.
  - done.
  - done.
  - done.
  - done.
  - intros w l. destruct (_ && _); [done|]. intros [= <-]. unfold scan.
    rewrite bool_decide_eq_true_2 by done. apply registered_keys.
Defined.

(** ** Properties *)

(** C5. No node is shared: whatever sequence of creations and deletions the cluster
    has been through, answered with success or not, a partition server belongs
    to at most one stored space and occurs in it at most once, if the scans of
    the stored spaces succeed. *)
Theorem no_node_shared `{EtcdLaws W} (w : W) (k1 k2 v1 v2 : string) :
  scans_succeed → ddl_reach w → is_space_key k1 → is_space_key k2 →
  kv w !! k1 = Some v1 → kv w !! k2 = Some v2 →
  NoDup (nodes_of (space_of v1)) ∧
  (k1 ≠ k2 → ∀ n, n ∈ nodes_of (space_of v1) → n ∉ nodes_of (space_of v2)).
Proof.
  intros Hs Hr K1 K2 V1 V2. destruct (ddl_reach_inv w Hs Hr) as [I1 I2]. split.
  - by destruct (I1 k1 v1 K1 V1) as (_ & _ & _ & ? & _).
  - intros Hne. by eapply (I2 k1 k2).
Qed.

Definition spare_request : ApiSpace :=
  mkApiSpace "shop_db" "spares" 0 1 1
    (Some [mkApiField "vec" "vector" 64 (Some (mkApiIndex "ix" "FLAT"
             (Some (mkIndexParams "L2" 0 0 0 0 0 0 0 None))))]) None "" "" "".
Definition create_in (spaces_fail : bool) (req : ApiSpace) (m : gmap string string)
    : option (Z * string) * gmap string string :=
  @createSpace_body _ (small_env spaces_fail false) (ApiSpaceToInnerSpace req) m.
Definition two_spaces (spaces_fail : bool) : gmap string string :=
  (create_in spaces_fail spare_request (create_in spaces_fail goods_request ∅).2).2.
Definition key_of (req : ApiSpace) : string := GetSpaceEtcdKey (api_DbName req) (api_SpaceName req).
Definition nodes_under (req : ApiSpace) (m : gmap string string) : list string :=
  nodes_of (space_of (default "" (m !! key_of req))).

Lemma flat_index_ok ix :
  Some (mkApiIndex "ix" "FLAT" (Some (mkIndexParams "L2" 0 0 0 0 0 0 0 None))) = Some ix →
  api_index_ok ix.
Proof. intros [= <-]. split_and!; [done..|]. intros p [= <-]. by split. Qed.

Lemma requests_ok : api_ok goods_request ∧ api_ok spare_request.
Proof.
  split; (split; [done|]); repeat (apply Forall_cons; split); try apply Forall_nil_2;
    (split_and!; [done|done|unfold in_int64; simpl; lia|]); try done; exact flat_index_ok.
Qed.

Lemma two_spaces_reached : @ddl_reach _ _ (small_laws false false) (two_spaces false).
Proof.
  destruct requests_ok as [H1 H2].
  apply (@reach_create _ _ (small_laws false false) (create_in false goods_request ∅).2 spare_request
    (create_in false spare_request (create_in false goods_request ∅).2).1);
    [|done|reflexivity|exact H2|apply surjective_pairing].
  apply (@reach_create _ _ (small_laws false false) ∅ goods_request (create_in false goods_request ∅).1);
    [|done|reflexivity|exact H1|apply surjective_pairing].
  apply (@reach_start _ _ (small_laws false false)). intros k _. exact (lookup_empty k).
Qed.

Lemma no_node_shared_witness :
  (create_in false goods_request ∅).1 = Some (0, "success") ∧
  nodes_under goods_request (two_spaces false) = [":10.0.0.3:8081:"; ":10.0.0.1:8081:"] ∧
  ∀ n, n ∈ nodes_under goods_request (two_spaces false) →
    n ∉ nodes_under spare_request (two_spaces false).
Proof.
  split; [vm_compute; reflexivity|]. split; [vm_compute; reflexivity|].
  apply (@no_node_shared _ _ (small_laws false false) (two_spaces false)
    (key_of goods_request) (key_of spare_request)).
  - intros m _. by eexists.
  - exact two_spaces_reached.
  - apply space_key_is_key.
  - apply space_key_is_key.
  - unfold kv, small_laws. vm_compute. reflexivity.
  - unfold kv, small_laws. vm_compute. reflexivity.
  - discriminate.
Defined.

(** C17. A creation that succeeds: when etcd and the other processes do what they are
    asked, DDL is enabled and there are enough idle nodes, a request that passed
    the check is answered with success.  Under the key of the space, which was
    free, is then a space with the requested number of partitions and replicas
    on nodes that belonged to no other space; the other spaces are unchanged and
    DDL is enabled again. *)
Theorem createSpace_succeeds `{EtcdLaws W} (w : W) (req : ApiSpace) :
  working → locked w → ddl_reach w → kv w !! DdlDisabledKey = None →
  CheckApiSpace req = Some "" → api_ok req → enough_idle (ApiSpaceToInnerSpace req) w →
  ∃ w' sp, createSpace_body (ApiSpaceToInnerSpace req) w = (Some (0, "success"), w') ∧
    fresh_space w (ApiSpaceToInnerSpace req) sp ∧
    kv w' !! space_key sp = Some (SerializeToJson sp) ∧
    agree (other_spaces sp) w w' ∧ kv w' !! DdlDisabledKey = None.
Proof.
  intros Hwk Hw Hr Hd HC HA He. pose proof (accepted_new_space req HC HA) as HN.
  assert (scans_succeed) as Hs by (intros w0 Hw0; by apply (wk_scan Hwk)).
  pose proof (ddl_reach_inv w Hs Hr) as HI. pose proof HN as (_ & _ & HP & HR & _).
  destruct (createSpace_body_working Hwk (ApiSpaceToInnerSpace req) w Hw Hd) as (w' & E & Hk);
    [lia|lia|done|].
  destruct (createSpace_body_spaces _ _ _ _ Hs Hw HI HN E) as [[_ ?]|(sp & Hf & Ha & Hsp)]; [done|].
  exists w', sp. by split_and!.
Qed.

Lemma small_working : @working _ _ (small_laws false false).
Proof.
  split; simpl; try done.
  - intros k m _. by eexists.
  - intros p m _. by eexists.
  - intros k m _. by eexists.
  - intros _ _ m _. eexists answer_ok, zero_Response. split_and!; vm_compute; reflexivity.
  - intros m l [= <-]. change (scan _ m) with [(GenRouterNodeKey "10.0.0.9" 8080, "")].
    by eexists.
Qed.

Lemma scan_none p (m : gmap string string) :
  (∀ k, str_prefix p k → tracked k) → (∀ k, tracked k → m !! k = None) → scan p m = [].
Proof.
  intros Hp Hm. rewrite scan_tracked by done.
  destruct (filter _ _) as [|[k v] l] eqn:E; [done|].
  assert ((k, v) ∈ filter (λ x : string * string, String.prefix p x.1 = true) (map_to_list m)) as Hin
    by (rewrite E; by left).
  apply list_elem_of_filter in Hin as [Hk Hv%elem_of_map_to_list]. simpl in Hk.
  apply prefix_spec, Hp, Hm in Hk. congruence.
Qed.

Lemma small_enough :
  @enough_idle _ _ (small_laws false false) (ApiSpaceToInnerSpace goods_request) ∅.
Proof.
  intros m [_ Hm]. assert (∀ k, tracked k → m !! k = None) as Hn by (intros k Hk; by apply Hm).
  assert (∀ p, @PrefixScan _ (small_env false false) p m =
    (Some ((scan p m).*1, (scan p m).*2, None), m)) as HS by reflexivity.
  unfold ValidateNameAndGetIdlePsNode. unfold mthen at 1. rewrite HS.
  unfold mthen at 1. rewrite HS, (scan_none ErrPsNodesPrefix) by (done || by right; left).
  do 2 (unfold mthen at 1, mlift). unfold mthen at 1.
  rewrite HS, (scan_none SpacesMataPrefix) by (done || by left).
  eexists _, m. split; [vm_compute; reflexivity|]. vm_compute. discriminate.
Qed.

Lemma createSpace_succeeds_witness :
  ∃ sp, (create_in false goods_request ∅).1 = Some (0, "success") ∧
    @fresh_space _ _ (small_laws false false) ∅ (ApiSpaceToInnerSpace goods_request) sp.
Proof.
  destruct (@createSpace_succeeds _ _ (small_laws false false) ∅ goods_request small_working I
    (@reach_start _ _ (small_laws false false) ∅ (λ k _, lookup_empty k))
    (lookup_empty DdlDisabledKey) eq_refl
    (proj1 requests_ok) small_enough) as (w' & sp & E & Hf & _).
  exists sp. split; [exact (f_equal fst E)|exact Hf].
Defined.

(** C23. A failed creation blocks: when a creation under the lock ends with the
    deadly code 100 and the mark that disables changes can be written to etcd,
    all later requests to create or delete spaces are refused and change neither
    the spaces nor the recorded errors, until somebody removes the mark. *)
Theorem failed_creation_blocks `{EtcdLaws W} (space : InnerSpace) (m : string) (w w' : W)
    (qs : list (InnerSpace + DeleteSpaceRequest)) :
  marks_succeed → locked w → createSpace_body space w = (Some (100, m), w') →
  agree tracked w' (run_requests qs w').2 ∧
  Forall (λ r, ∃ c msg, r = Some (c, msg) ∧ c ≠ 0) (run_requests qs w').1.
Proof. intros Hm Hw E. by eapply marked_requests, createSpace_body_mark. Qed.

Lemma failed_creation_blocks_witness :
  let first := @createSpace_body _ (small_env false true) (ApiSpaceToInnerSpace spare_request) ∅ in
  fst <$> first.1 = Some 100 ∧
  Forall (λ r, ∃ c msg, r = Some (c, msg) ∧ c ≠ 0)
    (@run_requests _ (small_env false true) [inl (ApiSpaceToInnerSpace goods_request)] first.2).1.
Proof.
  intros first. assert (fst <$> first.1 = Some 100) as E by (vm_compute; reflexivity).
  split; [exact E|].
  assert (∃ m, first = (Some (100, m), first.2)) as [m Em].
  { clearbody first. clear -E. destruct first as [[[c m]|] w]; [|discriminate E]. injection E as ->. by exists m. }
  exact (proj2 (@failed_creation_blocks _ _ (small_laws false true) _ m ∅ first.2
    [inl (ApiSpaceToInnerSpace goods_request)] (λ _ _ _, eq_refl) I Em)).
Defined.

(** Nodes shared after a failed scan: the error of the scan of the stored spaces
    is not looked at.  In a cluster that differs from a working one only in that
    this scan fails, two creations are both answered with success, and the two
    stored spaces have a node in common. *)
Theorem failed_scan_shares_node :
  let first := create_in true goods_request ∅ in
  let second := create_in true spare_request first.2 in
  first.1 = Some (0, "success") ∧ second.1 = Some (0, "success") ∧
  ∃ n, n ∈ nodes_under goods_request second.2 ∧ n ∈ nodes_under spare_request second.2.
Proof.
  split; [vm_compute; reflexivity|]. split; [vm_compute; reflexivity|].
  exists ":10.0.0.3:8081:". split; apply list_elem_of_lookup; exists 0%nat; vm_compute; reflexivity.
Qed.

(** C29. Unique ids: over any history in which fewer than 2^63 ids are drawn in all,
    by this process and others, with transactions whose answers are lost, the
    ids this process gets are strictly increasing. *)
Theorem generated_ids_increase `{EtcdLaws W} (key : string) (n : nat) (ids : list Z) (w : W) :
  stm_serial → Z.of_nat n ≤ 2 ^ 63 → id_history key n ids w → StronglySorted Z.lt ids.
Proof.
  intros Hs Hn Hh. destruct (id_history_counter key n ids w Hs) as (_ & ? & _); [|done..].
  unfold IdBaseVal. lia.
Qed.

Lemma generated_ids_increase_witness :
  StronglySorted Z.lt [0; 1].
Proof.
  set (laws := small_laws false false).
  apply (@generated_ids_increase _ _ laws GenSpaceIdKey 2 [0; 1]
    {[GenSpaceIdKey := "1"]}); [|lia|].
  - intros k f m n m'. cbn [cli_STM small_env].
    destruct (f (default "" (m !! k))) as [e|[v n']] eqn:E; [discriminate|].
    intros [= <- <-]. exists v. split; [exact E|]. exact (lookup_insert_eq m k v).
  - apply (@ids_get _ _ laws GenSpaceIdKey 1 [0] {[GenSpaceIdKey := "0"]}).
    + apply (@ids_get _ _ laws GenSpaceIdKey 0 [] ∅).
      * apply (@ids_start _ _ laws). exact (lookup_empty GenSpaceIdKey).
      * vm_compute. reflexivity.
    + vm_compute. reflexivity.
Defined.

(** The same environment with other lease operations. *)
Definition with_leases {W} (env : MasterEnv W) (grant : Z → W → (string + Z) * W)
    (put : string → string → Z → W → option string * W) : MasterEnv W := {|
  cli_Put := cli_Put; cli_PutLease := put; cli_Get := cli_Get; cli_GetPrefix := cli_GetPrefix;
  cli_Delete := cli_Delete; cli_Grant := grant; cli_CreateTxn := cli_CreateTxn; cli_STM := cli_STM;
  session_New := session_New; mutex_TryLock := mutex_TryLock; mutex_Unlock := mutex_Unlock;
  session_Close := session_Close; http_NewRequest := http_NewRequest; http_Do := http_Do;
  time_Now := time_Now; time_Sleep := time_Sleep; range_map := λ A, range_map;
  schedule := schedule; json_error := json_error
|}.

(** Registration stores nothing: the answer of the register handler and what it
    leaves behind do not depend on the operations that put a key with a lease,
    because the time to live of a partition server, 5, is a number of
    nanoseconds and is refused before etcd is asked; the server is told that it
    was registered all the same. *)
Theorem register_stores_nothing {W} (env : MasterEnv W) (grant : Z → W → (string + Z) * W)
    (put : string → string → Z → W → option string * W) (bind : string + registerReq) (w : W) :
  @register W (with_leases env grant put) bind w = @register W env bind w.
Proof. reflexivity. Qed.

(** C22. Stored spaces are well formed: if the scans of the stored spaces succeed,
    then in every state that a history of creations and deletions leads to, each
    running under the lock, an entry below the prefix of the spaces is the JSON
    text of a space, stored under the key of its own names, with valid names and
    values, 1 to 100 partitions of 1 to 5 replicas, exactly as many of each as
    its numbers say. *)
Theorem stored_spaces_well_formed `{EtcdLaws W} (w : W) (k v : string) :
  scans_succeed → ddl_reach w → is_space_key k → kv w !! k = Some v →
  v = SerializeToJson (space_of v) ∧ k = space_key (space_of v) ∧
  name_ok (DbName (space_of v)) ∧ name_ok (SpaceName (space_of v)) ∧
  space_ok (space_of v) ∧ shape_ok (space_of v).
Proof.
  intros Hs Hr Hk Hv. destruct (ddl_reach_inv w Hs Hr) as [I1 _].
  destruct (I1 k v Hk Hv) as (? & ? & ? & _ & ? & ? & ?). by split_and!.
Qed.

Lemma stored_spaces_well_formed_witness :
  shape_ok (space_of (default "" (two_spaces false !! key_of goods_request))).
Proof.
  apply (@stored_spaces_well_formed _ _ (small_laws false false) (two_spaces false)
    (key_of goods_request)).
  - intros m _. by eexists.
  - exact two_spaces_reached.
  - apply space_key_is_key.
  - unfold kv, small_laws. vm_compute. reflexivity.
Defined.

(** A deletion that is answered with success has removed the space from the
    stored ones, so that its nodes are free again, and no deletion, whatever its
    answer, changes or removes another space. *)
Theorem deleteSpace_removes `{EtcdLaws W} (req : DeleteSpaceRequest) (w w' : W)
    (r : option (Z * string)) :
  locked w → deleteSpace_body req w = (r, w') →
  let key := GetSpaceEtcdKey (ds_DbName req) (ds_SpaceName req) in
  (∀ k, is_space_key k → k ≠ key → kv w' !! k = kv w !! k) ∧
  (kv w' !! key = None ∨ kv w' !! key = kv w !! key) ∧
  (r = Some (0, "success") → kv w' !! key = None).
Proof.
  intros Hw E key. destruct (deleteSpace_body_effect req w r w' Hw E) as [[_ Ha] Hk].
  split_and!; [|naive_solver..]. intros k K Hne. by apply Ha.
Qed.

Lemma deleteSpace_removes_witness :
  let result := @deleteSpace_body _ (small_env false false)
    (mkDeleteSpaceRequest "shop_db" "goods_1") (two_spaces false) in
  result.1 = Some (0, "success") ∧ result.2 !! key_of goods_request = None.
Proof.
  intros result. assert (result.1 = Some (0, "success")) as E by (vm_compute; reflexivity).
  split; [exact E|].
  destruct (@deleteSpace_removes _ _ (small_laws false false)
    (mkDeleteSpaceRequest "shop_db" "goods_1") (two_spaces false) result.2 result.1 I
    (surjective_pairing result)) as (_ & _ & H). exact (H E).
Defined.
