(* ===== verification/MasterProcess.v ===== *)
(** * MasterProcess: src/master/main.go and src/master/etcdcluster

    The master as a process: the start of the embedded etcd server, the client
    of its cluster, the registry of store implementations, the watch on the
    nodes, and the main function.  The etcd libraries are the class
    [EtcdLibrary] over the world of [MasterEnv]; the flags, the logging and the
    HTTP server of gin are outside.  [None] is a panic. *)
From Stdlib Require Import Ascii.
From S2P Require Import Prelude Numeric Common GoStd GoJson MasterCommon MasterConfig MasterEntity Concurrent MasterStore MasterApi MasterSafety MasterCluster.
Local Open Scope Z_scope.

(** ** The libraries *)

(** The settings of the embedded server that the code sets; a url is its text. *)
Record EmbedConfig := mkEmbedConfig {
  eb_Name : string; eb_Dir : string; eb_WalDir : string; eb_EnablePprof : bool;
  eb_StrictReconfigCheck : bool; eb_TickMs : Z; eb_ElectionMs : Z;
  eb_AutoCompactionMode : string; eb_AutoCompactionRetention : string;
  eb_MaxRequestBytes : Z; eb_QuotaBackendBytes : Z; eb_InitialClusterToken : string;
  eb_LogOutputs : list string; eb_LogLevel : string; eb_EnableLogRotation : bool;
  eb_InitialCluster : string; eb_ListenPeerUrls : list string; eb_AdvertisePeerUrls : list string;
  eb_ListenClientUrls : list string; eb_AdvertiseClientUrls : list string
}.

Record ClientConfig := mkClientConfig {
  cc_Endpoints : list string; cc_DialTimeout : Z; cc_Username : string; cc_Password : string
}.

(** A member with the urls of its peers; the status of an endpoint, of which the
    code fills some fields itself. *)
Record Member := mkMember { mb_ID : Z; mb_PeerURLs : list string }.
Record StatusResponse := mkStatusResponse {
  sr_MemberId : Z; sr_Version : string; sr_DbSizeInUse : Z; sr_Leader : Z; sr_Errors : list string
}.

Inductive WatchEventType := EventPut | EventDelete | EventOther (n : Z).
Record WatchEvent := mkWatchEvent { we_Type : WatchEventType; we_Key : string; we_Value : string }.

Class EtcdLibrary (W : Type) := {
  url_Parse : string → option string;
  (** [embed.StartEtcd]: the error, with no server. *)
  StartEtcd : EmbedConfig → W → option string * W;
  (** Ready within 60 seconds; [Server.Stop]. *)
  etcd_Ready : W → bool * W;
  etcd_Stop : W → W;
  clientv3_New : ClientConfig → W → option string * W;
  cli_Endpoints : W → list string;
  cli_MemberList : W → (string + list Member) * W;
  cli_Sync : W → option string * W;
  cli_Status : string → W → (string + StatusResponse) * W;
  cli_MemberAdd : list string → W → (string + Member) * W;
  cli_MemberRemove : Z → W → (string + list Member) * W;
  cli_KeepAlive : Z → W → option string * W;
  (** The watch: whether there is a channel, and the responses until it is
      closed, each with its events. *)
  cli_Watch : string → W → option (list (list WatchEvent)) * W
}.

Section process.
Context {W : Type} `{MasterEnv W} `{EtcdLibrary W}.

(** ** etcd_service.go *)

Definition cluster_entry (m : MasterCfg) (port : Z) : string :=
  mc_Name m +:+ "=http://" +:+ mc_Address m +:+ ":" +:+ to_string port +:+ ",".

(** [s[:len(s)-1]], a panic for the empty string. *)
Definition drop_last (s : string) : option string :=
  if bool_decide (s = "") then None else Some (String.substring 0 (String.length s - 1) s).

Definition GetEmbed (conf : Config) : option (string + EmbedConfig) :=
  match Masters_Self (cf_Masters conf) with
  | None => Some (inl "not found master config")
  | Some masterCfg =>
      dir ← GetDataDir conf;
      g ← cf_Global conf;
      initial ← drop_last (fold_left (λ acc m, acc +:+ cluster_entry m (mc_EtcdPeerPort masterCfg))
        (cf_Masters conf) "");
      peer ← url_Parse ("http://" +:+ mc_Address masterCfg +:+ ":" +:+
        to_string (mc_EtcdPeerPort masterCfg));
      client ← url_Parse ("http://" +:+ mc_Address masterCfg +:+ ":" +:+
        to_string (mc_EtcdClientPort masterCfg));
      Some (inr (mkEmbedConfig (mc_Name masterCfg) dir "" false true 100 3000 "periodic" "1"
        33554432 8589934592 (gc_Name g) [gc_Log g +:+ "/MASTER.ETCD.log"] "warn" true
        initial [peer] [peer] [client] [client]))
  end.

(** The goroutine up to its message on [done], which the function returns.
    After a failed start it goes on to the fields of a nil server. *)
Definition StartEmbeddedEtcd (conf : Config) : M W (option string) :=
  cfg ⇐ mlift (GetEmbed conf);
  match cfg with
  | inl err => mret (Some err)
  | inr cfg =>
      err ⇐ mdo (StartEtcd cfg);
      match err with
      | Some _ => mpanic
      | None =>
          ready ⇐ mdo etcd_Ready;
          if ready : bool then mret None
          else
            _ ⇐ mdo (λ w, ((), etcd_Stop w));
            mret (Some "Server took too long to start!")
      end
  end.

(** ** etcd_client.go: the connection and the members *)

Definition NewEtcdClient (conf : Config) (serverAddrs : list string) : M W (option string) :=
  g ⇐ mlift (cf_Global conf);
  if gc_SupportEtcdAuth g then
    etcd ⇐ mlift (cf_EtcdConfig conf);
    mdo (clientv3_New (mkClientConfig serverAddrs (5 * Second) (ec_Username etcd) (ec_Password etcd)))
  else mdo (clientv3_New (mkClientConfig serverAddrs (5 * Second) "" "")).

Definition KeepAlive (key value : string) (ttl : Z) : M W (option string) :=
  if ttl_too_short ttl then mret (Some msg_ttl)
  else
    grant ⇐ mdo (cli_Grant (Z.quot ttl Second));
    match grant with
    | inl err => mret (Some err)
    | inr id =>
        err ⇐ mdo (cli_PutLease key value id);
        match err with
        | Some e => mret (Some e)
        | None => mdo (cli_KeepAlive id)
        end
    end.

Definition WatchPrefix (key : string) : M W (string + list (list WatchEvent)) :=
  r ⇐ mdo (cli_Watch key);
  mret (match r with
        | None => inl ("watch " +:+ key +:+ " failed")
        | Some watcher => inr watcher
        end).

Definition MemberList : M W (string + list Member) := mdo cli_MemberList.
Definition MemberAdd (peerAddrs : list string) : M W (string + Member) := mdo (cli_MemberAdd peerAddrs).
Definition MemberRemove (id : Z) : M W (string + list Member) := mdo (cli_MemberRemove id).
Definition Endpoints : M W (list string) := λ w, (Some (cli_Endpoints w), w).
Definition MemberSync : M W (option string) := mdo cli_Sync.

Definition compareEndPoints (eps : list string) (members : list Member) : bool :=
  let memberAddrs : gset string := list_to_set (members ≫= mb_PeerURLs) in
  forallb (λ ep, bool_decide (ep ∈ memberAddrs)) eps.

Definition failed_status (err : string) : StatusResponse := mkStatusResponse 0 "0" 0 0 [err].

Fixpoint status_loop (eps : list string) : M W (list StatusResponse) :=
  match eps with
  | [] => mret []
  | ep :: rest =>
      r ⇐ mdo (cli_Status ep);
      l ⇐ status_loop rest;
      mret ((match r with inl err => failed_status err | inr stat => stat end) :: l)
  end.

Definition MemberStatus : M W (string + list StatusResponse) :=
  r ⇐ mdo cli_MemberList;
  match r with
  | inl err => mret (inl err)
  | inr members =>
      eps ⇐ Endpoints;
      err ⇐ (if compareEndPoints eps members then mdo cli_Sync else mret None);
      match err with
      | Some e => mret (inl e)
      | None => eps ⇐ Endpoints; l ⇐ status_loop eps; mret (inr l)
      end
  end.

(** ** watch_job.go *)

(** [strings.Contains] *)
Fixpoint Contains (s sub : string) : bool :=
  String.prefix sub s || match s with EmptyString => false | String _ t => Contains t sub end.

Definition nodeType (key : string) : string :=
  if Contains key "router" then "router" else if Contains key "ps" then "ps" else "unknown".

Definition event_line (e : WatchEvent) : string :=
  match we_Type e with
  | EventPut => "节点类型: " +:+ nodeType (we_Key e) +:+ ", 上线或修改: " +:+ we_Key e +:+
                ", 值: " +:+ we_Value e
  | EventDelete => "节点类型: " +:+ nodeType (we_Key e) +:+ ", 节点下线: " +:+ we_Key e
  | EventOther n => "节点类型: " +:+ nodeType (we_Key e) +:+ ", 未识别的事件类型: " +:+ to_string n
  end.

(** The error of a watch that was not made, at once, or the lines that are printed
    until the channel is closed. *)
Definition WatchJob_Strat : M W (string + list string) :=
  r ⇐ WatchPrefix NodesPrefix;
  mret (match r with
        | inl err => inl err
        | inr responses => inr (event_line <$> mjoin responses)
        end).

(** ** main.go *)

(** The end of the process: an exit code, a panic, or the return of [main], with
    the port the HTTP server listens on until then and what the watch returned
    or printed. *)
Inductive Ending :=
  | Exited (code : Z)
  | Crashed
  | Returned (api_port : string) (watch : string + list string).

Definition end_with {A} (m : M W A) (k : A → W → Ending * W) (w : W) : Ending * W :=
  match m w with
  | (None, w') => (Crashed, w')
  | (Some a, w') => k a w'
  end.

Definition master_main (DecodeFile : string → Config → string + Config)
    (interfaces : string + list (list string)) (resolve : string → string + string)
    (conf_path : string) (w : W) : Ending * W :=
  match InitConfig DecodeFile conf_path with
  | Exits code => (Exited code, w)
  | Panics => (Crashed, w)
  | Returns conf =>
      match CurrentByMasterNameDomainIp interfaces resolve "master" (cf_Masters conf) with
      | None => (Crashed, w)
      | Some (Some _, _) => (Exited 1, w)
      | Some (None, masters) =>
          let conf := SetMasters masters conf in
          end_with (StartEmbeddedEtcd conf) (λ _,
          end_with (NewEtcdClient conf (GetEtcdAddress (cf_Masters conf))) (λ e,
            match e with
            | Some _ => λ w, (Exited 1, w)
            | None =>
                end_with InitClusterApi (λ _,
                end_with (mlift (Masters_Self (cf_Masters conf))) (λ self,
                end_with WatchJob_Strat (λ r w,
                  (Returned (":" +:+ to_string (mc_ApiPort self)) r, w))))
            end)) w
      end
  end.
End process.

(** ** store_client.go *)

(** The registered implementations. *)
Definition Register {A} (name : string) (initFunc : A) (storeFactories : gmap string A)
    : gmap string A := <[name := initFunc]> storeFactories.
Definition OpenStore {A R} (call : A → list string → string + R) (implementation : string)
    (serverAddress : list string) (storeFactories : gmap string A) : string + R :=
  match storeFactories !! implementation with
  | None => inl ("not supported " +:+ implementation +:+ " store")
  | Some s => call s serverAddress
  end.

(** ** Specification *)

(** The masters of the cluster under their own ports. *)
Definition intended_cluster (ms : list MasterCfg) : string :=
  fold_left (λ acc m, acc +:+ cluster_entry m (mc_EtcdPeerPort m)) ms "".

(** ** Lemmas *)

Lemma entries_append port ms acc :
  fold_left (λ acc m, acc +:+ cluster_entry m (port m)) ms acc =
    acc +:+ fold_left (λ acc m, acc +:+ cluster_entry m (port m)) ms "".
Proof.
  revert acc. induction ms as [|m ms IH]; intros acc; cbn [fold_left].
  - by rewrite append_nil_r.
  - rewrite IH. rewrite (IH ("" +:+ _)). by rewrite append_nil_l, append_assoc.
Qed.

Notation entries port ms := (fold_left (λ acc m, acc +:+ cluster_entry m (port m)) ms "").

Lemma entries_cons port m ms : entries port (m :: ms) = cluster_entry m (port m) +:+ entries port ms.
Proof. cbn [fold_left]. by rewrite entries_append, append_nil_l. Qed.

Lemma entries_snoc port ms : ms ≠ [] → ∃ t, entries port ms = t +:+ ",".
Proof.
  induction ms as [|m ms IH]; [done|]. intros _. rewrite entries_cons.
  destruct ms as [|m' ms].
  - exists (mc_Name m +:+ "=http://" +:+ mc_Address m +:+ ":" +:+ to_string (port m)). unfold cluster_entry. cbn [fold_left].
    by rewrite append_nil_r, !append_assoc.
  - destruct IH as [t ->]; [done|]. exists (cluster_entry m (port m) +:+ t). by rewrite append_assoc.
Qed.

Lemma append_ne_nil t (a : ascii) : t +:+ String a "" ≠ "".
Proof. by destruct t. Qed.

Lemma drop_last_snoc t : drop_last (t +:+ ",") = Some t.
Proof.
  unfold drop_last. rewrite bool_decide_eq_false_2 by apply append_ne_nil. f_equal.
  induction t as [|c t IH]; [done|]. rewrite append_cons. simpl.
  destruct (t +:+ ",") as [|c' t'] eqn:E; [by apply append_ne_nil in E|].
  simpl in IH |- *. by rewrite Nat.sub_0_r in IH; rewrite IH.
Qed.

Lemma to_string_no_char c z : is_digit c = false → c ≠ "-"%char → no_char c (to_string z).
Proof.
  intros Hc Hm. unfold to_string. destruct z as [|p|p].
  - by apply digits_no_char.
  - destruct (pretty_N_decimal (Npos p)) as (Hd & _). by apply (digits_no_char c).
  - destruct (pretty_N_decimal (Npos p)) as (Hd & _). apply (digits_no_char c) in Hd; [|done].
    change (pretty (Zneg p)) with (String "-" (pretty (Npos p))). unfold no_char.
    cbn [str_forall]. unfold no_char in Hd. rewrite Hd, andb_true_r.
    apply negb_true_iff, Ascii.eqb_neq. congruence.
Qed.

Lemma entry_inj m p1 p2 r1 r2 :
  no_char "," (mc_Name m) → no_char "," (mc_Address m) →
  cluster_entry m p1 +:+ r1 = cluster_entry m p2 +:+ r2 → p1 = p2 ∧ r1 = r2.
Proof.
  intros Hn Ha E. unfold cluster_entry in E. rewrite !append_assoc in E.
  apply append_inj_r, append_inj_r, append_inj_r, append_inj_r in E.
  change ("," +:+ ?x) with (String "," x) in E.
  apply append_sep_inj in E as [E ->]; [|by apply to_string_no_char..].
  split; [|done]. by apply (inj pretty) in E.
Qed.

Lemma cluster_entries_inj p1 p2 ms :
  Forall (λ m, no_char "," (mc_Name m) ∧ no_char "," (mc_Address m)) ms →
  entries p1 ms = entries p2 ms ↔ Forall (λ m, p1 m = p2 m) ms.
Proof.
  induction 1 as [|m ms [Hn Ha] _ IH]; [by split|]. rewrite !entries_cons, Forall_cons, <- IH.
  split; [by apply entry_inj|]. by intros [-> ->].
Qed.

Lemma not_contained (sub s : string) (c : ascii) (t : string) :
  sub = String c t → no_char c s → Contains s sub = false.
Proof.
  intros ->. induction s as [|a s IH]; [done|]. unfold no_char. simpl.
  intros [Ha Hs]%andb_prop. rewrite IH by done.
  destruct (Ascii.eqb_spec a c) as [->|Hne]; [done|].
  destruct (ascii_dec c a) as [->|]; [done|]. done.
Qed.

Lemma contains_app p sub r : Contains (p +:+ sub +:+ r) sub = true.
Proof.
  assert (∀ r, String.prefix sub (sub +:+ r) = true) as Hp.
  { induction sub as [|c sub IH]; intros r'; [by destruct r'|]. rewrite append_cons. simpl.
    destruct (ascii_dec c c); [apply IH|done]. }
  induction p as [|c p IH].
  - rewrite append_nil_l. destruct (sub +:+ r) eqn:E; cbn [Contains]; rewrite <- E, Hp; done.
  - rewrite append_cons. cbn [Contains]. rewrite IH. apply orb_true_r.
Qed.

Section run.
Context {W : Type} `{MasterEnv W} `{EtcdLibrary W}.

Lemma NewIDGenerate_returns key base w : ∃ x w', NewIDGenerate key base w = (Some x, w').
Proof.
  unfold NewIDGenerate, mthen, mdo, mret. destruct (cli_STM key (next_id base) w) as [r w'].
  by do 2 eexists.
Qed.

(** The generators of ids are prepared without a panic. *)
Lemma InitClusterApi_returns w : ∃ w', InitClusterApi w = (Some tt, w').
Proof.
  assert (∀ key w, ∃ w', init_generator key w = (Some tt, w')) as HG.
  { intros key w0. unfold init_generator, mthen, Get, mthen, mdo, mret.
    destruct (cli_Get key w0) as [r w1]. destruct (NewIDGenerate_returns key IdBaseVal w1) as (x & w2 & E).
    destruct r as [e|[|[k [v|]] l]]; rewrite ?E; by eexists. }
  unfold InitClusterApi, mthen. destruct (HG GenPsIdKey w) as [w1 ->]. apply HG.
Qed.

(** What the watch gives for the channel it gets, if it gets one. *)
Definition watch_result (ch : option (list (list WatchEvent))) : string + list string :=
  match ch with
  | Some responses => inr (event_line <$> mjoin responses)
  | None => inl ("watch " +:+ NodesPrefix +:+ " failed")
  end.

Lemma WatchJob_Strat_returns w :
  WatchJob_Strat w =
    (Some (watch_result (cli_Watch NodesPrefix w).1), (cli_Watch NodesPrefix w).2).
Proof.
  unfold WatchJob_Strat, WatchPrefix, mthen, mdo, mret.
  by destruct (cli_Watch NodesPrefix w) as [[l|] w'].
Qed.

(** A server that starts is left running if it gets ready, and stopped if not. *)
Lemma StartEmbeddedEtcd_returns conf cfg w w1 ready w2 :
  GetEmbed conf = Some (inr cfg) → StartEtcd cfg w = (None, w1) → etcd_Ready w1 = (ready, w2) →
  ∃ e, StartEmbeddedEtcd conf w = (Some e, if ready then w2 else etcd_Stop w2).
Proof.
  intros Hcfg HS HR. unfold StartEmbeddedEtcd, mthen, mlift, mdo, mret.
  rewrite Hcfg, HS, HR. destruct ready; by eexists.
Qed.

Lemma NewEtcdClient_returns conf eps w :
  (∀ cfg w, (clientv3_New cfg w).1 = None) → is_Some (cf_Global conf) →
  (∀ g, cf_Global conf = Some g → gc_SupportEtcdAuth g = true → is_Some (cf_EtcdConfig conf)) →
  ∃ w', NewEtcdClient conf eps w = (Some None, w').
Proof.
  intros HN [g Hg] Hauth. unfold NewEtcdClient, mthen, mlift, mdo. rewrite Hg.
  destruct (gc_SupportEtcdAuth g) eqn:Eg; [destruct (Hauth g Hg Eg) as [ec ->]|];
    match goal with |- context [clientv3_New ?c w] => specialize (HN c w);
      destruct (clientv3_New c w) as [r w2] end; simpl in HN; subst r; by eexists.
Qed.

(** The configuration of the embedded server. *)
Lemma GetEmbed_self conf m dir peer client :
  Masters_Self (cf_Masters conf) = Some m → GetDataDir conf = Some dir →
  url_Parse ("http://" +:+ mc_Address m +:+ ":" +:+ to_string (mc_EtcdPeerPort m)) = Some peer →
  url_Parse ("http://" +:+ mc_Address m +:+ ":" +:+ to_string (mc_EtcdClientPort m)) = Some client →
  ∃ cfg, GetEmbed conf = Some (inr cfg) ∧ eb_Name cfg = mc_Name m ∧ eb_Dir cfg = dir ∧
    eb_ListenClientUrls cfg = [client] ∧ eb_ListenPeerUrls cfg = [peer] ∧
    Some (eb_InitialCluster cfg) = drop_last (entries (λ _, mc_EtcdPeerPort m) (cf_Masters conf)).
Proof.
  intros Hm Hd Hp Hc. unfold GetEmbed. rewrite Hm, Hd, Hp, Hc. cbn [mbind option_bind].
  unfold GetDataDir in Hd. destruct (cf_Global conf) as [g|]; [|done]. cbn [mbind option_bind].
  assert (cf_Masters conf ≠ []) as Hne by (intros E; by rewrite E in Hm).
  destruct (entries_snoc (λ _, mc_EtcdPeerPort m) _ Hne) as [t Ht]. rewrite Ht, drop_last_snoc.
  cbn [mbind option_bind]. by eexists.
Qed.
End run.

(** The entry that is marked is the one that is found. *)
Lemma marked_self (ms : list MasterCfg) i m :
  Forall (λ m, mc_Self m = false) ms → ms !! i = Some m →
  Masters_Self (<[i := set_self m]> ms) = Some (set_self m).
Proof.
  intros Hf. revert i. induction Hf as [|x ms Hx _ IH]; intros [|i] Hi; simpl in Hi; [done..| |].
  - injection Hi as ->. done.
  - unfold Masters_Self. cbn. rewrite Hx. by apply IH.
Qed.

(** ** Properties *)

(** C40. The initial cluster of the embedded server lists every master under its own
    peer port exactly if all masters have the peer port of this one: the loop
    prints the port of this process for each of them. *)
Theorem initial_cluster_exact `{EtcdLibrary W} (conf : Config) (m : MasterCfg) (cfg : EmbedConfig) :
  Masters_Self (cf_Masters conf) = Some m → GetEmbed conf = Some (inr cfg) →
  Forall (λ m, no_char "," (mc_Name m) ∧ no_char "," (mc_Address m)) (cf_Masters conf) →
  Some (eb_InitialCluster cfg) = drop_last (intended_cluster (cf_Masters conf)) ↔
  Forall (λ x, mc_EtcdPeerPort x = mc_EtcdPeerPort m) (cf_Masters conf).
Proof.
  intros Hm E Hc. unfold GetEmbed in E. rewrite Hm in E.
  apply bind_Some in E as (dir & _ & E). apply bind_Some in E as (g & _ & E).
  apply bind_Some in E as (initial & Hi & E). apply bind_Some in E as (peer & _ & E).
  apply bind_Some in E as (client & _ & E). injection E as <-. cbn [eb_InitialCluster].
  assert (cf_Masters conf ≠ []) as Hne by (intros E; by rewrite E in Hm).
  destruct (entries_snoc (λ _, mc_EtcdPeerPort m) _ Hne) as [t Ht].
  destruct (entries_snoc mc_EtcdPeerPort _ Hne) as [u Hu]. unfold intended_cluster.
  rewrite Ht, drop_last_snoc in Hi. injection Hi as <-. rewrite Hu, drop_last_snoc.
  rewrite (Forall_iff _ _ (λ x, mc_EtcdPeerPort m = mc_EtcdPeerPort x)) by (intros x; split; done).
  rewrite <- (cluster_entries_inj (λ _, mc_EtcdPeerPort m) mc_EtcdPeerPort) by done. rewrite Ht, Hu.
  split; [by intros [= ->]|]. intros E. f_equal.
  by apply (f_equal drop_last) in E; rewrite !drop_last_snoc in E; injection E.
Qed.

(** The watch reports the nodes by their kind: the key of a partition server
    whose address has no letter r, as an IP address has none, is reported as
    one, and the key of a router as a router. *)
Theorem watch_names_nodes (ip : string) (port id : Z) :
  (no_char "r" ip → nodeType (GetPsRegisterKV ip port id).1 = "ps") ∧
  nodeType (GenRouterNodeKey ip port) = "router".
Proof.
  split.
  - intros Hip. unfold nodeType. rewrite (not_contained "router" _ "r" "outer"); [|done|].
    + change (GetPsRegisterKV ip port id).1 with
        ("/nodes/" +:+ "ps" +:+ ("/:" +:+ ip +:+ ":" +:+ to_string port +:+ ":" +:+ to_string id)).
      by rewrite contains_app.
    + cbn [fst GetPsRegisterKV]. unfold _ps_register_prefix.
      rewrite !no_char_app. split_and!; try done; by apply to_string_no_char.
  - unfold nodeType. change (GenRouterNodeKey ip port) with
      ("/nodes/" +:+ "router" +:+ ("/:" +:+ ip +:+ ":" +:+ to_string port)).
    by rewrite contains_app.
Qed.

(** C33. The start of the master, step by step: with a configuration that loads and
    names this machine, a data directory, addresses that resolve and are parts of
    urls, the user of etcd if one is asked for, an etcd that can be started and a
    client that can be made, the process starts etcd with settings by which it
    listens on one of the addresses of its own client.  If etcd is not ready in
    time it is stopped, and in both cases the process goes on to make the client,
    prepare the ids and serve its interface on the configured port.  It then
    prints the events of the watch until its channel is closed, or returns at
    once if there is no watch. *)
Theorem master_serves {W} `{MasterEnv W} `{EtcdLibrary W}
    (DecodeFile : string → Config → string + Config) (ifaces : list (list string))
    (resolve : string → string + string) (path dir peer client : string) (conf : Config)
    (addrs : gset string) (i : nat) (m : MasterCfg) (w : W) :
  InitConfig DecodeFile path = Returns conf →
  Forall (resolvable resolve) (cf_Masters conf) →
  Forall (λ m, mc_Self m = false) (cf_Masters conf) →
  addrMap (inr ifaces) = Some addrs →
  list_find (is_current resolve addrs "master") (cf_Masters conf) = Some (i, m) →
  GetDataDir conf = Some dir →
  url_Parse ("http://" +:+ mc_Address m +:+ ":" +:+ to_string (mc_EtcdPeerPort m)) = Some peer →
  url_Parse ("http://" +:+ mc_Address m +:+ ":" +:+ to_string (mc_EtcdClientPort m)) = Some client →
  (∀ g, cf_Global conf = Some g → gc_SupportEtcdAuth g = true → is_Some (cf_EtcdConfig conf)) →
  (∀ cfg w, (StartEtcd cfg w).1 = None) → (∀ cfg w, (clientv3_New cfg w).1 = None) →
  let conf' := SetMasters (<[i := set_self m]> (cf_Masters conf)) conf in
  ∃ cfg ep w1 ready w2 w3 w4, GetEmbed conf' = Some (inr cfg) ∧
    ep ∈ GetEtcdAddress (cf_Masters conf') ∧ url_Parse ("http://" +:+ ep) = Some client ∧
    eb_ListenClientUrls cfg = [client] ∧
    StartEtcd cfg w = (None, w1) ∧ etcd_Ready w1 = (ready, w2) ∧
    NewEtcdClient conf' (GetEtcdAddress (cf_Masters conf'))
      (if ready then w2 else etcd_Stop w2) = (Some None, w3) ∧
    InitClusterApi w3 = (Some tt, w4) ∧
    master_main DecodeFile (inr ifaces) resolve path w =
      (Returned (":" +:+ to_string (mc_ApiPort m)) (watch_result (cli_Watch NodesPrefix w4).1),
       (cli_Watch NodesPrefix w4).2).
Proof.
  intros HI Hres Hself Ha Hf Hd Hp Hc Hauth HS HN conf'.
  assert (cf_Masters conf !! i = Some m) as Hi by by apply list_find_Some in Hf as [? _].
  assert (Masters_Self (cf_Masters conf') = Some (set_self m)) as Hs by by apply marked_self.
  destruct (GetEmbed_self conf' (set_self m) dir peer client Hs Hd Hp Hc)
    as (cfg & Hcfg & _ & _ & Hlisten & _).
  specialize (HS cfg w). destruct (StartEtcd cfg w) as [r1 w1] eqn:E0. simpl in HS. subst r1.
  destruct (etcd_Ready w1) as [ready w2] eqn:ER.
  destruct (StartEmbeddedEtcd_returns conf' cfg w w1 ready w2 Hcfg E0 ER) as (e & E1).
  destruct (NewEtcdClient_returns conf' (GetEtcdAddress (cf_Masters conf'))
    (if ready then w2 else etcd_Stop w2) HN) as [w3 E2];
    [by unfold GetDataDir in Hd; cbn; destruct (cf_Global conf)|exact Hauth|].
  destruct (InitClusterApi_returns w3) as [w4 E3].
  exists cfg, (mc_Address m +:+ ":" +:+ to_string (mc_EtcdClientPort m)), w1, ready, w2, w3, w4.
  split_and!; try done.
  { unfold GetEtcdAddress, ClientAddress. apply list_elem_of_fmap. exists (set_self m).
    split; [done|]. cbn [conf' cf_Masters SetMasters].
    eapply list_elem_of_lookup_2, list_lookup_insert_eq. by eapply lookup_lt_Some. }
  unfold master_main. rewrite HI. unfold CurrentByMasterNameDomainIp. rewrite Ha.
  cbn [mbind option_bind]. rewrite current_loop_spec, Hf by done. fold conf'.
  unfold end_with, mlift. by rewrite E1, E2, E3, Hs, WatchJob_Strat_returns.
Qed.

(** Libraries that succeed, on the world of the master's example. *)
#[local] Instance plain_library (ready : bool) : EtcdLibrary (gmap string string) := {|
  url_Parse u := Some u; StartEtcd _ w := (None, w); etcd_Ready w := (ready, w);
  etcd_Stop w := w; clientv3_New _ w := (None, w); cli_Endpoints _ := [];
  cli_MemberList w := (inr [], w); cli_Sync w := (None, w); cli_Status e w := (inl e, w);
  cli_MemberAdd l w := (inr (mkMember 0 l), w); cli_MemberRemove _ w := (inr [], w);
  cli_KeepAlive _ w := (None, w);
  cli_Watch _ w := (Some [[mkWatchEvent EventPut (GetPsRegisterKV "10.0.0.1" 8081 3).1 "8081"]], w)
|}.

Definition sample_conf : Config :=
  mkConfig (Some (mkGlobalCfg "/log" "info" 3 100 ["/data"] "sim" "" "m.toml" false)) None
    [mkMasterCfg "m1" "10.0.0.1" 8090 2370 2380 2379 false 0;
     mkMasterCfg "m2" "10.0.0.2" 8091 2370 2381 2379 false 0] None None.
Definition sample_decode (path : string) (c : Config) : string + Config := inr sample_conf.

(** The machine of the second master; etcd does not get ready. *)
Lemma master_serves_witness :
  ∃ w', @master_main _ (small_env false false) (plain_library false) sample_decode
    (inr [["10.0.0.2/24"]]) inr "m.toml" ∅ =
    (Returned ":8091" (inr [event_line (mkWatchEvent EventPut
       (GetPsRegisterKV "10.0.0.1" 8081 3).1 "8081")]), w').
Proof.
  destruct (@master_serves _ (small_env false false) (plain_library false) sample_decode
    [["10.0.0.2/24"]] inr "m.toml" "/data" "http://10.0.0.2:2381" "http://10.0.0.2:2379" sample_conf
    {["10.0.0.2"; "127.0.0.1"; "0.0.0.0"]} 1
    (mkMasterCfg "m2" "10.0.0.2" 8091 2370 2381 2379 false 0) ∅)
    as (cfg & ep & w1 & ready & w2 & w3 & w4 & _ & _ & _ & _ & _ & _ & _ & _ & E).
  - reflexivity.
  - apply Forall_forall. intros x _. right. by eexists.
  - repeat constructor.
  - vm_compute. reflexivity.
  - vm_compute. reflexivity.
  - reflexivity.
  - reflexivity.
  - reflexivity.
  - intros g [= <-] [=].
  - reflexivity.
  - reflexivity.
  - eexists. exact E.
Defined.

Lemma initial_cluster_exact_witness :
  ∃ cfg, @GetEmbed _ (plain_library true) (SetMasters (<[1%nat := set_self
      (mkMasterCfg "m2" "10.0.0.2" 8091 2370 2381 2379 false 0)]> (cf_Masters sample_conf)) sample_conf) =
      Some (inr cfg) ∧
    eb_InitialCluster cfg = "m1=http://10.0.0.1:2381,m2=http://10.0.0.2:2381" ∧
    Some (eb_InitialCluster cfg) ≠ drop_last (intended_cluster (cf_Masters sample_conf)).
Proof.
  eexists. split; [vm_compute; reflexivity|]. split; [reflexivity|].
  intros E.
  match type of E with Some (eb_InitialCluster ?cfg) = _ =>
    pose proof (proj1 (@initial_cluster_exact _ (plain_library true) (SetMasters (<[1%nat := set_self
      (mkMasterCfg "m2" "10.0.0.2" 8091 2370 2381 2379 false 0)]> (cf_Masters sample_conf)) sample_conf)
      (mkMasterCfg "m2" "10.0.0.2" 8091 2370 2381 2379 true 0) cfg eq_refl
      ltac:(vm_compute; reflexivity) ltac:(repeat constructor)) E) as HF end.
  inversion_clear HF as [|?? H1]. discriminate H1.
Defined.
