(* ===== verification/SpaceContract.v ===== *)
(** * SpaceContract: from the master's store to the router's table

    A space crosses two languages: the master prints a Go struct as JSON into
    etcd (src/master/entity), and a router that starts reads that text as the
    message Space of src/idl/rpc_service_idl/common_rpc.proto
    ([SpaceManager::Init] and [SpaceJsonToPb] of
    src/service/router/space_manager.cc).  Here are the reading of the message
    by the names of its fields, the message a stored space is read as, and the
    composition of the master's invariant with the start of a router. *)
From Stdlib Require Import Ascii.
From S2P Require Import Prelude StdMap Numeric Bytes OwmrMap Common Files Wire RaftClient Partition LocalSpaces EtcdMsg EtcdClient SpaceManager RouterRpc RouterService GoStd GoJson MasterCommon MasterEntity MasterCheck MasterStore MasterApi Placement MasterSafety MasterCluster.
Local Open Scope Z_scope.

(** ** The JSON form of the messages

    A message is read from an object whose names are distinct and have no
    capitals, so that each is the name of a field as it is declared or the name
    of no field: other names are ignored, an absent member or null leaves the
    field unset.  Where a reading is [None] nothing is said. *)

Definition no_capitals (s : string) : bool := str_forall (λ a, negb (byte_in 65 90 a)) s.

Definition members (j : json) : option (list (string * json)) :=
  match j with
  | JObj m => if bool_decide (NoDup m.*1) && forallb no_capitals m.*1 then Some m else None
  | _ => None
  end.

Definition member (k : string) (m : list (string * json)) : option json :=
  match find_by (λ n, bool_decide (n = k)) m with
  | Some JNull | None => None
  | Some j => Some j
  end.

Definition read_string (j : json) : option string :=
  match j with JStr s => Some s | _ => None end.
Definition read_int (lo hi : Z) (j : json) : option Z :=
  match j with
  | JNum lit =>
      match ParseInt lit with
      | (n, None) => if (lo <=? n) && (n <? hi) then Some n else None
      | _ => None
      end
  | _ => None
  end.
Definition read_int32 : json → option Z := read_int (- 2 ^ 31) (2 ^ 31).
Definition read_uint32 : json → option Z := read_int 0 (2 ^ 32).
Definition read_list {A} (read : json → option A) (j : json) : option (list A) :=
  match j with JArr l => mapM read l | _ => None end.

(** An optional field, and one with a default. *)
Definition opt_field {A} (read : json → option A) (o : option json) : option (option A) :=
  match o with None => Some None | Some j => Some <$> read j end.
Definition field_or {A} (d : A) (read : json → option A) (o : option json) : option A :=
  default d <$> opt_field read o.

Definition read_Index (j : json) : option Index :=
  m ← members j;
  name ← field_or "" read_string (member "name" m);
  ty ← field_or "" read_string (member "type" m);
  params ← opt_field read_string (member "params" m);
  Some (mkIndex name ty params).

Definition read_Field (j : json) : option Field :=
  m ← members j;
  name ← field_or "" read_string (member "name" m);
  ty ← field_or "" read_string (member "type" m);
  dimension ← opt_field read_uint32 (member "dimension" m);
  index ← opt_field read_Index (member "index" m);
  Some (mkField name ty dimension index).

Definition read_Replica (j : json) : option Common.Replica :=
  m ← members j;
  ps_id ← field_or 0 read_int32 (member "ps_id" m);
  ps_ip ← field_or "" read_string (member "ps_ip" m);
  ps_port ← field_or 0 read_int32 (member "ps_port" m);
  is_leader ← opt_field read_int32 (member "is_leader" m);
  node_status ← opt_field read_string (member "node_status" m);
  msg ← opt_field read_string (member "msg" m);
  Some (Common.mkReplica ps_id ps_ip ps_port is_leader node_status msg).

Definition read_Partition (j : json) : option Common.Partition :=
  m ← members j;
  partition_id ← field_or 0 read_int32 (member "partition_id" m);
  group_name ← field_or "" read_string (member "group_name" m);
  replicas ← field_or [] (read_list read_Replica) (member "replicas" m);
  create_time ← opt_field read_string (member "create_time" m);
  update_time ← opt_field read_string (member "update_time" m);
  Some (Common.mkPartition partition_id group_name replicas create_time update_time).

Definition read_Space (j : json) : option Space :=
  m ← members j;
  db_name ← field_or "" read_string (member "db_name" m);
  space_name ← field_or "" read_string (member "space_name" m);
  id ← field_or 0 read_uint32 (member "id" m);
  partition_num ← field_or 0 read_uint32 (member "partition_num" m);
  replica_num ← field_or 0 read_uint32 (member "replica_num" m);
  fields ← field_or [] (read_list read_Field) (member "fields" m);
  partitions ← field_or [] (read_list read_Partition) (member "partitions" m);
  id_type ← opt_field read_string (member "_id_type" m);
  ctime ← opt_field read_string (member "ctime" m);
  mtime ← opt_field read_string (member "mtime" m);
  Some (mkSpace db_name space_name id partition_num replica_num fields partitions id_type
    ctime mtime).

(** [JsonStringToMessage] reads the text of a JSON value by the fields of the
    message. *)
Class SpaceJsonLaws `{SpaceJson} := {
  JsonStringToMessage_read j sp : wf_json j → (depth j ≤ 5)%N → read_Space j = Some sp →
    JsonStringToMessage (print j) = inr sp
}.

(** ** The message of a stored space *)

Definition unless {A} (b : bool) (x : A) : option A := if b then None else Some x.

Definition replica_pb (r : Replica) : Common.Replica :=
  Common.mkReplica (PsID r) (PsIP r) (PsPort r) (Some (IsLeader r)) (Some (NodeStatus r))
    (Some (Msg r)).

(** The times of a partition are printed under names the message does not have. *)
Definition partition_pb (p : Partition) : Common.Partition :=
  Common.mkPartition (PartitionId p) (GroupName p) (replica_pb <$> elems (Replicas p)) None None.
Definition index_pb (x : InnerIndex) : Index := mkIndex (ii_Name x) (ii_Type x) (ii_Params x).
Definition field_pb (f : InnerField) : Field :=
  mkField (if_Name f) (if_Type f) (unless (is_zero (if_Dimension f)) (if_Dimension f))
    (index_pb <$> if_Index f).
Definition space_pb (s : InnerSpace) : Space :=
  mkSpace (DbName s) (SpaceName s) (Id s) (PartitionNum s) (ReplicaNum s)
    (field_pb <$> elems (Fields s)) (partition_pb <$> elems (Partitions s))
    (unless (is_empty (IdType s)) (IdType s)) (unless (is_empty (Ctime s)) (Ctime s))
    (unless (is_empty (Mtime s)) (Mtime s)).

(** The numbers of a space fit the fields of the messages. *)
Definition in_uint32 (z : Z) : Prop := 0 ≤ z < 2 ^ 32.
Definition replica_fits (r : Replica) : Prop :=
  in_int32 (PsID r) ∧ in_int32 (PsPort r) ∧ in_int32 (IsLeader r).
Definition partition_fits (p : Partition) : Prop :=
  in_int32 (PartitionId p) ∧ Forall replica_fits (elems (Replicas p)).
Definition space_fits (s : InnerSpace) : Prop :=
  in_uint32 (Id s) ∧ in_uint32 (PartitionNum s) ∧ in_uint32 (ReplicaNum s) ∧
  Forall (λ f, in_uint32 (if_Dimension f)) (elems (Fields s)) ∧
  Forall partition_fits (elems (Partitions s)).

(** ** Lemmas on the reading *)

Lemma read_int_enc lo hi z :
  lo ≤ z < hi → in_int64 z → read_int lo hi (enc_int z) = Some z.
Proof.
  intros Hz H64. unfold read_int, enc_int. rewrite ParseInt_to_string by done.
  by rewrite (proj2 (Z.leb_le _ _)), (proj2 (Z.ltb_lt _ _)) by lia.
Qed.
Lemma read_int32_enc z : in_int32 z → read_int32 (enc_int z) = Some z.
Proof. unfold in_int32. intros Hz. apply read_int_enc; unfold in_int64; lia. Qed.
Lemma read_uint32_enc z : in_uint32 z → read_uint32 (enc_int z) = Some z.
Proof. unfold in_uint32. intros Hz. apply read_int_enc; unfold in_int64; lia. Qed.

Lemma read_list_enc {A B} (read : json → option B) (enc : A → json) (f : A → B) (l : list A) :
  Forall (λ x, read (enc x) = Some (f x)) l → mapM read (List.map enc l) = Some (f <$> l).
Proof. induction 1 as [|x l Hx _ IH]; simpl; [done|]. by rewrite Hx, IH. Qed.

(** What a member reads as, when it is printed always, when it is left out if
    empty, and for a slice. *)
Lemma find_cons k n j (m : list (string * json)) :
  find_by (λ n, bool_decide (n = k)) ((n, j) :: m) =
    if bool_decide (n = k) then Some j else find_by (λ n, bool_decide (n = k)) m.
Proof. done. Qed.
Lemma find_omit k e n j (m : list (string * json)) :
  find_by (λ n, bool_decide (n = k)) (omit e (n, j) ++ m) =
    if negb e && bool_decide (n = k) then Some j else find_by (λ n, bool_decide (n = k)) m.
Proof. by destruct e. Qed.

Lemma members_intro m :
  bool_decide (NoDup m.*1) && forallb no_capitals m.*1 = true → members (JObj m) = Some m.
Proof. intros H. unfold members. by rewrite H. Qed.

Notation lookup_name k := (find_by (λ n, bool_decide (n = k))).

Lemma got_opt {A} (read : json → option A) k m j x :
  lookup_name k m = Some j → j ≠ JNull → read j = Some x →
  opt_field read (member k m) = Some (Some x).
Proof. intros Hk Hj Hr. unfold member. rewrite Hk. destruct j; try done; simpl; by rewrite Hr. Qed.

Lemma got_field {A} (d : A) (read : json → option A) k m j x :
  lookup_name k m = Some j → j ≠ JNull → read j = Some x →
  field_or d read (member k m) = Some x.
Proof. intros Hk Hj Hr. unfold field_or. by erewrite got_opt. Qed.

Lemma got_omitted_opt {A} (read : json → option A) k m (e : bool) j x :
  lookup_name k m = (if negb e then Some j else None) → j ≠ JNull → read j = Some x →
  opt_field read (member k m) = Some (unless e x).
Proof.
  destruct e; cbn [negb unless]; intros Hk Hj Hr; [|by eapply got_opt].
  unfold member. by rewrite Hk.
Qed.

Lemma got_omitted {A} (d : A) (read : json → option A) k m (e : bool) j x :
  lookup_name k m = (if negb e then Some j else None) → j ≠ JNull → read j = Some x →
  (e = true → x = d) → field_or d read (member k m) = Some x.
Proof.
  intros Hk Hj Hr He. unfold field_or. erewrite got_omitted_opt by done.
  destruct e; [|done]. by rewrite He.
Qed.

Lemma got_absent {A} (read : json → option A) k m :
  lookup_name k m = None → opt_field read (member k m) = Some None.
Proof. intros Hk. unfold member. by rewrite Hk. Qed.

(** A slice: null when it is nil. *)
Lemma got_slice {A B} (read : json → option B) (enc : A → json) (f : A → B) k m (s : slice A) :
  lookup_name k m = Some (enc_slice enc s) →
  Forall (λ x, read (enc x) = Some (f x)) (elems s) →
  field_or [] (read_list read) (member k m) = Some (f <$> elems s).
Proof.
  intros Hk Hs. unfold field_or, member. rewrite Hk. destruct s as [l|]; [|done]. simpl.
  by rewrite (read_list_enc _ _ f).
Qed.

Lemma got_omitted_slice {A B} (read : json → option B) (enc : A → json) (f : A → B) k m
    (s : slice A) :
  lookup_name k m = (if negb (len_zero s) then Some (enc_slice enc s) else None) →
  Forall (λ x, read (enc x) = Some (f x)) (elems s) →
  field_or [] (read_list read) (member k m) = Some (f <$> elems s).
Proof.
  intros Hk Hs. destruct (len_zero s) eqn:E; cbn [negb] in Hk; [|by eapply got_slice].
  unfold field_or, member. rewrite Hk. clear Hk Hs. unfold len_zero in E. by destruct (elems s).
Qed.

Lemma bind_to {A B} (o : option A) (f : A → option B) x y : o = Some x → f x = y → o ≫= f = y.
Proof. by intros ->. Qed.

(** The names of an encoded struct, which are compared by evaluation, and its
    members one by one. *)
Ltac names := rewrite members_intro; [cbn [mbind option_bind] |
  repeat match goal with |- context [omit ?e _] => destruct e; cbn [omit] end;
  cbn [app fmap list_fmap fst]; vm_compute; reflexivity].
Ltac find_name :=
  cbn [app]; repeat first [rewrite find_omit | rewrite find_cons];
  repeat match goal with |- context [@bool_decide (?a = ?b :> string) ?d] =>
    let v := eval vm_compute in (@bool_decide (a = b) d) in
    change (@bool_decide (a = b) d) with v end;
  rewrite ?andb_false_r, ?andb_true_r; reflexivity.
Ltac reading := first [reflexivity | by apply read_int32_enc | by apply read_uint32_enc].
Ltac next_field L := eapply bind_to; [eapply L; [find_name|..]|cbv beta].
Ltac present := next_field @got_field; [done|reading|].
Ltac present_opt := next_field @got_opt; [done|reading|].
Ltac omitted_opt := next_field @got_omitted_opt; [done|reading|].

Lemma read_Replica_enc r :
  replica_fits r → read_Replica (enc_Replica r) = Some (replica_pb r).
Proof.
  intros (H1 & H2 & H3). unfold read_Replica, enc_Replica. names.
  do 3 present. do 3 present_opt. done.
Qed.

Lemma read_Partition_enc p :
  partition_fits p → read_Partition (enc_Partition p) = Some (partition_pb p).
Proof.
  intros (H1 & H2). unfold read_Partition, enc_Partition. names. do 2 present.
  next_field @got_slice; [by eapply Forall_impl, read_Replica_enc|].
  do 2 next_field @got_absent. done.
Qed.

Lemma read_Index_enc x : read_Index (enc_InnerIndex x) = Some (index_pb x).
Proof.
  destruct x as [n t p]. unfold read_Index, enc_InnerIndex.
  destruct p; cbn [ii_Params is_nil omit app enc_ptr ii_Name ii_Type]; names; do 2 present.
  - present_opt. done.
  - next_field @got_absent. done.
Qed.

Lemma read_Field_enc f :
  in_uint32 (if_Dimension f) → read_Field (enc_InnerField f) = Some (field_pb f).
Proof.
  intros Hd. destruct f as [n t d i]. unfold read_Field, enc_InnerField, field_pb. cbn in Hd.
  cbn [if_Name if_Type if_Dimension if_Index].
  destruct i as [x|]; cbn [is_nil omit app enc_ptr]; names; do 2 present; omitted_opt.
  - next_field @got_opt; [done|apply read_Index_enc|done].
  - next_field @got_absent. done.
Qed.

Lemma read_Space_enc s : space_fits s → read_Space (enc_InnerSpace s) = Some (space_pb s).
Proof.
  intros (H1 & H2 & H3 & H4 & H5). unfold read_Space, enc_InnerSpace. names. do 2 present.
  next_field @got_omitted; [done|reading|apply omit_zero|]. do 2 present.
  next_field @got_slice; [by eapply Forall_impl, read_Field_enc|].
  next_field @got_omitted_slice; [by eapply Forall_impl, read_Partition_enc|].
  do 3 omitted_opt. done.
Qed.

(** ** Opening the stored spaces *)

Section opening.
Context {M : Type} `{IndexMapSpec M} `{PsNet} `{WireCodec Document} `{JsonCodec (list Space)}.
Implicit Types (r : Router M Net) (m : SpaceManager M).

Definition pb_key (sp : Space) : string := GenSpaceKey (db_name sp) (space_name sp).

(** The index takes the keys one after the other. *)
Fixpoint takes_all (i : Z) (keys : list string) (idx : M) : bool :=
  match keys with
  | [] => true
  | key :: rest => im_room idx key && takes_all (i + 1) rest (im_put key (int16 i) idx).2
  end.

(** A connection at the end of the vector, whether its key is new or not. *)
Lemma push_conn_spec c m :
  mgr_wf m → Z.of_nat (length (_spaces_conn m)) < sm_capacity m →
  let m' := push_conn c (Z.of_nat (length (_spaces_conn m))) m in
  mgr_wf m' ∧ sm_capacity m' = sm_capacity m ∧
  mgr_view m' = if im_room (_space_idx_mp m) (sc_space_key c)
                then <[sc_space_key c := c]> (mgr_view m) else mgr_view m.
Proof.
  intros Hw Hlt m'. assert (sm_capacity m' = sm_capacity m) as Hcap.
  { unfold m', push_conn, push_capacity. simpl. by rewrite (proj2 (Z.ltb_lt _ _)). }
  destruct (mgr_view m !! sc_space_key c) as [c0|] eqn:Ev.
  - assert (im_room (_space_idx_mp m) (sc_space_key c) = false) as Er.
    { apply not_true_is_false. intros Hr. apply im_room_absent in Hr; [|apply Hw].
      apply mgr_view_None in Hr; [|done]. congruence. }
    pose proof Hw as (Hi & Hl & Hc). rewrite Er.
    assert (_space_idx_mp m' = _space_idx_mp m) as Hidx.
    { unfold m', push_conn. simpl. by rewrite im_put_full. }
    assert (∀ key i, im_view (_space_idx_mp m) !! key = Some i →
      _spaces_conn m' !! Z.to_nat i = _spaces_conn m !! Z.to_nat i) as Hsame.
    { intros key i (c' & Hl' & _)%Hc. unfold m'. simpl. apply lookup_app_l. by eapply lookup_lt_Some. }
    assert (Z.of_nat (length (_spaces_conn m')) ≤ sm_capacity m') as Hlen'.
    { rewrite Hcap. unfold m'. simpl. rewrite length_app. simpl. lia. }
    clearbody m'. split_and!; [|done|].
    + split_and!; rewrite ?Hidx; [done|done|lia|].
      intros key i E. rewrite (Hsame _ _ E). eauto.
    + apply map_eq. intros key. unfold mgr_view. rewrite Hidx, !lookup_omap.
      destruct (im_view _ !! key) as [i|] eqn:E; [|done]. simpl. by rewrite (Hsame _ _ E).
  - destruct m as [conns cap idx]. simpl in *.
    destruct (mgr_store_push conns cap idx (sc_space_key c) c Hw Ev eq_refl Hlt) as [? ?]. done.
Qed.

Lemma init_loop_spec spaces r :
  router_ok r → Forall space_complete spaces →
  Z.of_nat (length (_spaces_conn (rt_mgr r)) + length spaces) ≤ sm_capacity (rt_mgr r) →
  let i := Z.of_nat (length (_spaces_conn (rt_mgr r))) in
  ∃ r', init_loop i spaces r = Some r' ∧ router_ok r' ∧
    mgr_view (rt_mgr r) ⊆ mgr_view (rt_mgr r') ∧
    (∀ key c, mgr_view (rt_mgr r') !! key = Some c → mgr_view (rt_mgr r) !! key = Some c ∨
       sc_pb_space c ∈ spaces ∧ key = pb_key (sc_pb_space c)) ∧
    (takes_all i (pb_key <$> spaces) (_space_idx_mp (rt_mgr r)) = true →
     ∀ sp, sp ∈ spaces → ∃ c, mgr_view (rt_mgr r') !! pb_key sp = Some c ∧ sc_pb_space c = sp).
Proof.
  intros Hr Hs. revert r Hr. induction Hs as [|sp spaces Hsp _ IH]; intros r [Hw Hl] Hlen i.
  { exists r. split_and!; [done..|eauto|]. intros _ sp Hsp. by apply not_elem_of_nil in Hsp. }
  destruct (SpaceConn_Init_live sp (rt_net r) Hsp) as (msg & c & net & E & Hc).
  destruct (SpaceConn_Init_key _ _ _ _ _ E) as [Hk Hpb]. fold (pb_key sp) in Hk.
  destruct (push_conn_spec c (rt_mgr r) Hw) as (Hw' & Hcap & Hv); [simpl in Hlen; lia|].
  fold i in Hw', Hcap, Hv. set (m' := push_conn c i (rt_mgr r)) in *. rewrite Hk in Hv.
  set (r1 := set_net net (set_mgr m' r)).
  assert (mgr_view (rt_mgr r) ⊆ mgr_view m') as Hsub.
  { rewrite Hv. destruct (im_room _ _) eqn:Er; [|done]. apply insert_subseteq.
    apply mgr_view_None; [done|]. by apply im_room_absent; [apply Hw|]. }
  assert (i + 1 = Z.of_nat (length (_spaces_conn (rt_mgr r1)))) as Hi.
  { unfold r1, m', push_conn. simpl. rewrite length_app. simpl. lia. }
  destruct (IH r1) as (r' & E' & Hr' & Hsub' & Hfrom & Hto).
  { split; [done|]. cbn [r1 rt_mgr set_net set_mgr]. rewrite Hv.
    destruct (im_room _ _); [by apply map_Forall_insert_2|done]. }
  { cbn [r1 rt_mgr set_net set_mgr] in *. rewrite Hcap. simpl in Hlen. lia. }
  rewrite <- Hi in E', Hto. cbn [init_loop]. rewrite E. cbn [mbind option_bind].
  exists r'. split_and!; [exact E'|done|by etrans| |].
  - intros key c' [Hc'|[Hin Hkey]]%Hfrom; [|right; split; [by constructor|done]].
    cbn [r1 rt_mgr set_net set_mgr] in Hc'. rewrite Hv in Hc'.
    destruct (im_room _ _); [|by left].
    apply lookup_insert_Some in Hc' as [[<- <-]|[_ ?]]; [right|by left].
    rewrite Hpb. split; [by left|done].
  - cbn [fmap list_fmap takes_all]. intros [Hroom Hrest]%andb_prop sp' [->|Hin]%elem_of_cons.
    + exists c. split; [|done]. eapply lookup_weaken; [|exact Hsub'].
      cbn [r1 rt_mgr set_net set_mgr]. rewrite Hv, Hroom. apply lookup_insert_eq.
    + apply Hto; [|done]. cbn [r1 rt_mgr set_net set_mgr]. unfold m', push_conn. simpl.
      by rewrite Hk.
Qed.
End opening.

(** ** The composition *)

Lemma shape_complete s : shape_ok s → space_complete (space_pb s).
Proof.
  intros (Hp & Hr & Hlen & HR). unfold space_complete, space_pb. cbn [partition_num partitions].
  rewrite length_fmap, Hlen. split_and!; [lia..|]. apply Forall_fmap.
  eapply Forall_impl; [exact HR|]. cbn beta. intros p Hn. cbn [compose partition_pb replicas].
  rewrite length_fmap. split; [|lia]. intros E. apply (f_equal length) in E.
  rewrite length_fmap in E. simpl in E. lia.
Qed.

Lemma space_json_decoded `{SpaceJsonLaws} s :
  space_ok s → space_fits s → SpaceJsonToPb (SerializeToJson s) = ("", space_pb s).
Proof.
  intros Hs Hf. unfold SpaceJsonToPb, SerializeToJson.
  by rewrite (JsonStringToMessage_read _ (space_pb s));
    [|apply wf_InnerSpace|apply depth_InnerSpace|apply read_Space_enc].
Qed.

Lemma parse_spaces_stored `{SpaceJsonLaws} (kvs : list KeyValue) :
  Forall (λ x, kv_value x = SerializeToJson (space_of (kv_value x)) ∧
    space_ok (space_of (kv_value x)) ∧ space_fits (space_of (kv_value x))) kvs →
  parse_spaces kvs = inr ((λ x, space_pb (space_of (kv_value x))) <$> kvs).
Proof.
  induction 1 as [|x kvs (Hx & Hok & Hfit) _ IH]; [done|]. cbn [parse_spaces fmap list_fmap].
  rewrite Hx at 1. rewrite space_json_decoded by done. cbn. by rewrite IH.
Qed.

(** What etcd answers to a request for a range: the entries in the range. *)
Definition range_answer (contents : gmap string string) (req : RangeRequest)
    (resp : RangeResponse) : Prop :=
  ∀ k v, (∃ x, x ∈ rr_kvs resp ∧ kv_key x = k ∧ kv_value x = v) ↔
    in_range (rq_key req) (rq_range_end req) k ∧ contents !! k = Some v.

(** The range that a router asks for is that of the master's spaces. *)
Lemma spaces_request_range k :
  in_range (rq_key spaces_request) (rq_range_end spaces_request) k ↔ is_space_key k.
Proof.
  change (rq_key spaces_request) with ("/spaces/mat" +:+ "a").
  change (rq_range_end spaces_request) with (GetRangeEnd ("/spaces/mat" +:+ "a")).
  rewrite GetRangeEnd_prefix. unfold is_space_key, SpacesMataPrefix.
  split; [by intros [? _]|]. intros ?. split; [done|]. vm_compute. done.
Qed.

(** A space that the master has stored, at some time. *)
Definition stored_space `{EtcdLaws W} (w : W) (s : InnerSpace) : Prop :=
  ∃ k v, is_space_key k ∧ kv w !! k = Some v ∧ s = space_of v.
Definition told_by_master `{EtcdLaws W} (call : SpaceCall + DocCall) : Prop :=
  match call with
  | inl (CallAddSpace sp) => ∃ w s, ddl_reach w ∧ stored_space w s ∧ sp = Some (space_pb s)
  | _ => True
  end.

Lemma stored_shape `{EtcdLaws W} (w : W) (k v : string) :
  scans_succeed → ddl_reach w → is_space_key k → kv w !! k = Some v →
  v = SerializeToJson (space_of v) ∧ space_ok (space_of v) ∧ shape_ok (space_of v).
Proof.
  intros Hs Hr Hk Hv. destruct (ddl_reach_inv w Hs Hr) as [I1 _].
  destruct (I1 k v Hk Hv) as (_ & _ & _ & _ & ? & ? & ?). done.
Qed.

Lemma told_call_ok `{EtcdLaws W} (call : SpaceCall + DocCall) :
  scans_succeed → told_by_master (W:=W) call → call_ok call.
Proof.
  intros Hs. destruct call as [[sp|db name|]|?]; simpl; try done.
  intros (w & s & Hr & (k & v & Hk & Hv & ->) & ->). simpl. apply shape_complete.
  by destruct (stored_shape w k v Hs Hr Hk Hv) as (_ & _ & ?).
Qed.

(** A router before its start has no spaces. *)
Lemma no_conns_view {M} `{IndexMapSpec M} (m : SpaceManager M) :
  mgr_wf m → _spaces_conn m = [] → mgr_view m = ∅.
Proof.
  intros (_ & _ & Hc) E. apply map_empty. intros key.
  destruct (mgr_view m !! key) as [c|] eqn:Ev; [|done].
  apply mgr_view_lookup in Ev as (i & _ & Hi). by rewrite E in Hi.
Qed.

(** The start of a router from an answer of etcd with complete spaces. *)
Lemma SpaceManager_Init_opens {M} `{IndexMapSpec M} `{PsNet} `{WireCodec Document}
    `{JsonCodec (list Space)} `{EtcdNet} `{JsonCodec RangeRequest} `{JsonInto RangeResponse}
    `{SpaceJson} (raw max_space_num : Z) (cli : EtcdClient) (enet enet' : ENet)
    (resp : RangeResponse) (r : Router M Net) (spaces : list Space) :
  Range raw spaces_request empty_RangeResponse cli enet = Some (true, resp, enet') →
  rr_kvs resp ≠ [] → parse_spaces (rr_kvs resp) = inr spaces → Forall space_complete spaces →
  router_ok r → _spaces_conn (rt_mgr r) = [] →
  Z.of_nat (length spaces) ≤ max_space_num < 2 ^ 15 →
  ∃ r', SpaceManager_Init raw max_space_num cli enet r = Some ("", r', enet') ∧ router_ok r' ∧
    (∀ key c, mgr_view (rt_mgr r') !! key = Some c →
       sc_pb_space c ∈ spaces ∧ key = pb_key (sc_pb_space c)) ∧
    (takes_all 0 (pb_key <$> spaces) (_space_idx_mp (rt_mgr r)) = true →
     ∀ sp, sp ∈ spaces → ∃ c, mgr_view (rt_mgr r') !! pb_key sp = Some c ∧ sc_pb_space c = sp).
Proof.
  intros HR Hne Hparse Hcomp [Hw Hl] Hconns Hmax. unfold SpaceManager_Init.
  rewrite (proj2 (Z.ltb_ge _ _)) by lia. rewrite HR. cbn [mbind option_bind negb].
  destruct (rr_kvs resp) as [|x xs] eqn:Ex; [done|]. rewrite Hparse.
  set (r0 := save_local _ _). destruct Hw as (Hi & Hlen & Hc).
  assert (mgr_wf (rt_mgr r0)) as Hw0.
  { unfold r0, reserve_capacity. split_and!; cbn; [done|lia|lia|done]. }
  assert (mgr_view (rt_mgr r0) = ∅) as Hv0 by by apply no_conns_view.
  destruct (init_loop_spec spaces r0) as (r' & E & Hr' & _ & Hfrom & Hto); [|done|..].
  { split; [done|]. rewrite Hv0. apply map_Forall_empty. }
  { unfold r0, reserve_capacity. cbn. rewrite Hconns. cbn. lia. }
  assert (Z.of_nat (length (_spaces_conn (rt_mgr r0))) = 0) as Hz by (cbn; by rewrite Hconns).
  rewrite Hz in E, Hto. rewrite E. cbn [mbind option_bind].
  exists r'. split_and!; [done..| |exact Hto].
  intros key c [Hc'|?]%Hfrom; [|done]. by rewrite Hv0 in Hc'.
Qed.

(** ** Properties *)

(** C32. A stored space is read as what it is: the text that the master stores for a
    space is parsed by a router into the message with the same names, numbers,
    fields, partitions and replicas, if the numbers fit the fields of the
    message.  Only the times of the partitions are lost. *)
Theorem stored_space_is_decoded `{SpaceJsonLaws} (s : InnerSpace) :
  space_ok s → space_fits s → SpaceJsonToPb (SerializeToJson s) = ("", space_pb s).
Proof. apply space_json_decoded. Qed.

(** A parser of the messages, and an etcd that holds the master's entries. *)
#[local] Instance text_json : SpaceJson := λ text,
  match parse text ≫= read_Space with Some sp => inr sp | None => inl "INVALID_ARGUMENT" end.
#[local] Instance text_json_laws : SpaceJsonLaws.
Proof.
  constructor. intros j sp Hj Hd Hr. unfold JsonStringToMessage, text_json.
  rewrite parse_print; [|done|unfold maxNestingDepth; lia]. simpl. by rewrite Hr.
Qed.

#[local] Instance space_fits_dec s : Decision (space_fits s).
Proof. unfold space_fits, partition_fits, replica_fits, in_uint32, in_int32. apply _. Defined.

Definition sample_stored : InnerSpace :=
  mkInnerSpace "shop_db" "goods-1" 7 1 1
    (Some [mkInnerField "vec" "vector" 64 (Some (mkInnerIndex "ix" "FLAT" (Some "{}")))])
    (Some [mkPartition 0 "g" (Some [mkReplica 3 "10.0.0.1" 8081 0 "" ""]) "t" "t"]) "" "t" "t".

Lemma stored_space_is_decoded_witness :
  SpaceJsonToPb (SerializeToJson sample_stored) =
    ("", mkSpace "shop_db" "goods-1" 7 1 1
      [mkField "vec" "vector" (Some 64) (Some (mkIndex "ix" "FLAT" (Some "{}")))]
      [Common.mkPartition 0 "g"
         [Common.mkReplica 3 "10.0.0.1" 8081 (Some 0) (Some "") (Some "")] None None]
      None (Some "t") (Some "t")).
Proof.
  apply (stored_space_is_decoded sample_stored).
  - repeat first [split | apply Forall_cons; split | apply Forall_nil_2];
      first [reflexivity | discriminate | simpl; unfold in_int64; lia].
  - refine (proj1 (bool_decide_eq_true (space_fits sample_stored)) _). vm_compute. reflexivity.
Defined.

(** C6. A router that starts opens what the master has stored: after any history of
    creations and deletions that run one at a time under the lock, if etcd
    answers the router's request with the entries of its range and there is at
    least one, the start succeeds and leaves the router in its invariant; every
    space that can be reached then is a stored one, all stored ones can be
    reached if the index takes their keys, and whatever calls follow, with the
    spaces that the master announces, are served.  This is so if the scans of the
    stored spaces succeed, the numbers of the spaces fit the fields of their
    messages, and there are at most [max_space_num] of them, less than 2 to the
    15.  With nothing stored the router takes its local file instead. *)
Theorem router_opens_stored_spaces `{EtcdLaws W} {M} `{IndexMapSpec M} `{PsNet}
    `{WireCodec Document} `{JsonCodec (list Space)} `{StdHash} `{EtcdNet}
    `{JsonCodec RangeRequest} `{JsonInto RangeResponse} `{SpaceJsonLaws}
    (moved : Document → Document) (w : W) (raw max_space_num : Z) (cli : EtcdClient)
    (enet enet' : ENet) (resp : RangeResponse) (r : Router M Net) :
  scans_succeed → ddl_reach w →
  (∀ s, stored_space w s → space_fits s) →
  Range raw spaces_request empty_RangeResponse cli enet = Some (true, resp, enet') →
  range_answer (kv w) spaces_request resp → rr_kvs resp ≠ [] →
  router_ok r → _spaces_conn (rt_mgr r) = [] →
  Z.of_nat (length (rr_kvs resp)) ≤ max_space_num < 2 ^ 15 →
  ∃ r', SpaceManager_Init raw max_space_num cli enet r = Some ("", r', enet') ∧ router_ok r' ∧
    (∀ key c, mgr_view (rt_mgr r') !! key = Some c → ∃ s, stored_space w s ∧
       sc_pb_space c = space_pb s ∧ key = GenSpaceKey (DbName s) (SpaceName s)) ∧
    (takes_all 0 ((λ x, pb_key (space_pb (space_of (kv_value x)))) <$> rr_kvs resp)
       (_space_idx_mp (rt_mgr r)) = true →
     ∀ s, stored_space w s → ∃ c,
       mgr_view (rt_mgr r') !! GenSpaceKey (DbName s) (SpaceName s) = Some c ∧
       sc_pb_space c = space_pb s) ∧
    (∀ calls, Forall (told_by_master (W:=W)) calls →
     ∃ replies r'', serve_all moved calls r' = Some (replies, r'') ∧ router_ok r'').
Proof.
  intros Hs Hr Hfit HR Hans Hne [Hw Hl] Hconns Hmax.
  assert (∀ x, x ∈ rr_kvs resp → is_space_key (kv_key x) ∧ kv w !! kv_key x = Some (kv_value x))
    as Hkv by (intros x Hx; rewrite <- spaces_request_range; apply Hans; eauto).
  set (spaces := (λ x, space_pb (space_of (kv_value x))) <$> rr_kvs resp).
  assert (parse_spaces (rr_kvs resp) = inr spaces) as Hparse.
  { apply parse_spaces_stored, Forall_forall. intros x [Hk Hv]%Hkv.
    destruct (stored_shape w _ _ Hs Hr Hk Hv) as (? & ? & _). split_and!; [done..|].
    apply Hfit. by exists (kv_key x), (kv_value x). }
  assert (Forall space_complete spaces) as Hcomp.
  { apply Forall_fmap, Forall_forall. intros x [Hk Hv]%Hkv. apply shape_complete.
    by destruct (stored_shape w _ _ Hs Hr Hk Hv) as (_ & _ & ?). }
  destruct (SpaceManager_Init_opens raw max_space_num cli enet enet' resp r spaces)
    as (r' & E & Hr' & Hfrom & Hto); [done..|by split|done|unfold spaces; by rewrite length_fmap|].
  exists r'. split_and!; [done|done| | |].
  - intros key c [Hin Hkey]%Hfrom. apply list_elem_of_fmap in Hin as (x & Hc & [Hk Hv]%Hkv).
    exists (space_of (kv_value x)). rewrite Hkey, Hc. split_and!; [|done..].
    by exists (kv_key x), (kv_value x).
  - intros Ht s (k & v & Hk & Hv & ->).
    apply (Hto ltac:(unfold spaces; by rewrite <- list_fmap_compose) (space_pb (space_of v))).
    destruct (proj2 (Hans k v)) as (x & Hx & _ & <-); [by rewrite spaces_request_range|].
    by apply list_elem_of_fmap; exists x.
  - intros calls Hcalls. destruct (serve_all_ok moved calls r' Hr') as (xs & r2 & -> & ? & _); [|eauto].
    eapply Forall_impl; [exact Hcalls|]. intros call. by apply told_call_ok.
Qed.

#[local] Instance kv_net : EtcdNet := {|
  ENet := gmap string string; etcd_channel_Init _ _ st := (0, st);
  etcd_call _ _ body st :=
    match dec (A := string * string) body with
    | Some (lo, hi) => (Some (enc (filter (λ x, in_range lo hi x.1) (map_to_list st))), st)
    | None => (None, st)
    end
|}.
#[local] Instance kv_range_req : JsonCodec RangeRequest := {|
  ProtoMessageToJson q := Some (enc (rq_key q, rq_range_end q));
  JsonToProtoMessage _ := None
|}.
#[local] Instance kv_range_resp : JsonInto RangeResponse := λ body resp,
  match dec (A := list (string * string)) body with
  | Some l => (true, mkRangeResponse None ((λ x, mkKeyValue x.1 0 0 0 x.2 0) <$> l) false 0)
  | None => (false, resp)
  end.
#[local] Instance no_local_json : JsonCodec (list Space) :=
  {| ProtoMessageToJson _ := None; JsonToProtoMessage _ := None |}.
#[local] Existing Instance length_hash.

Definition kv_answer (st : gmap string string) : RangeResponse :=
  mkRangeResponse None ((λ x, mkKeyValue x.1 0 0 0 x.2 0) <$>
    filter (λ x, in_range (rq_key spaces_request) (rq_range_end spaces_request) x.1)
      (map_to_list st)) false 0.

Lemma kv_range st :
  Range 0 spaces_request empty_RangeResponse (mkEtcdClient [Some "http://e:1"] 1 false) st =
    Some (true, kv_answer st, st).
Proof.
  unfold Range, EtcdOp. cbn [_chan_list length op_loop].
  replace (GetChannel 0 (-1) [Some "http://e:1"]) with (Some (0, Some "http://e:1")) by reflexivity.
  cbn [mbind option_bind ProtoMessageToJson kv_range_req etcd_call kv_net].
  rewrite dec_enc. unfold json_into, kv_range_resp. by rewrite dec_enc.
Qed.

Lemma kv_answers st : range_answer st spaces_request (kv_answer st).
Proof.
  intros k v. unfold kv_answer. cbn [rr_kvs]. split.
  - intros (x & ([k' v'] & -> & Hin)%list_elem_of_fmap & <- & <-).
    by apply list_elem_of_filter in Hin as [? ?%elem_of_map_to_list].
  - intros [Hr Hv]. exists (mkKeyValue k 0 0 0 v 0). split_and!; [|done..].
    apply list_elem_of_fmap. exists (k, v). split; [done|].
    apply list_elem_of_filter. split; [done|]. by apply elem_of_map_to_list.
Qed.

Definition fresh_router : Router OneWriterMultiReaderMap (@Net (fixed_net None empty_response)) :=
  mkRouter (mkSpaceManager [] 0 (owmr_new 64)) LocalSpaces_new (mkFs ∅ ∅ ∅ ∅ []) ().

Lemma fresh_router_ok : router_ok fresh_router.
Proof.
  split; [apply empty_mgr_wf; lia|]. cbn [fresh_router rt_mgr].
  rewrite empty_mgr_view. apply map_Forall_empty.
Qed.

Lemma two_spaces_fit s :
  @stored_space _ _ (small_laws false false) (two_spaces false) s → space_fits s.
Proof.
  intros (k & v & _ & Hv & ->).
  assert (map_Forall (λ _ v, space_fits (space_of v)) (two_spaces false)) as HF.
  { refine (proj1 (bool_decide_eq_true _) _). vm_compute. reflexivity. }
  exact (HF k v Hv).
Qed.

(** The two spaces of the master are open after the start of a router. *)
Lemma router_opens_stored_spaces_witness :
  ∃ r' : Router OneWriterMultiReaderMap (@Net (fixed_net None empty_response)),
    @SpaceManager_Init _ _ _ sample_net no_local_json _ _ _ _ 0 1000
      (mkEtcdClient [Some "http://e:1"] 1 false) (two_spaces false) fresh_router =
      Some ("", r', two_spaces false) ∧
    ∀ s, @stored_space _ _ (small_laws false false) (two_spaces false) s → ∃ c,
      mgr_view (rt_mgr r') !! GenSpaceKey (DbName s) (SpaceName s) = Some c ∧
      sc_pb_space c = space_pb s.
Proof.
  destruct (@router_opens_stored_spaces _ _ (small_laws false false) _ _ _ _ sample_net
    (count_codec Document) no_local_json length_hash kv_net kv_range_req kv_range_resp
    text_json text_json_laws id (two_spaces false) 0 1000
    (mkEtcdClient [Some "http://e:1"] 1 false) (two_spaces false) (two_spaces false)
    (kv_answer (two_spaces false)) fresh_router) as (r' & E & _ & _ & Hall & _).
  - intros m _. by eexists.
  - exact two_spaces_reached.
  - exact two_spaces_fit.
  - apply kv_range.
  - apply kv_answers.
  - vm_compute. discriminate.
  - exact fresh_router_ok.
  - reflexivity.
  - vm_compute. split; congruence.
  - exists r'. split; [exact E|]. apply Hall. vm_compute. reflexivity.
Defined.
