(* ===== verification/GroupContract.v ===== *)
(** * GroupContract: from the master's calls to the raft groups

    For every replica of a new space the master sends a request to a partition
    server ([create_tasks] of src/master/clusterapi/space_api.go), which the
    server reads as the message CreateSpaceRequest of
    src/idl/rpc_service_idl/ps_rpc.proto and answers by starting its node of a
    raft group (src/service/ps/ps_rpc.cc).  Here is what the servers of one
    partition agree on. *)
From S2P Require Import Prelude StdMap Numeric Bytes OwmrMap Common Dto Files Engine Wire RaftStore Config Http PsMeta PsRpc GoStd GoJson MasterCommon MasterEntity MasterStore MasterApi SpaceContract.
Local Open Scope Z_scope.

(** ** The request *)

Definition read_CreateSpaceRequest (j : json) : option CreateSpaceRequest :=
  m ← members j;
  space ← field_or empty_space read_Space (member "space" m);
  cur_partition ← field_or empty_partition read_Partition (member "cur_partition" m);
  Some (mkCreateSpaceRequest space cur_partition).

(** json2pb reads the text of a JSON value by the fields of the message. *)
Class CreateRequestJsonLaws `{JsonCodec CreateSpaceRequest} := {
  create_request_read j req : wf_json j → (depth j ≤ 6)%N →
    read_CreateSpaceRequest j = Some req → JsonToProtoMessage (print j) = Some req
}.

(** ** Lemmas *)

Notation enc_create_request s p :=
  (JObj [("space", enc_InnerSpace s); ("cur_partition", enc_Partition p)]).

Lemma read_request_enc s p :
  space_fits s → partition_fits p →
  read_CreateSpaceRequest (enc_create_request s p) =
    Some (mkCreateSpaceRequest (space_pb s) (partition_pb p)).
Proof.
  intros Hs Hp. unfold read_CreateSpaceRequest. names.
  next_field @got_field; [done|by apply read_Space_enc|].
  next_field @got_field; [done|by apply read_Partition_enc|]. done.
Qed.

Lemma request_text_read `{CreateRequestJsonLaws} s p :
  space_ok s → partition_ok p → space_fits s → partition_fits p →
  JsonToProtoMessage (PsCreateSpaceRequest_SerializeToJson (mkPsCreateSpaceRequest s p)) =
    Some (mkCreateSpaceRequest (space_pb s) (partition_pb p)).
Proof.
  intros Hs Hp Fs Fp. apply create_request_read; [| |by apply read_request_enc].
  - apply wf_cons; [done|by apply wf_InnerSpace|].
    apply wf_cons; [done|by apply wf_Partition|apply wf_nil].
  - pose proof (depth_InnerSpace s). pose proof (depth_Partition p).
    apply (depth_obj _ 5). repeat constructor; simpl in *; lia.
Qed.

(** The configuration of a group names each of its replicas. *)
Lemma raft_conf_names r rs :
  r ∈ rs → ∃ pre post, raft_conf_loop rs "" = pre +:+ replica_conf r +:+ post.
Proof.
  induction rs as [|r' rs IH]; [by intros ?%not_elem_of_nil|]. cbn [raft_conf_loop].
  rewrite raft_conf_loop_app, append_nil_l. intros [->|Hr]%elem_of_cons.
  - exists "", (raft_conf_loop rs ""). by rewrite append_nil_l.
  - destruct (IH Hr) as (pre & post & ->). exists (replica_conf r' +:+ pre), post.
    by rewrite append_assoc.
Qed.

(** ** Properties *)

(** C7. The servers of a partition form one raft group: each call of the master for
    a new space goes to a replica of one of its partitions and is read by the
    server as a request for the space with that partition, and a server that
    answers it with success runs a node with the group name of the partition
    and with a configuration that is the same for all its replicas and names
    the server that was called. *)
Theorem raft_group_agrees `{FileUtil} `{StartEnv} `{GammaAdmin} `{JsonCodec PsNodeInfo}
    `{CreateRequestJsonLaws} (s : InnerSpace) (t : taskArgs) :
  space_ok s → space_fits s → DbName s ≠ "" → t ∈ create_tasks s →
  ∃ p r req, p ∈ elems (Partitions s) ∧ r ∈ elems (Replicas p) ∧
    ta_ip t = PsIP r ∧ ta_port t = PsPort r ∧
    JsonToProtoMessage (reqJson t) = Some req ∧ cs_space req = space_pb s ∧
    (∃ pre post, GetRaftConf (partition_pb p) =
       pre +:+ (PsIP r +:+ ":" +:+ to_string (PsPort r) +:+ ":0,") +:+ post) ∧
    ∀ g n n' msg, CreateSpace g req n = (status_of 0 msg, n') →
      HasSpace (n_mata n) = false ∧ HasSpace (n_mata n') = true ∧
      ∃ b node, n_mgr n' = Some b ∧ _node b = Some node ∧ no_group node = GroupName p ∧
        no_conf node = GetRaftConf (partition_pb p) ∧ _space b = space_pb s.
Proof.
  intros Hs Hf Hdb. unfold create_tasks. intros (p & Ht & Hp)%list_elem_of_bind.
  apply list_elem_of_fmap in Ht as (r & -> & Hr).
  assert (partition_ok p ∧ partition_fits p) as [Pok Pfit].
  { destruct Hs as (_ & _ & _ & _ & _ & _ & HP & _). destruct Hf as (_ & _ & _ & _ & HF).
    rewrite Forall_forall in HP, HF. auto. }
  exists p, r, (mkCreateSpaceRequest (space_pb s) (partition_pb p)).
  split_and!; [done..|by apply request_text_read|done| |].
  - apply (raft_conf_names (replica_pb r)). by apply list_elem_of_fmap_2.
  - intros g n n' msg E.
    apply CreateSpace_started in E as (? & ? & b & node & ? & ? & ? & ? & _ & ?); [|exact Hdb].
    split_and!; [done..|]. by exists b, node.
Qed.

(** A codec by the fields of the message, and a server of its sample space. *)
#[local] Instance text_request : JsonCodec CreateSpaceRequest := {|
  ProtoMessageToJson _ := Some "{}";
  JsonToProtoMessage text := parse text ≫= read_CreateSpaceRequest
|}.
#[local] Instance text_request_laws : CreateRequestJsonLaws.
Proof.
  constructor. intros j req Hj Hd Hr. unfold JsonToProtoMessage, text_request.
  rewrite parse_print; [exact Hr|done|unfold maxNestingDepth; lia].
Qed.
#[local] Instance text_info : JsonCodec PsNodeInfo :=
  {| ProtoMessageToJson _ := Some "{}"; JsonToProtoMessage _ := None |}.
#[local] Instance open_env : StartEnv := Build_StartEnv (λ _, true) (λ _, true) (λ _ _, 0) 0 0.

Definition pair_partition : Partition :=
  mkPartition 0 "shop_db_goods_1_0"
    (Some [mkReplica 3 "10.0.0.1" 8081 0 "" ""; mkReplica 4 "10.0.0.2" 8081 0 "" ""]) "t" "t".
Definition pair_space : InnerSpace :=
  mkInnerSpace "shop_db" "goods_1" 7 1 2 (Some [mkInnerField "vec" "vector" 64 None])
    (Some [pair_partition]) "" "t" "t".
Definition second_task : taskArgs :=
  mkTaskArgs "ps_create" "10.0.0.2" 8081
    (PsCreateSpaceRequest_SerializeToJson (mkPsCreateSpaceRequest pair_space pair_partition)).
Definition pair_request : CreateSpaceRequest :=
  mkCreateSpaceRequest (space_pb pair_space) (partition_pb pair_partition).

Lemma pair_space_ok : space_ok pair_space.
Proof.
  repeat first [split | apply Forall_cons; split | apply Forall_nil_2];
    first [reflexivity | discriminate | simpl; unfold in_int64; lia].
Qed.

Lemma pair_space_fits : space_fits pair_space.
Proof.
  repeat first [split | apply Forall_cons; split | apply Forall_nil_2];
    unfold in_uint32, in_int32; simpl; lia.
Qed.

(** The second of the two servers; it starts a node of the group. *)
Lemma raft_group_agrees_witness :
  ∃ req, JsonToProtoMessage (reqJson second_task) = Some req ∧ cs_space req = space_pb pair_space ∧
    ∃ n', @CreateSpace posix_util open_env _ _ _ (map_admin 0) text_request Conf_new req
      sample_node = (status_of 0 "", n') ∧
    (_conf <$> n_mgr n') = Some "10.0.0.1:8081:0,10.0.0.2:8081:0,".
Proof.
  destruct (@raft_group_agrees posix_util open_env _ _ _ (map_admin 0) text_info text_request
    text_request_laws pair_space second_task) as (p & r & req & _ & _ & _ & _ & E & Hreq & _ & _).
  - exact pair_space_ok.
  - exact pair_space_fits.
  - discriminate.
  - right. left.
  - exists req. split; [exact E|]. split; [exact Hreq|].
    assert (JsonToProtoMessage (reqJson second_task) = Some pair_request) as E'.
    { apply request_text_read; [apply pair_space_ok| |apply pair_space_fits|].
      - apply (Forall_inv (a := pair_partition) (l := [])). by apply pair_space_ok.
      - apply (Forall_inv (a := pair_partition) (l := [])). by apply pair_space_fits. }
    rewrite E' in E. injection E as <-. eexists. split; reflexivity.
Defined.
