(* ===== verification/Deployment.v ===== *)
(** * Deployment: the stored spaces and the servers that run them

    The master (src/master/clusterapi) and the partition servers
    (src/service/ps) as one system: the calls of the master reach the handlers
    of the servers through HTTP, each server runs a history of its own in
    between, and the question is what the entries of etcd say about the servers.
    The world of the master is extended by a server for every address. *)
From S2P Require Import Prelude StdMap Numeric Bytes OwmrMap Common Dto Files Engine Wire RaftStore.
From S2P Require Import Config Http PsMeta PsRpc PsService.
From S2P Require Import GoStd GoJson MasterCommon MasterEntity MasterCheck Concurrent MasterStore.
From S2P Require Import MasterApi Placement MasterSafety MasterCluster SpaceContract GroupContract.
Local Open Scope Z_scope.

(** ** Calls between the processes *)

(** The methods of a partition server that the master calls. *)
Inductive PsMethod := MethodCreate | MethodDelete.

Definition method_path (m : PsMethod) : string :=
  match m with
  | MethodCreate => "/PsService/CreateSpace"
  | MethodDelete => "/PsService/DeleteSpace"
  end.

Definition ps_url (addr : string) (m : PsMethod) : string :=
  "http://" +:+ addr +:+ method_path m.

Definition task_addr (t : taskArgs) : string := ta_ip t +:+ ":" +:+ to_string (ta_port t).
Definition replica_addr (r : Replica) : string := PsIP r +:+ ":" +:+ to_string (PsPort r).

(** The message DeleteSpaceRequest of common_rpc.proto. *)
Record DeleteRequest := mkDeleteRequest { dr_db_name : string; dr_space_name : string }.

Definition read_DeleteSpaceRequest (j : json) : option DeleteRequest :=
  m ← members j;
  db_name ← field_or "" read_string (member "db_name" m);
  space_name ← field_or "" read_string (member "space_name" m);
  Some (mkDeleteRequest db_name space_name).

Class DeleteRequestJsonLaws `{JsonCodec DeleteRequest} := {
  delete_request_read j req : wf_json j → (depth j ≤ 6)%N →
    read_DeleteSpaceRequest j = Some req → JsonToProtoMessage (print j) = Some req
}.

(** The call a body is read as. *)
Definition read_call `{JsonCodec CreateSpaceRequest} `{JsonCodec DeleteRequest} (m : PsMethod)
    (body : string) : option PsRpcCall :=
  match m with
  | MethodCreate => CallCreateSpace <$> JsonToProtoMessage body
  | MethodDelete =>
      (λ req, CallDeleteSpace (dr_db_name req) (dr_space_name req)) <$> JsonToProtoMessage body
  end.

(** The responses of both methods: a message with a [RespStatus]. *)
Definition response_json (code : Z) (msg : string) : json :=
  JObj [("status", JObj [("code", enc_int code); ("msg", JStr msg)])].

(** A call that is not administrative. *)
Definition data_call (c : PsCall) : Prop :=
  match c with
  | inl (CallCreateSpace _) | inl (CallDeleteSpace _ _) => False
  | _ => True
  end.

Section servers.
Context `{FileUtil} `{StartEnv} `{GammaAdmin} `{JsonCodec PsNodeInfo}
  `{JsonCodec CreateSpaceRequest} `{JsonCodec DeleteRequest}
  `{WireCodec BlockRequest} `{WireCodec Document}.

(** A server runs on its own: calls of routers, and raft. *)
Definition quiet (g : Conf) (s s' : PsServer) : Prop :=
  ∃ h, ps_run g s h s' ∧ Forall (data_call ∘ fst) h.

(** The servers as part of the master's world. *)
Class PsCluster (W : Type) := {
  server : W → string → PsServer;
  server_conf : string → Conf
}.

(** A call that is answered with a response reached the handler; an answer
    that is not a response is not JSON (an error page of brpc).  Every server
    that is not called runs on its own, and only the master makes
    administrative calls. *)
Class PsClusterLaws (W : Type) `{MasterEnv W} `{PsCluster W} := {
  net_call addr m body w text w' :
    http_Do (ps_url addr m) body w = (inr (inr text), w') →
    parse text = None ∨
    ∃ c code msg s1 s2, read_call m body = Some c ∧ in_int32 code ∧
      parse text = Some (response_json code msg) ∧
      quiet (server_conf addr) (server w addr) s1 ∧
      PsRpc_serve (server_conf addr) c s1 = Some (AnsStatus (status_of code msg), s2) ∧
      quiet (server_conf addr) s2 (server w' addr);
  net_other url body w addr : (∀ m, url ≠ ps_url addr m) →
    quiet (server_conf addr) (server w addr) (server (http_Do url body w).2 addr);
  net_Put k v w addr :
    quiet (server_conf addr) (server w addr) (server (cli_Put k v w).2 addr);
  net_Get k w addr :
    quiet (server_conf addr) (server w addr) (server (cli_Get k w).2 addr);
  net_GetPrefix p w addr :
    quiet (server_conf addr) (server w addr) (server (cli_GetPrefix p w).2 addr);
  net_Delete k w addr :
    quiet (server_conf addr) (server w addr) (server (cli_Delete k w).2 addr);
  net_STM k f w addr :
    quiet (server_conf addr) (server w addr) (server (cli_STM k f w).2 addr);
  net_time w addr :
    quiet (server_conf addr) (server w addr) (server (time_Now w).2 addr)
}.

(** A call that is not administrative keeps what the server knows of its space,
    and its block. *)
Lemma data_call_keeps g lid c s a s' :
  data_call c → ps_serve g lid c s = Some (a, s') →
  n_mata (s_node s') = n_mata (s_node s) ∧ n_mgr (s_node s') = n_mgr (s_node s).
Proof.
  destruct c as [[keys| |req|db space|req|]|[request att|request]]; simpl; intros Hc E; try done.
  - destruct (MockGet _ _ _) as [[docs fs]|]; by simplify_eq/=.
  - by simplify_eq/=.
  - by simplify_eq/=.
  - by simplify_eq/=.
  - by simplify_eq/=.
  - destruct (RaftRpcImpl_read _ _ _ _ _ _) as [[r buf]|]; by simplify_eq/=.
Qed.

(** So does a server that runs on its own, but for the leadership of its node. *)
Lemma quiet_keeps g s s' :
  quiet g s s' → n_mata (s_node s') = n_mata (s_node s) ∧
    block_view <$> n_mgr (s_node s') = block_view <$> n_mgr (s_node s).
Proof.
  intros (h & R & Hh). induction R as [s|lid c a s s1 h s2 E R IH|s s1 h s2 E R IH]; [done|..].
  - apply Forall_cons in Hh as [Hc Hh]. destruct (IH Hh) as [-> ->].
    destruct (data_call_keeps _ _ _ _ _ _ Hc E) as [-> ->]. done.
  - destruct (IH Hh) as [-> ->]. destruct E as [b node es rs fin st s Hb Hn Ha
      |b node term s Hb Hn Ht|b node s Hb Hn]; simpl; by rewrite ?Hb.
Qed.

Lemma ps_run_app g s h s1 h' s2 :
  ps_run g s h s1 → ps_run g s1 h' s2 → ps_run g s (h ++ h') s2.
Proof. intros R1 R2. induction R1; [done|eapply run_call; eauto|eapply run_raft; eauto]. Qed.

#[global] Instance quiet_preorder g : PreOrder (quiet g).
Proof.
  split.
  - intros s. exists []. by split; [constructor|].
  - intros s s1 s2 (h1 & R1 & H1') (h2 & R2 & H2'). exists (h1 ++ h2).
    split; [by eapply ps_run_app|by apply Forall_app].
Qed.

End servers.

(** ** The answer of a server, as the master reads it *)

Lemma decodes_int32 old z : in_int32 z → decodes (dec_int 32) old (enc_int z) z.
Proof.
  intros Hz. unfold in_int32 in Hz. unfold decodes, enc_int, dec_int.
  rewrite ParseInt_to_string by (unfold in_int64; lia). change (2 ^ (32 - 1)) with 2147483648.
  rewrite (proj2 (Z.leb_le _ _)), (proj2 (Z.ltb_lt _ _)) by lia. done.
Qed.

Lemma response_read code msg :
  in_int32 code → decodes dec_CommonResponse zero_Response (response_json code msg)
    (mkCommonResponse (mkStatus code msg)).
Proof.
  intros Hc. unfold decodes. cbn [dec_CommonResponse dec_struct response_json].
  eapply dec_members_cons; [reflexivity|eapply decodes_at|done].
  unfold decodes. cbn [dec_struct].
  member_by ltac:(by apply decodes_int32). member_by ltac:(by apply decodes_string). done.
Qed.

(** ** URLs *)

Lemma append_suffix s t u v :
  String.length u = String.length v → s +:+ u = t +:+ v → s = t ∧ u = v.
Proof.
  revert t. induction s as [|c s IH]; intros [|d t] Hl E; rewrite ?append_nil_l, ?append_cons in E.
  - done.
  - apply (f_equal String.length) in E. cbn in E. rewrite length_append in E. lia.
  - apply (f_equal String.length) in E. cbn in E. rewrite length_append in E. lia.
  - injection E as -> E. apply IH in E as [-> ->]; done.
Qed.

Lemma ps_url_inj a a' m m' : ps_url a m = ps_url a' m' → a = a' ∧ m = m'.
Proof.
  intros E%append_inj_l. apply append_suffix in E as [-> E]; [|by destruct m, m'].
  by destruct m, m'.
Qed.

(** The URLs of the routers' methods are not those of a server. *)
Lemma router_url (base addr path : string) m :
  path = "/space/add_space" ∨ path = "/space/delete_space" → base +:+ path ≠ ps_url addr m.
Proof.
  intros Hp E. unfold ps_url in E. rewrite <-append_assoc in E.
  assert (∃ p q, String.length q = String.length path ∧ method_path m = p +:+ q ∧ path ≠ q)
    as (p & q & Hl & Em & Hne).
  { destruct Hp as [->| ->]; destruct m.
    - by exists "/PsSer", "vice/CreateSpace".
    - by exists "/PsSer", "vice/DeleteSpace".
    - by exists "/Ps", "Service/CreateSpace".
    - by exists "/Ps", "Service/DeleteSpace". }
  rewrite Em, <-append_assoc in E. by apply append_suffix in E as [_ ?].
Qed.

Lemma create_task_url sp t :
  t ∈ create_tasks sp → task_url t = ps_url (task_addr t) MethodCreate.
Proof.
  unfold create_tasks. intros (p & Ht & _)%list_elem_of_bind.
  apply list_elem_of_fmap in Ht as (r & -> & _). unfold task_url, ps_url, task_addr.
  cbn -[to_string]. by rewrite !append_assoc.
Qed.
Lemma delete_task_url sp t :
  t ∈ delete_tasks sp → task_url t = ps_url (task_addr t) MethodDelete.
Proof.
  unfold delete_tasks. intros (r & -> & _)%list_elem_of_fmap. unfold task_url, ps_url, task_addr.
  cbn -[to_string]. by rewrite !append_assoc.
Qed.

(** The addresses of the tasks are those of the replicas. *)
Definition space_addrs (sp : InnerSpace) : list string := replica_addr <$> replicas_of sp.

Lemma create_tasks_addrs sp : task_addr <$> create_tasks sp = space_addrs sp.
Proof.
  unfold space_addrs, replicas_of, create_tasks. induction (elems (Partitions sp)) as [|p l IH];
    [done|]. cbn [mbind list_bind]. rewrite !fmap_app, IH. f_equal.
  rewrite <-list_fmap_compose. done.
Qed.
Lemma delete_tasks_addrs sp : task_addr <$> delete_tasks sp = space_addrs sp.
Proof. unfold space_addrs, delete_tasks. by rewrite <-list_fmap_compose. Qed.

(** The name of a node is its address between two separators. *)
Lemma node_name_addr r : node_name r = ":" +:+ replica_addr r +:+ ":".
Proof. unfold node_name, GetPsNodeName, replica_addr. by rewrite !append_assoc. Qed.

Lemma space_addrs_nodup sp : NoDup (nodes_of sp) → NoDup (space_addrs sp).
Proof.
  intros Hd. apply (NoDup_fmap_by replica_addr node_name _ Hd). intros x y _ _ E.
  by rewrite !node_name_addr, E.
Qed.

Lemma space_addrs_node sp a : a ∈ space_addrs sp ↔ ":" +:+ a +:+ ":" ∈ nodes_of sp.
Proof.
  unfold space_addrs, nodes_of. rewrite !list_elem_of_fmap. split.
  - intros (r & -> & Hr). exists r. by rewrite node_name_addr.
  - intros (r & E & Hr). exists r. split; [|done]. rewrite node_name_addr in E.
    by apply append_inj_l, append_suffix in E as [-> _].
Qed.

(** Without an index in the result, no call failed. *)
Lemma failed_loop_nil sp idx rs es :
  failed_loop sp idx rs es = Some [] →
  ∀ i r e, rs !! i = Some r → es !! i = Some e → call_failed e r = false.
Proof.
  revert idx es. induction rs as [|r0 rs IH]; intros idx es E i r e Hr He; [done|].
  destruct es as [|e0 es]; [done|]. cbn [failed_loop head mbind option_bind tail] in E.
  destruct (call_failed e0 r0) eqn:Ef.
  { destruct (replica_at sp idx); [|done]. by destruct (failed_loop sp (idx + 1) rs es). }
  destruct i as [|i]; [by simplify_eq/=|]. by eapply IH.
Qed.

(** ** The calls of the master *)

Section system.
Context `{FileUtil} `{StartEnv} `{GammaAdmin} `{JsonCodec PsNodeInfo}
  `{JsonCodec CreateSpaceRequest} `{JsonCodec DeleteRequest}
  `{WireCodec BlockRequest} `{WireCodec Document}
  {W : Type} `{EtcdLaws W} `{!PsCluster W} `{!PsClusterLaws W}.

(** The servers at the addresses [P] run on their own. *)
Definition undisturbed (P : string → Prop) (w w' : W) : Prop :=
  ∀ a, P a → quiet (server_conf a) (server w a) (server w' a).
Definition still {A} (P : string → Prop) (m : M W A) : Prop := ∀ w, undisturbed P w (m w).2.

#[global] Instance undisturbed_preorder P : PreOrder (undisturbed P).
Proof.
  split; [by intros w a _|]. intros w1 w2 w3 H12 H23 a Ha. etrans; [by apply H12|by apply H23].
Qed.

Lemma still_ret {A} P (a : A) : still P (mret a).
Proof. by intros w. Qed.
Lemma still_lift {A} P (o : option A) : still P (mlift o).
Proof. by intros w. Qed.
Lemma still_range {A} P (m : gmap string A) : still P (mrange m).
Proof. by intros w. Qed.
Lemma still_then {A B} P (m : M W A) (k : A → M W B) :
  still P m → (∀ a, still P (k a)) → still P (mthen m k).
Proof.
  intros Hm Hk w. specialize (Hm w). unfold mthen.
  destruct (m w) as [[a|] w1]; [|done]. etrans; [exact Hm|apply Hk].
Qed.
Lemma still_do {A} P (f : W → A * W) : (∀ w, undisturbed P w (f w).2) → still P (mdo f).
Proof. intros Hf w. specialize (Hf w). unfold mdo. by destruct (f w). Qed.

Lemma still_Put P k v : still P (Put k v).
Proof. apply still_do. intros w a _. apply net_Put. Qed.
Lemma still_Get P k : still P (Get k).
Proof. apply still_then; [|intros; apply still_ret]. apply still_do. intros w a _. apply net_Get. Qed.
Lemma still_Scan P p : still P (PrefixScan p).
Proof.
  apply still_then; [|intros; apply still_ret]. apply still_do. intros w a _. apply net_GetPrefix.
Qed.
Lemma still_Delete P k : still P (Delete k).
Proof.
  apply still_then; [|intros; apply still_ret]. apply still_do. intros w a _. apply net_Delete.
Qed.
Lemma still_NewID P k b : still P (NewIDGenerate k b).
Proof.
  apply still_then; [|intros; apply still_ret]. apply still_do. intros w a _. apply net_STM.
Qed.
Lemma still_time P : still P (mdo (λ w, let '(t, _, _, w') := GetCurTime w in (t, w'))).
Proof.
  apply still_do. intros w a _. pose proof (net_time w a) as HT. unfold GetCurTime.
  by destruct (time_Now w) as [[? ?] ?].
Qed.
Lemma still_Append P k v n : still P (PutOrAppend k v n).
Proof.
  apply still_then; [apply still_Get|]. intros [e|o]; [apply still_ret|]. simpl.
  destruct (_ <? _); [apply still_ret|apply still_Put].
Qed.

Lemma call_still P t :
  (∀ a m, P a → task_url t ≠ ps_url a m) → ∀ w, undisturbed P w (HttpOneNode t w).2.
Proof.
  intros HP w a Ha.
  pose proof (net_other (task_url t) (reqJson t) w a (λ m, HP a m Ha)) as HQ.
  unfold HttpOneNode, PostRequest.
  repeat case_match; simplify_eq/=; done.
Qed.

Lemma exec_still P tasks order :
  (∀ i t, i ∈ order → tasks !! i = Some t → ∀ a m, P a → task_url t ≠ ps_url a m) →
  ∀ rs es w, undisturbed P w (foldl (exec1 HttpOneNode tasks) (rs, es, w) order).2.
Proof.
  induction order as [|i order IH]; intros HP rs es w; [done|]. cbn [foldl exec1].
  assert (∀ j t, j ∈ order → tasks !! j = Some t → ∀ a m, P a → task_url t ≠ ps_url a m) as HP'.
  { intros j t Hj. apply (HP j). by right. }
  destruct (tasks !! i) as [t|] eqn:Et; [|by apply IH].
  pose proof (call_still P t (HP i t (list_elem_of_here _ _) Et) w) as HQ.
  destruct (HttpOneNode t w) as [[r e] w1]. etrans; [exact HQ|by apply IH].
Qed.

Lemma still_http P tasks :
  (∀ t, t ∈ tasks → ∀ a m, P a → task_url t ≠ ps_url a m) → still P (parallel_http tasks).
Proof.
  intros HP w. unfold parallel_http, parallel_exec.
  pose proof (exec_still P tasks (schedule (length tasks) w)
    (λ i t _ Et, HP t (list_elem_of_lookup_2 _ _ _ Et))
    (replicate (length tasks) zero_Response) (replicate (length tasks) "") w) as HQ.
  by destruct (foldl _ _ _) as [[rs es] w1].
Qed.

(** A call that is reported as successful was handled with success. *)
Definition handled (m : PsMethod) (t : taskArgs) (s : PsServer) : Prop :=
  ∃ c msg s1 s2, read_call m (reqJson t) = Some c ∧
    PsRpc_serve (server_conf (W := W) (task_addr t)) c s1 = Some (AnsStatus (status_of 0 msg), s2) ∧
    quiet (server_conf (W := W) (task_addr t)) s2 s.

Lemma call_handled m t w r e w' :
  task_url t = ps_url (task_addr t) m → HttpOneNode t w = (r, e, w') → call_failed e r = false →
  handled m t (server w' (task_addr t)).
Proof.
  intros Hu E. unfold HttpOneNode, PostRequest in E. rewrite Hu in E.
  unfold call_failed. intros [He Hr]%orb_false_iff.
  destruct (http_NewRequest _); [simplify_eq/=|].
  destruct (http_Do _ _ w) as [[err|[err|text]] w1] eqn:Eh; [by simplify_eq/=..|].
  unfold Unmarshal in E. destruct (net_call _ _ _ _ _ _ Eh) as
    [Ep|(c & code & msg & s1 & s2 & Ec & Hc & Ep & _ & Es & Hq)]; rewrite Ep in E.
  { by simplify_eq/=. }
  rewrite (response_read code msg Hc) in E. cbn [Code cr_Status] in E.
  destruct (decide (code = 0)) as [->|Hne].
  2: { rewrite bool_decide_eq_false_2 in E by done. rewrite orb_true_r in E. injection E as <- _ _.
       cbn [Code cr_Status] in Hr. by rewrite bool_decide_eq_false_2 in Hr. }
  injection E as _ _ <-. by exists c, msg, s1, s2.
Qed.

Lemma handled_quiet m t s s' :
  handled m t s → quiet (server_conf (W := W) (task_addr t)) s s' → handled m t s'.
Proof.
  intros (c & msg & s1 & s2 & ? & ? & ?) Hq. exists c, msg, s1, s2.
  split_and!; [done..|by etrans].
Qed.

Lemma tasks_still m tasks P :
  (∀ t, t ∈ tasks → task_url t = ps_url (task_addr t) m) →
  (∀ t, t ∈ tasks → ¬ P (task_addr t)) → still P (parallel_http tasks).
Proof.
  intros Hurl HP. apply still_http. intros t Ht a m' Ha. rewrite (Hurl t Ht).
  intros [<- _]%ps_url_inj. by eapply HP.
Qed.

(** Tasks for one method, at different addresses. *)
Section tasks.
Context (m : PsMethod) (tasks : list taskArgs).
Context (Hurl : ∀ t, t ∈ tasks → task_url t = ps_url (task_addr t) m)
  (Haddr : NoDup (task_addr <$> tasks)).

(** The server of a task that was called is not called again. *)
Lemma called_once i t order rs es w :
  i ∉ order → tasks !! i = Some t →
  quiet (server_conf (task_addr t)) (server w (task_addr t))
    (server (foldl (exec1 HttpOneNode tasks) (rs, es, w) order).2 (task_addr t)).
Proof using Hurl Haddr Type*.
  intros Hi Et. apply (exec_still (λ a, a = task_addr t)); [|done].
  intros j t' Hj Et' a m' ->. rewrite (Hurl t') by (by eapply list_elem_of_lookup_2).
  intros [E _]%ps_url_inj.
  assert (j = i) as -> by (eapply (NoDup_lookup _ _ _ (task_addr t) Haddr);
    rewrite list_lookup_fmap; [by rewrite Et', <-E|by rewrite Et]). done.
Qed.

Lemma exec_handled order :
  NoDup order → ∀ rs es w rs' es' w',
  foldl (exec1 HttpOneNode tasks) (rs, es, w) order = (rs', es', w') →
  length rs = length tasks → length es = length tasks →
  (length rs' = length tasks ∧ length es' = length tasks) ∧
  (∀ i, i ∉ order → rs' !! i = rs !! i ∧ es' !! i = es !! i) ∧
  ∀ i t r e, i ∈ order → tasks !! i = Some t → rs' !! i = Some r → es' !! i = Some e →
    call_failed e r = false → handled m t (server w' (task_addr t)).
Proof using Hurl Haddr Type*.
  induction 1 as [|i order Hi _ IH]; intros rs es w rs' es' w' E Lr Le.
  { injection E as <- <- <-. split_and!; try done. by intros ? ? ? ? ?%not_elem_of_nil. }
  cbn [foldl] in E.
  destruct (exec1 HttpOneNode tasks (rs, es, w) i) as [[rs1 es1] w1] eqn:E1.
  assert (length rs1 = length tasks ∧ length es1 = length tasks ∧
    ∀ j, j ≠ i → rs1 !! j = rs !! j ∧ es1 !! j = es !! j) as (Lr1 & Le1 & Hj).
  { unfold exec1 in E1. destruct (tasks !! i); [destruct (HttpOneNode _ _) as [[r e] w2]|];
      injection E1 as <- <- <-; rewrite ?length_insert; split_and!; try done.
    intros j Hne. by rewrite !list_lookup_insert_ne by done. }
  destruct (IH _ _ _ _ _ _ E Lr1 Le1) as (HL & HO & HH). split; [done|]. split.
  - intros j [Hne Hjo]%not_elem_of_cons. destruct (HO j Hjo) as [-> ->]. by apply Hj.
  - intros j t r e [->|Hjo]%elem_of_cons Et Er Ee Hf; [|by eapply HH].
    destruct (HO i Hi) as [Er1 Ee1]. rewrite Er1 in Er. rewrite Ee1 in Ee.
    unfold exec1 in E1. rewrite Et in E1. destruct (HttpOneNode t w) as [[r0 e0] w2] eqn:Ec.
    assert (i < length tasks)%nat by (by eapply lookup_lt_Some). injection E1 as <- <- <-.
    rewrite list_lookup_insert_eq in Er by lia. rewrite list_lookup_insert_eq in Ee by lia.
    simplify_eq.
    apply (handled_quiet _ _ (server w2 (task_addr t))).
    + eapply call_handled; [|done..]. apply Hurl. by eapply list_elem_of_lookup_2.
    + pose proof (called_once i t order (<[i:=r]> rs) (<[i:=e]> es) w2 Hi Et) as HQ.
      by rewrite E in HQ.
Qed.

Lemma tasks_handled sp w w' :
  ('(rs, es) ⇐ parallel_http tasks; mlift (failed_loop sp 0 rs es)) w = (Some [], w') →
  ∀ t, t ∈ tasks → handled m t (server w' (task_addr t)).
Proof using Hurl Haddr Type*.
  unfold mthen, parallel_http, parallel_exec, mlift. set (order := schedule (length tasks) w).
  assert (order ≡ₚ seq 0 (length tasks)) as HP by apply law_schedule.
  destruct (foldl _ _ order) as [[rs es] w1] eqn:E. intros [= Hf <-] t [i Et]%list_elem_of_lookup.
  edestruct (exec_handled order) as ([L1 L2] & _ & HH); [|exact E|apply length_replicate..|].
  { rewrite HP. apply NoDup_seq. }
  assert (i < length tasks)%nat as Hi by (by eapply lookup_lt_Some).
  destruct (lookup_lt_is_Some_2 rs i) as [r Er]; [lia|].
  destruct (lookup_lt_is_Some_2 es i) as [e Ee]; [lia|].
  eapply HH; [|done..|by eapply failed_loop_nil]. rewrite HP. apply elem_of_seq. lia.
Qed.
End tasks.

(** ** Servers that run a space *)

(** The server runs its node of the group that a request asks for. *)
Definition deployed (req : CreateSpaceRequest) (s : PsServer) : Prop :=
  let m := n_mata (s_node s) in
  HasSpace m = true ∧ _space_req m = req ∧
  ∃ b node, n_mgr (s_node s) = Some b ∧ _node b = Some node ∧
    no_group node = group_name (cs_cur_partition req) ∧
    no_conf node = GetRaftConf (cs_cur_partition req) ∧ _space b = cs_space req.

Lemma deployed_quiet g req s s' : quiet g s s' → deployed req s → deployed req s'.
Proof.
  intros [Hm Hv]%quiet_keeps (H1' & H2' & b & node & Hb & Hn & ? & ? & ?).
  unfold deployed. rewrite Hm. split_and!; try done. rewrite Hb in Hv.
  destruct (n_mgr (s_node s')) as [b'|]; [|done]. injection Hv as E1 _ _ E4.
  exists b', node. split_and!; congruence.
Qed.

Lemma free_quiet g s s' : quiet g s s' → life_rel Free s → life_rel Free s'.
Proof.
  intros [Hm Hv]%quiet_keeps (? & ? & ? & Hn). unfold life_rel. rewrite Hm. split_and!; try done.
  rewrite Hn in Hv. by destruct (n_mgr (s_node s')).
Qed.

(** It holds the space. *)
Lemma deployed_life req s :
  db_name (cs_space req) ≠ "" → deployed req s →
  life_rel (Holds (db_name (cs_space req)) (space_name (cs_space req))) s.
Proof.
  intros Hdb (? & Hm & b & node & ? & ? & _ & _ & Hs). simpl. unfold PsMeta.DbName, PsMeta.SpaceName.
  rewrite Hm. split_and!; try done. exists b, node. by rewrite Hs.
Qed.

Lemma handled_create t s req :
  handled MethodCreate t s → JsonToProtoMessage (reqJson t) = Some req →
  db_name (cs_space req) ≠ "" → deployed req s.
Proof.
  intros (c & msg & s1 & s2 & Hc & Hs & Hq) Hr Hdb. eapply deployed_quiet; [exact Hq|].
  unfold read_call in Hc. rewrite Hr in Hc. injection Hc as <-. cbn [PsRpc_serve] in Hs.
  destruct (CreateSpace _ _ _) as [st n] eqn:E. injection Hs as -> <-.
  destruct (CreateSpace_started _ _ _ _ _ Hdb E) as (Hf & Ht & b & node & ? & ? & ? & ? & _ & ?).
  destruct (CreateSpace_mata _ _ _ _ _ _ Hf E) as [Hm _]. unfold deployed. cbn [s_node set_node].
  split_and!; [done|by rewrite Hm|]. by exists b, node.
Qed.

Lemma handled_delete t s req :
  handled MethodDelete t s → JsonToProtoMessage (reqJson t) = Some req → life_rel Free s.
Proof.
  intros (c & msg & s1 & s2 & Hc & Hs & Hq) Hr. eapply free_quiet; [exact Hq|].
  unfold read_call in Hc. rewrite Hr in Hc. injection Hc as <-. cbn [PsRpc_serve] in Hs.
  destruct (DeleteSpace _ _ _ _) as [st n] eqn:E. injection Hs as -> <-.
  unfold DeleteSpace in E. destruct (_ || _) eqn:Hb; [done|].
  apply orb_false_iff in Hb as [Hd%negb_false_iff Hn%negb_false_iff].
  apply bool_decide_eq_true in Hd, Hn.
  destruct (DeleteBlock _ _) as [[? mgr] fs] eqn:EB. destruct (DeleteFile _ _ _) as [? fs1].
  unfold LocalStorager_DeleteSpace, Mata_DeleteSpace in E. rewrite !bool_decide_eq_true_2 in E by done.
  cbn [andb] in E. destruct (DeleteFile _ false fs1) as [? fs2].
  injection E as _ <-. simpl. split_and!; try done. unfold DeleteBlock in EB.
  destruct (n_mgr _); [destruct (DeleteFile _ _ _)|]; by injection EB as _ <- _.
Qed.

(** ** Creating and deleting leave the other servers alone *)

(** The servers outside of a space. *)
Notation outside sp := (λ a, a ∉ space_addrs sp).

Lemma still_ParallelCreate sp : still (outside sp) (ParallelCreatePsSpace sp).
Proof.
  apply still_then; [|intros [rs es]; apply still_lift]. apply (tasks_still MethodCreate).
  - apply create_task_url.
  - intros t Ht Hn. apply Hn. rewrite <-create_tasks_addrs. by apply list_elem_of_fmap_2.
Qed.
Lemma still_ParallelDelete sp : still (outside sp) (ParallelDeletePsSpace sp).
Proof.
  apply still_then; [|intros [rs es]; apply still_lift]. apply (tasks_still MethodDelete).
  - apply delete_task_url.
  - intros t Ht Hn. apply Hn. rewrite <-delete_tasks_addrs. by apply list_elem_of_fmap_2.
Qed.

Lemma still_routers P l kind (req : string) :
  kind = "router_create" ∨ kind = "router_delete" →
  still P (parallel_http ((λ x : string * RouterReplica, mkTaskArgs kind (RouterIP x.2) (RouterPort x.2) req)
    <$> l)).
Proof.
  intros Hk. apply still_http. intros t ([k r] & -> & _)%list_elem_of_fmap a m _.
  destruct Hk as [->| ->]; cbn -[to_string]; apply (router_url _ a); auto.
Qed.

Lemma still_put_errs P space l e acc : still P (put_errs_loop space l e acc).
Proof.
  revert acc. induction l as [|i l IH]; intros acc; cbn [put_errs_loop]; [apply still_ret|].
  apply still_then; [apply still_lift|]. intros rep.
  apply still_then; [apply still_Append|]. intros _. apply IH.
Qed.

(** Steps that leave the servers outside of a space alone. *)
Ltac stills :=
  repeat first
    [ apply still_ret | apply still_lift | apply still_range | apply still_Put | apply still_Get
    | apply still_Scan | apply still_Delete | apply still_NewID | apply still_time
    | apply still_Append | apply still_put_errs | apply still_ParallelCreate
    | apply still_ParallelDelete
    | apply still_then; [|intros ?]
    | match goal with |- still _ (match ?x with _ => _ end) => destruct x end ].

Lemma still_AddRouter P sp : still P (AddRouterSpace sp).
Proof.
  unfold AddRouterSpace. apply still_then; [apply still_Scan|]. intros [[keys ?] ?].
  apply still_then; [apply still_lift|]. intros routers.
  apply still_then; [apply still_range|]. intros visit.
  apply still_then; [|intros; apply still_ret].
  rewrite (list_fmap_ext _ (λ x : string * RouterReplica, mkTaskArgs "router_create" (RouterIP x.2)
    (RouterPort x.2) (AddSpaceRequest_SerializeToJson sp))) by (by intros ? []).
  apply still_routers. by left.
Qed.
Lemma still_DeleteRouter P db name : still P (DeleteRouterSpace db name).
Proof.
  unfold DeleteRouterSpace. apply still_then; [apply still_Scan|]. intros [[keys ?] [?|]];
    [apply still_ret|]. apply still_then; [apply still_lift|]. intros routers.
  apply still_then; [apply still_range|]. intros visit.
  apply still_then; [|intros; apply still_ret].
  rewrite (list_fmap_ext _ (λ x : string * RouterReplica, mkTaskArgs "router_delete" (RouterIP x.2)
    (RouterPort x.2) (DeleteSpaceRequest_SerializeToJson (mkDeleteSpaceRequest db name))))
    by (by intros ? []).
  apply still_routers. by right.
Qed.
Lemma still_Validate P space : still P (ValidateNameAndGetIdlePsNode space).
Proof. unfold ValidateNameAndGetIdlePsNode. stills. Qed.
Lemma still_finish sp prefix : still (outside sp) (finish_create sp prefix).
Proof.
  unfold finish_create, create_ps_failed, put_mata_failed, PutNodesErrInfoToEtcd. stills.
Qed.

(** [CreatePsSpaceImpl] up to the first call of a server: the placed space, or
    the result of a return. *)
Definition prepare_create (space : InnerSpace) (idle : list Replica) :
    M W (InnerSpace + bool * string * InnerSpace) :=
  let prefix := log_prefix (DbName space) (SpaceName space) in
  t ⇐ mdo (λ w, let '(t, _, _, w') := GetCurTime w in (t, w'));
  let space := set_times t space in
  let need := PartitionNum space * ReplicaNum space in
  let have := Z.of_nat (length idle) in
  if have <? need then mret (inr (true, msg_not_enough prefix need have, space))
  else
    space ⇐ mlift (place_loop (Z.to_nat (PartitionNum space)) 0 t idle 0 space);
    '(id, _) ⇐ NewIDGenerate GenSpaceIdKey IdBaseVal;
    _ ⇐ Put DdlDisabledKey (SerializeToJson (set_id id space) +:+ "; ");
    mret (inl (set_id id space)).

Lemma CreatePsSpaceImpl_split space idle w :
  CreatePsSpaceImpl space idle w =
  (x ⇐ prepare_create space idle;
   match x with
   | inl sp => finish_create sp (log_prefix (DbName space) (SpaceName space))
   | inr r => mret r
   end) w.
Proof.
  unfold CreatePsSpaceImpl, prepare_create, finish_create, mthen.
  destruct (mdo _ w) as [[t|] w1]; [|reflexivity]. destruct (_ <? _); [reflexivity|].
  destruct (mlift _ w1) as [[sp|] w2]; [|reflexivity].
  destruct (NewIDGenerate _ _ w2) as [[[id e]|] w3]; [|reflexivity].
  by destruct (Put _ _ w3) as [[?|] w4].
Qed.

(** Nothing happens to the stored spaces, and the servers run on their own. *)
Definition calm (w w' : W) : Prop := agree is_space_key w w' ∧ undisturbed (λ _, True) w w'.

Lemma calm_refl w : locked w → calm w w.
Proof. intros Hw. split; [by apply agree_refl|done]. Qed.
Lemma calm_trans w1 w2 w3 : calm w1 w2 → calm w2 w3 → calm w1 w3.
Proof. intros [A1 U1] [A2 U2]. split; [by eapply agree_trans|by etrans]. Qed.

Definition calms {A} (m : M W A) : Prop := preserves is_space_key m ∧ still (λ _, True) m.

Lemma calms_reads {A} (m : M W A) : preserves tracked m → still (λ _, True) m → calms m.
Proof. intros Hp Hs. split; [by apply spaces_keep_reads|done]. Qed.

Lemma calm_step {A B} (m : M W A) (k : A → M W B) w r w' :
  calms m → locked w → mthen m k w = (r, w') →
  ∃ w1, calm w w1 ∧ ((r = None ∧ w' = w1) ∨ ∃ a, m w = (Some a, w1) ∧ k a w1 = (r, w')).
Proof.
  intros [Hp Hs] Hw. specialize (Hp w Hw). specialize (Hs w). unfold mthen.
  destruct (m w) as [[a|] w1]; intros E; exists w1; (split; [by split|]); simplify_eq; eauto.
Qed.

Lemma calms_prepare space idle : calms (prepare_create space idle).
Proof.
  split; [|unfold prepare_create; stills]. unfold prepare_create.
  apply preserves_then; [apply spaces_keep_reads, preserves_time|]. intros t.
  destruct (_ <? _); [apply preserves_ret|].
  apply preserves_then; [apply preserves_lift|]. intros sp.
  apply preserves_then.
  { apply spaces_keep_reads, preserves_NewID, gen_space_id_untracked. }
  intros [id e]. apply preserves_then; [apply spaces_keep_Put_ddl|]. intros _. apply preserves_ret.
Qed.

Lemma prepare_placed space idle w sp w' :
  prepare_create space idle w = (Some (inl sp), w') → placed space idle sp.
Proof.
  unfold prepare_create, mthen. pose proof (GetCurTime_ascii w) as Ht. unfold mdo.
  destruct (GetCurTime w) as [[[t f] ms] w1]. cbn [fst] in Ht.
  destruct (Z.ltb_spec (Z.of_nat (length idle))
    (PartitionNum (set_times t space) * ReplicaNum (set_times t space))); [done|].
  unfold mlift. destruct (place_loop _ _ _ _ _ _) as [sp0|] eqn:Ep; [|done].
  destruct (NewIDGenerate_int64 GenSpaceIdKey w1) as ([id e] & Eid & Hid).
  destruct (NewIDGenerate _ _ w1) as [[[id' e']|] w2]; [|done]. cbn [fst] in Eid, Hid.
  injection Eid as -> ->. destruct (Put _ _ w2) as [[?|] w3]; [|done]. intros [= <- <-].
  exists t, id, sp0. by split_and!.
Qed.

(** The master's part of a creation: all that is not calm is in
    [finish_create]. *)
Lemma createSpace_steps space w r w' :
  locked w → createSpace_body space w = (r, w') →
  calm w w' ∨
  ∃ idle wa wb sp prefix w1 r1 w2, agree tracked w wa ∧
    ValidateNameAndGetIdlePsNode space wa = (Some (idle, ""), wb) ∧ placed space idle sp ∧
    calm w w1 ∧ finish_create sp prefix w1 = (r1, w2) ∧ (locked w2 → calm w2 w').
Proof.
  intros Hw E. unfold createSpace_body in E.
  destruct (calm_step _ _ _ _ _ (calms_reads _ (preserves_Get _) (still_Get _ _)) Hw E)
    as (wa' & Ca & [[-> ->]|(val & Eg & E1)]); [by left|]. clear E.
  assert (agree tracked w wa') as At.
  { pose proof (preserves_Get DdlDisabledKey w Hw) as HP. by rewrite Eg in HP. }
  destruct (negb (ddl_is_enabled val)); [injection E1 as <- <-; by left|].
  destruct (calm_step _ _ _ _ _ (calms_reads _ (preserves_Validate _) (still_Validate _ _))
    (proj1 At) E1) as (wb & Cb & [[-> ->]|([idle msg] & EV & E2)]);
    [left; by eapply calm_trans|]. clear E1. assert (calm w wb) as Cwb by (by eapply calm_trans).
  destruct (failed msg) eqn:Hf; [injection E2 as <- <-; by left|].
  apply failed_false in Hf as ->. unfold mthen at 1 in E2.
  destruct (CreatePsSpaceImpl space idle wb) as [r1 w2] eqn:EC.
  assert (locked w2 → calm w2 w') as Hback.
  { intros Hw2. destruct r1 as [[[b e] sp']|]; [|injection E2 as <- <-; by apply calm_refl].
    destruct (failed e); [injection E2 as <- <-; by apply calm_refl|].
    destruct (calm_step _ _ _ _ _ (calms_reads _ (preserves_AddRouter _) (still_AddRouter _ _))
      Hw2 E2) as (w3 & C3 & [[-> ->]|(a & _ & [= <- <-])]); done. }
  rewrite CreatePsSpaceImpl_split in EC.
  destruct (calm_step _ _ _ _ _ (calms_prepare space idle) (proj1 (proj1 Cb)) EC)
    as (w1 & C1 & [[-> ->]|([sp|r'] & EP & EF)]).
  - left. eapply calm_trans; [exact Cwb|]. eapply calm_trans; [exact C1|]. apply Hback, C1.
  - right. exists idle, wa', wb, sp, (log_prefix (DbName space) (SpaceName space)), w1, r1, w2.
    split_and!; try done; [by eapply prepare_placed|by eapply calm_trans].
  - injection EF as <- <-. left. eapply calm_trans; [exact Cwb|].
    eapply calm_trans; [exact C1|]. apply Hback, C1.
Qed.

(** An etcd write that reports an error has not changed the key. *)
Definition puts_decided : Prop := ∀ k v w e,
  locked w → is_space_key k → (cli_Put k v w).1 = Some e → kv (cli_Put k v w).2 !! k = kv w !! k.

Lemma finish_deployed sp prefix w r w' :
  puts_decided → locked w → kv w !! space_key sp = None → NoDup (nodes_of sp) →
  finish_create sp prefix w = (r, w') →
  kv w' !! space_key sp = None ∨
  ∀ t, t ∈ create_tasks sp → handled MethodCreate t (server w' (task_addr t)).
Proof.
  intros Hput Hw Hk Hnd E. assert (is_space_key (space_key sp)) as Hkey by apply space_key_is_key.
  assert (∀ wx, agree is_space_key w wx → kv wx !! space_key sp = None) as Hnone.
  { intros wx [_ Ha]. by rewrite Ha. }
  unfold finish_create in E.
  destruct (run_step _ _ _ _ _ _ (spaces_keep_reads _ (preserves_ParallelCreate sp)) Hw E)
    as (w1 & A1 & [[-> ->]|(l & EP & E1)]); [left; by apply Hnone|]. clear E.
  destruct l as [|i l].
  2: { left. apply cleanup_effect in E1 as [Hb _];
         [|apply spaces_keep_create_failed|intros; by eapply create_ps_failed_msg|apply A1].
       apply Hnone. by eapply agree_trans. }
  assert (∀ t, t ∈ create_tasks sp → handled MethodCreate t (server w1 (task_addr t))) as HH.
  { eapply tasks_handled; [apply create_task_url| |exact EP].
    rewrite create_tasks_addrs. by apply space_addrs_nodup. }
  pose proof (still_Put (λ _, True) (space_key sp) (SerializeToJson sp) w1) as SP.
  unfold mthen at 1 in E1. fold (space_key sp) in E1. revert E1 SP. unfold Put, mdo.
  specialize (Hput (space_key sp) (SerializeToJson sp) w1).
  destruct (law_Put (space_key sp) (SerializeToJson sp) w1 (proj1 A1)) as (HA & _ & _).
  destruct (cli_Put _ _ w1) as [[err|] w2]; cbn [fst snd] in *; intros E1 SP.
  - left. apply cleanup_effect in E1 as [Hb _];
      [|apply spaces_keep_put_failed|intros; by eapply put_mata_failed_msg|apply HA].
    rewrite (proj2 Hb _ Hkey), (Hput err (proj1 A1) Hkey eq_refl). by apply Hnone.
  - right. intros t Ht. eapply handled_quiet; [by apply HH|].
    etrans; [by apply SP|]. pose proof (still_Delete (λ _, True) DdlDisabledKey w2) as SD.
    unfold mthen in E1. by destruct (Delete _ w2) as [[?|] w3]; injection E1 as <- <-; apply SD.
Qed.
End system.

(** ** The stored spaces run *)

Section deployment.
Context `{FileUtil} `{StartEnv} `{GammaAdmin} `{JsonCodec PsNodeInfo}
  `{CreateRequestJsonLaws} `{DeleteRequestJsonLaws}
  `{WireCodec BlockRequest} `{WireCodec Document}
  {W : Type} `{EtcdLaws W} `{!PsCluster W} `{!PsClusterLaws W}.

Lemma name_ok_nonempty s : name_ok s → s ≠ "".
Proof. intros [Hl _] ->. simpl in Hl. lia. Qed.

(** Every replica of the space runs its node of the group of its partition. *)
Definition space_runs (w : W) (sp : InnerSpace) : Prop :=
  ∀ p r, p ∈ elems (Partitions sp) → r ∈ elems (Replicas p) →
    deployed (mkCreateSpaceRequest (space_pb sp) (partition_pb p)) (server w (replica_addr r)).

Definition spaces_run (w : W) : Prop := ∀ k v,
  is_space_key k → kv w !! k = Some v → space_fits (space_of v) → space_runs w (space_of v).

Lemma replica_in_space sp p r :
  p ∈ elems (Partitions sp) → r ∈ elems (Replicas p) → replica_addr r ∈ space_addrs sp.
Proof.
  intros Hp Hr. apply list_elem_of_fmap_2. unfold replicas_of. apply list_elem_of_bind. eauto.
Qed.

Lemma space_runs_still P w w' sp :
  undisturbed P w w' → (∀ a, a ∈ space_addrs sp → P a) → space_runs w sp → space_runs w' sp.
Proof.
  intros HU HP HR p r Hp Hr. eapply deployed_quiet; [|by apply HR].
  apply HU, HP. by eapply replica_in_space.
Qed.

Lemma handled_space_runs sp w :
  space_ok sp → space_fits sp → DbName sp ≠ "" →
  (∀ t, t ∈ create_tasks sp → handled MethodCreate t (server w (task_addr t))) → space_runs w sp.
Proof.
  intros Hs Hf Hdb HH p r Hp Hr.
  set (t := mkTaskArgs "ps_create" (PsIP r) (PsPort r)
    (PsCreateSpaceRequest_SerializeToJson (mkPsCreateSpaceRequest sp p))).
  assert (partition_ok p ∧ partition_fits p) as [Pok Pfit].
  { destruct Hs as (_ & _ & _ & _ & _ & _ & HP & _). destruct Hf as (_ & _ & _ & _ & HF).
    rewrite Forall_forall in HP, HF. auto. }
  apply (handled_create t); [apply (HH t)|by apply request_text_read|done].
  unfold create_tasks. apply list_elem_of_bind. exists p. split; [|done].
  apply list_elem_of_fmap. by exists r.
Qed.

Lemma spaces_run_calm w w' : calm w w' → spaces_run w → spaces_run w'.
Proof.
  intros [[_ Ha] HU] HR k v Hk Hv Hf. rewrite Ha in Hv by done.
  eapply space_runs_still; [exact HU|done|by eapply HR].
Qed.

(** Spaces without a common node have no common address. *)
Lemma addrs_disjoint s1 s2 :
  (∀ n, n ∈ nodes_of s1 → n ∉ nodes_of s2) → ∀ a, a ∈ space_addrs s2 → a ∉ space_addrs s1.
Proof. intros Hd a Ha2%space_addrs_node Ha1%space_addrs_node. by eapply Hd. Qed.

Lemma create_spaces_run space w r w' :
  scans_succeed → puts_decided → locked w → ddl_inv w → new_space_ok space → spaces_run w →
  createSpace_body space w = (r, w') → spaces_run w'.
Proof.
  intros Hs Hput Hw HI HN HR E.
  destruct (createSpace_steps _ _ _ _ Hw E) as
    [C|(idle & wa & wb & sp & prefix & w1 & r1 & w2 & Aa & EV & Hpl & C1 & EF & C2)];
    [by eapply spaces_run_calm|].
  destruct (placed_fresh _ _ _ _ _ _ Hs HI HN Aa EV Hpl) as [Fok Fdb Fn _ _ _ Fabs Fnd Ffree].
  assert (space_key space = space_key sp) as Ek by (unfold space_key; congruence).
  assert (kv w1 !! space_key sp = None) as Hnone.
  { rewrite (proj2 (proj1 C1)) by apply space_key_is_key. congruence. }
  assert (Hw1 := proj1 (proj1 C1)).
  pose proof (finish_create_effect _ _ _ _ _ Hw1 EF) as HC.
  assert (agree (other_spaces sp) w1 w2) as HA.
  { destruct HC as [[HA _]|[HA _]]; [|done]. eapply agree_weaken; [|done]. by intros k [? _]. }
  eapply spaces_run_calm; [by apply C2, HA|]. pose proof (still_finish sp prefix w1) as SF.
  rewrite EF in SF. intros k v Hk Hv Hf. destruct (decide (k = space_key sp)) as [->|Hne].
  - destruct (finish_deployed _ _ _ _ _ Hput Hw1 Hnone Fnd EF) as [?|HH]; [congruence|].
    assert (v = SerializeToJson sp) as ->.
    { destruct HC as [[[_ HC] _]|(_ & HC & _)]; [|congruence].
      rewrite HC in Hv by apply space_key_is_key. congruence. }
    assert (space_of (SerializeToJson sp) = sp) as Es by (unfold space_of; by rewrite space_roundtrip).
    rewrite Es in *. apply handled_space_runs; try done. rewrite Fdb.
    by apply name_ok_nonempty, HN.
  - rewrite (proj2 HA) in Hv by done. assert (kv w !! k = Some v) as Hvw.
    { by rewrite (proj2 (proj1 C1)) in Hv. }
    eapply space_runs_still; [exact SF| |].
    + apply addrs_disjoint. intros n. by eapply Ffree.
    + eapply space_runs_still; [exact (proj2 C1)|done|by eapply HR].
Qed.

Lemma delete_text_read db name :
  valid db → valid name →
  JsonToProtoMessage (DeleteSpaceRequest_SerializeToJson (mkDeleteSpaceRequest db name)) =
    Some (mkDeleteRequest db name).
Proof.
  intros Hd Hn. apply delete_request_read.
  - apply wf_cons; [done|exact Hd|]. apply wf_cons; [done|exact Hn|apply wf_nil].
  - apply (depth_obj _ 5). repeat constructor; simpl; lia.
  - unfold read_DeleteSpaceRequest. names.
    next_field @got_field; [done..|]. next_field @got_field; [done..|]. done.
Qed.

(** A successful deletion frees the servers of the space. *)
Lemma delete_on_nodes_frees req sp dkey ekey w w' :
  valid (DbName sp) → valid (SpaceName sp) → NoDup (nodes_of sp) →
  delete_on_nodes req sp dkey ekey w = (Some (0, "success"), w') →
  ∀ a, a ∈ space_addrs sp → life_rel Free (server w' a).
Proof.
  intros Hd Hn Hnd. unfold delete_on_nodes. unfold mthen at 1.
  destruct (DeleteRouterSpace _ _ w) as [[?|] w1]; [|done]. unfold mthen at 1.
  destruct (ParallelDeletePsSpace sp w1) as [[[|i l]|] w2] eqn:EP; [| |done].
  - intros E a Ha. rewrite <-delete_tasks_addrs in Ha. apply list_elem_of_fmap in Ha as (t & -> & Ht).
    assert (handled MethodDelete t (server w2 (task_addr t))) as HH.
    { revert t Ht. eapply tasks_handled; [apply delete_task_url| |exact EP].
      rewrite delete_tasks_addrs. by apply space_addrs_nodup. }
    eapply handled_delete; [eapply handled_quiet; [exact HH|]|].
    + assert (still (λ _, True) (_ ⇐ Delete DdlDisabledKey;
        _ ⇐ PutOrAppend dkey "; success" EtcdValMaxLen; mret (0, "success"))) as SS.
      { apply still_then; [apply still_Delete|]. intros _.
        apply still_then; [apply still_Append|]. intros _. apply still_ret. }
      specialize (SS w2). rewrite E in SS. by apply SS.
    + unfold delete_tasks in Ht. apply list_elem_of_fmap in Ht as (r & -> & _).
      by apply delete_text_read.
  - unfold mthen. repeat case_match; intros; simplify_eq/=.
Qed.

Lemma still_delete_on_nodes req sp dkey ekey :
  still (λ a, a ∉ space_addrs sp) (delete_on_nodes req sp dkey ekey).
Proof.
  unfold delete_on_nodes, PutNodesErrInfoToEtcd.
  apply still_then; [apply still_DeleteRouter|]. intros _.
  apply still_then; [apply still_ParallelDelete|]. intros [|i l].
  - apply still_then; [apply still_Delete|]. intros _.
    apply still_then; [apply still_Append|]. intros _. apply still_ret.
  - apply still_then; [apply still_put_errs|]. intros s.
    apply still_then; [apply still_Append|]. intros _.
    apply still_then; [apply still_Delete|]. intros _. apply still_ret.
Qed.

Lemma Get_stored k d w w1 :
  locked w → tracked k → (∀ v, kv w !! k = Some v → v ≠ "") →
  Get k w = (Some (inr (Some d)), w1) → kv w !! k = Some d.
Proof.
  intros Hw Hk Hv. destruct (law_Get k w Hw) as [_ HL]. unfold Get, mthen, mdo, mret.
  destruct (cli_Get k w) as [[err|l] w2]; cbn [fst] in HL; [done|]. specialize (HL l eq_refl Hk).
  destruct (kv w !! k) as [v|] eqn:E; [|by subst l].
  destruct HL as (x & -> & Hx). rewrite Hx by (by apply Hv). by intros [= <- <-].
Qed.

Lemma stored_nonempty w k v : ddl_inv w → is_space_key k → kv w !! k = Some v → v ≠ "".
Proof. intros [I1 _] Hk Hv. destruct (I1 k v Hk Hv) as (_ & _ & _ & _ & -> & _). done. Qed.

(** What a deletion does to the servers: nothing, or it removes the entry and
    reaches the servers of the space, which are free after a success. *)
Definition removes (key : string) (w : W) (r : option (Z * string)) (w' : W) : Prop :=
  (undisturbed (λ _, True) w w' ∧ r ≠ Some (0, "success")) ∨
  (kv w' !! key = None ∧ ∃ v, kv w !! key = Some v ∧
     undisturbed (λ a, a ∉ space_addrs (space_of v)) w w' ∧
     (r = Some (0, "success") →
      ∀ a, a ∈ space_addrs (space_of v) → life_rel Free (server w' a))).

Lemma removes_step key w w1 r w' :
  is_space_key key → calm w w1 → removes key w1 r w' → removes key w r w'.
Proof.
  intros Hk [[_ Ha] HU] [[? ?]|(? & v & Hv & HU' & HF)]; [left|right].
  - split; [by etrans|done].
  - split; [done|]. exists v. rewrite Ha in Hv by done. split_and!; try done.
    etrans; [|exact HU']. intros a _. by apply HU.
Qed.

Lemma delete_everywhere_removes req v w r w' :
  let key := GetSpaceEtcdKey (ds_DbName req) (ds_SpaceName req) in
  let sp := space_of v in
  locked w → ddl_inv w → kv w !! key = Some v →
  delete_everywhere req sp key
    (GetDeletedSpaceEtcdKey (ds_DbName req) (ds_SpaceName req) (Id sp))
    (GetErrSpaceEtcdKey (ds_DbName req) (ds_SpaceName req) (Id sp)) w = (r, w') →
  removes key w r w'.
Proof.
  intros key sp Hw [I1 _] Hv E. assert (is_space_key key) as Hkey by apply space_key_is_key.
  destruct (I1 key v Hkey Hv) as (_ & N1 & N2 & Hnd & _).
  unfold delete_everywhere in E. destruct (law_Delete key w Hw) as (HA & _ & HN).
  assert (undisturbed (λ _, True) w (cli_Delete key w).2) as SD by (intros a _; apply net_Delete).
  unfold mthen at 1, Delete at 1, mthen at 1, mdo, mret at 1 in E.
  destruct (cli_Delete key w) as [d w1]. cbn [fst snd] in *.
  destruct (match d with inl _ => _ | inr _ => _ end) as [err|] eqn:Ed.
  - left. pose proof (still_Append (λ _, True) (GetErrSpaceEtcdKey (ds_DbName req)
      (ds_SpaceName req) (Id sp)) "delete etcd space info failed; " EtcdValMaxLen w1) as SA.
    unfold mthen in E. destruct (PutOrAppend _ _ _ w1) as [[?|] w2]; injection E as <- <-;
      (split; [etrans; [exact SD|exact SA]|done]).
  - right. destruct d as [err|n]; [done|]. destruct (HN n eq_refl) as [Hnone _].
    pose proof (spaces_keep_delete_on_nodes req sp (ds_DbName req) (ds_SpaceName req) (Id sp) w1
      (proj1 HA)) as HP.
    pose proof (still_delete_on_nodes req sp (GetDeletedSpaceEtcdKey (ds_DbName req)
      (ds_SpaceName req) (Id sp)) (GetErrSpaceEtcdKey (ds_DbName req) (ds_SpaceName req) (Id sp)) w1)
      as HS.
    change (delete_on_nodes req sp (GetDeletedSpaceEtcdKey (ds_DbName req) (ds_SpaceName req) (Id sp))
      (GetErrSpaceEtcdKey (ds_DbName req) (ds_SpaceName req) (Id sp)) w1 = (r, w')) in E.
    rewrite E in HP, HS. cbn [snd] in HP, HS. split; [by rewrite (proj2 HP key Hkey)|]. exists v. split_and!; [done|..].
    + etrans; [|exact HS]. intros a _. by apply SD.
    + intros -> a Ha. eapply delete_on_nodes_frees; [..|exact E|exact Ha]; try done.
      * by apply name_ok_valid.
      * by apply name_ok_valid.
Qed.

Lemma deleteSpace_servers req w r w' :
  locked w → ddl_inv w → deleteSpace_body req w = (r, w') →
  removes (GetSpaceEtcdKey (ds_DbName req) (ds_SpaceName req)) w r w'.
Proof.
  intros Hw HI E. unfold deleteSpace_body in E. set (key := GetSpaceEtcdKey _ _) in *.
  assert (is_space_key key) as Hkey by apply space_key_is_key.
  assert (∀ wx rx, calm w wx → rx ≠ Some (0, "success") → removes key w rx wx) as Hno.
  { intros wx rx [_ HU] Hr. by left. }
  destruct (calm_step _ _ _ _ _ (calms_reads _ (preserves_Get _) (still_Get _ _)) Hw E)
    as (w1 & C1 & [[-> ->]|(g & Eg & E1)]); [by apply Hno|]. clear E.
  destruct g as [err|[d|]]; [by injection E1 as <- <-; apply Hno| |by injection E1 as <- <-; apply Hno].
  assert (kv w !! key = Some d) as Hd.
  { eapply Get_stored; [done|by apply space_key_tracked| |exact Eg].
    intros v. by apply stored_nonempty. }
  destruct (calm_step _ _ _ _ _ (calms_reads _ (preserves_Get _) (still_Get _ _)) (proj1 (proj1 C1)) E1)
    as (w2 & C2 & [[-> ->]|(val & _ & E2)]); [apply Hno; [by eapply calm_trans|done]|]. clear E1.
  assert (calm w w2) as C by (by eapply calm_trans). clear C1 C2.
  destruct (negb (ddl_is_enabled val)); [injection E2 as <- <-; by apply Hno|].
  assert (DeserializeFromByte d zero_InnerSpace = (space_of d, false)) as Ed.
  { unfold space_of, DeserializeFromByte. by destruct (Unmarshal _ _ _). }
  rewrite Ed in E2. cbn [negb] in E2.
  destruct (calm_step _ _ _ _ _ (conj (spaces_keep_Put_deleted _ _ _ _) (still_Put _ _ _))
    (proj1 (proj1 C)) E2) as (w3 & C3 & [[-> ->]|(a & _ & E3)]);
    [apply Hno; [by eapply calm_trans|done]|]. clear E2.
  destruct (calm_step _ _ _ _ _ (conj (spaces_keep_Put_ddl _) (still_Put _ _ _))
    (proj1 (proj1 C3)) E3) as (w4 & C4 & [[-> ->]|(b & _ & E4)]);
    [apply Hno; [do 2 (eapply calm_trans; [done|]); done|done]|]. clear E3.
  assert (calm w w4) as C' by (do 2 (eapply calm_trans; [done|]); done).
  apply (removes_step _ _ w4); [done..|]. eapply delete_everywhere_removes; [apply C'| | |exact E4].
  - by eapply ddl_inv_agree; [apply C'|].
  - by rewrite (proj2 (proj1 C')).
Qed.

Lemma delete_spaces_run req w r w' :
  locked w → ddl_inv w → spaces_run w → deleteSpace_body req w = (r, w') → spaces_run w'.
Proof.
  intros Hw HI HR E k v Hk Hv Hf.
  destruct (deleteSpace_body_effect _ _ _ _ Hw E) as [HA HK].
  set (key := GetSpaceEtcdKey (ds_DbName req) (ds_SpaceName req)) in *.
  assert (kv w !! k = Some v) as Hvw.
  { destruct (decide (k = key)) as [->|Hne]; [|by rewrite <-(proj2 HA)].
    destruct HK as [?|[<- _]]; congruence. }
  destruct (deleteSpace_servers _ _ _ _ Hw HI E) as [[HU _]|(Hnone & v0 & Hv0 & HU & _)].
  - eapply space_runs_still; [exact HU|done|by eapply HR].
  - eapply space_runs_still; [exact HU| |by eapply HR]. apply addrs_disjoint.
    destruct HI as [_ I2]. eapply (I2 key k); try done; [apply space_key_is_key|].
    intros <-. fold key in Hnone. congruence.
Qed.

(** ** Histories of the system *)

(** The handlers run one at a time, under the lock; in between the stored spaces
    do not change and the servers run on their own.  The deletions are those that
    run while no other handler does: the code does not look at the result of
    [TryLock] in [deleteSpace], and what a deletion does that goes on without the
    lock is not covered. *)
Inductive cluster_reach : W → Prop :=
| cluster_start w : (∀ k, is_space_key k → kv w !! k = None) → cluster_reach w
| cluster_other w w' : cluster_reach w → (∀ k, is_space_key k → kv w' !! k = kv w !! k) →
    undisturbed (λ _, True) w w' → cluster_reach w'
| cluster_create w req r w' : cluster_reach w → locked w →
    CheckApiSpace req = Some "" → api_ok req →
    createSpace_body (ApiSpaceToInnerSpace req) w = (r, w') → cluster_reach w'
| cluster_delete w req r w' : cluster_reach w → locked w →
    deleteSpace_body req w = (r, w') → cluster_reach w'.

Lemma cluster_reach_ddl w : cluster_reach w → ddl_reach w.
Proof.
  induction 1 as [w He|w w' _ IH He _|w req r w' _ IH Hw HC HA E|w req r w' _ IH Hw E].
  - by constructor.
  - by eapply reach_other.
  - by eapply reach_create.
  - by eapply reach_delete.
Qed.

Lemma cluster_reach_runs w :
  scans_succeed → puts_decided → cluster_reach w → spaces_run w.
Proof.
  intros Hs Hput. induction 1 as [w He|w w' _ IH He HU|w req r w' Hr IH Hw HC HA E
    |w req r w' Hr IH Hw E].
  - intros k v Hk Hv. by rewrite He in Hv.
  - intros k v Hk Hv Hf. rewrite He in Hv by done.
    eapply space_runs_still; [exact HU|done|by eapply IH].
  - eapply create_spaces_run; try done; [by apply ddl_reach_inv, cluster_reach_ddl|].
    by apply accepted_new_space.
  - eapply delete_spaces_run; try done. by apply ddl_reach_inv, cluster_reach_ddl.
Qed.
End deployment.

(** ** Properties *)

(** C4. What is stored runs: after every history of creations and deletions that
    run one at a time under the lock, with failed calls, partial failures and
    panics among them, and with any calls of routers and events of raft on the
    servers in between, every replica of every space stored in etcd is a server
    that holds the space and runs its node of the raft group of its partition,
    with the members the partition says.  This is so if the scans of the stored
    spaces succeed, the numbers of the space fit the fields of its message, an
    etcd write that reports an error took no effect, and no administrative call
    takes effect on a server after the master stopped waiting for it. *)
Theorem stored_spaces_run `{FileUtil} `{StartEnv} `{GammaAdmin} `{JsonCodec PsNodeInfo}
    `{CreateRequestJsonLaws} `{DeleteRequestJsonLaws} `{WireCodec BlockRequest}
    `{WireCodec Document} {W : Type} `{EtcdLaws W} `{!PsCluster W} `{!PsClusterLaws W}
    (w : W) (k v : string) :
  scans_succeed → puts_decided → cluster_reach w →
  is_space_key k → kv w !! k = Some v → space_fits (space_of v) →
  ∀ p r, p ∈ elems (Partitions (space_of v)) → r ∈ elems (Replicas p) →
    deployed (mkCreateSpaceRequest (space_pb (space_of v)) (partition_pb p))
      (server w (replica_addr r)) ∧
    life_rel (Holds (DbName (space_of v)) (SpaceName (space_of v))) (server w (replica_addr r)).
Proof.
  intros Hs Hput HR Hk Hv Hf p r Hp Hr.
  pose proof (cluster_reach_runs w Hs Hput HR k v Hk Hv Hf p r Hp Hr) as HD. split; [done|].
  eapply deployed_life in HD; [exact HD|]. apply name_ok_nonempty.
  by eapply inv_stored; [apply ddl_reach_inv, cluster_reach_ddl|..].
Qed.

(** C10. A deletion that holds the lock and is answered with success leaves no trace
    on the servers: after every history of creations and deletions that ran one
    at a time under the lock, and if the scans of the stored spaces succeed, the
    entry is gone, every server that ran the space is free to take another one,
    and no other server was called. *)
Theorem deleted_space_frees `{FileUtil} `{StartEnv} `{GammaAdmin} `{JsonCodec PsNodeInfo}
    `{CreateRequestJsonLaws} `{DeleteRequestJsonLaws} `{WireCodec BlockRequest}
    `{WireCodec Document} {W : Type} `{EtcdLaws W} `{!PsCluster W} `{!PsClusterLaws W}
    (req : DeleteSpaceRequest) (w w' : W) :
  let key := GetSpaceEtcdKey (ds_DbName req) (ds_SpaceName req) in
  scans_succeed → cluster_reach w → locked w →
  deleteSpace_body req w = (Some (0, "success"), w') →
  kv w' !! key = None ∧
  ∃ v, kv w !! key = Some v ∧
    (∀ a, a ∈ space_addrs (space_of v) → life_rel Free (server w' a)) ∧
    (∀ a, a ∉ space_addrs (space_of v) →
       quiet (server_conf a) (server w a) (server w' a)).
Proof.
  intros key Hs HR Hw E. pose proof (ddl_reach_inv w Hs (cluster_reach_ddl w HR)) as HI.
  destruct (deleteSpace_servers _ _ _ _ Hw HI E) as [[_ ?]|(Hnone & v & Hv & HU & HF)]; [done|].
  split; [done|]. exists v. split_and!; [done|by apply HF|]. intros a Ha. by apply HU.
Qed.

(** ** Instances of the properties

    A small etcd next to a server for every address; a call of the master is
    answered by the handler of the server it names. *)

(** A world with another part that only HTTP calls change. *)
Section lifted.
Context {V S : Type} (env : MasterEnv V)
  (http : string → string → V * S → (string + (string + string)) * S).

Definition lift {A} (f : V → A * V) (w : V * S) : A * (V * S) :=
  let '(a, v) := f w.1 in (a, (v, w.2)).

Definition with_servers : MasterEnv (V * S) := {|
  cli_Put k v := lift (cli_Put k v);
  cli_PutLease k v id := lift (cli_PutLease k v id);
  cli_Get k := lift (cli_Get k);
  cli_GetPrefix p := lift (cli_GetPrefix p);
  cli_Delete k := lift (cli_Delete k);
  cli_Grant t := lift (cli_Grant t);
  cli_CreateTxn k v := lift (cli_CreateTxn k v);
  cli_STM k f := lift (cli_STM k f);
  session_New := lift session_New;
  mutex_TryLock := lift mutex_TryLock;
  mutex_Unlock := lift mutex_Unlock;
  session_Close w := (session_Close w.1, w.2);
  http_NewRequest := http_NewRequest;
  http_Do url body w := let '(r, s) := http url body w in (r, (w.1, s));
  time_Now := lift time_Now;
  time_Sleep t w := (time_Sleep t w.1, w.2);
  range_map A m w := range_map m w.1;
  schedule n w := schedule n w.1;
  json_error := json_error
|}.

Lemma lift_fst {A} (f : V → A * V) w : (lift f w).2.1 = (f w.1).2.
Proof. unfold lift. by destruct (f w.1). Qed.
Lemma lift_snd {A} (f : V → A * V) w : (lift f w).2.2 = w.2.
Proof. unfold lift. by destruct (f w.1). Qed.
Lemma lift_val {A} (f : V → A * V) w : (lift f w).1 = (f w.1).1.
Proof. unfold lift. by destruct (f w.1). Qed.

Lemma with_servers_laws : EtcdLaws V → @EtcdLaws (V * S) with_servers.
Proof.
  intros L. refine {| kv w := kv w.1; locked w := locked w.1 |};
    cbn [cli_Put cli_Get cli_GetPrefix cli_Delete cli_STM mutex_TryLock time_Now http_Do range_map
         schedule with_servers].
  - intros w. rewrite lift_fst, lift_val. apply law_TryLock.
  - intros k v w Hw. rewrite lift_fst, lift_val. by apply law_Put.
  - intros k w Hw. rewrite lift_fst, lift_val. by apply law_Delete.
  - intros k w Hw. rewrite lift_fst, lift_val. by apply law_Get.
  - intros p w Hw. rewrite lift_fst, lift_val. by apply law_GetPrefix.
  - intros k f w Hw. rewrite lift_fst. by apply law_STM.
  - intros url body w Hw. destruct (http url body w). by split.
  - intros k f w s n. rewrite lift_val. apply law_STM_result.
  - intros w Hw. rewrite lift_fst. by apply law_time.
  - intros w. rewrite lift_val. apply law_time_text.
  - intros A m w. apply law_range.
  - intros n w. apply law_schedule.
  - intros w l. rewrite lift_val. apply law_ps_keys.
Defined.
End lifted.

#[local] Existing Instances text_request text_request_laws text_info open_env.
#[local] Existing Instances service_request service_document.
#[local] Instance deploy_util : FileUtil := posix_util.
#[local] Instance deploy_doc : GammaDoc := map_doc.
#[local] Instance deploy_engine : GammaEngine := map_engine.
#[local] Instance deploy_table : GammaTable := name_table.
#[local] Instance deploy_admin : GammaAdmin := map_admin 0.
#[local] Instance text_delete : JsonCodec DeleteRequest := {|
  ProtoMessageToJson _ := Some "{}";
  JsonToProtoMessage text := parse text ≫= read_DeleteSpaceRequest
|}.
#[local] Instance text_delete_laws : DeleteRequestJsonLaws.
Proof.
  constructor. intros j req Hj Hd Hr. unfold JsonToProtoMessage, text_delete.
  rewrite parse_print; [exact Hr|done|unfold maxNestingDepth; lia].
Qed.

Definition Servers : Type := string → PsServer.
Definition set_server (a : string) (s : PsServer) (f : Servers) : Servers :=
  λ b, if bool_decide (b = a) then s else f b.

(** The server and the method of a URL. *)
Definition url_call (url : string) : option (string * PsMethod) :=
  let a := String.substring 7 (String.length url - 29) url in
  if bool_decide (url = ps_url a MethodCreate) then Some (a, MethodCreate)
  else if bool_decide (url = ps_url a MethodDelete) then Some (a, MethodDelete)
  else None.

Lemma substring_0 s t : String.substring 0 (String.length s) (s +:+ t) = s.
Proof. induction s as [|c s IH]; [by destruct t|]. simpl. f_equal. exact IH. Qed.
Lemma substring_skip p s t :
  String.substring (String.length p) (String.length s) (p +:+ s +:+ t) = s.
Proof.
  induction p as [|c p IH]; [rewrite append_nil_l; apply substring_0|].
  rewrite append_cons. exact IH.
Qed.

Lemma url_call_url a m : url_call (ps_url a m) = Some (a, m).
Proof.
  unfold url_call. assert (String.substring 7 (String.length (ps_url a m) - 29) (ps_url a m) = a) as ->.
  { unfold ps_url. rewrite !length_append.
    replace (String.length "http://" + (String.length a + String.length (method_path m)) - 29)%nat
      with (String.length a) by (destruct m; simpl; lia).
    apply (substring_skip "http://"). }
  destruct m; [by rewrite bool_decide_eq_true_2|].
  rewrite bool_decide_eq_false_2 by (by intros [_ ?]%ps_url_inj). by rewrite bool_decide_eq_true_2.
Qed.
Lemma url_call_Some url a m : url_call url = Some (a, m) → url = ps_url a m.
Proof. unfold url_call. repeat case_bool_decide; naive_solver. Qed.

Definition good_status (code : Z) (msg : string) : bool :=
  (- 2147483648 <=? code) && (code <=? 2147483647) && utf8_valid msg.

Definition serve_http {V} (url body : string) (w : V * Servers) :
    (string + (string + string)) * Servers :=
  match url_call url with
  | None => (inr (inr answer_ok), w.2)
  | Some (a, m) =>
      match read_call m body ≫= λ c, PsRpc_serve Conf_new c (w.2 a) with
      | Some (AnsStatus (mkRespStatus (Some code) (Some msg)), s) =>
          (inr (inr (if good_status code msg then print (response_json code msg) else "error")),
           set_server a s w.2)
      | _ => (inr (inr "error"), w.2)
      end
  end.

#[local] Instance deploy_env : MasterEnv (gmap string string * Servers) :=
  with_servers (small_env false false) serve_http.
#[local] Instance deploy_laws : EtcdLaws (gmap string string * Servers) :=
  with_servers_laws (small_env false false) serve_http (small_laws false false).
#[local] Instance deploy_cluster : PsCluster (gmap string string * Servers) :=
  {| server w := w.2; server_conf _ := Conf_new |}.

Lemma quiet_same g (s : PsServer) : quiet g s s.
Proof. reflexivity. Qed.

#[local] Instance deploy_cluster_laws : PsClusterLaws (gmap string string * Servers).
Proof.
  constructor.
  - intros a m body w text w'. cbn [http_Do deploy_env with_servers]. unfold serve_http.
    rewrite url_call_url. destruct (read_call m body) as [c|]; simpl; [|by intros [= <- _]; left].
    destruct (PsRpc_serve Conf_new c (w.2 a)) as [[[?|[[code|] [msg|]]|?|?|?|? ?] s]|] eqn:Es;
      try (by intros [= <- _]; left).
    destruct (good_status code msg) eqn:Hg; intros [= <- <-]; [right|by left].
    unfold good_status in Hg. apply andb_true_iff in Hg as [[Hl%Z.leb_le Hh%Z.leb_le]%andb_true_iff Hu].
    exists c, code, msg, (w.2 a), s. split_and!; try done; [unfold in_int32; lia| |].
    + refine (parse_print (response_json code msg) _ _); [|unfold maxNestingDepth; simpl; lia].
      apply wf_cons; [done| |apply wf_nil]. apply wf_cons; [done|apply wf_int|].
      apply wf_cons; [done|exact Hu|apply wf_nil].
    + simpl. unfold set_server. by rewrite bool_decide_eq_true_2.
  - intros url body w a Hne. cbn [http_Do deploy_env with_servers server deploy_cluster].
    assert ((serve_http url body w).2 a = w.2 a) as E.
    { unfold serve_http. destruct (url_call url) as [[b m]|] eqn:E; [|done].
      assert (a ≠ b) by (intros ->; apply url_call_Some in E; by eapply Hne).
      repeat case_match; try done; simpl; unfold set_server; by rewrite bool_decide_eq_false_2. }
    destruct (serve_http url body w) as [r s]. simpl in *. by rewrite E.
  - intros. cbn [cli_Put deploy_env with_servers server deploy_cluster]. by rewrite lift_snd.
  - intros. cbn [cli_Get deploy_env with_servers server deploy_cluster]. by rewrite lift_snd.
  - intros. cbn [cli_GetPrefix deploy_env with_servers server deploy_cluster]. by rewrite lift_snd.
  - intros. cbn [cli_Delete deploy_env with_servers server deploy_cluster]. by rewrite lift_snd.
  - intros. cbn [cli_STM deploy_env with_servers server deploy_cluster]. by rewrite lift_snd.
  - intros. cbn [time_Now deploy_env with_servers server deploy_cluster]. by rewrite lift_snd.
Qed.

Definition idle_server : PsServer := mkPsServer sample_node Engine_new.
Definition deploy_create (req : ApiSpace) (w : gmap string string * Servers) :
    option (Z * string) * (gmap string string * Servers) :=
  createSpace_body (ApiSpaceToInnerSpace req) w.
Definition deploy_start : gmap string string * Servers := (∅, λ _, idle_server).
Definition deploy_goods : gmap string string * Servers := (deploy_create goods_request deploy_start).2.
Definition goods_json : string := default "" (deploy_goods.1 !! key_of goods_request).

Lemma deploy_goods_reached : cluster_reach deploy_goods.
Proof.
  apply (cluster_create deploy_start goods_request (deploy_create goods_request deploy_start).1);
    [|done|reflexivity|apply requests_ok|apply surjective_pairing].
  constructor. intros k _. exact (lookup_empty k).
Qed.

Lemma goods_stored : deploy_goods.1 !! key_of goods_request = Some goods_json.
Proof. vm_compute. reflexivity. Qed.

Lemma goods_fits : space_fits (space_of goods_json).
Proof.
  eassert (space_of goods_json = _) as -> by (vm_compute; reflexivity).
  repeat first [split | apply Forall_cons; split | apply Forall_nil_2];
    unfold in_uint32, in_int32; simpl; lia.
Qed.

Lemma deploy_scans : scans_succeed (W := gmap string string * Servers).
Proof. intros w _. by eexists. Qed.
Lemma deploy_puts : puts_decided (W := gmap string string * Servers).
Proof. by intros k v w e _ _. Qed.

(** The two servers of a space that was created hold it. *)
Lemma stored_spaces_run_witness :
  (deploy_create goods_request deploy_start).1 = Some (0, "success") ∧
  space_addrs (space_of goods_json) = ["10.0.0.3:8081"; "10.0.0.1:8081"] ∧
  Forall (λ p, Forall (λ r,
      life_rel (Holds (DbName (space_of goods_json)) (SpaceName (space_of goods_json)))
        (server deploy_goods (replica_addr r)))
    (elems (Replicas p))) (elems (Partitions (space_of goods_json))).
Proof.
  split; [vm_compute; reflexivity|]. split; [vm_compute; reflexivity|].
  apply Forall_forall. intros p Hp. apply Forall_forall. intros r Hr.
  exact (proj2 (stored_spaces_run deploy_goods (key_of goods_request) goods_json deploy_scans
    deploy_puts deploy_goods_reached (space_key_is_key _ _) goods_stored goods_fits p r Hp Hr)).
Defined.

Definition delete_goods : DeleteSpaceRequest := mkDeleteSpaceRequest "shop_db" "goods_1".

(** After the deletion both servers are free. *)
Lemma deleted_space_frees_witness :
  let result := deleteSpace_body delete_goods deploy_goods in
  result.1 = Some (0, "success") ∧
  Forall (λ a, life_rel Free (server result.2 a)) ["10.0.0.3:8081"; "10.0.0.1:8081"].
Proof.
  intros result. assert (result.1 = Some (0, "success")) as E by (vm_compute; reflexivity).
  split; [exact E|].
  destruct (deleted_space_frees delete_goods deploy_goods result.2 deploy_scans
    deploy_goods_reached I) as (_ & v & Hv & HF & _).
  { rewrite <-E. apply surjective_pairing. }
  change (deploy_goods.1 !! key_of goods_request = Some v) in Hv.
  rewrite goods_stored in Hv. apply (inj Some) in Hv as <-.
  apply Forall_forall. intros a Ha. apply HF. revert Ha.
  assert (space_addrs (space_of goods_json) = ["10.0.0.3:8081"; "10.0.0.1:8081"]) as ->
    by (vm_compute; reflexivity). done.
Defined.

(** The same environment where an etcd write of a space takes effect but is
    reported as failed, as after a timeout. *)
Definition with_late_puts {V} (env : MasterEnv V) : MasterEnv V := {|
  cli_Put k v w :=
    let '(e, w') := cli_Put k v w in
    (if String.prefix SpacesMataPrefix k then Some "context deadline exceeded" else e, w');
  cli_PutLease := cli_PutLease; cli_Get := cli_Get; cli_GetPrefix := cli_GetPrefix;
  cli_Delete := cli_Delete; cli_Grant := cli_Grant; cli_CreateTxn := cli_CreateTxn; cli_STM := cli_STM;
  session_New := session_New; mutex_TryLock := mutex_TryLock; mutex_Unlock := mutex_Unlock;
  session_Close := session_Close; http_NewRequest := http_NewRequest; http_Do := http_Do;
  time_Now := time_Now; time_Sleep := time_Sleep; range_map := λ A, range_map;
  schedule := schedule; json_error := json_error
|}.

(** The hypothesis [puts_decided] is needed: after a write whose outcome the
    master does not know, it removes the space from the servers, and the entry
    that is in etcd all the same names two servers that are free. *)
Theorem late_write_leaves_space_without_servers :
  let result := @createSpace_body _ (with_late_puts deploy_env) (ApiSpaceToInnerSpace goods_request)
    deploy_start in
  fst <$> result.1 = Some 100 ∧
  space_addrs (space_of (default "" (result.2.1 !! key_of goods_request))) =
    ["10.0.0.3:8081"; "10.0.0.1:8081"] ∧
  Forall (λ a, life_rel Free (server result.2 a)) ["10.0.0.3:8081"; "10.0.0.1:8081"].
Proof.
  intros result. split; [vm_compute; reflexivity|]. split; [vm_compute; reflexivity|].
  repeat constructor; vm_compute; reflexivity.
Qed.
